(** * mysh: a small interactive shell (src/mysh.c)

    A shallow embedding of the shell over a small model of the operating
    system (descriptor tables, pipes, files, fork/exec/wait, standard
    input): the line parser [parse_input_and_exec] with the executors and
    pipe launchers it calls, and the interactive loop around it ([main],
    [print_prompt], [get_input], [init_shell], [exit_shell]).  The
    definitions come first; the properties of the parser that the
    specification states follow, and then further properties of the rest
    of the shell. *)

From Stdlib Require Import ZArith Ascii Strings.Byte.
From stdpp Require Import gmap strings list fin_maps.

Local Open Scope string_scope.
Local Open Scope list_scope.
Local Open Scope nat_scope.

(** ** Shell constants (the #define block of mysh.c) *)

Definition MAX_INPUT : nat := 4096.
Definition MAX_ARGS : nat := 10.
Definition COMMAND_SEPARATOR : string := " ".
Definition EXEC_SUCCESS : Z := 0.
Definition EXEC_FAILURE : Z := (-1)%Z.
Definition EXIT_FAILURE : Z := 1%Z.

(** The redirect modes: REG_CMD 0, INPUT 1, OUTPUT 2, OUTPUT_APPEND 3, PIPE 4. *)
Inductive mode : Type := REG_CMD | INPUT | OUTPUT | OUTPUT_APPEND | PIPE.

Definition mode_code (m : mode) : Z :=
  match m with
  | REG_CMD => 0 | INPUT => 1 | OUTPUT => 2 | OUTPUT_APPEND => 3 | PIPE => 4
  end%Z.

Global Instance mode_eq_dec : EqDecision mode.
Proof. solve_decision. Defined.

Definition is_output (m : mode) : bool :=
  match m with OUTPUT | OUTPUT_APPEND => true | _ => false end.

(** open(2) flags, with their Linux values, combined with bitwise or. *)
Definition O_RDONLY : Z := 0.
Definition O_WRONLY : Z := 1.
Definition O_ACCMODE : Z := 3.
Definition O_CREAT : Z := 64.
Definition O_TRUNC : Z := 512.
Definition O_APPEND : Z := 1024.

Definition STDIN_FILENO : nat := 0.
Definition STDOUT_FILENO : nat := 1.

Definition has_flag (flags f : Z) : bool := negb (Z.land flags f =? 0)%Z.
Definition writable (flags : Z) : bool := negb (Z.land flags O_ACCMODE =? O_RDONLY)%Z.

(** ** The operating system as the shell sees it *)

Inductive End : Type := Rd | Wr.

(** What a descriptor refers to. *)
Inductive Desc : Type :=
| DTerm                                  (* the controlling terminal *)
| DPipe (id : nat) (e : End)             (* one end of the pipe number [id] *)
| DFile (path : string) (flags : Z).     (* an open file and its open flags *)

Global Instance End_eq_dec : EqDecision End.
Proof. solve_decision. Defined.
Global Instance Desc_eq_dec : EqDecision Desc.
Proof. solve_decision. Defined.

(** What one process did, in order. *)
Inductive Event : Type :=
| EPrint (s : string)                          (* printf *)
| EPerror (s : string)                         (* perror, fprintf(stderr) *)
| EPipe (id r w : nat)                         (* pipe() gave descriptors r, w *)
| EOpen (path : string) (flags : Z) (fd : nat) (* open() gave fd *)
| EDup2 (oldfd newfd : nat)
| EClose (fd : nat) (d : Desc)
| EFork (pid : nat)
| EWait
| EExec (prog : string) (argv : list string) (out : list byte)
                                               (* execvp succeeded; the program
                                                  wrote [out] to its stdout *)
| EExecFail (prog : option string) (argv : list string).

(** A terminated child, as the parent's world remembers it. *)
Record Child : Type := mkChild {
  c_pid : nat;
  c_inherited : gmap nat Desc;    (* descriptor table at fork *)
  c_trace : list Event;           (* what the child did *)
  c_fds : gmap nat Desc;          (* descriptor table when it exec'ed or exited *)
  c_status : option Z             (* exit status; None: killed by a signal *)
}.

(** The state of one process together with the file system it shares and the
    answers of the environment: [w_env t] says whether the resource request
    (pipe, fork, open) made at time [t] is granted, [w_run t] what the program
    exec'ed at time [t] writes to its standard output (None: execvp fails). *)
Record World : Type := mkWorld {
  w_fds : gmap nat Desc;
  w_files : gmap string (list byte);
  w_npipes : nat;
  w_children : list Child;
  w_trace : list Event;
  w_clock : nat;
  w_env : nat → bool;
  w_run : nat → option (list byte)
}.

Definition set_fds (t : gmap nat Desc) (w : World) : World :=
  mkWorld t (w_files w) (w_npipes w) (w_children w) (w_trace w) (w_clock w) (w_env w) (w_run w).
Definition set_files (fs : gmap string (list byte)) (w : World) : World :=
  mkWorld (w_fds w) fs (w_npipes w) (w_children w) (w_trace w) (w_clock w) (w_env w) (w_run w).
Definition log (e : Event) (w : World) : World :=
  mkWorld (w_fds w) (w_files w) (w_npipes w) (w_children w) (w_trace w ++ [e]) (w_clock w) (w_env w) (w_run w).
Definition tick (w : World) : World :=
  mkWorld (w_fds w) (w_files w) (w_npipes w) (w_children w) (w_trace w) (S (w_clock w)) (w_env w) (w_run w).
Definition new_pipe (w : World) : World :=
  mkWorld (w_fds w) (w_files w) (S (w_npipes w)) (w_children w) (w_trace w) (w_clock w) (w_env w) (w_run w).

(** A computation of a process: it returns, or the process ends (exit, or a
    successful execvp followed by the program's own exit), or it accesses an
    array out of bounds, or it is killed by a signal inside a library call
    (execvp on a NULL file name); [Killed w] keeps the state of the process
    at that moment. *)
Inductive Outcome (A : Type) : Type :=
| Ret (a : A) (w : World)
| Exit (status : Z) (w : World)
| Fault
| Killed (w : World).
Arguments Ret {A} a w.
Arguments Exit {A} status w.
Arguments Fault {A}.
Arguments Killed {A} w.

Definition M (A : Type) : Type := World → Outcome A.

Definition ret {A} (a : A) : M A := fun w => Ret a w.
Definition bind {A B} (m : M A) (k : A → M B) : M B :=
  fun w => match m w with
           | Ret a w' => k a w'
           | Exit s w' => Exit s w'
           | Fault => Fault
           | Killed w' => Killed w'
           end.

Notation "'let*' x := c1 'in' c2" := (bind c1 (fun x => c2))
  (at level 10, x pattern, c1 at level 100, c2 at level 200).
Notation "c1 ;;; c2" := (bind c1 (fun _ => c2))
  (at level 100, c2 at level 200, right associativity).

Definition fault {A} : M A := fun _ => Fault.
Definition sys_exit {A} (status : Z) : M A := fun w => Exit status w.
Definition printf (s : string) : M unit := fun w => Ret tt (log (EPrint s) w).
Definition perror (s : string) : M unit := fun w => Ret tt (log (EPerror s) w).

(** The lowest descriptor number that is not open (POSIX allocation rule). *)
Fixpoint first_free (fuel n : nat) (t : gmap nat Desc) : nat :=
  match fuel with
  | O => n
  | S fuel' => match t !! n with
               | Some _ => first_free fuel' (S n) (delete n t)
               | None => n
               end
  end.
Definition lowest_free (t : gmap nat Desc) : nat := first_free (size t) 0 t.

(** open(2) on the file system: the file must exist unless O_CREAT is given;
    O_TRUNC empties a file opened for writing. *)
Definition open_file (p : string) (flags : Z) (fs : gmap string (list byte))
  : option (gmap string (list byte)) :=
  match fs !! p with
  | Some _ => Some (if has_flag flags O_TRUNC && writable flags then <[p := []]> fs else fs)
  | None => if has_flag flags O_CREAT then Some (<[p := []]> fs) else None
  end.

(** A program writes [out] through descriptor [d] (fresh open file
    description, offset 0, or end of file with O_APPEND). *)
Definition write_out (d : Desc) (out : list byte) (fs : gmap string (list byte))
  : gmap string (list byte) :=
  match d with
  | DFile p flags =>
      if writable flags then
        match fs !! p with
        | Some old => <[p := if has_flag flags O_APPEND then (old ++ out)%list
                             else (out ++ drop (length out) old)%list]> fs
        | None => fs
        end
      else fs
  | _ => fs
  end.

Definition sys_pipe : M (option (nat * nat)) := fun w =>
  if w_env w (w_clock w) then
    let id := w_npipes w in
    let r := lowest_free (w_fds w) in
    let t1 := <[r := DPipe id Rd]> (w_fds w) in
    let wr := lowest_free t1 in
    Ret (Some (r, wr))
        (log (EPipe id r wr) (new_pipe (set_fds (<[wr := DPipe id Wr]> t1) (tick w))))
  else Ret None (tick w).

Definition sys_close (fd : nat) : M bool := fun w =>
  match w_fds w !! fd with
  | Some d => Ret true (log (EClose fd d) (set_fds (delete fd (w_fds w)) w))
  | None => Ret false w
  end.

Definition sys_dup2 (oldfd newfd : nat) : M bool := fun w =>
  match w_fds w !! oldfd with
  | Some d => Ret true (log (EDup2 oldfd newfd)
                          (if decide (oldfd = newfd) then w
                           else set_fds (<[newfd := d]> (w_fds w)) w))
  | None => Ret false w
  end.

Definition sys_open (path : option string) (flags : Z) : M (option nat) := fun w =>
  match path with
  | None => Ret None w
  | Some p =>
      if w_env w (w_clock w) then
        match open_file p flags (w_files w) with
        | Some fs =>
            let fd := lowest_free (w_fds w) in
            Ret (Some fd)
                (log (EOpen p flags fd)
                   (set_fds (<[fd := DFile p flags]> (w_fds w)) (set_files fs (tick w))))
        | None => Ret None (tick w)
        end
      else Ret None (tick w)
  end.

(** execvp(2): on success the image is replaced; the program writes its output
    to descriptor 1 and the process ends.  It returns only on failure.  Called
    with a NULL file name it dereferences the name, and the process is killed
    (SIGSEGV) before anything is looked up or written: it neither runs a
    program nor returns. *)
Definition sys_execvp (prog : option string) (argv : option (list string)) : M bool := fun w =>
  match argv with
  | None => Fault
  | Some args =>
      match prog with
      | None => Killed (log (EExecFail None args) (tick w))
      | Some p =>
          match w_run w (w_clock w) with
          | Some out =>
              let fs := match w_fds w !! STDOUT_FILENO with
                        | Some d => write_out d out (w_files w)
                        | None => w_files w
                        end in
              Exit 0 (log (EExec p args out) (set_files fs (tick w)))
          | None => Ret false (log (EExecFail (Some p) args) (tick w))
          end
      end
  end.

(** fork(2): the child runs [child] on a copy of the descriptor table; the
    parent blocks in wait() right after every fork of this program, so the
    child is run to its end here and remembered in [w_children].  The
    worlds describe programs that come to an end while the shell waits for
    them.  A stage that writes to a pipe of the shell does so only if its
    output fits in the pipe, because the shell holds both ends and forks
    the reader after wait has returned: the properties of pipelines assume
    that it fits ([fits_pipe]). *)
Definition child_world (w : World) : World :=
  mkWorld (w_fds w) (w_files w) (w_npipes w) [] [] (S (w_clock w)) (w_env w) (w_run w).

Definition reap (w : World) (status : option Z) (wc : World) : World :=
  let pid := length (w_children w) in
  mkWorld (w_fds w) (w_files wc) (w_npipes w)
          (w_children w ++ [mkChild pid (w_fds w) (w_trace wc) (w_fds wc) status])
          (w_trace w ++ [EFork pid]) (w_clock wc) (w_env w) (w_run w).

Definition sys_fork (child : M unit) : M (option nat) := fun w =>
  if w_env w (w_clock w) then
    match child (child_world w) with
    | Ret _ wc => Ret (Some (length (w_children w))) (reap w (Some 0%Z) wc)
    | Exit s wc => Ret (Some (length (w_children w))) (reap w (Some s) wc)
    | Fault => Ret (Some (length (w_children w))) (reap w None (child_world w))
    | Killed wc => Ret (Some (length (w_children w))) (reap w None wc)
    end
  else Ret None (tick w).

Definition sys_wait : M unit := fun w => Ret tt (log EWait w).

(** ** The program *)

(** A [char *argv[]] array: a slot holds a string or NULL.  Reading or
    writing outside the array is a [Fault]. *)
Abbreviation array := (list (option string)).

Definition store (a : array) (i : nat) (v : option string) : M array :=
  if decide (i < length a) then ret (<[i := v]> a) else fault.

Definition load (a : array) (i : nat) : M (option string) :=
  match a !! i with
  | Some v => ret v
  | None => fault
  end.

(** The strings of a NULL-terminated array, as execvp reads them; None when
    there is no NULL inside the array. *)
Fixpoint argv_of (a : array) : option (list string) :=
  match a with
  | [] => None
  | None :: _ => Some []
  | Some s :: rest => match argv_of rest with
                      | Some l => Some (s :: l)
                      | None => None
                      end
  end.

(** The array used where the source passes a NULL [command]. *)
Definition NULL_command : array := [].

Definition perror_exit {A} (cmd : string) : M A :=
  perror cmd ;;; sys_exit EXIT_FAILURE.

Definition execvp_and_handle_error (program : option string) (argv : array) : M unit :=
  let* ok := sys_execvp program (argv_of argv) in
  if ok then ret tt
  else perror (default "(null)" program +:+ " ") ;;; perror_exit "execvp()".

Definition close_pipes (pipe_fds : nat * nat) : M unit :=
  let* ok := sys_close (fst pipe_fds) in
  (if ok then ret tt else perror_exit "close()") ;;;
  let* ok := sys_close (snd pipe_fds) in
  if ok then ret tt else perror_exit "close()".

Definition save_command_copy : nat → nat → array → array → M array :=
  fix go (n i : nat) (dest command : array) : M array :=
    match n with
    | O => ret dest
    | S n' =>
        let* v := load command i in
        let* dest' := store dest i v in
        go n' (S i) dest' command
    end.

(** save_command: returns the new [dest] and the new [command]. *)
Definition save_command (dest command : array) (cmd_index : nat) : M (array * array) :=
  let* command := store command cmd_index None in
  let* dest := save_command_copy (S cmd_index) 0 dest command in
  let* command := store command 0 None in
  ret (dest, command).

Definition exec_command (m : mode) (command : array) (io_file_fd : nat) : M Z :=
  let* child_pid := sys_fork (
    (if decide (m ≠ REG_CMD) then
       let* redirect_fd :=
         (if decide (m = INPUT) then ret STDIN_FILENO
          else if decide (m = OUTPUT ∨ m = OUTPUT_APPEND) then ret STDOUT_FILENO
          else printf "Unsupported mode.\n" ;;; sys_exit EXIT_FAILURE) in
       let* ok := sys_dup2 io_file_fd redirect_fd in
       (if ok then ret tt else perror_exit "dup2()") ;;;
       let* ok := sys_close io_file_fd in
       if ok then ret tt else perror_exit "close()"
     else ret tt) ;;;
    let* program := load command 0 in
    execvp_and_handle_error program command) in
  match child_pid with
  | None => perror "fork()"
  | Some _ => sys_wait
  end ;;;
  ret EXEC_SUCCESS.

Definition redirect_io (m : mode) (command : array) (io_file : option string)
    (exec_redirection : bool) : M unit :=
  let flags := Z.lor O_WRONLY O_CREAT in
  if bool_decide (m = INPUT) && negb exec_redirection then ret tt
  else
    let flags :=
      if decide (m = INPUT) then O_RDONLY
      else if decide (m = OUTPUT) then Z.lor flags O_TRUNC
      else if decide (m = OUTPUT_APPEND) then Z.lor flags O_APPEND
      else flags in
    let* r := sys_open io_file flags in
    match r with
    | None => perror "open()"
    | Some io_file_fd =>
        (if exec_redirection then exec_command m command io_file_fd ;;; ret tt
         else ret tt) ;;;
        let* ok := sys_close io_file_fd in
        if ok then ret tt else perror "close()"
    end.

Definition output_flags_of (output_mode : mode) : Z :=
  if decide (output_mode = OUTPUT_APPEND) then Z.lor (Z.lor O_WRONLY O_CREAT) O_APPEND
  else Z.lor (Z.lor O_WRONLY O_CREAT) O_TRUNC.

Definition exec_redir_bothio (output_mode : mode) (command : array)
    (input_file output_file : option string) : M unit :=
  let* child_pid := sys_fork (
    let output_flags := output_flags_of output_mode in
    let* r := sys_open input_file O_RDONLY in
    match r with
    | None => perror_exit "open()"
    | Some input_fd =>
        let* r := sys_open output_file output_flags in
        match r with
        | None => perror_exit "open()"
        | Some output_fd =>
            let* ok := sys_dup2 input_fd STDIN_FILENO in
            (if ok then ret tt else perror_exit "dup2()") ;;;
            let* ok := sys_dup2 output_fd STDOUT_FILENO in
            (if ok then ret tt else perror_exit "dup2()") ;;;
            let* ok := sys_close input_fd in
            (if ok then ret tt else perror_exit "close()") ;;;
            let* ok := sys_close output_fd in
            (if ok then ret tt else perror_exit "close()") ;;;
            let* program := load command 0 in
            execvp_and_handle_error program command
        end
    end) in
  match child_pid with
  | None => perror "fork()"
  | Some _ => sys_wait
  end.

(** The pipe launchers return the content of [pipe_fds] when they return. *)
Definition input_pipe (pipe_cmd : array) : M (nat * nat) :=
  let* r := sys_pipe in
  match r with
  | None => perror_exit "pipe()"
  | Some pipe_fds =>
      let* child_pid := sys_fork (
        let* ok := sys_dup2 (snd pipe_fds) STDOUT_FILENO in
        (if ok then ret tt else perror_exit "dup2()") ;;;
        close_pipes pipe_fds ;;;
        let* program := load pipe_cmd 0 in
        execvp_and_handle_error program pipe_cmd) in
      match child_pid with
      | None => perror "fork()"
      | Some _ => sys_wait
      end ;;;
      ret pipe_fds
  end.

Definition inter_pipe (pipe_fds : nat * nat) (pipe_cmd : array) : M (nat * nat) :=
  let input_pipe_fds := pipe_fds in
  let* r := sys_pipe in
  match r with
  | None => perror_exit "pipe()"
  | Some pipe_fds =>
      let* child_pid := sys_fork (
        let* ok := sys_dup2 (fst input_pipe_fds) STDIN_FILENO in
        (if ok then ret tt else perror_exit "dup2()") ;;;
        let* ok := sys_dup2 (snd pipe_fds) STDOUT_FILENO in
        (if ok then ret tt else perror_exit "dup2()") ;;;
        close_pipes input_pipe_fds ;;;
        close_pipes pipe_fds ;;;
        let* program := load pipe_cmd 0 in
        execvp_and_handle_error program pipe_cmd) in
      match child_pid with
      | None => perror "fork()"
      | Some _ => close_pipes input_pipe_fds ;;; sys_wait
      end ;;;
      ret pipe_fds
  end.

Definition output_pipe (pipe_fds : nat * nat) (pipe_cmd : array) : M unit :=
  let* child_pid := sys_fork (
    let* ok := sys_dup2 (fst pipe_fds) STDIN_FILENO in
    (if ok then ret tt else perror_exit "dup2()") ;;;
    close_pipes pipe_fds ;;;
    let* program := load pipe_cmd 0 in
    execvp_and_handle_error program pipe_cmd) in
  match child_pid with
  | None => perror "fork()"
  | Some _ => close_pipes pipe_fds ;;; sys_wait
  end.

Definition input_pipe_redirect (input_cmd : array) (input_file : option string)
  : M (nat * nat) :=
  let* r := sys_pipe in
  match r with
  | None => perror_exit "pipe()"
  | Some pipe_fds =>
      let* child_pid := sys_fork (
        let* r := sys_open input_file O_RDONLY in
        match r with
        | None => perror_exit "open()"
        | Some input_fd =>
            let* ok := sys_dup2 input_fd STDIN_FILENO in
            (if ok then ret tt else perror_exit "dup2()") ;;;
            let* ok := sys_dup2 (snd pipe_fds) STDOUT_FILENO in
            (if ok then ret tt else perror_exit "dup2()") ;;;
            close_pipes pipe_fds ;;;
            let* program := load input_cmd 0 in
            execvp_and_handle_error program input_cmd
        end) in
      match child_pid with
      | None => perror "fork()"
      | Some _ => sys_wait
      end ;;;
      ret pipe_fds
  end.

Definition output_pipe_redirect (pipe_fds : nat * nat) (output_mode : mode)
    (output_cmd : array) (output_file : option string) : M unit :=
  let* child_pid := sys_fork (
    let flags := output_flags_of output_mode in
    let* r := sys_open output_file flags in
    match r with
    | None => perror_exit "open()"
    | Some output_fd =>
        let* ok := sys_dup2 (fst pipe_fds) STDIN_FILENO in
        (if ok then ret tt else perror_exit "dup2()") ;;;
        let* ok := sys_dup2 output_fd STDOUT_FILENO in
        (if ok then ret tt else perror_exit "dup2()") ;;;
        close_pipes pipe_fds ;;;
        let* program := load output_cmd 0 in
        execvp_and_handle_error program output_cmd ;;;
        let* ok := sys_close output_fd in
        if ok then ret tt else perror_exit "close()"
    end) in
  match child_pid with
  | None => perror "fork()"
  | Some _ => close_pipes pipe_fds ;;; sys_wait
  end.

(** The local variables of parse_input_and_exec. *)
Record scan : Type := mkScan {
  command : array;
  redirect_cmd : array;
  input_file : option string;
  output_before_pipe : bool;
  cmd_index : nat;
  redirect_mode : mode;
  pipe_fds : nat * nat
}.

(** The state at entry; [garbage] is the indeterminate content of the
    uninitialised [pipe_fds]. *)
Definition scan_init (garbage : nat * nat) : scan :=
  mkScan (replicate (MAX_ARGS + 1) None) (replicate (MAX_ARGS + 1) None)
         None false 0 REG_CMD garbage.

(** One iteration of the loop either goes on with new locals ([inl]) or
    leaves the function with a return code ([inr]). *)
Definition go_on (st : scan) : M (scan + Z) := ret (inl st).
Definition leave_with (code : Z) : M (scan + Z) := ret (inr code).

(** The loop body for a token that is not NULL. *)
Definition scan_token (token : string) (st : scan) : M (scan + Z) :=
  if String.eqb token "<" then
    if decide (redirect_mode st ≠ REG_CMD) then
      printf "Cannot perform redirection before input.\n" ;;; leave_with EXEC_FAILURE
    else
      let* dc := save_command (redirect_cmd st) (command st) (cmd_index st) in
      go_on (mkScan (snd dc) (fst dc) (input_file st) (output_before_pipe st)
                    0 INPUT (pipe_fds st))
  else if String.eqb token ">" || String.eqb token ">>" then
    let output_mode := if String.eqb token ">>" then OUTPUT_APPEND else OUTPUT in
    if decide (redirect_mode st = INPUT) then
      let* c0 := load (command st) 0 in
      match c0 with
      | None => printf "No file for input redirection." ;;; leave_with EXEC_FAILURE
      | Some _ =>
          go_on (mkScan (command st) (redirect_cmd st) c0 (output_before_pipe st)
                        0 output_mode (pipe_fds st))
      end
    else if decide (redirect_mode st = OUTPUT ∨ redirect_mode st = OUTPUT_APPEND) then
      let* c0 := load (command st) 0 in
      match c0 with
      | None => printf "No file for output redirection." ;;; leave_with EXEC_FAILURE
      | Some _ =>
          redirect_io (redirect_mode st) NULL_command c0 false ;;;
          go_on (mkScan (command st) (redirect_cmd st) (input_file st)
                        (output_before_pipe st) 0 output_mode (pipe_fds st))
      end
    else
      let obp := if decide (redirect_mode st = PIPE) then true
                 else output_before_pipe st in
      let* dc := save_command (redirect_cmd st) (command st) (cmd_index st) in
      go_on (mkScan (snd dc) (fst dc) (input_file st) obp 0 output_mode (pipe_fds st))
  else if String.eqb token "|" then
    if decide (redirect_mode st = OUTPUT ∨ redirect_mode st = OUTPUT_APPEND) then
      printf "Cannot perform output operation before piping." ;;; leave_with EXEC_FAILURE
    else if decide (redirect_mode st = PIPE) then
      let* c0 := load (command st) 0 in
      match c0 with
      | None => printf "Missing program to pipe to.\n" ;;; leave_with EXEC_FAILURE
      | Some _ =>
          let* cmd := store (command st) (cmd_index st) None in
          let* fds := inter_pipe (pipe_fds st) cmd in
          go_on (mkScan cmd (redirect_cmd st) (input_file st) (output_before_pipe st)
                        0 PIPE fds)
      end
    else if decide (redirect_mode st = INPUT) then
      let* c0 := load (command st) 0 in
      let* fds := input_pipe_redirect (redirect_cmd st) c0 in
      go_on (mkScan (command st) (redirect_cmd st) (input_file st)
                    (output_before_pipe st) 0 PIPE fds)
    else
      let* cmd := store (command st) (cmd_index st) None in
      let* fds := input_pipe cmd in
      go_on (mkScan cmd (redirect_cmd st) (input_file st) (output_before_pipe st)
                    0 PIPE fds)
  else
    let* cmd := store (command st) (cmd_index st) (Some token) in
    go_on (mkScan cmd (redirect_cmd st) (input_file st) (output_before_pipe st)
                  (S (cmd_index st)) (redirect_mode st) (pipe_fds st)).

(** The for loop: [n] iterations are left, [toks] are the tokens strtok has
    yet to return. *)
Fixpoint scan_loop (n : nat) (toks : list string) (st : scan) : M (scan + Z) :=
  match n with
  | O => go_on st
  | S n' =>
      if decide (MAX_ARGS + 1 ≤ cmd_index st) then
        printf "Too many args.\n" ;;; leave_with EXEC_FAILURE
      else
        match toks with
        | [] =>
            let* cmd := store (command st) (cmd_index st) None in
            go_on (mkScan cmd (redirect_cmd st) (input_file st) (output_before_pipe st)
                          (cmd_index st) (redirect_mode st) (pipe_fds st))
        | token :: rest =>
            let* r := scan_token token st in
            match r with
            | inl st' => scan_loop n' rest st'
            | inr code => leave_with code
            end
        end
  end.

(** The code after the loop. *)
Definition finish (st : scan) : M Z :=
  if decide (redirect_mode st = REG_CMD) then
    exec_command REG_CMD (command st) 0 ;;; ret EXEC_SUCCESS
  else
    let* c0 := load (command st) 0 in
    match c0 with
    | None => printf "No file for I/O redirection.\n" ;;; ret EXEC_FAILURE
    | Some _ =>
        (if decide (redirect_mode st = INPUT) then
           redirect_io INPUT (redirect_cmd st) c0 true
         else if decide (redirect_mode st = OUTPUT ∨ redirect_mode st = OUTPUT_APPEND) then
           match input_file st with
           | Some _ =>
               exec_redir_bothio (redirect_mode st) (redirect_cmd st) (input_file st) c0
           | None =>
               if output_before_pipe st then
                 output_pipe_redirect (pipe_fds st) (redirect_mode st) (redirect_cmd st) c0
               else redirect_io (redirect_mode st) (redirect_cmd st) c0 true
           end
         else if decide (redirect_mode st = PIPE) then
           output_pipe (pipe_fds st) (command st)
         else ret tt) ;;;
        ret EXEC_SUCCESS
    end.

(** strtok: the maximal runs of characters that are not in [dlim]. *)
Fixpoint is_delim (dlim : string) (c : ascii) : bool :=
  match dlim with
  | EmptyString => false
  | String d rest => Ascii.eqb c d || is_delim rest c
  end.

Fixpoint strtok_from (dlim : string) (cur : string) (s : string) : list string :=
  match s with
  | EmptyString => if String.eqb cur "" then [] else [cur]
  | String c s' =>
      if is_delim dlim c then
        if String.eqb cur "" then strtok_from dlim "" s'
        else cur :: strtok_from dlim "" s'
      else strtok_from dlim (cur +:+ String c "") s'
  end.

Definition strtok (input dlim : string) : list string := strtok_from dlim "" input.

Definition parse_tokens (garbage : nat * nat) (toks : list string) : M Z :=
  let* r := scan_loop MAX_INPUT toks (scan_init garbage) in
  match r with
  | inl st => finish st
  | inr code => ret code
  end.

Definition parse_input_and_exec (garbage : nat * nat) (input dlim : string) : M Z :=
  parse_tokens garbage (strtok input dlim).

(** The world of a shell just started: the three standard descriptors on the
    terminal, a file system, no history. *)
Definition fresh_world (fs : gmap string (list byte)) (env : nat → bool)
    (run : nat → option (list byte)) : World :=
  mkWorld (<[0 := DTerm]> (<[1 := DTerm]> (<[2 := DTerm]> ∅))) fs 0 [] [] 0 env run.

Definition world0 : World := fresh_world ∅ (fun _ => true) (fun _ => Some []).

(** * Vocabulary of the properties *)

(** [spec m Q]: [m] accesses no array out of bounds, and whatever it
    returns satisfies [Q]. *)
Definition spec {A} (m : M A) (Q : A → Prop) : Prop :=
  ∀ w, match m w with
       | Ret a _ => Q a
       | Exit _ _ | Killed _ => True
       | Fault => False
       end.

Definition total_true {A} (_ : A) : Prop := True.

Definition scan_ok (st : scan) : Prop :=
  length (command st) = MAX_ARGS + 1 ∧
  length (redirect_cmd st) = MAX_ARGS + 1 ∧
  cmd_index st ≤ MAX_ARGS + 1.

Definition step_ok (r : scan + Z) : Prop :=
  match r with
  | inl st => scan_ok st
  | inr _ => True
  end.

(** [yields m Q]: whatever [m] returns satisfies [Q]. *)
Definition yields {A} (m : M A) (Q : A → Prop) : Prop :=
  ∀ w a w', m w = Ret a w' → Q a.

Definition is_operator (t : string) : bool :=
  String.eqb t "<" || String.eqb t ">" || String.eqb t ">>" || String.eqb t "|".

(** [reaches garbage w0 pre st w]: started in world [w0], the loop has
    consumed the tokens [pre] without leaving the function, and stands with
    locals [st] in world [w]. *)
Inductive reaches (garbage : nat * nat) (w0 : World)
  : list string → scan → World → Prop :=
| reaches_start : reaches garbage w0 [] (scan_init garbage) w0
| reaches_step pre token st w st' w' :
    reaches garbage w0 pre st w →
    cmd_index st < MAX_ARGS + 1 →
    scan_token token st w = Ret (inl st') w' →
    reaches garbage w0 (pre ++ [token]) st' w'.

Definition continues (r : scan + Z) : Prop :=
  match r with inl _ => True | inr _ => False end.

Definition saved (dest command : array) (idx : nat) : array :=
  take idx command ++ None :: drop (S idx) dest.

Definition not_regular (r : scan + Z) : Prop :=
  match r with
  | inl st => redirect_mode st ≠ REG_CMD
  | inr _ => True
  end.

(** The locals after the plain tokens [toks] have been stored. *)
Fixpoint after_plain (st : scan) (toks : list string) : scan :=
  match toks with
  | [] => st
  | t :: rest =>
      after_plain (mkScan (<[cmd_index st := Some t]> (command st)) (redirect_cmd st)
                          (input_file st) (output_before_pipe st)
                          (S (cmd_index st)) (redirect_mode st) (pipe_fds st)) rest
  end.

Definition printed (s : string) (w : World) : bool :=
  existsb (λ e, match e with EPrint s' => String.eqb s s' | _ => false end)
          (w_trace w).

(** What becomes of a child that calls execvp on [prog] with [args]. *)
Definition exec_outcome (prog : string) (args : list string) (cw : World) : Outcome unit :=
  match w_run cw (w_clock cw) with
  | Some out =>
      Exit 0 (log (EExec prog args out)
                (set_files (match w_fds cw !! STDOUT_FILENO with
                            | Some d => write_out d out (w_files cw)
                            | None => w_files cw
                            end) (tick cw)))
  | None =>
      Exit EXIT_FAILURE
           (log (EPerror "execvp()")
              (log (EPerror (prog +:+ " "))
                 (log (EExecFail (Some prog) args) (tick cw))))
  end.

Module EndOfLine.

(** The executors of the specification, section 4.1. *)
Inductive executor : Type :=
| SingleStage (cmd : array)                        (* no redirection *)
| SingleStageInput (cmd : array) (file : string)
| SingleStageOutput (m : mode) (cmd : array) (file : string)
| DualRedirection (m : mode) (cmd : array) (infile outfile : string)
| FinalStageOutput (fds : nat * nat) (m : mode) (cmd : array) (file : string)
| FinalStage (fds : nat * nat) (cmd : array).

(** The table of the specification: the mode at the end of the scan, then,
    for an output mode, whether an input file and whether output before a
    pipe were recorded; [file] is the token collected last. *)
Definition table (st : scan) (file : string) : executor :=
  match redirect_mode st with
  | REG_CMD => SingleStage (command st)
  | INPUT => SingleStageInput (redirect_cmd st) file
  | OUTPUT | OUTPUT_APPEND =>
      match input_file st with
      | Some infile =>
          DualRedirection (redirect_mode st) (redirect_cmd st) infile file
      | None =>
          if output_before_pipe st
          then FinalStageOutput (pipe_fds st) (redirect_mode st) (redirect_cmd st) file
          else SingleStageOutput (redirect_mode st) (redirect_cmd st) file
      end
  | PIPE => FinalStage (pipe_fds st) (command st)
  end.

(** The functions of mysh.c that are these executors. *)
Definition run (e : executor) : M unit :=
  match e with
  | SingleStage cmd => exec_command REG_CMD cmd 0 ;;; ret tt
  | SingleStageInput cmd file => redirect_io INPUT cmd (Some file) true
  | SingleStageOutput m cmd file => redirect_io m cmd (Some file) true
  | DualRedirection m cmd infile outfile =>
      exec_redir_bothio m cmd (Some infile) (Some outfile)
  | FinalStageOutput fds m cmd file => output_pipe_redirect fds m cmd (Some file)
  | FinalStage fds cmd => output_pipe fds cmd
  end.

End EndOfLine.

(** The flags of the three kinds of redirection. *)
Definition input_flags : Z := O_RDONLY.

Definition output_flags (m : mode) : Z :=
  match m with
  | OUTPUT_APPEND => Z.lor (Z.lor O_WRONLY O_CREAT) O_APPEND
  | _ => Z.lor (Z.lor O_WRONLY O_CREAT) O_TRUNC
  end.

(** The file system after open(file, output_flags m). *)
Definition opened_for_output (m : mode) (file : string)
    (fs : gmap string (list byte)) : gmap string (list byte) :=
  match m with
  | OUTPUT_APPEND => <[file := default [] (fs !! file)]> fs
  | _ => <[file := []]> fs
  end.

(** The file system after a command whose standard output was redirected to
    [file] in mode [m] has written [out]. *)
Definition after_output (m : mode) (file : string) (out : list byte)
    (fs : gmap string (list byte)) : gmap string (list byte) :=
  <[file := match m with
            | OUTPUT_APPEND => default [] (fs !! file) ++ out
            | _ => out
            end]> fs.

Definition output_mode_of (token : string) : mode :=
  if String.eqb token ">>" then OUTPUT_APPEND else OUTPUT.

(** The scan position after [cmd_toks op file]: a command, an output
    redirection operator and a file name. *)
Definition redirected (st : scan) (m : mode) (cmd_toks : list string)
    (prog file : string) : Prop :=
  redirect_mode st = m ∧ cmd_index st = 1 ∧
  command st !! 0 = Some (Some file) ∧
  redirect_cmd st !! 0 = Some (Some prog) ∧
  argv_of (redirect_cmd st) = Some cmd_toks ∧
  input_file st = None ∧ output_before_pipe st = false.

(** [opens S e]: if [e] is an open, its path and flags satisfy [S]. *)
Definition opens (S : string → Z → Prop) (e : Event) : Prop :=
  match e with
  | EOpen p flags _ => S p flags
  | _ => True
  end.

(** [opens_only S m]: every open made by [m], in this process or in a child
    it forks, satisfies [S]. *)
Definition opens_only {A} (S : string → Z → Prop) (m : M A) : Prop :=
  ∀ w,
    let post w' :=
      ∃ tr cs, w_trace w' = w_trace w ++ tr ∧
               w_children w' = w_children w ++ cs ∧
               Forall (opens S) tr ∧
               Forall (λ c, Forall (opens S) (c_trace c)) cs in
    match m w with
    | Ret _ w' => post w'
    | Exit _ w' => post w'
    | Killed w' => post w'
    | Fault => True
    end.

Definition oo_post (S : string → Z → Prop) (w w' : World) : Prop :=
  ∃ tr cs, w_trace w' = w_trace w ++ tr ∧
           w_children w' = w_children w ++ cs ∧
           Forall (opens S) tr ∧
           Forall (λ c, Forall (opens S) (c_trace c)) cs.

(** The flags of a redirection in mode [m]. *)
Definition flags_of (m : mode) : Z :=
  match m with
  | INPUT => O_RDONLY
  | _ => output_flags m
  end.

(** The three flag sets of the shell's redirections. *)
Definition redirection_flags (flags : Z) : Prop :=
  flags = O_RDONLY ∨
  flags = Z.lor (Z.lor O_WRONLY O_CREAT) O_TRUNC ∨
  flags = Z.lor (Z.lor O_WRONLY O_CREAT) O_APPEND.

Definition any_file (_ : string) (flags : Z) : Prop := redirection_flags flags.

(** A world whose programs write "a" on their first run and "b" afterwards. *)
Definition two_runs_world : World :=
  fresh_world ∅ (λ _, true)
    (λ t, if Nat.eqb t 2 then Some ["a"%byte] else Some ["b"%byte]).

Definition nothing_printed (w : World) : bool :=
  forallb (λ e, match e with EPrint _ => false | _ => true end) (w_trace w).

Definition first_events (w : World) : list (option Event) :=
  (λ c, head (c_trace c)) <$> w_children w.

(** The files a process opened, with the flags, in order. *)
Definition opened_files (tr : list Event) : list (string * Z) :=
  omap (λ e, match e with EOpen p flags _ => Some (p, flags) | _ => None end) tr.

(** How many times descriptor object [d] is closed in a trace. *)
Fixpoint closes (d : Desc) (tr : list Event) : nat :=
  match tr with
  | [] => 0
  | EClose _ d' :: rest => (if decide (d' = d) then 1 else 0) + closes d rest
  | _ :: rest => closes d rest
  end.

(** Whether the process got as far as calling execvp. *)
Definition reached_exec (tr : list Event) : bool :=
  existsb (λ e, match e with EExec _ _ _ | EExecFail _ _ => true | _ => false end) tr.

(** The environment grants every request. *)
Definition benign (w : World) : Prop := ∀ t, w_env w t = true.

(** Standard input and output are open. *)
Definition std_open (t : gmap nat Desc) : Prop :=
  is_Some (t !! STDIN_FILENO) ∧ is_Some (t !! STDOUT_FILENO).

(** The pipes of the table were created before pipe number [n]. *)
Definition pipes_before (n : nat) (t : gmap nat Desc) : Prop :=
  ∀ fd id e, t !! fd = Some (DPipe id e) → id < n.

(** A table with both ends of pipe [id] added. *)
Definition with_pipe (t : gmap nat Desc) (id r wr : nat) : gmap nat Desc :=
  <[wr := DPipe id Wr]> (<[r := DPipe id Rd]> t).

(** [evolves w w' fds np tr cs]: from [w] to [w'] the descriptor table
    became [fds], [np] pipes exist, the process did [tr] and forked [cs]. *)
Definition evolves (w w' : World) (fds : gmap nat Desc) (np : nat)
    (tr : list Event) (cs : list Child) : Prop :=
  w_fds w' = fds ∧ w_npipes w' = np ∧
  w_trace w' = w_trace w ++ tr ∧
  w_children w' = w_children w ++ cs ∧
  w_env w' = w_env w.

Definition child_trace_of (o : Outcome unit) : list Event :=
  match o with
  | Ret _ wc | Exit _ wc | Killed wc => w_trace wc
  | Fault => []
  end.

Definition no_closes (tr : list Event) : Prop := ∀ d, closes d tr = 0.

(** The end of every child: load command[0] and call execvp. *)
Definition exec_tail (cmd : array) : M unit :=
  let* program := load cmd 0 in execvp_and_handle_error program cmd.

(** The child of input_pipe. *)
Definition input_pipe_child (pipe_fds : nat * nat) (pipe_cmd : array) : M unit :=
  let* ok := sys_dup2 (snd pipe_fds) STDOUT_FILENO in
  (if ok then ret tt else perror_exit "dup2()") ;;;
  close_pipes pipe_fds ;;;
  let* program := load pipe_cmd 0 in
  execvp_and_handle_error program pipe_cmd.

(** The child of inter_pipe. *)
Definition inter_pipe_child (input_pipe_fds pipe_fds : nat * nat)
    (pipe_cmd : array) : M unit :=
  let* ok := sys_dup2 (fst input_pipe_fds) STDIN_FILENO in
  (if ok then ret tt else perror_exit "dup2()") ;;;
  let* ok := sys_dup2 (snd pipe_fds) STDOUT_FILENO in
  (if ok then ret tt else perror_exit "dup2()") ;;;
  close_pipes input_pipe_fds ;;;
  close_pipes pipe_fds ;;;
  let* program := load pipe_cmd 0 in
  execvp_and_handle_error program pipe_cmd.

(** The child of output_pipe. *)
Definition output_pipe_child (pipe_fds : nat * nat) (pipe_cmd : array) : M unit :=
  let* ok := sys_dup2 (fst pipe_fds) STDIN_FILENO in
  (if ok then ret tt else perror_exit "dup2()") ;;;
  close_pipes pipe_fds ;;;
  let* program := load pipe_cmd 0 in
  execvp_and_handle_error program pipe_cmd.

(** The child of input_pipe_redirect. *)
Definition input_pipe_redirect_child (pipe_fds : nat * nat) (input_cmd : array)
    (input_file : option string) : M unit :=
  let* r := sys_open input_file O_RDONLY in
  match r with
  | None => perror_exit "open()"
  | Some input_fd =>
      let* ok := sys_dup2 input_fd STDIN_FILENO in
      (if ok then ret tt else perror_exit "dup2()") ;;;
      let* ok := sys_dup2 (snd pipe_fds) STDOUT_FILENO in
      (if ok then ret tt else perror_exit "dup2()") ;;;
      close_pipes pipe_fds ;;;
      let* program := load input_cmd 0 in
      execvp_and_handle_error program input_cmd
  end.

(** The child of output_pipe_redirect. *)
Definition output_pipe_redirect_child (pipe_fds : nat * nat) (output_mode : mode)
    (output_cmd : array) (output_file : option string) : M unit :=
  let flags := output_flags_of output_mode in
  let* r := sys_open output_file flags in
  match r with
  | None => perror_exit "open()"
  | Some output_fd =>
      let* ok := sys_dup2 (fst pipe_fds) STDIN_FILENO in
      (if ok then ret tt else perror_exit "dup2()") ;;;
      let* ok := sys_dup2 output_fd STDOUT_FILENO in
      (if ok then ret tt else perror_exit "dup2()") ;;;
      close_pipes pipe_fds ;;;
      let* program := load output_cmd 0 in
      execvp_and_handle_error program output_cmd ;;;
      let* ok := sys_close output_fd in
      if ok then ret tt else perror_exit "close()"
  end.

(** A child either ends before execvp, or closes [r] and [wr] once each and
    nothing else. *)
Definition closes_pair (r wr : nat) (d1 d2 : Desc) (tr : list Event) : Prop :=
  reached_exec tr = false ∨
  ∃ pre rest, tr = pre ++ [EClose r d1; EClose wr d2] ++ rest ∧
              no_closes pre ∧ no_closes rest.

Definition no_pipe_closes (tr : list Event) : Prop :=
  ∀ id e, closes (DPipe id e) tr = 0.

(** A child is in order when it has closed, once each, the descriptors it
    inherited of the pipes created since pipe number [n0], provided it got
    as far as execvp. *)
Definition child_ok (n0 : nat) (c : Child) : Prop :=
  ∀ fd id e,
    c_inherited c !! fd = Some (DPipe id e) → n0 ≤ id →
    reached_exec (c_trace c) = true →
    closes (DPipe id e) (c_trace c) = 1.

(** Whether a pipe end pair is live in the locals. *)
Definition live (st : scan) : bool :=
  match redirect_mode st with
  | PIPE => true
  | OUTPUT | OUTPUT_APPEND => output_before_pipe st
  | _ => false
  end.

(** What the modes say about the recorded input file and flag. *)
Definition mode_inv (st : scan) : Prop :=
  match redirect_mode st with
  | OUTPUT | OUTPUT_APPEND => output_before_pipe st = true → input_file st = None
  | _ => output_before_pipe st = false ∧ input_file st = None
  end.

(** The closes of the pipes number [n0] and later: those before [done_] are
    closed once per end, the others not at all. *)
Definition closes_done (n0 done_ : nat) (tr : list Event) : Prop :=
  ∀ id e, n0 ≤ id → closes (DPipe id e) tr = if decide (id < done_) then 1 else 0.

Definition pipe_state (w0 : World) (st : scan) (w : World) : Prop :=
  mode_inv st ∧
  ∃ tr cs,
    w_trace w = w_trace w0 ++ tr ∧
    w_children w = w_children w0 ++ cs ∧
    w_env w = w_env w0 ∧
    Forall (child_ok (w_npipes w0)) cs ∧
    w_npipes w0 ≤ w_npipes w ∧
    if live st then
      ∃ id, w_npipes w = S id ∧ w_npipes w0 ≤ id ∧
            w_fds w = with_pipe (w_fds w0) id (fst (pipe_fds st)) (snd (pipe_fds st)) ∧
            w_fds w0 !! fst (pipe_fds st) = None ∧
            w_fds w0 !! snd (pipe_fds st) = None ∧
            NoDup [fst (pipe_fds st); snd (pipe_fds st); STDIN_FILENO; STDOUT_FILENO] ∧
            closes_done (w_npipes w0) id tr
    else
      w_fds w = w_fds w0 ∧ closes_done (w_npipes w0) (w_npipes w) tr.

Definition fails (r : scan + Z) : Prop :=
  match r with
  | inl _ => True
  | inr code => code = EXEC_FAILURE
  end.

(** After the line: the table is the one before the line, the pipes created
    for the line are closed once per end, the children are in order. *)
Definition pipes_settled (w0 w' : World) : Prop :=
  w_fds w' = w_fds w0 ∧
  ∃ tr cs,
    w_trace w' = w_trace w0 ++ tr ∧
    w_children w' = w_children w0 ++ cs ∧
    closes_done (w_npipes w0) (w_npipes w') tr ∧
    Forall (child_ok (w_npipes w0)) cs.

(** The loop run on [toks] from given locals, as long as it goes on. *)
Fixpoint run_prefix (toks : list string) (st : scan) (w : World)
  : option (scan * World) :=
  match toks with
  | [] => Some (st, w)
  | token :: rest =>
      if decide (cmd_index st < MAX_ARGS + 1) then
        match scan_token token st w with
        | Ret (inl st') w' => run_prefix rest st' w'
        | _ => None
        end
      else None
  end.

(** The locals after scanning [toks] in [world0]. *)
Definition position_after (toks : list string) : scan :=
  match run_prefix toks (scan_init (0, 0)) world0 with
  | Some (st, _) => st
  | None => scan_init (0, 0)
  end.

Definition after_cmd_gt_f : scan :=
  Eval vm_compute in position_after ["cmd"; ">"; "f"].

Definition after_cmd_lt_in : scan :=
  Eval vm_compute in position_after ["cmd"; "<"; "in"].

(** * The rest of the shell and the vocabulary of its properties *)

(** ** The interactive loop: main, get_input, print_prompt *)

Definition MAX_PATH : nat := 1024.
Definition EXIT_SUCCESS : Z := 0.

Definition newline : ascii := "010"%char.
Definition NUL : ascii := "000"%char.

(** What the shell process gets from outside the command lines' effects:
    the bytes still to come on standard input, whether the read that finds
    them exhausted fails with an error (rather than end of file), and the
    answers of getenv("USER"), gethostname and getcwd (None: the call
    fails).  The programs the shell runs are taken not to read the shell's
    standard input. *)
Record Console : Type := mkConsole {
  k_stdin : string;
  k_stdin_error : bool;
  k_user : option string;
  k_hostname : option string;
  k_cwd : option string
}.

Definition set_stdin (s : string) (k : Console) : Console :=
  mkConsole s (k_stdin_error k) (k_user k) (k_hostname k) (k_cwd k).


Definition exit_shell {A} : M A :=
  printf "\n" ;;;
  printf "...Exiting shell\n" ;;;
  printf "Exited shell!\n\n" ;;;
  sys_exit EXIT_SUCCESS.

(** gethostname(name, len) and getcwd(buf, size) fail when the answer and its
    terminating NUL do not fit. *)
Definition gethostname (len : nat) (k : Console) : option string :=
  match k_hostname k with
  | Some h => if decide (String.length h < len) then Some h else None
  | None => None
  end.

Definition getcwd (size : nat) (k : Console) : option string :=
  match k_cwd k with
  | Some p => if decide (String.length p < size) then Some p else None
  | None => None
  end.

(** strrchr(s, c): the part of [s] from the last [c] on; None for NULL. *)
Fixpoint strrchr (s : string) (c : ascii) : option string :=
  match s with
  | EmptyString => None
  | String a s' =>
      match strrchr s' c with
      | Some r => Some r
      | None => if Ascii.eqb a c then Some s else None
      end
  end.

Definition print_prompt (k : Console) : M unit :=
  let username := k_user k in
  let hostname := gethostname (MAX_PATH + 1) k in
  let cdir_path := getcwd (MAX_PATH + 1) k in
  let print_basic_prompt := false in
  let print_basic_prompt := if username is None then true else print_basic_prompt in
  let print_basic_prompt := if hostname is None then true else print_basic_prompt in
  let print_basic_prompt := if cdir_path is None then true else print_basic_prompt in
  if print_basic_prompt then printf "SHELL$ "
  else
    (* cdirectory = strrchr(cdir_path, '/') + 1 *)
    match strrchr (default "" cdir_path) "/" with
    | Some (String _ cdirectory) =>
        printf ("[" +:+ default "" username +:+ "@" +:+ default "" hostname +:+ " "
                +:+ cdirectory +:+ "] JSHELL$ ")
    | _ => fault
    end.

(** fgets(buf, size, stdin): at most [size - 1] bytes, up to and including the
    first newline; NULL when nothing is left to read. *)
Fixpoint read_line (n : nat) (s : string) : string * string :=
  match n, s with
  | S n', String c s' =>
      if Ascii.eqb c newline then (String c "", s')
      else let (l, r) := read_line n' s' in (String c l, r)
  | _, _ => ("", s)
  end.

Definition fgets (size : nat) (k : Console) : option string * Console :=
  match k_stdin k with
  | EmptyString => (None, k)
  | _ => let (l, r) := read_line (size - 1) (k_stdin k) in (Some l, set_stdin r k)
  end.

(** The C string that starts a buffer: its bytes before the first NUL. *)
Fixpoint c_str (buf : string) : string :=
  match buf with
  | EmptyString => EmptyString
  | String c s => if Ascii.eqb c NUL then EmptyString else String c (c_str s)
  end.

(** buf[i] = c *)
Fixpoint string_set (i : nat) (c : ascii) (buf : string) : string :=
  match buf, i with
  | EmptyString, _ => EmptyString
  | String _ s, O => String c s
  | String a s, S i' => String a (string_set i' c s)
  end.

(** get_input: returns the C string left in [buf]; [buf] holds the bytes
    fgets stored, before the NUL it appended. *)
Definition get_input (k : Console) : M (string * Console) :=
  let (r, k') := fgets MAX_INPUT k in
  match r with
  | None =>
      if negb (k_stdin_error k) (* feof(stdin) *) then exit_shell
      else perror_exit "get_input()"
  | Some buf =>
      (if String.eqb (c_str buf) ("exit" +:+ String newline "") then exit_shell
       else ret tt) ;;;
      match String.length (c_str buf) with
      | O => fault     (* last_byte = strlen(buf) - 1 is SIZE_MAX *)
      | S last_byte =>
          match String.get last_byte buf with
          | Some c =>
              if Ascii.eqb c newline
              then ret (c_str (string_set last_byte NUL buf), k')
              else ret (c_str buf, k')
          | None => fault
          end
      end
  end.




(** Whether [c] occurs in [s]. *)
Fixpoint has_char (c : ascii) (s : string) : bool :=
  match s with
  | EmptyString => false
  | String a s' => Ascii.eqb a c || has_char c s'
  end.




(** A terminal session of user [user] on [host] in /home/user, with
    [input] still to be read. *)
Definition console0 (input : string) : Console :=
  mkConsole input false (Some "user") (Some "host") (Some "/home/user").

(** ** Tokens and their layout on a line *)

Fixpoint spaces (n : nat) : string :=
  match n with
  | O => ""
  | S n' => String " " (spaces n')
  end.

(** A word: not empty, no separator inside. *)
Definition word (t : string) : Prop := t ≠ "" ∧ has_char " " t = false.

(** A line written out: every token after some spaces, one more space at
    least between two tokens, [trail] spaces at the end. *)
Fixpoint layout (line : list (nat * string)) (trail : nat) : string :=
  match line with
  | [] => spaces trail
  | (n, t) :: rest =>
      spaces n +:+ t +:+
      match rest with
      | [] => spaces trail
      | _ => String " " (layout rest trail)
      end
  end.
(** A world where pipe, fork and open are refused. *)
Definition barren_world : World := fresh_world ∅ (λ _, false) (λ _, Some []).

(** A world with one file, [name], holding [content]. *)
Definition file_world (name : string) (content : list byte) : World :=
  fresh_world {[ name := content ]} (λ _, true) (λ _, Some []).

(** ** What the children do with their argument arrays *)

(** A child that did not read outside an array: it got as far as calling
    execvp, on a NULL-terminated array, or else it ended by
    exit(EXIT_FAILURE); and if it was killed, it was inside execvp, to which
    it had passed a NULL file name (the last event of its trace).  A child
    that reads outside an array is killed with an empty trace. *)
Definition in_bounds (c : Child) : Prop :=
  (reached_exec (c_trace c) = true ∨ c_status c = Some EXIT_FAILURE) ∧
  (c_status c = None → ∃ args, last (c_trace c) = Some (EExecFail None args)).

(** [ends_well m]: when [m] ends the process it is by exit(EXIT_FAILURE),
    or from a call of execvp on; it is killed only inside execvp, called
    with a NULL file name. *)
Definition ends_well {A} (m : M A) : Prop :=
  ∀ w, match m w with
       | Ret _ _ | Fault => True
       | Exit s w' => reached_exec (w_trace w') = true ∨ s = EXIT_FAILURE
       | Killed w' => ∃ args, last (w_trace w') = Some (EExecFail None args)
       end.

Definition never_returns {A} (m : M A) : Prop := ∀ w a w', m w ≠ Ret a w'.

(** [rears m Q]: [m] is not killed, what it returns satisfies [Q], and the
    children it forks stay inside their arrays. *)
Definition rears {A} (m : M A) (Q : A → Prop) : Prop :=
  ∀ w, match m w with
       | Ret a w' =>
           Q a ∧ ∃ cs, w_children w' = w_children w ++ cs ∧ Forall in_bounds cs
       | Exit _ w' =>
           ∃ cs, w_children w' = w_children w ++ cs ∧ Forall in_bounds cs
       | Fault => True
       | Killed _ => False
       end.

(** The locals hold arrays that execvp can read: the last slot of
    [redirect_cmd] is NULL, and so is the last slot of [command] as long as
    the loop has not stopped the line for too many arguments. *)
Definition argv_ready (st : scan) : Prop :=
  scan_ok st ∧ redirect_cmd st !! MAX_ARGS = Some None ∧
  (cmd_index st ≤ MAX_ARGS → command st !! MAX_ARGS = Some None).

Definition step_ready (r : scan + Z) : Prop :=
  match r with
  | inl st => argv_ready st
  | inr _ => True
  end.

(** ** Lines without a pipe *)

(** [calm m Q]: [m] does not end the process, leaves the descriptor table
    and the pipe count as they were, and what it returns satisfies [Q]. *)
Definition calm {A} (m : M A) (Q : A → Prop) : Prop :=
  ∀ w, match m w with
       | Ret a w' => Q a ∧ w_fds w' = w_fds w ∧ w_npipes w' = w_npipes w
       | Exit _ _ | Killed _ => False
       | Fault => True
       end.

(** No pipe has been seen on the line. *)
Definition pipe_free (st : scan) : Prop :=
  redirect_mode st ≠ PIPE ∧ output_before_pipe st = false.

Definition step_pipe_free (r : scan + Z) : Prop :=
  match r with
  | inl st => pipe_free st
  | inr code => code = EXEC_FAILURE
  end.

(** ** How the stages of a pipeline are wired *)

(** What a child does from execvp on: the program runs and writes its
    output, or execvp fails and the child reports it and exits. *)
Definition exec_events (prog : string) (args : list string)
    (run : option (list byte)) : list Event :=
  match run with
  | Some out => [EExec prog args out]
  | None => [EExecFail (Some prog) args; EPerror (prog +:+ " "); EPerror "execvp()"]
  end.

(** _POSIX_PIPE_BUF (limits.h): the number of bytes that every pipe holds
    at least. *)
Definition POSIX_PIPE_BUF : nat := 512.

(** The shell waits for a stage that writes to a pipe while it holds both
    ends of that pipe itself, and forks the reader only afterwards: such a
    stage comes to its end, as [sys_fork] has it, only when what it writes
    fits in the pipe.  [fits_pipe run]: the output of the run does. *)
Definition fits_pipe (run : option (list byte)) : Prop :=
  match run with
  | Some out => length out ≤ POSIX_PIPE_BUF
  | None => True
  end.

(** ** What the shell itself does while it handles a line *)

(** [traced m Q]: when [m] returns [a], the events [tr] it added to the
    trace of the process satisfy [Q a tr]. *)
Definition traced {A} (m : M A) (Q : A → list Event → Prop) : Prop :=
  ∀ w, match m w with
       | Ret a w' => ∃ tr, w_trace w' = w_trace w ++ tr ∧ Q a tr
       | _ => True
       end.

Definition is_print (e : Event) : bool :=
  match e with EPrint _ => true | _ => false end.
Definition is_fork (e : Event) : bool :=
  match e with EFork _ => true | _ => false end.
Definition is_wait (e : Event) : bool :=
  match e with EWait => true | _ => false end.

Definition count (f : Event → bool) (tr : list Event) : nat :=
  length (List.filter f tr).

(** Neither a message on standard output, nor a fork, nor a wait. *)
Definition idle (tr : list Event) : Prop :=
  Forall (λ e, is_print e = false ∧ is_fork e = false ∧ is_wait e = false) tr.

(** No message on standard output, and a wait for every fork. *)
Definition settled (tr : list Event) : Prop :=
  Forall (λ e, is_print e = false) tr ∧ count is_fork tr = count is_wait tr.

(** Idle events around exactly one wait. *)
Definition awaited (tr : list Event) : Prop :=
  ∃ mid rest, tr = mid ++ EWait :: rest ∧ idle mid ∧ idle rest.

(** The messages of parse_input_and_exec. *)
Definition diagnostics : list string :=
  ["Too many args.\n";
   "Cannot perform redirection before input.\n";
   "No file for input redirection.";
   "No file for output redirection.";
   "Cannot perform output operation before piping.";
   "Missing program to pipe to.\n";
   "No file for I/O redirection.\n"].

(** A rejection: events with nothing printed, then one diagnostic. *)
Definition rejected (tr : list Event) : Prop :=
  ∃ pre msg, tr = pre ++ [EPrint msg] ∧ settled pre ∧ msg ∈ diagnostics.

Definition step_traced (r : scan + Z) (tr : list Event) : Prop :=
  match r with
  | inl _ => settled tr
  | inr code => code = EXEC_FAILURE ∧ rejected tr
  end.

Definition line_traced (code : Z) (tr : list Event) : Prop :=
  (code = EXEC_SUCCESS ∧ settled tr) ∨ (code = EXEC_FAILURE ∧ rejected tr).

(** ** Which file each redirection operator opens *)








(** * Properties *)

(** ** Computations that never fault *)

Lemma spec_ret {A} (a : A) (Q : A → Prop) : Q a → spec (ret a) Q.
Proof. intros H w. exact H. Qed.

Lemma spec_bind {A B} (m : M A) (k : A → M B) (R : A → Prop) (Q : B → Prop) :
  spec m R → (∀ a, R a → spec (k a) Q) → spec (bind m k) Q.
Proof.
  intros Hm Hk w. unfold bind. specialize (Hm w).
  destruct (m w) as [a w'| | |]; [|done|done|done]. apply (Hk a Hm w').
Qed.

Lemma spec_weaken {A} (m : M A) (Q Q' : A → Prop) :
  spec m Q → (∀ a, Q a → Q' a) → spec m Q'.
Proof.
  intros Hm HQ w. specialize (Hm w). destruct (m w); auto.
Qed.

Lemma spec_bind_any {A B} (m : M A) (k : A → M B) (Q : B → Prop) :
  spec m total_true → (∀ a, spec (k a) Q) → spec (bind m k) Q.
Proof. intros Hm Hk. apply (spec_bind m k total_true); auto. Qed.

Lemma spec_printf s : spec (printf s) total_true.
Proof. intros w. exact I. Qed.
Lemma spec_perror s : spec (perror s) total_true.
Proof. intros w. exact I. Qed.
Lemma spec_sys_exit {A} s (Q : A → Prop) : spec (sys_exit s) Q.
Proof. intros w. exact I. Qed.
Lemma spec_perror_exit {A} s (Q : A → Prop) : spec (perror_exit s) Q.
Proof. intros w. exact I. Qed.
Lemma spec_sys_pipe : spec sys_pipe total_true.
Proof. intros w. unfold sys_pipe. by destruct (w_env w (w_clock w)). Qed.
Lemma spec_sys_close fd : spec (sys_close fd) total_true.
Proof. intros w. unfold sys_close. by destruct (w_fds w !! fd). Qed.
Lemma spec_sys_open p f : spec (sys_open p f) total_true.
Proof.
  intros w. unfold sys_open. destruct p; [|done].
  destruct (w_env w (w_clock w)); [|done]. by destruct (open_file _ _ _).
Qed.
Lemma spec_sys_fork child : spec (sys_fork child) total_true.
Proof.
  intros w. unfold sys_fork. destruct (w_env w (w_clock w)); [|done].
  by destruct (child (child_world w)).
Qed.
Lemma spec_sys_wait : spec sys_wait total_true.
Proof. intros w. exact I. Qed.

Lemma spec_store (a : array) i v :
  i < length a → spec (store a i v) (λ a', a' = <[i := v]> a).
Proof. intros Hi w. unfold store. by rewrite decide_True. Qed.

Lemma spec_load (a : array) i :
  i < length a → spec (load a i) (λ v, a !! i = Some v).
Proof.
  intros Hi w. unfold load. destruct (lookup_lt_is_Some_2 a i Hi) as [v Hv].
  by rewrite Hv.
Qed.

Create HintDb nofault discriminated.
#[export] Hint Resolve spec_printf spec_perror spec_sys_pipe spec_sys_close
  spec_sys_open spec_sys_fork spec_sys_wait : nofault.
#[export] Hint Resolve spec_sys_exit spec_perror_exit : nofault.

(** Walks through a computation built from system calls only. *)
Ltac nofault :=
  repeat first
    [ apply spec_ret; exact I
    | apply spec_sys_exit
    | apply spec_perror_exit
    | solve [auto with nofault]
    | apply spec_bind_any; [| intros ?]
    | match goal with
      | |- spec (match ?x with _ => _ end) _ => destruct x
      | |- spec (if ?b then _ else _) _ => destruct b
      end ].

Lemma spec_close_pipes fds : spec (close_pipes fds) total_true.
Proof. unfold close_pipes. nofault. Qed.
#[export] Hint Resolve spec_close_pipes : nofault.

Lemma spec_exec_command m cmd fd : spec (exec_command m cmd fd) total_true.
Proof. unfold exec_command. nofault. Qed.
Lemma spec_redirect_io m cmd f e : spec (redirect_io m cmd f e) total_true.
Proof. unfold redirect_io. nofault. Qed.
Lemma spec_exec_redir_bothio m cmd i o : spec (exec_redir_bothio m cmd i o) total_true.
Proof. unfold exec_redir_bothio. nofault. Qed.
Lemma spec_input_pipe cmd : spec (input_pipe cmd) total_true.
Proof. unfold input_pipe. nofault. Qed.
Lemma spec_inter_pipe fds cmd : spec (inter_pipe fds cmd) total_true.
Proof. unfold inter_pipe. nofault. Qed.
Lemma spec_output_pipe fds cmd : spec (output_pipe fds cmd) total_true.
Proof. unfold output_pipe. nofault. Qed.
Lemma spec_input_pipe_redirect cmd f : spec (input_pipe_redirect cmd f) total_true.
Proof. unfold input_pipe_redirect. nofault. Qed.
Lemma spec_output_pipe_redirect fds m cmd f :
  spec (output_pipe_redirect fds m cmd f) total_true.
Proof. unfold output_pipe_redirect. nofault. Qed.
#[export] Hint Resolve spec_exec_command spec_redirect_io spec_exec_redir_bothio
  spec_input_pipe spec_inter_pipe spec_output_pipe spec_input_pipe_redirect
  spec_output_pipe_redirect : nofault.

(** Arithmetic on the constants. *)
Ltac bounds := unfold MAX_ARGS, MAX_INPUT in *; simpl length in *; lia.

(** ** The arrays keep their MAX_ARGS + 1 slots *)

Lemma scan_init_ok garbage : scan_ok (scan_init garbage).
Proof. unfold scan_ok, scan_init, MAX_ARGS; simpl. lia. Qed.

Lemma spec_save_command_copy n : ∀ i (dest command : array),
  i + n ≤ length dest → i + n ≤ length command →
  spec (save_command_copy n i dest command) (λ d, length d = length dest).
Proof.
  induction n as [|n IH]; intros i dest command Hd Hc; simpl.
  - by apply spec_ret.
  - eapply spec_bind; [apply spec_load; lia|]. intros v _.
    eapply spec_bind; [apply spec_store; lia|]. intros d' ->.
    eapply spec_weaken.
    + apply IH; rewrite ?length_insert; lia.
    + intros d Hlen. by rewrite Hlen, length_insert.
Qed.

Lemma spec_save_command (dest command : array) idx :
  length dest = MAX_ARGS + 1 → length command = MAX_ARGS + 1 → idx ≤ MAX_ARGS →
  spec (save_command dest command idx)
       (λ dc, length (fst dc) = MAX_ARGS + 1 ∧ length (snd dc) = MAX_ARGS + 1).
Proof.
  intros Hd Hc Hi. unfold save_command.
  eapply spec_bind; [apply spec_store; lia|]. intros c1 ->.
  eapply spec_bind.
  { apply spec_save_command_copy; rewrite ?length_insert; lia. }
  intros d1 Hd1.
  eapply spec_bind; [apply spec_store; rewrite length_insert; unfold MAX_ARGS in *; lia|].
  intros c2 ->. apply spec_ret. cbn [fst snd].
  rewrite !length_insert. split; [by rewrite Hd1|done].
Qed.

Lemma spec_scan_token token st :
  scan_ok st → cmd_index st ≤ MAX_ARGS → spec (scan_token token st) step_ok.
Proof.
  intros (Hc & Hr & Hi) Hlt. unfold scan_token, go_on, leave_with, scan_ok.
  unfold MAX_ARGS in *.
  assert (H0 : 0 < length (command st)) by (rewrite Hc; lia).
  assert (Hs : cmd_index st < length (command st)) by (rewrite Hc; lia).
  destruct (String.eqb token "<").
  { destruct (decide (redirect_mode st ≠ REG_CMD)).
    - eapply spec_bind_any; [apply spec_printf|]. intros _. by apply spec_ret.
    - eapply spec_bind; [by apply spec_save_command|]. intros dc [H1 H2].
      apply spec_ret. repeat split; simpl; auto; lia. }
  destruct (String.eqb token ">" || String.eqb token ">>").
  { destruct (decide (redirect_mode st = INPUT)).
    - eapply spec_bind; [by apply spec_load|]. intros [f|] _.
      + apply spec_ret. repeat split; simpl; auto; lia.
      + eapply spec_bind_any; [apply spec_printf|]. intros _. by apply spec_ret.
    - destruct (decide (redirect_mode st = OUTPUT ∨ redirect_mode st = OUTPUT_APPEND)).
      + eapply spec_bind; [by apply spec_load|]. intros [f|] _.
        * eapply spec_bind_any; [apply spec_redirect_io|]. intros _.
          apply spec_ret. repeat split; simpl; auto; lia.
        * eapply spec_bind_any; [apply spec_printf|]. intros _. by apply spec_ret.
      + eapply spec_bind; [by apply spec_save_command|]. intros dc [H1 H2].
        apply spec_ret. repeat split; simpl; auto; lia. }
  destruct (String.eqb token "|").
  { destruct (decide (redirect_mode st = OUTPUT ∨ redirect_mode st = OUTPUT_APPEND)).
    - eapply spec_bind_any; [apply spec_printf|]. intros _. by apply spec_ret.
    - destruct (decide (redirect_mode st = PIPE)).
      + eapply spec_bind; [by apply spec_load|]. intros [f|] _.
        * eapply spec_bind; [by apply spec_store|]. intros c ->.
          eapply spec_bind_any; [apply spec_inter_pipe|]. intros fds.
          apply spec_ret. repeat split; simpl; rewrite ?length_insert; auto; lia.
        * eapply spec_bind_any; [apply spec_printf|]. intros _. by apply spec_ret.
      + destruct (decide (redirect_mode st = INPUT)).
        * eapply spec_bind; [by apply spec_load|]. intros c0 _.
          eapply spec_bind_any; [apply spec_input_pipe_redirect|]. intros fds.
          apply spec_ret. repeat split; simpl; auto; lia.
        * eapply spec_bind; [by apply spec_store|]. intros c ->.
          eapply spec_bind_any; [apply spec_input_pipe|]. intros fds.
          apply spec_ret. repeat split; simpl; rewrite ?length_insert; auto; lia. }
  eapply spec_bind; [by apply spec_store|]. intros c ->.
  apply spec_ret. repeat split; simpl; rewrite ?length_insert; auto; lia.
Qed.

Lemma spec_scan_loop n : ∀ toks st,
  scan_ok st → spec (scan_loop n toks st) step_ok.
Proof.
  induction n as [|n IH]; intros toks st Hok; cbn [scan_loop].
  - by apply spec_ret.
  - destruct (decide (MAX_ARGS + 1 ≤ cmd_index st)) as [Hge|Hlt].
    + eapply spec_bind_any; [apply spec_printf|]. intros _. by apply spec_ret.
    + assert (cmd_index st ≤ MAX_ARGS) by lia.
      destruct toks as [|token rest].
      * destruct Hok as (Hc & Hr & Hi). unfold scan_ok.
        eapply spec_bind; [apply spec_store; lia|]. intros c ->.
        apply spec_ret. repeat split; simpl; rewrite ?length_insert; auto.
      * eapply spec_bind; [by apply spec_scan_token|].
        intros [st'|code] Hst'; [by apply IH|]. by apply spec_ret.
Qed.

Lemma spec_finish st : scan_ok st → spec (finish st) total_true.
Proof.
  intros (Hc & Hr & Hi). unfold finish.
  destruct (decide (redirect_mode st = REG_CMD)).
  - eapply spec_bind_any; [apply spec_exec_command|]. intros _. by apply spec_ret.
  - eapply spec_bind; [apply spec_load; rewrite Hc; unfold MAX_ARGS; lia|].
    intros c0 _. nofault.
Qed.

(** C10: parsing a line never reads or writes the 11-slot arrays [command]
    and [redirect_cmd] outside their bounds: every access (which the model
    turns into [Fault] when its index is not below the array length) is in
    range, for every input, delimiter, world and initial content of the
    uninitialised locals; the locals keep MAX_ARGS + 1 slots and
    cmd_index <= MAX_ARGS + 1 throughout the scan, and save_command, called
    with cmd_index <= MAX_ARGS, copies cmd_index + 1 <= MAX_ARGS + 1 slots. *)
Theorem parse_never_out_of_bounds :
  (∀ garbage input dlim w, parse_input_and_exec garbage input dlim w ≠ Fault) ∧
  (∀ garbage n toks w st w',
     scan_loop n toks (scan_init garbage) w = Ret (inl st) w' → scan_ok st) ∧
  (∀ (dest command : array) idx w,
     length dest = MAX_ARGS + 1 → length command = MAX_ARGS + 1 → idx ≤ MAX_ARGS →
     save_command dest command idx w ≠ Fault).
Proof.
  split; [|split].
  - intros garbage input dlim w Hf.
    assert (Hs : spec (parse_input_and_exec garbage input dlim) total_true).
    { unfold parse_input_and_exec, parse_tokens.
      eapply spec_bind; [apply spec_scan_loop, scan_init_ok|].
      intros [st|code] Hst; [by apply spec_finish|by apply spec_ret]. }
    specialize (Hs w). by rewrite Hf in Hs.
  - intros garbage n toks w st w' Hrun.
    pose proof (spec_scan_loop n toks _ (scan_init_ok garbage) w) as Hs.
    by rewrite Hrun in Hs.
  - intros dest command idx w Hd Hc Hi Hf.
    pose proof (spec_save_command dest command idx Hd Hc Hi w) as Hs.
    by rewrite Hf in Hs.
Qed.

(** ** Scan positions *)

Lemma yields_ret {A} (a : A) (Q : A → Prop) : Q a → yields (ret a) Q.
Proof. intros H w a' w' [= <- _]. exact H. Qed.

Lemma yields_bind {A B} (m : M A) (k : A → M B) (Q : B → Prop) :
  (∀ a, yields (k a) Q) → yields (bind m k) Q.
Proof.
  intros Hk w b w'. unfold bind. destruct (m w) as [a w1| | |]; [|done|done|done].
  apply Hk.
Qed.

Lemma yields_fault {A} (Q : A → Prop) : yields fault Q.
Proof. intros w a w'. discriminate. Qed.


Lemma scan_token_plain t st :
  is_operator t = false →
  scan_token t st =
    (let* cmd := store (command st) (cmd_index st) (Some t) in
     go_on (mkScan cmd (redirect_cmd st) (input_file st) (output_before_pipe st)
                   (S (cmd_index st)) (redirect_mode st) (pipe_fds st))).
Proof.
  unfold is_operator, scan_token. intros H.
  destruct (String.eqb t "<"); [done|].
  destruct (String.eqb t ">"); [done|].
  destruct (String.eqb t ">>"); [done|].
  by destruct (String.eqb t "|").
Qed.

Lemma scan_loop_step n token rest st w st' w' :
  cmd_index st < MAX_ARGS + 1 →
  scan_token token st w = Ret (inl st') w' →
  scan_loop (S n) (token :: rest) st w = scan_loop n rest st' w'.
Proof.
  intros Hlt Hstep. cbn [scan_loop].
  destruct (decide (MAX_ARGS + 1 ≤ cmd_index st)); [lia|].
  unfold bind. by rewrite Hstep.
Qed.

Lemma scan_loop_leave n token rest st w code w' :
  cmd_index st < MAX_ARGS + 1 →
  scan_token token st w = Ret (inr code) w' →
  scan_loop (S n) (token :: rest) st w = Ret (inr code) w'.
Proof.
  intros Hlt Hstep. cbn [scan_loop].
  destruct (decide (MAX_ARGS + 1 ≤ cmd_index st)); [lia|].
  unfold bind. by rewrite Hstep.
Qed.

Lemma scan_loop_reaches garbage w0 pre st w :
  reaches garbage w0 pre st w →
  ∀ n rest,
    scan_loop (length pre + n) (pre ++ rest) (scan_init garbage) w0
    = scan_loop n rest st w.
Proof.
  induction 1 as [|pre token st w st' w' Hpre IH Hlt Hstep]; intros n rest.
  - done.
  - rewrite length_app, <- app_assoc. simpl.
    replace (length pre + 1 + n) with (length pre + S n) by lia.
    rewrite IH. by apply scan_loop_step.
Qed.

Lemma reaches_scan_ok garbage w0 pre st w :
  reaches garbage w0 pre st w → scan_ok st.
Proof.
  induction 1 as [|pre token st w st' w' Hpre IH Hlt Hstep].
  - apply scan_init_ok.
  - assert (Hle : cmd_index st ≤ MAX_ARGS) by lia.
    pose proof (spec_scan_token token st IH Hle w) as Hs.
    by rewrite Hstep in Hs.
Qed.

(** What the parser returns on a line whose scan stands at a position. *)
Lemma parse_tokens_reaches garbage w0 pre st w rest :
  reaches garbage w0 pre st w → length pre ≤ MAX_INPUT →
  parse_tokens garbage (pre ++ rest) w0
  = (let* r := scan_loop (MAX_INPUT - length pre) rest st in
     match r with
     | inl st => finish st
     | inr code => ret code
     end) w.
Proof.
  intros Hpre Hlen. unfold parse_tokens, bind.
  replace MAX_INPUT with (length pre + (MAX_INPUT - length pre)) at 1 by lia.
  by rewrite (scan_loop_reaches _ _ _ _ _ Hpre).
Qed.

Lemma log_inj e1 e2 w : log e1 w = log e2 w → e1 = e2.
Proof.
  intros H. apply (f_equal w_trace) in H. simpl in H.
  apply app_inv_head in H. by injection H.
Qed.

(** ** The pipe operator after an output redirection *)

Lemma pipe_token_output st w :
  is_output (redirect_mode st) = true →
  scan_token "|" st w
  = Ret (inr EXEC_FAILURE)
        (log (EPrint "Cannot perform output operation before piping.") w).
Proof.
  intros Hm. unfold scan_token. cbn [String.eqb Ascii.eqb Bool.eqb orb].
  destruct (redirect_mode st); try discriminate; reflexivity.
Qed.

Lemma pipe_token_other st :
  is_output (redirect_mode st) = false →
  ∀ w w',
    scan_token "|" st w = Ret (inr EXEC_FAILURE) w' →
    w' = log (EPrint "Missing program to pipe to.\n") w.
Proof.
  intros Hm w w'. unfold scan_token. cbn [String.eqb Ascii.eqb Bool.eqb orb].
  destruct (redirect_mode st) eqn:Hmode; try discriminate; simpl.
  - (* REG_CMD: first pipe *)
    intros H. exfalso. revert H.
    assert (Hy : yields (let* cmd := store (command st) (cmd_index st) None in
                         let* fds := input_pipe cmd in
                         go_on (mkScan cmd (redirect_cmd st) (input_file st)
                                  (output_before_pipe st) 0 PIPE fds)) continues).
    { apply yields_bind; intros cmd. apply yields_bind; intros fds.
      by apply yields_ret. }
    intros H. apply (Hy _ _ _ H).
  - (* INPUT: first pipe with input redirection *)
    intros H. exfalso. revert H.
    assert (Hy : yields (let* c0 := load (command st) 0 in
                         let* fds := input_pipe_redirect (redirect_cmd st) c0 in
                         go_on (mkScan (command st) (redirect_cmd st) (input_file st)
                                  (output_before_pipe st) 0 PIPE fds)) continues).
    { apply yields_bind; intros c0. apply yields_bind; intros fds.
      by apply yields_ret. }
    intros H. apply (Hy _ _ _ H).
  - (* PIPE: intermediary pipe *)
    unfold bind at 1. unfold load.
    destruct (command st !! 0) as [[f|]|]; [| |discriminate].
    + intros H. exfalso. revert H.
      assert (Hy : yields (let* cmd := store (command st) (cmd_index st) None in
                           let* fds := inter_pipe (pipe_fds st) cmd in
                           go_on (mkScan cmd (redirect_cmd st) (input_file st)
                                    (output_before_pipe st) 0 PIPE fds)) continues).
      { apply yields_bind; intros cmd. apply yields_bind; intros fds.
        by apply yields_ret. }
      intros H. apply (Hy _ _ _ H).
    + by intros [= <-].
Qed.

(** C5: at every scan position where a "|" token is examined, the error
    "Cannot perform output operation before piping." is reported exactly when
    the current redirect mode is OUTPUT or OUTPUT_APPEND; the function then
    returns EXEC_FAILURE at once, so the rest of the line is not scanned and
    the world is the one of that position plus the message: nothing more is
    launched. *)
Theorem pipe_rejected_iff_output_mode garbage w0 pre st w rest :
  reaches garbage w0 pre st w →
  cmd_index st ≤ MAX_ARGS →
  length pre < MAX_INPUT →
  (scan_token "|" st w
   = Ret (inr EXEC_FAILURE)
         (log (EPrint "Cannot perform output operation before piping.") w)
   ↔ is_output (redirect_mode st) = true) ∧
  (is_output (redirect_mode st) = true →
   parse_tokens garbage (pre ++ "|" :: rest) w0
   = Ret EXEC_FAILURE
         (log (EPrint "Cannot perform output operation before piping.") w)).
Proof.
  intros Hpre Hidx Hlen. split.
  - split.
    + intros Heq. destruct (is_output (redirect_mode st)) eqn:Hm; [done|].
      apply (pipe_token_other st Hm) in Heq. by apply log_inj in Heq.
    + apply pipe_token_output.
  - intros Hm.
    rewrite (parse_tokens_reaches _ _ _ _ _ _ Hpre) by lia.
    destruct (MAX_INPUT - length pre) as [|n] eqn:Hn; [lia|].
    unfold bind.
    erewrite scan_loop_leave; [done|lia|].
    by apply pipe_token_output.
Qed.

(** ** save_command, in closed form *)

Lemma save_command_copy_run n : ∀ i (dest command : array) w,
  i + n ≤ length dest → i + n ≤ length command →
  save_command_copy n i dest command w
  = Ret (take i dest ++ take n (drop i command) ++ drop (i + n) dest) w.
Proof.
  induction n as [|n IH]; intros i dest command w Hd Hc; simpl.
  - unfold ret. by rewrite Nat.add_0_r, take_drop.
  - destruct (lookup_lt_is_Some_2 command i) as [v Hv]; [lia|].
    unfold bind, load, store. rewrite Hv. unfold ret.
    rewrite decide_True by lia.
    rewrite IH by (rewrite ?length_insert; lia).
    f_equal.
    rewrite (drop_S command v i Hv). simpl.
    rewrite (take_S_r (<[i:=v]> dest) i v)
      by (apply list_lookup_insert_eq; lia).
    rewrite take_insert_ge by lia.
    rewrite drop_insert_lt by lia.
    rewrite <- app_assoc. simpl. by rewrite Nat.add_succ_r.
Qed.

Lemma save_command_run (dest command : array) idx w :
  length dest = MAX_ARGS + 1 → length command = MAX_ARGS + 1 → idx ≤ MAX_ARGS →
  save_command dest command idx w
  = Ret (saved dest command idx, <[0 := None]> (<[idx := None]> command)) w.
Proof.
  intros Hd Hc Hi. unfold save_command, bind, store, ret.
  rewrite decide_True by lia.
  rewrite save_command_copy_run by (rewrite ?length_insert; lia).
  rewrite decide_True by (rewrite length_insert, Hc; unfold MAX_ARGS; lia).
  do 2 f_equal. unfold saved. rewrite take_0, drop_0. simpl.
  rewrite (take_S_r _ idx None) by (apply list_lookup_insert_eq; lia).
  rewrite take_insert_ge by lia. by rewrite <- app_assoc.
Qed.

Lemma length_saved (dest command : array) idx :
  length dest = MAX_ARGS + 1 → length command = MAX_ARGS + 1 → idx ≤ MAX_ARGS →
  length (saved dest command idx) = MAX_ARGS + 1.
Proof.
  intros Hd Hc Hi. unfold saved. unfold MAX_ARGS in *.
  rewrite length_app, length_take. simpl. rewrite length_drop. lia.
Qed.

Lemma argv_of_until_null (l r1 r2 : array) :
  argv_of (l ++ None :: r1) = argv_of (l ++ None :: r2).
Proof.
  induction l as [|[s|] l IH]; [done| |done].
  cbn [app argv_of]. by rewrite IH.
Qed.

Lemma argv_of_strings (toks : list string) (rest : array) :
  argv_of ((Some <$> toks) ++ None :: rest) = Some toks.
Proof.
  induction toks as [|t toks IH]; [done|].
  rewrite fmap_cons. cbn [app argv_of]. by rewrite IH.
Qed.

(** ** The input redirection operator *)

Ltac yields_walk :=
  repeat first
    [ apply yields_ret
    | apply yields_bind; intros ?
    | match goal with
      | |- yields (match ?x with _ => _ end) _ => destruct x
      | |- yields (if ?b then _ else _) _ => destruct b
      end ].

(** Once the mode has left REG_CMD no token brings it back. *)
Lemma scan_token_mode_stays token st :
  redirect_mode st ≠ REG_CMD → yields (scan_token token st) not_regular.
Proof.
  intros Hm. unfold scan_token, go_on, leave_with.
  destruct (String.eqb token "<").
  { destruct (decide (redirect_mode st ≠ REG_CMD)); [|done]. by yields_walk. }
  destruct (String.eqb token ">" || String.eqb token ">>").
  { destruct (String.eqb token ">>"); yields_walk; done. }
  destruct (String.eqb token "|"); yields_walk; done.
Qed.

Lemma lt_token_rejected st w :
  redirect_mode st ≠ REG_CMD →
  scan_token "<" st w
  = Ret (inr EXEC_FAILURE)
        (log (EPrint "Cannot perform redirection before input.\n") w).
Proof.
  intros Hm. unfold scan_token. cbn [String.eqb Ascii.eqb Bool.eqb].
  by rewrite decide_True.
Qed.

Lemma lt_token_accepted st w :
  redirect_mode st = REG_CMD → scan_ok st → cmd_index st ≤ MAX_ARGS →
  scan_token "<" st w
  = Ret (inl (mkScan (<[0 := None]> (<[cmd_index st := None]> (command st)))
                     (saved (redirect_cmd st) (command st) (cmd_index st))
                     (input_file st) (output_before_pipe st) 0 INPUT (pipe_fds st))) w.
Proof.
  intros Hm (Hc & Hr & _) Hi. unfold scan_token. cbn [String.eqb Ascii.eqb Bool.eqb].
  rewrite decide_False by (by intros H; apply H).
  unfold bind. by rewrite save_command_run.
Qed.

Lemma reaches_after_lt garbage w0 pre st w :
  reaches garbage w0 pre st w → "<" ∈ pre → redirect_mode st ≠ REG_CMD.
Proof.
  induction 1 as [|pre token st w st' w' Hpre IH Hlt Hstep]; intros Hin.
  - by apply not_elem_of_nil in Hin.
  - apply elem_of_app in Hin as [Hin|Hin].
    + apply (scan_token_mode_stays token st (IH Hin) _ _ _ Hstep).
    + apply list_elem_of_singleton in Hin as <-.
      destruct (decide (redirect_mode st = REG_CMD)) as [Hreg|Hreg].
      * rewrite lt_token_accepted in Hstep;
          [|done|apply (reaches_scan_ok _ _ _ _ _ Hpre)|lia].
        by injection Hstep as <- _.
      * by rewrite lt_token_rejected in Hstep.
Qed.

(** C6: at every scan position where a "<" token is examined, it is accepted
    only in mode REG_CMD (the command collected so far is saved and the mode
    becomes INPUT, nothing else happens); in every other mode the function
    prints "Cannot perform redirection before input." and returns
    EXEC_FAILURE at once.  Since the mode is not REG_CMD at any position
    after a "<", every later "<" of the line is rejected: input redirection
    takes effect at most once per line. *)
Theorem input_redirection_only_in_regular_mode garbage w0 pre st w rest :
  reaches garbage w0 pre st w →
  cmd_index st ≤ MAX_ARGS →
  length pre < MAX_INPUT →
  (redirect_mode st ≠ REG_CMD →
     scan_token "<" st w
     = Ret (inr EXEC_FAILURE)
           (log (EPrint "Cannot perform redirection before input.\n") w) ∧
     parse_tokens garbage (pre ++ "<" :: rest) w0
     = Ret EXEC_FAILURE
           (log (EPrint "Cannot perform redirection before input.\n") w)) ∧
  (redirect_mode st = REG_CMD →
     ∃ st', scan_token "<" st w = Ret (inl st') w ∧
            redirect_mode st' = INPUT ∧ cmd_index st' = 0 ∧
            argv_of (redirect_cmd st') = argv_of (<[cmd_index st := None]> (command st)) ∧
            reaches garbage w0 (pre ++ ["<"]) st' w) ∧
  ("<" ∈ pre → redirect_mode st ≠ REG_CMD).
Proof.
  intros Hpre Hidx Hlen. split; [|split].
  - intros Hm. split; [by apply lt_token_rejected|].
    rewrite (parse_tokens_reaches _ _ _ _ _ _ Hpre) by lia.
    destruct (MAX_INPUT - length pre) as [|n] eqn:Hn; [lia|].
    unfold bind. erewrite scan_loop_leave; [done|lia|].
    by apply lt_token_rejected.
  - intros Hm. pose proof (reaches_scan_ok _ _ _ _ _ Hpre) as Hok.
    eexists. split; [by apply lt_token_accepted|]. simpl.
    split; [done|]. split; [done|]. split.
    + destruct Hok as (Hc & _ & _).
      rewrite (insert_take_drop (command st)) by lia.
      apply argv_of_until_null.
    + eapply reaches_step; [done|lia|]. by apply lt_token_accepted.
  - by apply (reaches_after_lt _ _ _ _ _ Hpre).
Qed.

(** ** Runs of plain tokens *)

Lemma after_plain_fields toks : ∀ st,
  cmd_index st + length toks ≤ length (command st) →
  command (after_plain st toks)
  = take (cmd_index st) (command st) ++ (Some <$> toks)
      ++ drop (cmd_index st + length toks) (command st) ∧
  cmd_index (after_plain st toks) = cmd_index st + length toks ∧
  redirect_cmd (after_plain st toks) = redirect_cmd st ∧
  input_file (after_plain st toks) = input_file st ∧
  output_before_pipe (after_plain st toks) = output_before_pipe st ∧
  redirect_mode (after_plain st toks) = redirect_mode st ∧
  pipe_fds (after_plain st toks) = pipe_fds st.
Proof.
  induction toks as [|t toks IH]; intros st Hlen.
  - simpl. rewrite Nat.add_0_r, take_drop. done.
  - cbn [after_plain]. simpl in Hlen.
    edestruct IH as (Hc & Hi & Hrest); [|rewrite Hc, Hi; clear IH Hc Hi].
    { simpl. rewrite length_insert. lia. }
    simpl. split; [|split; [lia|exact Hrest]].
    rewrite (take_S_r _ (cmd_index st) (Some t))
      by (apply list_lookup_insert_eq; lia).
    rewrite take_insert_ge by lia. rewrite drop_insert_lt by lia.
    rewrite <- app_assoc. simpl. by rewrite Nat.add_succ_r.
Qed.

Lemma reaches_plain garbage w0 toks : ∀ pre st w,
  reaches garbage w0 pre st w →
  Forall (λ t, is_operator t = false) toks →
  cmd_index st + length toks ≤ MAX_ARGS + 1 →
  reaches garbage w0 (pre ++ toks) (after_plain st toks) w.
Proof.
  induction toks as [|t toks IH]; intros pre st w Hpre Hplain Hlen.
  - by rewrite app_nil_r.
  - apply Forall_cons in Hplain as [Ht Hplain]. simpl in Hlen.
    pose proof (reaches_scan_ok _ _ _ _ _ Hpre) as (Hc & _ & _).
    replace (pre ++ t :: toks) with ((pre ++ [t]) ++ toks)
      by (by rewrite <- app_assoc).
    cbn [after_plain]. apply IH; [|done|simpl; lia].
    eapply reaches_step; [done|unfold MAX_ARGS; lia|].
    rewrite scan_token_plain by done. unfold bind, store.
    by rewrite decide_True by (unfold MAX_ARGS in *; lia).
Qed.

(** ** Too many arguments *)

Lemma scan_loop_too_many n toks st w :
  MAX_ARGS + 1 ≤ cmd_index st →
  scan_loop (S n) toks st w
  = Ret (inr EXEC_FAILURE) (log (EPrint "Too many args.\n") w).
Proof. intros H. cbn [scan_loop]. by rewrite decide_True. Qed.

(** C7 (as the code has it): the argument count is kept per stage.  At any
    scan position, when the plain tokens that follow bring the count of the
    current stage to MAX_ARGS + 1, the loop prints "Too many args." and
    returns EXEC_FAILURE before it examines what comes next; the world is the
    one of that position plus the message, so nothing is spawned from there
    on.  When these are the first tokens of the line, no process is spawned
    for the line at all. *)
Theorem too_many_args_per_stage garbage w0 pre st w run rest :
  reaches garbage w0 pre st w →
  Forall (λ t, is_operator t = false) run →
  cmd_index st + length run = MAX_ARGS + 1 →
  length pre + length run < MAX_INPUT →
  parse_tokens garbage (pre ++ run ++ rest) w0
  = Ret EXEC_FAILURE (log (EPrint "Too many args.\n") w) ∧
  (pre = [] → w_children (log (EPrint "Too many args.\n") w) = w_children w0 ∧
              w_fds (log (EPrint "Too many args.\n") w) = w_fds w0).
Proof.
  intros Hpre Hplain Hfull Hlen. split.
  - assert (Hrun : reaches garbage w0 (pre ++ run) (after_plain st run) w).
    { apply reaches_plain; [done|done|lia]. }
    rewrite app_assoc.
    rewrite (parse_tokens_reaches _ _ _ _ _ _ Hrun)
      by (rewrite length_app; lia).
    destruct (MAX_INPUT - length (pre ++ run)) as [|n] eqn:Hn;
      [rewrite length_app in Hn; lia|].
    unfold bind. rewrite scan_loop_too_many; [done|].
    pose proof (reaches_scan_ok _ _ _ _ _ Hpre) as (Hc & _ & _).
    destruct (after_plain_fields run st) as (_ & -> & _); lia.
  - intros ->. inversion Hpre as [|pre' ? ? ? ? ? ? ? ? Heq]; subst; [done|].
    by destruct pre'.
Qed.

(** ** A line without operators *)

Lemma execvp_run (cmd : array) prog args cw :
  argv_of cmd = Some args →
  execvp_and_handle_error (Some prog) cmd cw = exec_outcome prog args cw.
Proof.
  intros Ha. unfold execvp_and_handle_error, exec_outcome, bind, sys_execvp.
  rewrite Ha. by destruct (w_run cw (w_clock cw)).
Qed.

Lemma exec_outcome_exits prog args cw :
  ∃ s wc, exec_outcome prog args cw = Exit s wc ∧
          w_fds wc = w_fds cw ∧
          (w_trace wc = w_trace cw ++ [EExec prog args (default [] (w_run cw (w_clock cw)))] ∨
           w_trace wc = w_trace cw ++ [EExecFail (Some prog) args;
                                       EPerror (prog +:+ " "); EPerror "execvp()"]).
Proof.
  unfold exec_outcome. destruct (w_run cw (w_clock cw)) as [out|].
  - eexists _, _. split; [done|]. split; [done|]. by left.
  - eexists _, _. split; [done|]. split; [done|]. right. simpl.
    by rewrite <- !app_assoc.
Qed.

Lemma exec_command_regular (cmd : array) prog args w :
  w_env w (w_clock w) = true →
  cmd !! 0 = Some (Some prog) →
  argv_of cmd = Some args →
  ∃ s wc, exec_outcome prog args (child_world w) = Exit s wc ∧
          exec_command REG_CMD cmd 0 w
          = Ret EXEC_SUCCESS (log EWait (reap w (Some s) wc)).
Proof.
  intros Henv H0 Ha.
  destruct (exec_outcome_exits prog args (child_world w)) as (s & wc & Hex & _).
  exists s, wc. split; [done|].
  unfold exec_command, bind, sys_fork. rewrite Henv.
  rewrite decide_False by (by intros H; apply H).
  unfold load. rewrite H0. unfold ret.
  rewrite (execvp_run cmd prog args) by done. by rewrite Hex.
Qed.

(** C9 (as the code has it): for every line of one to MAX_ARGS tokens, none
    of them an operator, and when fork succeeds, the parser returns
    EXEC_SUCCESS having forked exactly one child and then waited for it, with
    no other system call; the child inherits the shell's descriptors
    unchanged and calls execvp on the first token with exactly the line's
    tokens, in order, as argument vector. *)
Theorem plain_line_spawns_one_child garbage input dlim w toks prog :
  strtok input dlim = toks →
  head toks = Some prog →
  Forall (λ t, is_operator t = false) toks →
  length toks ≤ MAX_ARGS →
  w_env w (w_clock w) = true →
  ∃ c w',
    parse_input_and_exec garbage input dlim w = Ret EXEC_SUCCESS w' ∧
    w_children w' = w_children w ++ [c] ∧
    w_trace w' = w_trace w ++ [EFork (c_pid c); EWait] ∧
    w_fds w' = w_fds w ∧
    c_inherited c = w_fds w ∧ c_fds c = w_fds w ∧
    (c_trace c = [EExec prog toks (default [] (w_run w (S (w_clock w))))] ∨
     c_trace c = [EExecFail (Some prog) toks; EPerror (prog +:+ " ");
                  EPerror "execvp()"]).
Proof.
  intros Htok Hhead Hplain Hlen Henv.
  unfold parse_input_and_exec. rewrite Htok. clear Htok input dlim.
  assert (Hrun : reaches garbage w [] (scan_init garbage) w) by constructor.
  apply (reaches_plain _ _ toks) in Hrun; [|done|simpl; bounds].
  simpl in Hrun.
  destruct (after_plain_fields toks (scan_init garbage))
    as (Hc & Hi & _ & _ & _ & Hm & _); [simpl; bounds|].
  simpl in Hc, Hi, Hm.
  set (st := after_plain (scan_init garbage) toks) in *.
  pose proof (parse_tokens_reaches _ _ _ _ _ [] Hrun) as Hp.
  rewrite app_nil_r in Hp. rewrite Hp by bounds. clear Hp.
  destruct (MAX_INPUT - length toks) as [|n] eqn:Hn; [bounds|].
  cbn [scan_loop]. rewrite decide_False by bounds.
  pose proof (reaches_scan_ok _ _ _ _ _ Hrun) as (Hlc & _ & _).
  unfold bind at 1. unfold bind at 1. unfold store.
  rewrite decide_True by bounds.
  unfold ret at 1, go_on, ret at 1. unfold finish. simpl redirect_mode.
  rewrite Hm, decide_True by done. simpl command.
  destruct toks as [|t toks']; [done|]. injection Hhead as ->.
  edestruct (exec_command_regular
               (<[cmd_index st:=None]> (command st)) prog (prog :: toks') w)
    as (s & wc & Hex & Hrun'); [done| | |].
  { rewrite list_lookup_insert_ne by (rewrite Hi; simpl; lia). by rewrite Hc. }
  { rewrite Hc, Hi.
    match goal with
    | |- context [drop ?k ?l] => remember (drop k l) as tail eqn:Htail
    end.
    apply (f_equal length) in Htail. rewrite length_drop in Htail.
    rewrite insert_app_r_alt by (by rewrite length_fmap).
    rewrite length_fmap, Nat.sub_diag.
    destruct tail as [|o tail]; [bounds|].
    apply (argv_of_strings (prog :: toks')). }
  unfold bind. rewrite Hrun'. unfold ret.
  destruct (exec_outcome_exits prog (prog :: toks') (child_world w))
    as (s' & wc' & Hex' & Hfds & Htr).
  rewrite Hex in Hex'. injection Hex' as <- <-.
  eexists _, _. split; [done|]. simpl.
  split; [done|]. split; [by rewrite <- app_assoc|].
  split; [done|]. split; [done|]. split; [done|]. exact Htr.
Qed.

Lemma plain_line_spawns_one_child_witness :
  ∃ c w',
    parse_input_and_exec (0, 0) "ls -l /tmp" " " world0 = Ret EXEC_SUCCESS w' ∧
    w_children w' = w_children world0 ++ [c] ∧
    w_trace w' = w_trace world0 ++ [EFork (c_pid c); EWait] ∧
    w_fds w' = w_fds world0 ∧
    c_inherited c = w_fds world0 ∧ c_fds c = w_fds world0 ∧
    (c_trace c = [EExec "ls" ["ls"; "-l"; "/tmp"]
                    (default [] (w_run world0 (S (w_clock world0))))] ∨
     c_trace c = [EExecFail (Some "ls") ["ls"; "-l"; "/tmp"];
                  EPerror ("ls" +:+ " "); EPerror "execvp()"]).
Proof.
  apply (plain_line_spawns_one_child
           (0, 0) "ls -l /tmp" " " world0 ["ls"; "-l"; "/tmp"] "ls").
  - reflexivity.
  - reflexivity.
  - repeat constructor.
  - simpl. unfold MAX_ARGS. lia.
  - reflexivity.
Defined.

(** C9 as stated fails on a line of eleven plain tokens: it has at least one
    token and no operator, yet no child is spawned. *)
Lemma plain_line_counterexample :
  let line := "a b c d e f g h i j k" in
  strtok line " " = ["a"; "b"; "c"; "d"; "e"; "f"; "g"; "h"; "i"; "j"; "k"] ∧
  forallb is_operator (strtok line " ") = false ∧
  parse_input_and_exec (0, 0) line " " world0
  = Ret EXEC_FAILURE (log (EPrint "Too many args.\n") world0) ∧
  w_children (log (EPrint "Too many args.\n") world0) = [].
Proof. repeat split; vm_compute; reflexivity. Qed.

Lemma too_many_args_per_stage_witness :
  parse_tokens (0, 0)
    ([] ++ ["a"; "b"; "c"; "d"; "e"; "f"; "g"; "h"; "i"; "j"; "k"] ++ ["|"; "wc"])
    world0
  = Ret EXEC_FAILURE (log (EPrint "Too many args.\n") world0) ∧
  (@nil string = [] →
     w_children (log (EPrint "Too many args.\n") world0) = w_children world0 ∧
             w_fds (log (EPrint "Too many args.\n") world0) = w_fds world0).
Proof.
  apply (too_many_args_per_stage (0, 0) world0 [] (scan_init (0, 0)) world0
           ["a"; "b"; "c"; "d"; "e"; "f"; "g"; "h"; "i"; "j"; "k"] ["|"; "wc"]).
  - constructor.
  - repeat constructor.
  - reflexivity.
  - simpl. unfold MAX_INPUT. lia.
Defined.

(** C7 as stated fails: a line of thirteen tokens is not rejected when no
    stage has more than MAX_ARGS of them (seven children run, nothing is
    reported); and when a later stage is too long, the stages before it have
    already been spawned. *)
Lemma too_many_args_counterexample :
  (let line := "a | b | c | d | e | f | g" in
   MAX_ARGS + 1 < length (strtok line " ") ∧
   ∃ w', parse_input_and_exec (0, 0) line " " world0 = Ret EXEC_SUCCESS w' ∧
         length (w_children w') = 7 ∧
         printed "Too many args.\n" w' = false) ∧
  (let line := "a | b c d e f g h i j k l" in
   MAX_ARGS + 1 < length (strtok line " ") ∧
   ∃ w', parse_input_and_exec (0, 0) line " " world0 = Ret EXEC_FAILURE w' ∧
         length (w_children w') = 1 ∧
         printed "Too many args.\n" w' = true).
Proof.
  split.
  - split; [vm_compute; lia|].
    eexists. split; [vm_compute; reflexivity|]. split; vm_compute; reflexivity.
  - split; [vm_compute; lia|].
    eexists. split; [vm_compute; reflexivity|]. split; vm_compute; reflexivity.
Qed.

(** ** End-of-line resolution *)

Lemma bind_assoc {A B C} (m : M A) (k : A → M B) (h : B → M C) w :
  bind (bind m k) h w = bind m (λ a, bind (k a) h) w.
Proof. unfold bind. by destruct (m w). Qed.

Lemma finish_table st file w :
  scan_ok st →
  command st !! 0 = Some (Some file) →
  finish st w = (EndOfLine.run (EndOfLine.table st file) ;;; ret EXEC_SUCCESS) w.
Proof.
  intros Hok H0. unfold finish, EndOfLine.table.
  destruct (redirect_mode st) eqn:Hm; simpl.
  - by rewrite bind_assoc.
  - unfold bind at 1. unfold load. by rewrite H0.
  - unfold bind at 1. unfold load. rewrite H0. unfold ret at 1.
    destruct (input_file st); [done|]. by destruct (output_before_pipe st).
  - unfold bind at 1. unfold load. rewrite H0. unfold ret at 1.
    destruct (input_file st); [done|]. by destruct (output_before_pipe st).
  - unfold bind at 1. unfold load. by rewrite H0.
Qed.

Lemma finish_regular st w :
  redirect_mode st = REG_CMD →
  finish st w
  = (EndOfLine.run (EndOfLine.SingleStage (command st)) ;;; ret EXEC_SUCCESS) w.
Proof.
  intros Hm. unfold finish. rewrite Hm. simpl. by rewrite bind_assoc.
Qed.

Lemma finish_no_file st w :
  scan_ok st → redirect_mode st ≠ REG_CMD → command st !! 0 = Some None →
  finish st w
  = Ret EXEC_FAILURE (log (EPrint "No file for I/O redirection.\n") w).
Proof.
  intros Hok Hm H0. unfold finish. rewrite decide_False by done.
  unfold bind at 1. unfold load. by rewrite H0.
Qed.

(** With a redirection, the single-stage executor is [exec_command] on the
    descriptor that [redirect_io] has just opened, closed afterwards. *)
Lemma redirect_io_exec m (cmd : array) file w fd w1 :
  m = INPUT ∨ m = OUTPUT ∨ m = OUTPUT_APPEND →
  sys_open (Some file)
    (match m with
     | INPUT => O_RDONLY
     | OUTPUT_APPEND => Z.lor (Z.lor O_WRONLY O_CREAT) O_APPEND
     | _ => Z.lor (Z.lor O_WRONLY O_CREAT) O_TRUNC
     end) w = Ret (Some fd) w1 →
  redirect_io m cmd (Some file) true w
  = (exec_command m cmd fd ;;;
     let* ok := sys_close fd in
     if ok then ret tt else perror "close()") w1.
Proof.
  intros Hm Hopen. unfold redirect_io.
  destruct Hm as [->|[->| ->]]; simpl; unfold bind at 1; rewrite Hopen;
    by rewrite bind_assoc.
Qed.

(** C1: when the scan has consumed the whole line without leaving the
    function, the mode at the end of the scan (with, for an output mode, the
    recorded input file and the output-before-pipe flag) selects the executor
    as in the table of the specification: REG_CMD runs exec_command without
    redirection on the argument vector; INPUT runs the single-stage executor
    with input redirection on the pending command and the collected file
    token; an output mode runs exec_redir_bothio if an input file was
    recorded, else output_pipe_redirect if output before a pipe was recorded,
    else the single-stage executor with output redirection; PIPE runs
    output_pipe on the argument vector; the parser then returns EXEC_SUCCESS.
    In a mode other than REG_CMD a missing last token is the parse error
    "No file for I/O redirection." instead. *)
Theorem end_of_line_resolution garbage toks w0 st w :
  scan_loop MAX_INPUT toks (scan_init garbage) w0 = Ret (inl st) w →
  (redirect_mode st = REG_CMD →
   parse_tokens garbage toks w0
   = (EndOfLine.run (EndOfLine.SingleStage (command st)) ;;; ret EXEC_SUCCESS) w) ∧
  (∀ file, command st !! 0 = Some (Some file) →
   parse_tokens garbage toks w0
   = (EndOfLine.run (EndOfLine.table st file) ;;; ret EXEC_SUCCESS) w) ∧
  (redirect_mode st ≠ REG_CMD → command st !! 0 = Some None →
   parse_tokens garbage toks w0
   = Ret EXEC_FAILURE (log (EPrint "No file for I/O redirection.\n") w)) ∧
  (∀ m cmd file fd w1,
     m = INPUT ∨ m = OUTPUT ∨ m = OUTPUT_APPEND →
     sys_open (Some file)
       (match m with
        | INPUT => O_RDONLY
        | OUTPUT_APPEND => Z.lor (Z.lor O_WRONLY O_CREAT) O_APPEND
        | _ => Z.lor (Z.lor O_WRONLY O_CREAT) O_TRUNC
        end) w = Ret (Some fd) w1 →
     EndOfLine.run (match m with
                    | INPUT => EndOfLine.SingleStageInput cmd file
                    | _ => EndOfLine.SingleStageOutput m cmd file
                    end) w
     = (exec_command m cmd fd ;;;
        let* ok := sys_close fd in
        if ok then ret tt else perror "close()") w1).
Proof.
  intros Hscan.
  assert (Hok : scan_ok st).
  { pose proof (spec_scan_loop MAX_INPUT toks _ (scan_init_ok garbage) w0) as Hs.
    by rewrite Hscan in Hs. }
  assert (Hp : parse_tokens garbage toks w0 = finish st w).
  { unfold parse_tokens, bind. by rewrite Hscan. }
  rewrite Hp. split; [|split; [|split]].
  - by apply finish_regular.
  - intros file H0. by apply finish_table.
  - by apply finish_no_file.
  - intros m cmd file fd w1 Hm Hopen.
    rewrite <- (redirect_io_exec m cmd file w fd w1 Hm Hopen).
    by destruct Hm as [->|[->| ->]].
Qed.

Lemma end_of_line_resolution_witness :
  ∃ st w,
    scan_loop MAX_INPUT ["sort"; "<"; "in.txt"; ">>"; "out.txt"] (scan_init (0, 0)) world0
    = Ret (inl st) w ∧
    redirect_mode st = OUTPUT_APPEND ∧
    EndOfLine.table st "out.txt"
    = EndOfLine.DualRedirection OUTPUT_APPEND (redirect_cmd st) "in.txt" "out.txt" ∧
    argv_of (redirect_cmd st) = Some ["sort"] ∧
    parse_tokens (0, 0) ["sort"; "<"; "in.txt"; ">>"; "out.txt"] world0
    = (EndOfLine.run (EndOfLine.table st "out.txt") ;;; ret EXEC_SUCCESS) w.
Proof.
  eexists _, _. split; [vm_compute; reflexivity|].
  split; [reflexivity|]. split; [reflexivity|]. split; [reflexivity|].
  eapply (end_of_line_resolution (0, 0)
            ["sort"; "<"; "in.txt"; ">>"; "out.txt"] world0).
  - vm_compute. reflexivity.
  - reflexivity.
Defined.

(** ** Facts about the operating system model *)

Lemma first_free_spec fuel : ∀ n (t : gmap nat Desc),
  size t ≤ fuel → t !! first_free fuel n t = None ∧ n ≤ first_free fuel n t.
Proof.
  induction fuel as [|fuel IH]; intros n t Hsize; simpl.
  - assert (t = ∅) as -> by (apply map_size_empty_inv; lia). by rewrite lookup_empty.
  - destruct (t !! n) as [d|] eqn:Hn; [|done].
    destruct (IH (S n) (delete n t)) as [Hfree Hle].
    { rewrite map_size_delete, Hn. simpl. lia. }
    split; [|lia]. rewrite lookup_delete_ne in Hfree by lia. done.
Qed.

Lemma lowest_free_fresh (t : gmap nat Desc) : t !! lowest_free t = None.
Proof. by apply first_free_spec. Qed.

Lemma lowest_free_not_open (t : gmap nat Desc) fd :
  is_Some (t !! fd) → lowest_free t ≠ fd.
Proof. intros [d Hd] <-. by rewrite lowest_free_fresh in Hd. Qed.

Lemma open_file_output m file fs :
  open_file file (output_flags m) fs = Some (opened_for_output m file fs).
Proof.
  unfold open_file, opened_for_output.
  destruct (fs !! file) as [old|] eqn:Hf.
  - destruct m; try done. simpl. f_equal. by rewrite insert_id.
  - destruct m; done.
Qed.

Lemma sys_open_output m file w :
  w_env w (w_clock w) = true →
  sys_open (Some file) (output_flags m) w
  = Ret (Some (lowest_free (w_fds w)))
        (log (EOpen file (output_flags m) (lowest_free (w_fds w)))
           (set_fds (<[lowest_free (w_fds w) := DFile file (output_flags m)]> (w_fds w))
              (set_files (opened_for_output m file (w_files w)) (tick w)))).
Proof.
  intros Henv. unfold sys_open. by rewrite Henv, open_file_output.
Qed.

(** redirect_io without execution, in an output mode: the file is created
    or, for OUTPUT, emptied, and nothing else changes. *)
Lemma redirect_io_touch m cmd file w :
  is_output m = true →
  w_env w (w_clock w) = true →
  ∃ w', redirect_io m cmd (Some file) false w = Ret tt w' ∧
        w_files w' = opened_for_output m file (w_files w) ∧
        w_fds w' = w_fds w ∧
        w_children w' = w_children w ∧
        w_npipes w' = w_npipes w ∧
        w_clock w' = S (w_clock w) ∧
        w_env w' = w_env w ∧ w_run w' = w_run w ∧
        w_trace w' = w_trace w ++
          [EOpen file (output_flags m) (lowest_free (w_fds w));
           EClose (lowest_free (w_fds w)) (DFile file (output_flags m))].
Proof.
  intros Hm Henv. unfold redirect_io.
  assert (Hflags :
    (if decide (m = INPUT) then O_RDONLY
     else if decide (m = OUTPUT) then Z.lor (Z.lor O_WRONLY O_CREAT) O_TRUNC
     else if decide (m = OUTPUT_APPEND) then Z.lor (Z.lor O_WRONLY O_CREAT) O_APPEND
     else Z.lor O_WRONLY O_CREAT) = output_flags m) by (by destruct m).
  rewrite Hflags.
  replace (bool_decide (m = INPUT) && negb false) with false by (by destruct m).
  unfold bind at 1. rewrite sys_open_output by done.
  unfold bind, ret, sys_close. simpl w_fds.
  rewrite lookup_insert_eq. eexists. split; [done|]. simpl.
  rewrite delete_insert_id by apply lowest_free_fresh.
  repeat split; try done. by rewrite <- app_assoc.
Qed.

Lemma write_out_opened m file out fs :
  write_out (DFile file (output_flags m)) out (opened_for_output m file fs)
  = after_output m file out fs.
Proof.
  unfold write_out, opened_for_output, after_output.
  destruct m; simpl; rewrite lookup_insert_eq, insert_insert_eq;
    rewrite ?drop_nil, ?app_nil_r; done.
Qed.

Lemma after_output_nil m file fs :
  opened_for_output m file fs = after_output m file [] fs.
Proof.
  unfold opened_for_output, after_output. destruct m; by rewrite ?app_nil_r.
Qed.

(** exec_command with output redirection to an open descriptor. *)
Lemma exec_command_output_run m (cmd : array) prog args fd d w :
  is_output m = true →
  w_env w (w_clock w) = true →
  w_fds w !! fd = Some d → fd ≠ STDOUT_FILENO →
  cmd !! 0 = Some (Some prog) →
  argv_of cmd = Some args →
  ∃ c w',
    exec_command m cmd fd w = Ret EXEC_SUCCESS w' ∧
    w_files w' = match w_run w (S (w_clock w)) with
                 | Some out => write_out d out (w_files w)
                 | None => w_files w
                 end ∧
    w_fds w' = w_fds w ∧
    w_children w' = w_children w ++ [c] ∧
    w_npipes w' = w_npipes w ∧
    w_clock w' = S (S (w_clock w)) ∧
    w_env w' = w_env w ∧ w_run w' = w_run w ∧
    w_trace w' = w_trace w ++ [EFork (c_pid c); EWait] ∧
    c_fds c !! STDOUT_FILENO = Some d ∧
    (c_trace c = [EDup2 fd STDOUT_FILENO; EClose fd d;
                  EExec prog args (default [] (w_run w (S (w_clock w))))] ∨
     c_trace c = [EDup2 fd STDOUT_FILENO; EClose fd d;
                  EExecFail (Some prog) args; EPerror (prog +:+ " ");
                  EPerror "execvp()"]).
Proof.
  intros Hm Henv Hfd Hne H0 Ha.
  unfold exec_command, bind, sys_fork. rewrite Henv.
  rewrite decide_True by (by destruct m).
  rewrite decide_False by (by destruct m).
  rewrite decide_True by (destruct m; try done; auto).
  unfold ret, sys_dup2. simpl w_fds. rewrite Hfd.
  rewrite decide_False by done.
  unfold sys_close. simpl w_fds. rewrite lookup_insert_ne by done. rewrite Hfd.
  unfold load. rewrite H0. unfold ret.
  rewrite (execvp_run cmd prog args) by done.
  unfold exec_outcome. simpl w_run. simpl w_clock. simpl w_fds.
  rewrite lookup_delete_ne by done. rewrite lookup_insert_eq.
  destruct (w_run w (S (w_clock w))) as [out|].
  - eexists _, _. split; [done|]. simpl.
    repeat split; try done; simpl.
    + by rewrite <- app_assoc.
    + by rewrite lookup_delete_ne, lookup_insert_eq.
    + by left.
  - eexists _, _. split; [done|]. simpl.
    repeat split; try done; simpl.
    + by rewrite <- app_assoc.
    + by rewrite lookup_delete_ne, lookup_insert_eq.
    + by right.
Qed.

(** The single-stage executor with output redirection. *)
Lemma redirect_io_output_run m (cmd : array) prog args file w :
  is_output m = true →
  w_env w (w_clock w) = true →
  w_env w (S (w_clock w)) = true →
  is_Some (w_fds w !! STDOUT_FILENO) →
  cmd !! 0 = Some (Some prog) →
  argv_of cmd = Some args →
  ∃ c w',
    redirect_io m cmd (Some file) true w = Ret tt w' ∧
    w_files w'
    = after_output m file (default [] (w_run w (S (S (w_clock w))))) (w_files w) ∧
    w_fds w' = w_fds w ∧
    w_children w' = w_children w ++ [c] ∧
    w_npipes w' = w_npipes w ∧
    w_clock w' = S (S (S (w_clock w))) ∧
    w_env w' = w_env w ∧ w_run w' = w_run w ∧
    c_fds c !! STDOUT_FILENO = Some (DFile file (output_flags m)) ∧
    (∃ fd, w_trace w' = w_trace w ++
             [EOpen file (output_flags m) fd; EFork (c_pid c); EWait;
              EClose fd (DFile file (output_flags m))]) ∧
    (∃ fd d, c_trace c = [EDup2 fd STDOUT_FILENO; EClose fd d;
                          EExec prog args (default [] (w_run w (S (S (w_clock w)))))] ∨
             c_trace c = [EDup2 fd STDOUT_FILENO; EClose fd d;
                          EExecFail (Some prog) args; EPerror (prog +:+ " ");
                          EPerror "execvp()"]).
Proof.
  intros Hm Henv0 Henv1 Hout H0 Ha. unfold redirect_io.
  assert (Hflags :
    (if decide (m = INPUT) then O_RDONLY
     else if decide (m = OUTPUT) then Z.lor (Z.lor O_WRONLY O_CREAT) O_TRUNC
     else if decide (m = OUTPUT_APPEND) then Z.lor (Z.lor O_WRONLY O_CREAT) O_APPEND
     else Z.lor O_WRONLY O_CREAT) = output_flags m) by (by destruct m).
  rewrite Hflags.
  replace (bool_decide (m = INPUT) && negb true) with false
    by (by rewrite andb_false_r).
  unfold bind at 1. rewrite sys_open_output by done.
  set (fd := lowest_free (w_fds w)).
  set (w1 := log _ _).
  destruct (exec_command_output_run m cmd prog args fd
              (DFile file (output_flags m)) w1)
    as (c & w2 & Hrun & Hfiles & Hfds & Hch & Hnp & Hclk & He & Hr & Htr & Hc1 & Hct);
    [done|done|apply lookup_insert_eq|by apply lowest_free_not_open|done|done|].
  unfold bind. rewrite Hrun. unfold ret, sys_close. rewrite Hfds. simpl w_fds.
  rewrite lookup_insert_eq. exists c. eexists. split; [done|]. simpl.
  rewrite Hch, Hnp, Hclk, He, Hr, Htr, Hfiles. simpl.
  rewrite delete_insert_id by apply lowest_free_fresh.
  split; [|repeat split; try done].
  - destruct (w_run w (S (S (w_clock w)))) as [out|]; simpl.
    + apply write_out_opened.
    + apply after_output_nil.
  - exists fd. by rewrite <- !app_assoc.
  - exists fd, (DFile file (output_flags m)).
    destruct Hct as [Hct|Hct]; [left|right]; done.
Qed.

(** ** Lines with output redirection *)

Lemma output_mode_of_is_output token : is_output (output_mode_of token) = true.
Proof. unfold output_mode_of. by destruct (String.eqb token ">>"). Qed.

Lemma scan_token_redirect_unfold token st :
  token = ">" ∨ token = ">>" →
  scan_token token st =
    (if decide (redirect_mode st = INPUT) then
       let* c0 := load (command st) 0 in
       match c0 with
       | None => printf "No file for input redirection." ;;; leave_with EXEC_FAILURE
       | Some _ =>
           go_on (mkScan (command st) (redirect_cmd st) c0 (output_before_pipe st)
                         0 (output_mode_of token) (pipe_fds st))
       end
     else if decide (redirect_mode st = OUTPUT ∨ redirect_mode st = OUTPUT_APPEND) then
       let* c0 := load (command st) 0 in
       match c0 with
       | None => printf "No file for output redirection." ;;; leave_with EXEC_FAILURE
       | Some _ =>
           redirect_io (redirect_mode st) NULL_command c0 false ;;;
           go_on (mkScan (command st) (redirect_cmd st) (input_file st)
                         (output_before_pipe st) 0 (output_mode_of token) (pipe_fds st))
       end
     else
       let obp := if decide (redirect_mode st = PIPE) then true
                  else output_before_pipe st in
       let* dc := save_command (redirect_cmd st) (command st) (cmd_index st) in
       go_on (mkScan (snd dc) (fst dc) (input_file st) obp 0 (output_mode_of token)
                     (pipe_fds st))).
Proof. by intros [->| ->]. Qed.

(** A ">" or ">>" met in mode REG_CMD or PIPE saves the command. *)
Lemma redirect_token_saves token st w :
  token = ">" ∨ token = ">>" →
  redirect_mode st = REG_CMD ∨ redirect_mode st = PIPE →
  scan_ok st → cmd_index st ≤ MAX_ARGS →
  scan_token token st w
  = Ret (inl (mkScan (<[0 := None]> (<[cmd_index st := None]> (command st)))
                     (saved (redirect_cmd st) (command st) (cmd_index st))
                     (input_file st)
                     (if decide (redirect_mode st = PIPE) then true
                      else output_before_pipe st)
                     0 (output_mode_of token) (pipe_fds st))) w.
Proof.
  intros Htok Hm (Hc & Hr & _) Hi. rewrite scan_token_redirect_unfold by done.
  rewrite decide_False by (by destruct Hm as [-> | ->]).
  rewrite decide_False by (by destruct Hm as [-> | ->]; intros [|]).
  unfold bind. by rewrite save_command_run.
Qed.

(** A ">" or ">>" met in an output mode opens the collected file at once. *)
Lemma redirect_token_touches token st file w :
  token = ">" ∨ token = ">>" →
  is_output (redirect_mode st) = true →
  command st !! 0 = Some (Some file) →
  scan_token token st w
  = (redirect_io (redirect_mode st) NULL_command (Some file) false ;;;
     go_on (mkScan (command st) (redirect_cmd st) (input_file st)
                   (output_before_pipe st) 0 (output_mode_of token) (pipe_fds st))) w.
Proof.
  intros Htok Hm H0. rewrite scan_token_redirect_unfold by done.
  rewrite decide_False by (by destruct (redirect_mode st)).
  rewrite decide_True by (destruct (redirect_mode st); try done; auto).
  unfold bind at 1. unfold load. by rewrite H0.
Qed.

Lemma redirect_token_no_file token st w :
  token = ">" ∨ token = ">>" →
  is_output (redirect_mode st) = true →
  command st !! 0 = Some None →
  scan_token token st w
  = Ret (inr EXEC_FAILURE) (log (EPrint "No file for output redirection.") w).
Proof.
  intros Htok Hm H0. rewrite scan_token_redirect_unfold by done.
  rewrite decide_False by (by destruct (redirect_mode st)).
  rewrite decide_True by (destruct (redirect_mode st); try done; auto).
  unfold bind at 1. unfold load. by rewrite H0.
Qed.

(** The end of the line at a scan position. *)
Lemma parse_tokens_end garbage w0 toks st w :
  reaches garbage w0 toks st w →
  length toks < MAX_INPUT → cmd_index st ≤ MAX_ARGS →
  parse_tokens garbage toks w0
  = finish (mkScan (<[cmd_index st := None]> (command st)) (redirect_cmd st)
                   (input_file st) (output_before_pipe st) (cmd_index st)
                   (redirect_mode st) (pipe_fds st)) w.
Proof.
  intros Hpos Hlen Hi.
  pose proof (parse_tokens_reaches _ _ _ _ _ [] Hpos) as Hp.
  rewrite app_nil_r in Hp. rewrite Hp by lia. clear Hp.
  destruct (MAX_INPUT - length toks) as [|n] eqn:Hn; [lia|].
  cbn [scan_loop]. rewrite decide_False by lia.
  pose proof (reaches_scan_ok _ _ _ _ _ Hpos) as (Hc & _ & _).
  unfold bind, store. by rewrite decide_True by bounds.
Qed.

Lemma reaches_redirected garbage w cmd_toks prog op file :
  head cmd_toks = Some prog →
  Forall (λ t, is_operator t = false) cmd_toks →
  length cmd_toks ≤ MAX_ARGS →
  op = ">" ∨ op = ">>" →
  is_operator file = false →
  ∃ st, reaches garbage w (cmd_toks ++ [op; file]) st w ∧
        redirected st (output_mode_of op) cmd_toks prog file.
Proof.
  intros Hhead Hplain Hlen Hop Hfile.
  assert (H0 : reaches garbage w [] (scan_init garbage) w) by constructor.
  apply (reaches_plain _ _ cmd_toks) in H0; [|done|simpl; bounds].
  simpl in H0.
  destruct (after_plain_fields cmd_toks (scan_init garbage))
    as (Hc & Hi & Hrc & Hif & Hobp & Hm & _); [simpl; bounds|].
  simpl in Hc, Hi, Hrc, Hif, Hobp, Hm.
  set (st1 := after_plain (scan_init garbage) cmd_toks) in *.
  pose proof (reaches_scan_ok _ _ _ _ _ H0) as Hok1.
  assert (Hlt : cmd_index st1 < MAX_ARGS + 1) by bounds.
  assert (Hle : cmd_index st1 ≤ MAX_ARGS) by bounds.
  pose proof (reaches_step _ _ _ _ _ _ _ _ H0 Hlt
                (redirect_token_saves op st1 w Hop (or_introl Hm) Hok1 Hle)) as H1.
  rewrite Hm, Hif, Hobp, Hi in H1. simpl in H1.
  match type of H1 with
  | reaches _ _ _ ?s _ => set (st2 := s) in *
  end.
  assert (H2 : reaches garbage w ((cmd_toks ++ [op]) ++ [file])
                 (after_plain st2 [file]) w).
  { apply reaches_plain; [done|by constructor|simpl; bounds]. }
  rewrite <- app_assoc in H2. subst st2. simpl in H2.
  eexists. split; [exact H2|].
  destruct Hok1 as (Hlc & Hlr & _).
  assert (Hsaved : saved (redirect_cmd st1) (command st1) (length cmd_toks)
                   = (Some <$> cmd_toks) ++ None :: drop (S (length cmd_toks)) (redirect_cmd st1)).
  { unfold saved. f_equal. rewrite Hc.
    rewrite take_app_length'; [done|by rewrite length_fmap]. }
  unfold redirected. simpl. rewrite Hsaved.
  split; [done|]. split; [done|]. split.
  { apply list_lookup_insert_eq. rewrite !length_insert, Hlc. bounds. }
  split.
  { destruct cmd_toks as [|t ts]; [done|]. simpl in Hhead. by injection Hhead as ->. }
  split; [apply argv_of_strings|done].
Qed.

(** A line [cmd_toks op file]: the single-stage executor with output
    redirection runs on the saved command. *)
Lemma output_line_runs garbage w cmd_toks prog op file :
  head cmd_toks = Some prog →
  Forall (λ t, is_operator t = false) cmd_toks →
  length cmd_toks ≤ MAX_ARGS →
  op = ">" ∨ op = ">>" →
  is_operator file = false →
  ∃ rc, rc !! 0 = Some (Some prog) ∧ argv_of rc = Some cmd_toks ∧
        parse_tokens garbage (cmd_toks ++ [op; file]) w
        = (redirect_io (output_mode_of op) rc (Some file) true ;;; ret EXEC_SUCCESS) w.
Proof.
  intros Hhead Hplain Hlen Hop Hfile.
  destruct (reaches_redirected garbage w cmd_toks prog op file)
    as (st & Hpos & Hm & Hi & H0 & Hr0 & Hargv & Hif & Hobp); try done.
  exists (redirect_cmd st). split; [done|]. split; [done|].
  rewrite (parse_tokens_end _ _ _ _ _ Hpos);
    [|rewrite length_app; simpl; bounds|rewrite Hi; bounds].
  pose proof (reaches_scan_ok _ _ _ _ _ Hpos) as (Hlc & _ & _).
  unfold finish. simpl. rewrite Hm, Hi, Hif, Hobp.
  pose proof (output_mode_of_is_output op) as Hout.
  rewrite decide_False by (by destruct (output_mode_of op)).
  unfold bind at 1. unfold load.
  rewrite list_lookup_insert_ne by done. rewrite H0. unfold ret at 1.
  rewrite decide_False by (by destruct (output_mode_of op)).
  rewrite decide_True by (destruct (output_mode_of op); try done; auto).
  done.
Qed.

(** ** Which files are opened, and how *)

Section OpensOnly.
Context (S : string → Z → Prop).

Lemma oo_same w w' :
  w_trace w' = w_trace w → w_children w' = w_children w → oo_post S w w'.
Proof. intros Ht Hc. exists [], []. rewrite !app_nil_r. done. Qed.

Lemma oo_event e w w' :
  opens S e →
  w_trace w' = w_trace w ++ [e] → w_children w' = w_children w → oo_post S w w'.
Proof.
  intros He Ht Hc. exists [e], []. rewrite !app_nil_r. repeat split; auto.
Qed.

Lemma oo_ret {A} (a : A) : opens_only S (ret a).
Proof. intros w. by apply oo_same. Qed.

Lemma oo_fault {A} : opens_only S (@fault A).
Proof. by intros w. Qed.

Lemma oo_bind {A B} (m : M A) (k : A → M B) :
  opens_only S m → (∀ a, opens_only S (k a)) → opens_only S (bind m k).
Proof.
  intros Hm Hk w. specialize (Hm w). unfold bind.
  destruct (m w) as [a w1|s w1| |w1]; [| |done|].
  - destruct Hm as (tr1 & cs1 & Ht1 & Hc1 & Hf1 & Hg1).
    specialize (Hk a w1).
    destruct (k a w1) as [b w2|s w2| |w2]; [| |done|];
      destruct Hk as (tr2 & cs2 & Ht2 & Hc2 & Hf2 & Hg2);
      exists (tr1 ++ tr2), (cs1 ++ cs2);
      rewrite Ht2, Ht1, Hc2, Hc1, !app_assoc, !Forall_app; done.
  - done.
  - done.
Qed.

Lemma oo_printf s : opens_only S (printf s).
Proof. intros w. by apply (oo_event (EPrint s)). Qed.
Lemma oo_perror s : opens_only S (perror s).
Proof. intros w. by apply (oo_event (EPerror s)). Qed.
Lemma oo_sys_exit {A} s : opens_only S (@sys_exit A s).
Proof. intros w. by apply oo_same. Qed.
Lemma oo_perror_exit {A} s : opens_only S (@perror_exit A s).
Proof. apply oo_bind; [apply oo_perror|intros _; apply oo_sys_exit]. Qed.
Lemma oo_sys_wait : opens_only S sys_wait.
Proof. intros w. by apply (oo_event EWait). Qed.
Lemma oo_load (a : array) i : opens_only S (load a i).
Proof. intros w. unfold load. destruct (a !! i); [|done]. by apply oo_same. Qed.
Lemma oo_store (a : array) i v : opens_only S (store a i v).
Proof.
  intros w. unfold store. destruct (decide (i < length a)); [|done].
  by apply oo_same.
Qed.
Lemma oo_sys_pipe : opens_only S sys_pipe.
Proof.
  intros w. unfold sys_pipe. destruct (w_env w (w_clock w)).
  - by eapply (oo_event (EPipe _ _ _)).
  - by apply oo_same.
Qed.
Lemma oo_sys_close fd : opens_only S (sys_close fd).
Proof.
  intros w. unfold sys_close. destruct (w_fds w !! fd).
  - by eapply (oo_event (EClose _ _)).
  - by apply oo_same.
Qed.
Lemma oo_sys_dup2 fd fd' : opens_only S (sys_dup2 fd fd').
Proof.
  intros w. unfold sys_dup2. destruct (w_fds w !! fd).
  - eapply (oo_event (EDup2 _ _)); [done| |]; by destruct (decide (fd = fd')).
  - by apply oo_same.
Qed.
Lemma oo_sys_execvp prog argv : opens_only S (sys_execvp prog argv).
Proof.
  intros w. unfold sys_execvp. destruct argv as [args|]; [|done].
  destruct prog as [p|]; [destruct (w_run w (w_clock w)) as [out|]|].
  - by eapply (oo_event (EExec _ _ _)).
  - by eapply (oo_event (EExecFail _ _)).
  - by eapply (oo_event (EExecFail _ _)).
Qed.
Lemma oo_sys_open path flags :
  (∀ p, path = Some p → S p flags) → opens_only S (sys_open path flags).
Proof.
  intros HS w. unfold sys_open. destruct path as [p|].
  - destruct (w_env w (w_clock w)); [|by apply oo_same].
    destruct (open_file p flags (w_files w)); [|by apply oo_same].
    eapply (oo_event (EOpen _ _ _)); [|done|done]. by apply HS.
  - by apply oo_same.
Qed.
Lemma oo_sys_fork child : opens_only S child → opens_only S (sys_fork child).
Proof.
  intros Hchild w. unfold sys_fork. destruct (w_env w (w_clock w)).
  - specialize (Hchild (child_world w)). simpl in Hchild.
    destruct (child (child_world w)) as [a wc|s wc| |wc].
    + destruct Hchild as (tr & cs & Ht & _ & Hf & _). simpl in Ht.
      eexists [EFork _], [mkChild _ _ _ _ _].
      simpl. rewrite Ht. repeat split; repeat constructor; auto.
    + destruct Hchild as (tr & cs & Ht & _ & Hf & _). simpl in Ht.
      eexists [EFork _], [mkChild _ _ _ _ _].
      simpl. rewrite Ht. repeat split; repeat constructor; auto.
    + eexists [EFork _], [mkChild _ _ _ _ _].
      simpl. repeat split; repeat constructor; auto.
    + destruct Hchild as (tr & cs & Ht & _ & Hf & _). simpl in Ht.
      eexists [EFork _], [mkChild _ _ _ _ _].
      simpl. rewrite Ht. repeat split; repeat constructor; auto.
  - by apply oo_same.
Qed.
End OpensOnly.

Lemma opens_only_weaken {A} (S S' : string → Z → Prop) (m : M A) :
  (∀ p flags, S p flags → S' p flags) → opens_only S m → opens_only S' m.
Proof.
  intros HS Hm w. specialize (Hm w).
  assert (He : ∀ e, opens S e → opens S' e) by (intros []; simpl; auto).
  destruct (m w) as [a w'|s w'| |w']; [| |done|];
    destruct Hm as (tr & cs & Ht & Hc & Hf & Hg);
    exists tr, cs; repeat split; auto.
  - eapply Forall_impl; [exact Hf|done].
  - eapply Forall_impl; [exact Hg|]. intros c Hc'. simpl in *.
    eapply Forall_impl; [exact Hc'|done].
  - eapply Forall_impl; [exact Hf|done].
  - eapply Forall_impl; [exact Hg|]. intros c Hc'. simpl in *.
    eapply Forall_impl; [exact Hc'|done].
  - eapply Forall_impl; [exact Hf|done].
  - eapply Forall_impl; [exact Hg|]. intros c Hc'. simpl in *.
    eapply Forall_impl; [exact Hc'|done].
Qed.

Ltac oo_walk :=
  repeat first
    [ apply oo_ret | apply oo_fault | apply oo_printf | apply oo_perror
    | apply oo_sys_exit | apply oo_perror_exit | apply oo_sys_wait
    | apply oo_load | apply oo_store | apply oo_sys_pipe | apply oo_sys_close
    | apply oo_sys_dup2 | apply oo_sys_execvp
    | apply oo_sys_fork
    | apply oo_bind; [| intros ?]
    | match goal with
      | |- opens_only _ (match ?x with _ => _ end) => destruct x
      | |- opens_only _ (if ?b then _ else _) => destruct b
      end ].

Lemma output_flags_of_eq m : output_flags_of m = output_flags m.
Proof. by destruct m. Qed.

Lemma oo_close_pipes S fds : opens_only S (close_pipes fds).
Proof. unfold close_pipes. oo_walk. Qed.

Lemma oo_execvp_and_handle_error S prog argv :
  opens_only S (execvp_and_handle_error prog argv).
Proof. unfold execvp_and_handle_error. oo_walk. Qed.

Lemma oo_exec_command S m cmd fd : opens_only S (exec_command m cmd fd).
Proof.
  unfold exec_command. oo_walk.
Qed.

Lemma oo_redirect_io m cmd file e :
  m = INPUT ∨ m = OUTPUT ∨ m = OUTPUT_APPEND →
  opens_only (λ p flags, file = Some p ∧ flags = flags_of m)
             (redirect_io m cmd file e).
Proof.
  intros Hm. unfold redirect_io.
  destruct (bool_decide (m = INPUT) && negb e); [apply oo_ret|].
  apply oo_bind.
  - apply oo_sys_open. intros p ->. split; [done|].
    by destruct Hm as [->|[->| ->]].
  - intros [fd|]; [|apply oo_perror].
    oo_walk.
Qed.

Lemma oo_exec_redir_bothio m cmd infile outfile :
  opens_only (λ p flags, (infile = Some p ∧ flags = O_RDONLY) ∨
                         (outfile = Some p ∧ flags = output_flags m))
             (exec_redir_bothio m cmd infile outfile).
Proof.
  unfold exec_redir_bothio. apply oo_bind; [|intros ?; oo_walk].
  apply oo_sys_fork. apply oo_bind.
  { apply oo_sys_open. intros p ->. by left. }
  intros [input_fd|]; [|apply oo_perror_exit].
  apply oo_bind.
  { apply oo_sys_open. intros p ->. right. by rewrite output_flags_of_eq. }
  intros [output_fd|]; [|apply oo_perror_exit].
  oo_walk.
Qed.

Lemma oo_input_pipe S cmd : opens_only S (input_pipe cmd).
Proof.
  unfold input_pipe. oo_walk.
Qed.

Lemma oo_inter_pipe S fds cmd : opens_only S (inter_pipe fds cmd).
Proof.
  unfold inter_pipe. oo_walk.
Qed.

Lemma oo_output_pipe S fds cmd : opens_only S (output_pipe fds cmd).
Proof.
  unfold output_pipe. oo_walk.
Qed.

Lemma oo_input_pipe_redirect cmd infile :
  opens_only (λ p flags, infile = Some p ∧ flags = O_RDONLY)
             (input_pipe_redirect cmd infile).
Proof.
  unfold input_pipe_redirect. apply oo_bind; [apply oo_sys_pipe|].
  intros [fds|]; [|apply oo_perror_exit].
  apply oo_bind; [|intros ?; oo_walk].
  apply oo_sys_fork. apply oo_bind.
  { apply oo_sys_open. by intros p ->. }
  intros [input_fd|]; [|apply oo_perror_exit].
  oo_walk.
Qed.

Lemma oo_output_pipe_redirect fds m cmd outfile :
  opens_only (λ p flags, outfile = Some p ∧ flags = output_flags m)
             (output_pipe_redirect fds m cmd outfile).
Proof.
  unfold output_pipe_redirect. apply oo_bind.
  - apply oo_sys_fork. apply oo_bind.
    { apply oo_sys_open. intros p ->. by rewrite output_flags_of_eq. }
    intros [output_fd|]; [|apply oo_perror_exit].
    oo_walk.
  - intros ?. oo_walk.
Qed.

Lemma flags_of_redirection m : redirection_flags (flags_of m).
Proof. destruct m; unfold redirection_flags; simpl; auto. Qed.

Lemma output_flags_redirection m : redirection_flags (output_flags m).
Proof. destruct m; unfold redirection_flags; simpl; auto. Qed.

Lemma oo_save_command_copy S n : ∀ i dest command,
  opens_only S (save_command_copy n i dest command).
Proof.
  induction n as [|n IH]; intros i dest command; simpl; [apply oo_ret|].
  apply oo_bind; [apply oo_load|]. intros v.
  apply oo_bind; [apply oo_store|]. intros d. apply IH.
Qed.

Lemma oo_save_command S dest command idx :
  opens_only S (save_command dest command idx).
Proof.
  unfold save_command.
  apply oo_bind; [apply oo_store|]. intros c.
  apply oo_bind; [apply oo_save_command_copy|]. intros d. oo_walk.
Qed.

Lemma oo_scan_token token st : opens_only any_file (scan_token token st).
Proof.
  assert (Hio : ∀ m cmd file e,
            m = INPUT ∨ m = OUTPUT ∨ m = OUTPUT_APPEND →
            opens_only any_file (redirect_io m cmd file e)).
  { intros m cmd file e Hm.
    eapply opens_only_weaken; [|by apply oo_redirect_io].
    intros p flags [_ ->]. apply flags_of_redirection. }
  assert (Hip : ∀ cmd file, opens_only any_file (input_pipe_redirect cmd file)).
  { intros cmd file.
    eapply opens_only_weaken; [|by apply oo_input_pipe_redirect].
    intros p flags [_ ->]. by left. }
  unfold scan_token, go_on, leave_with.
  destruct (String.eqb token "<").
  { destruct (decide (redirect_mode st ≠ REG_CMD)); [oo_walk|].
    apply oo_bind; [apply oo_save_command|]. intros dc. apply oo_ret. }
  destruct (String.eqb token ">" || String.eqb token ">>").
  { destruct (decide (redirect_mode st = INPUT)); [oo_walk|].
    destruct (decide (redirect_mode st = OUTPUT ∨ redirect_mode st = OUTPUT_APPEND))
      as [Hm|Hm].
    - apply oo_bind; [apply oo_load|]. intros [f|]; [|oo_walk].
      apply oo_bind; [apply Hio; tauto|]. intros _. apply oo_ret.
    - apply oo_bind; [apply oo_save_command|]. intros dc. apply oo_ret. }
  destruct (String.eqb token "|").
  { destruct (decide (redirect_mode st = OUTPUT ∨ redirect_mode st = OUTPUT_APPEND));
      [oo_walk|].
    destruct (decide (redirect_mode st = PIPE)).
    - apply oo_bind; [apply oo_load|]. intros [f|]; [|oo_walk].
      apply oo_bind; [apply oo_store|]. intros cmd.
      apply oo_bind; [apply oo_inter_pipe|]. intros fds. apply oo_ret.
    - destruct (decide (redirect_mode st = INPUT)).
      + apply oo_bind; [apply oo_load|]. intros c0.
        apply oo_bind; [apply Hip|]. intros fds. apply oo_ret.
      + apply oo_bind; [apply oo_store|]. intros cmd.
        apply oo_bind; [apply oo_input_pipe|]. intros fds. apply oo_ret. }
  oo_walk.
Qed.

Lemma oo_scan_loop n : ∀ toks st, opens_only any_file (scan_loop n toks st).
Proof.
  induction n as [|n IH]; intros toks st; cbn [scan_loop]; [apply oo_ret|].
  destruct (decide (MAX_ARGS + 1 ≤ cmd_index st)); [unfold leave_with; oo_walk|].
  destruct toks as [|token rest]; [unfold go_on; oo_walk|].
  apply oo_bind; [apply oo_scan_token|].
  intros [st'|code]; [apply IH|apply oo_ret].
Qed.

Lemma oo_finish st : opens_only any_file (finish st).
Proof.
  unfold finish.
  destruct (decide (redirect_mode st = REG_CMD)).
  { apply oo_bind; [apply oo_exec_command|]. intros _. apply oo_ret. }
  apply oo_bind; [apply oo_load|]. intros [f|]; [|oo_walk].
  apply oo_bind; [|intros _; apply oo_ret].
  destruct (decide (redirect_mode st = INPUT)).
  { eapply opens_only_weaken; [|apply oo_redirect_io; tauto].
    intros p flags [_ ->]. apply flags_of_redirection. }
  destruct (decide (redirect_mode st = OUTPUT ∨ redirect_mode st = OUTPUT_APPEND)).
  { destruct (input_file st).
    - eapply opens_only_weaken; [|apply oo_exec_redir_bothio].
      intros p flags [[_ ->]|[_ ->]]; [by left|apply output_flags_redirection].
    - destruct (output_before_pipe st).
      + eapply opens_only_weaken; [|apply oo_output_pipe_redirect].
        intros p flags [_ ->]. apply output_flags_redirection.
      + eapply opens_only_weaken; [|apply oo_redirect_io; tauto].
        intros p flags [_ ->]. apply flags_of_redirection. }
  destruct (decide (redirect_mode st = PIPE)); [apply oo_output_pipe|apply oo_ret].
Qed.

Lemma oo_parse garbage input dlim :
  opens_only any_file (parse_input_and_exec garbage input dlim).
Proof.
  unfold parse_input_and_exec, parse_tokens.
  apply oo_bind; [apply oo_scan_loop|].
  intros [st|code]; [apply oo_finish|apply oo_ret].
Qed.

(** One run of a line [cmd_toks op file]. *)
Lemma output_line_result garbage w cmd_toks prog op file :
  head cmd_toks = Some prog →
  Forall (λ t, is_operator t = false) cmd_toks →
  length cmd_toks ≤ MAX_ARGS →
  op = ">" ∨ op = ">>" →
  is_operator file = false →
  w_env w (w_clock w) = true →
  w_env w (S (w_clock w)) = true →
  is_Some (w_fds w !! STDOUT_FILENO) →
  ∃ c w',
    parse_tokens garbage (cmd_toks ++ [op; file]) w = Ret EXEC_SUCCESS w' ∧
    w_files w' = after_output (output_mode_of op) file
                   (default [] (w_run w (S (S (w_clock w))))) (w_files w) ∧
    w_fds w' = w_fds w ∧
    w_children w' = w_children w ++ [c] ∧
    w_clock w' = S (S (S (w_clock w))) ∧
    w_env w' = w_env w ∧ w_run w' = w_run w ∧
    c_fds c !! STDOUT_FILENO = Some (DFile file (output_flags (output_mode_of op))) ∧
    ∃ fd, w_trace w' = w_trace w ++
            [EOpen file (output_flags (output_mode_of op)) fd; EFork (c_pid c); EWait;
             EClose fd (DFile file (output_flags (output_mode_of op)))].
Proof.
  intros Hhead Hplain Hlen Hop Hfile He0 He1 Hout.
  destruct (output_line_runs garbage w cmd_toks prog op file)
    as (rc & Hrc0 & Hargv & Hparse); try done.
  destruct (redirect_io_output_run (output_mode_of op) rc prog cmd_toks file w)
    as (c & w' & Hrun & Hfiles & Hfds & Hch & _ & Hclk & Henv & Hrn & Hc1 & Htr & _);
    try done; [apply output_mode_of_is_output|].
  exists c, w'. rewrite Hparse. unfold bind. rewrite Hrun. done.
Qed.

(** X27: the shell and its children never open a file in another way than
    the three of its redirections: whatever the line and whatever the
    system answers, every open made while parse_input_and_exec handles it,
    by the shell or by a child, has flags O_RDONLY, O_WRONLY|O_CREAT|O_TRUNC
    or O_WRONLY|O_CREAT|O_APPEND.  Each executor opens nothing but the files
    it is given, the input file read-only and the output file with the
    flags of its mode. *)
Theorem opens_use_redirection_flags :
  (∀ garbage input dlim,
     opens_only (λ _ flags, redirection_flags flags)
                (parse_input_and_exec garbage input dlim)) ∧
  (∀ m cmd file e,
     m = INPUT ∨ m = OUTPUT ∨ m = OUTPUT_APPEND →
     opens_only (λ p flags, file = Some p ∧ flags = flags_of m)
                (redirect_io m cmd file e)) ∧
  (∀ m cmd infile outfile,
     m = OUTPUT ∨ m = OUTPUT_APPEND →
     opens_only (λ p flags, (infile = Some p ∧ flags = flags_of INPUT) ∨
                            (outfile = Some p ∧ flags = flags_of m))
                (exec_redir_bothio m cmd infile outfile)) ∧
  (∀ cmd infile,
     opens_only (λ p flags, infile = Some p ∧ flags = flags_of INPUT)
                (input_pipe_redirect cmd infile)) ∧
  (∀ fds m cmd outfile,
     m = OUTPUT ∨ m = OUTPUT_APPEND →
     opens_only (λ p flags, outfile = Some p ∧ flags = flags_of m)
                (output_pipe_redirect fds m cmd outfile)).
Proof.
  split; [intros; apply oo_parse|].
  split; [intros; by apply oo_redirect_io|].
  split.
  { intros m cmd infile outfile Hm.
    eapply opens_only_weaken; [|apply oo_exec_redir_bothio].
    intros p flags [H|[H ->]]; [by left|right].
    split; [done|]. by destruct Hm as [-> | ->]. }
  split; [intros; apply oo_input_pipe_redirect|].
  intros fds m cmd outfile Hm.
  eapply opens_only_weaken; [|apply oo_output_pipe_redirect].
  intros p flags [H ->]. split; [done|]. by destruct Hm as [-> | ->].
Qed.

Lemma opens_use_redirection_flags_witness :
  opens_only (λ p flags, Some "out" = Some p ∧ flags = flags_of OUTPUT_APPEND)
             (redirect_io OUTPUT_APPEND [Some "ls"; None] (Some "out") true).
Proof.
  destruct opens_use_redirection_flags as (_ & H & _).
  apply (H OUTPUT_APPEND [Some "ls"; None] (Some "out") true).
  right. right. reflexivity.
Defined.

(** X26: a line [cmd > file] or [cmd >> file].  When open and fork succeed
    the shell opens the file with O_WRONLY|O_CREAT|O_TRUNC after ">" and
    with O_WRONLY|O_CREAT|O_APPEND after ">>", forks one child, which has
    the file as its standard output, waits for it and closes the
    descriptor; the output of the program replaces the content of the file
    after ">" and follows it after ">>".  So the line [cmd >> file] run
    twice leaves in the file its former content followed by the output of
    the first run and then of the second (the concatenation of both outputs
    when the file was absent or empty before), while [cmd > file] leaves
    the output of the last run only. *)
Theorem output_redirection_line :
  (output_flags (output_mode_of ">") = Z.lor (Z.lor O_WRONLY O_CREAT) O_TRUNC ∧
   output_flags (output_mode_of ">>") = Z.lor (Z.lor O_WRONLY O_CREAT) O_APPEND) ∧
  (∀ garbage w cmd_toks prog op file,
     head cmd_toks = Some prog →
     Forall (λ t, is_operator t = false) cmd_toks →
     length cmd_toks ≤ MAX_ARGS →
     op = ">" ∨ op = ">>" →
     is_operator file = false →
     is_Some (w_fds w !! STDOUT_FILENO) →
     w_env w (w_clock w) = true → w_env w (S (w_clock w)) = true →
     ∃ c w' fd,
       parse_tokens garbage (cmd_toks ++ [op; file]) w = Ret EXEC_SUCCESS w' ∧
       w_trace w' = w_trace w ++
         [EOpen file (output_flags (output_mode_of op)) fd; EFork (c_pid c); EWait;
          EClose fd (DFile file (output_flags (output_mode_of op)))] ∧
       w_fds w' = w_fds w ∧
       w_children w' = w_children w ++ [c] ∧
       c_fds c !! STDOUT_FILENO
       = Some (DFile file (output_flags (output_mode_of op))) ∧
       w_files w' = after_output (output_mode_of op) file
                      (default [] (w_run w (2 + w_clock w))) (w_files w)) ∧
  (∀ garbage1 garbage2 w cmd_toks prog op file o1 o2,
     head cmd_toks = Some prog →
     Forall (λ t, is_operator t = false) cmd_toks →
     length cmd_toks ≤ MAX_ARGS →
     op = ">" ∨ op = ">>" →
     is_operator file = false →
     is_Some (w_fds w !! STDOUT_FILENO) →
     (∀ t, w_env w t = true) →
     w_run w (2 + w_clock w) = Some o1 →
     w_run w (5 + w_clock w) = Some o2 →
     ∃ w1 w2,
       parse_tokens garbage1 (cmd_toks ++ [op; file]) w = Ret EXEC_SUCCESS w1 ∧
       parse_tokens garbage2 (cmd_toks ++ [op; file]) w1 = Ret EXEC_SUCCESS w2 ∧
       (op = ">>" →
        w_files w1 !! file = Some (default [] (w_files w !! file) ++ o1) ∧
        w_files w2 !! file = Some (default [] (w_files w !! file) ++ o1 ++ o2) ∧
        (default [] (w_files w !! file) = [] →
         w_files w2 !! file = Some (o1 ++ o2))) ∧
       (op = ">" →
        w_files w1 !! file = Some o1 ∧ w_files w2 !! file = Some o2)).
Proof.
  split; [done|]. split.
  { intros garbage w cmd_toks prog op file Hhead Hplain Hlen Hop Hfile Hout He0 He1.
    destruct (output_line_result garbage w cmd_toks prog op file)
      as (c & w' & Hp & Hf & Hfd & Hch & _ & _ & _ & Hc1 & fd & Htr); try done.
    by exists c, w', fd. }
  intros garbage1 garbage2 w cmd_toks prog op file o1 o2
         Hhead Hplain Hlen Hop Hfile Hout Henv Hr1 Hr2.
  destruct (output_line_result garbage1 w cmd_toks prog op file)
    as (c1 & w1 & Hp1 & Hf1 & Hfd1 & _ & Hclk1 & He1 & Hrn1 & _); try done.
  destruct (output_line_result garbage2 w1 cmd_toks prog op file)
    as (c2 & w2 & Hp2 & Hf2 & _); try done;
    [by rewrite He1|by rewrite He1|by rewrite Hfd1|].
  exists w1, w2. split; [done|]. split; [done|].
  rewrite Hrn1, Hclk1 in Hf2. simpl in Hr1, Hr2. rewrite Hr1 in Hf1.
  rewrite Hr2 in Hf2. simpl in Hf1, Hf2. rewrite Hf2, Hf1.
  unfold after_output. split.
  - intros ->. cbn. rewrite !lookup_insert_eq. simpl.
    split; [done|]. rewrite <- app_assoc. split; [done|]. by intros ->.
  - intros ->. cbn. by rewrite !lookup_insert_eq.
Qed.

Lemma output_redirection_line_witness :
  ∃ w1 w2,
    parse_tokens (0, 0) (["echo"; "hi"] ++ [">>"; "out.txt"]) two_runs_world
    = Ret EXEC_SUCCESS w1 ∧
    parse_tokens (0, 0) (["echo"; "hi"] ++ [">>"; "out.txt"]) w1
    = Ret EXEC_SUCCESS w2 ∧
    (">>" = ">>" →
     w_files w1 !! "out.txt"
     = Some (default [] (w_files two_runs_world !! "out.txt") ++ ["a"%byte]) ∧
     w_files w2 !! "out.txt"
     = Some (default [] (w_files two_runs_world !! "out.txt")
             ++ ["a"%byte] ++ ["b"%byte]) ∧
     (default [] (w_files two_runs_world !! "out.txt") = [] →
      w_files w2 !! "out.txt" = Some (["a"%byte] ++ ["b"%byte]))) ∧
    (">>" = ">" →
     w_files w1 !! "out.txt" = Some ["a"%byte] ∧
     w_files w2 !! "out.txt" = Some ["b"%byte]).
Proof.
  destruct output_redirection_line as (_ & _ & H).
  apply (H (0, 0) (0, 0) two_runs_world ["echo"; "hi"] "echo" ">>" "out.txt").
  - reflexivity.
  - repeat constructor.
  - simpl. unfold MAX_ARGS. lia.
  - right. reflexivity.
  - reflexivity.
  - exists DTerm. vm_compute. reflexivity.
  - intros t. reflexivity.
  - reflexivity.
  - reflexivity.
Defined.

(** C8 fails on the code: a file named after "<" or after ">>" can be opened
    with O_WRONLY|O_CREAT|O_TRUNC.  A ">" or ">>" met in an output mode
    opens the name in command[0], and when no file name follows the
    previous operator that name is still the one of the redirection before:
    on "cmd < in > > out" the shell itself opens the input file in with
    write, create and truncate and empties it, before the child opens it
    read-only; on "cmd >> a > > b" the file a, first opened with write,
    create and append, is opened again with truncate and loses its
    content.  Nothing is reported and the parser returns EXEC_SUCCESS. *)
Theorem redirection_file_reopened :
  (∃ w', parse_input_and_exec (0, 0) "cmd < in > > out" " "
           (fresh_world {["in" := ["x"%byte]]} (λ _, true) (λ _, Some []))
         = Ret EXEC_SUCCESS w' ∧
         nothing_printed w' = true ∧
         opened_files (w_trace w')
         = [("in", Z.lor (Z.lor O_WRONLY O_CREAT) O_TRUNC)] ∧
         ((λ c, opened_files (c_trace c)) <$> w_children w')
         = [[("in", O_RDONLY); ("out", Z.lor (Z.lor O_WRONLY O_CREAT) O_TRUNC)]] ∧
         w_files w' !! "in" = Some []) ∧
  (∃ w', parse_input_and_exec (0, 0) "cmd >> a > > b" " "
           (fresh_world {["a" := ["x"%byte]]} (λ _, true) (λ _, Some []))
         = Ret EXEC_SUCCESS w' ∧
         nothing_printed w' = true ∧
         opened_files (w_trace w')
         = [("a", Z.lor (Z.lor O_WRONLY O_CREAT) O_APPEND);
            ("a", Z.lor (Z.lor O_WRONLY O_CREAT) O_TRUNC);
            ("b", Z.lor (Z.lor O_WRONLY O_CREAT) O_TRUNC)] ∧
         w_files w' !! "a" = Some []).
Proof.
  split; eexists; (split; [vm_compute; reflexivity|]);
    repeat split; vm_compute; reflexivity.
Qed.

(** ** Chains of output redirections *)

Lemma redirect_token_touches_run token st file w :
  token = ">" ∨ token = ">>" →
  is_output (redirect_mode st) = true →
  command st !! 0 = Some (Some file) →
  w_env w (w_clock w) = true →
  ∃ w',
    scan_token token st w
    = Ret (inl (mkScan (command st) (redirect_cmd st) (input_file st)
                       (output_before_pipe st) 0 (output_mode_of token)
                       (pipe_fds st))) w' ∧
    w_files w' = opened_for_output (redirect_mode st) file (w_files w) ∧
    w_fds w' = w_fds w ∧
    w_children w' = w_children w ∧
    w_clock w' = S (w_clock w) ∧
    w_env w' = w_env w ∧ w_run w' = w_run w ∧
    w_trace w' = w_trace w ++
      [EOpen file (output_flags (redirect_mode st)) (lowest_free (w_fds w));
       EClose (lowest_free (w_fds w)) (DFile file (output_flags (redirect_mode st)))].
Proof.
  intros Htok Hm H0 Henv.
  destruct (redirect_io_touch (redirect_mode st) NULL_command file w Hm Henv)
    as (w' & Hrun & Hfiles & Hfds & Hch & _ & Hclk & He & Hr & Htr).
  exists w'. rewrite (redirect_token_touches token st file) by done.
  unfold bind. rewrite Hrun. done.
Qed.

Lemma output_chain_result garbage w cmd_toks prog op1 a op2 b :
  head cmd_toks = Some prog →
  Forall (λ t, is_operator t = false) cmd_toks →
  length cmd_toks ≤ MAX_ARGS →
  op1 = ">" ∨ op1 = ">>" → is_operator a = false →
  op2 = ">" ∨ op2 = ">>" → is_operator b = false →
  (∀ t, w_env w t = true) →
  is_Some (w_fds w !! STDOUT_FILENO) →
  ∃ c w',
    parse_tokens garbage (cmd_toks ++ [op1; a; op2; b]) w = Ret EXEC_SUCCESS w' ∧
    w_files w' = after_output (output_mode_of op2) b
                   (default [] (w_run w (3 + w_clock w)))
                   (opened_for_output (output_mode_of op1) a (w_files w)) ∧
    w_fds w' = w_fds w ∧
    w_children w' = w_children w ++ [c] ∧
    c_fds c !! STDOUT_FILENO = Some (DFile b (output_flags (output_mode_of op2))).
Proof.
  intros Hhead Hplain Hlen Hop1 Ha Hop2 Hb Henv Hout.
  destruct (reaches_redirected garbage w cmd_toks prog op1 a)
    as (st & Hpos & Hm & Hi & H0 & Hr0 & Hargv & Hif & Hobp); try done.
  destruct (redirect_token_touches_run op2 st a w)
    as (w1 & Hstep & Hfiles1 & Hfds1 & Hch1 & Hclk1 & He1 & Hrn1 & _); try done.
  { rewrite Hm. apply output_mode_of_is_output. }
  assert (Hlt : cmd_index st < MAX_ARGS + 1) by (rewrite Hi; bounds).
  pose proof (reaches_step _ _ _ _ _ _ _ _ Hpos Hlt Hstep) as Hpos2.
  match type of Hpos2 with
  | reaches _ _ _ ?s _ => set (st2 := s) in *
  end.
  assert (Hpos3 : reaches garbage w (((cmd_toks ++ [op1; a]) ++ [op2]) ++ [b])
                    (after_plain st2 [b]) w1).
  { apply reaches_plain; [done|by constructor|simpl; bounds]. }
  rewrite <- !app_assoc in Hpos3. simpl in Hpos3.
  rewrite (parse_tokens_end _ _ _ _ _ Hpos3);
    [|rewrite length_app; simpl; bounds|simpl; bounds].
  pose proof (reaches_scan_ok _ _ _ _ _ Hpos) as (Hlc & _ & _).
  unfold finish. simpl. rewrite Hif, Hobp.
  pose proof (output_mode_of_is_output op2) as Hout2.
  rewrite decide_False by (by destruct (output_mode_of op2)).
  unfold bind at 1. unfold load.
  rewrite list_lookup_insert_ne by done.
  rewrite list_lookup_insert_eq by (rewrite Hlc; bounds). unfold ret at 1.
  rewrite decide_False by (by destruct (output_mode_of op2)).
  rewrite decide_True by (destruct (output_mode_of op2); try done; auto).
  destruct (redirect_io_output_run (output_mode_of op2) (redirect_cmd st)
              prog cmd_toks b w1)
    as (c & w' & Hrun & Hfiles & Hfds & Hch & _ & _ & _ & _ & Hc1 & _);
    try done; [by rewrite He1|by rewrite He1|by rewrite Hfds1|].
  exists c, w'. unfold bind. rewrite Hrun. unfold ret.
  rewrite Hfiles, Hfds, Hch, Hrn1, Hclk1, Hfiles1, Hfds1, Hch1, Hm. done.
Qed.

(** X25: last redirection wins.  On a line [cmd op1 a op2 b], with op1 and
    op2 among ">" and ">>", when open and fork succeed: the file a is opened
    (created if absent, emptied after ">") and closed at once by the shell,
    the command runs once, in one child, with its standard output on b, and
    b alone receives the output.  After [cmd > a > b] the file a is empty
    and b holds the output. *)
Theorem output_chain_last_wins garbage w cmd_toks prog op1 a op2 b :
  head cmd_toks = Some prog →
  Forall (λ t, is_operator t = false) cmd_toks →
  length cmd_toks ≤ MAX_ARGS →
  op1 = ">" ∨ op1 = ">>" → is_operator a = false →
  op2 = ">" ∨ op2 = ">>" → is_operator b = false →
  (∀ t, w_env w t = true) →
  is_Some (w_fds w !! STDOUT_FILENO) →
  ∃ c w',
    parse_tokens garbage (cmd_toks ++ [op1; a; op2; b]) w = Ret EXEC_SUCCESS w' ∧
    w_children w' = w_children w ++ [c] ∧
    c_fds c !! STDOUT_FILENO = Some (DFile b (output_flags (output_mode_of op2))) ∧
    w_files w' = after_output (output_mode_of op2) b
                   (default [] (w_run w (3 + w_clock w)))
                   (opened_for_output (output_mode_of op1) a (w_files w)) ∧
    (op1 = ">" → op2 = ">" → a ≠ b →
     w_files w' !! a = Some [] ∧
     w_files w' !! b = Some (default [] (w_run w (3 + w_clock w)))).
Proof.
  intros Hhead Hplain Hlen Hop1 Ha Hop2 Hb Henv Hout.
  destruct (output_chain_result garbage w cmd_toks prog op1 a op2 b)
    as (c & w' & Hp & Hfiles & Hfds & Hch & Hc1); try done.
  exists c, w'. split; [done|]. split; [done|]. split; [done|].
  split; [done|]. intros -> -> Hab. rewrite Hfiles.
  unfold after_output, opened_for_output. cbn.
  rewrite lookup_insert_ne by done. by rewrite !lookup_insert_eq.
Qed.

Lemma output_chain_last_wins_witness :
  ∃ c w',
    parse_tokens (0, 0) (["echo"; "hi"] ++ [">"; "a.txt"; ">"; "b.txt"]) two_runs_world
    = Ret EXEC_SUCCESS w' ∧
    w_children w' = w_children two_runs_world ++ [c] ∧
    c_fds c !! STDOUT_FILENO
    = Some (DFile "b.txt" (output_flags (output_mode_of ">"))) ∧
    w_files w' = after_output (output_mode_of ">") "b.txt"
                   (default [] (w_run two_runs_world (3 + w_clock two_runs_world)))
                   (opened_for_output (output_mode_of ">") "a.txt"
                      (w_files two_runs_world)) ∧
    (">" = ">" → ">" = ">" → "a.txt" ≠ "b.txt" →
     w_files w' !! "a.txt" = Some [] ∧
     w_files w' !! "b.txt"
     = Some (default [] (w_run two_runs_world (3 + w_clock two_runs_world)))).
Proof.
  apply (output_chain_last_wins (0, 0) two_runs_world ["echo"; "hi"] "echo"
           ">" "a.txt" ">" "b.txt").
  - reflexivity.
  - repeat constructor.
  - simpl. unfold MAX_ARGS. lia.
  - left. reflexivity.
  - reflexivity.
  - left. reflexivity.
  - reflexivity.
  - intros t. reflexivity.
  - exists DTerm. vm_compute. reflexivity.
Defined.

(** C4 fails on the code: the collected token is not required to be
    present.  A ">" or ">>" met in an output mode tests command[0], which
    this branch never clears: when no token has been collected since the
    previous operator, command[0] still holds the file name of the
    redirection before, and that file is opened again.  On "cmd > a > > b"
    no file name follows the second ">": nothing is reported, the parser
    returns EXEC_SUCCESS, the shell opens a twice and the command runs with
    its output on b.  Only right after the first redirection operator of a
    stage, where save_command has cleared command[0], is the missing file
    reported ("cmd > > b"). *)
Theorem missing_chain_file_not_reported :
  (∃ w', parse_input_and_exec (0, 0) "cmd > a > > b" " " world0
         = Ret EXEC_SUCCESS w' ∧
         nothing_printed w' = true ∧
         opened_files (w_trace w')
         = [("a", Z.lor (Z.lor O_WRONLY O_CREAT) O_TRUNC);
            ("a", Z.lor (Z.lor O_WRONLY O_CREAT) O_TRUNC);
            ("b", Z.lor (Z.lor O_WRONLY O_CREAT) O_TRUNC)] ∧
         ((λ c, last (c_trace c)) <$> w_children w')
         = [Some (EExec "cmd" ["cmd"] [])]) ∧
  parse_input_and_exec (0, 0) "cmd > > b" " " world0
  = Ret EXEC_FAILURE (log (EPrint "No file for output redirection.") world0).
Proof.
  split; [|vm_compute; reflexivity].
  eexists. split; [vm_compute; reflexivity|].
  repeat split; vm_compute; reflexivity.
Qed.

(** ** Malformed lines *)

(** Lines with a missing operand that the parser does report. *)
Lemma missing_operand_reported :
  parse_input_and_exec (0, 0) "cmd >" " " world0
  = Ret EXEC_FAILURE (log (EPrint "No file for I/O redirection.\n") world0) ∧
  parse_input_and_exec (0, 0) "cmd <" " " world0
  = Ret EXEC_FAILURE (log (EPrint "No file for I/O redirection.\n") world0) ∧
  parse_input_and_exec (0, 0) "cmd < > out" " " world0
  = Ret EXEC_FAILURE (log (EPrint "No file for input redirection.") world0) ∧
  parse_input_and_exec (0, 0) "cmd > > out" " " world0
  = Ret EXEC_FAILURE (log (EPrint "No file for output redirection.") world0).
Proof. repeat split; vm_compute; reflexivity. Qed.

(** C2 fails on the code: a "|" at the start of the line, a second "|" right
    after a pipe stage, a "|" right after "<", and a ">" right after the file
    of an input redirection are all accepted.  Nothing is reported, the
    parser returns EXEC_SUCCESS, and children are forked for the missing
    program or for the missing file: the child of a missing program sets up
    its pipe, calls execvp with a NULL file name and is killed there, having
    written nothing; the child of a missing file fails in open.  In the last
    case the input file itself is opened with O_TRUNC. *)
Theorem missing_operand_not_reported :
  (∃ w', parse_input_and_exec (0, 0) "| cmd" " " world0 = Ret EXEC_SUCCESS w' ∧
         nothing_printed w' = true ∧
         first_events w' = [Some (EDup2 4 1); Some (EDup2 3 0)] ∧
         ((λ c, (c_trace c, c_status c)) <$> head (w_children w'))
         = Some ([EDup2 4 1; EClose 3 (DPipe 0 Rd); EClose 4 (DPipe 0 Wr);
                  EExecFail None []], None)) ∧
  (∃ w', parse_input_and_exec (0, 0) "a | | b" " " world0 = Ret EXEC_SUCCESS w' ∧
         nothing_printed w' = true ∧ length (w_children w') = 3 ∧
         ((λ c, (last (c_trace c), c_status c)) <$> w_children w' !! 1)
         = Some (Some (EExecFail None []), None)) ∧
  (∃ w', parse_input_and_exec (0, 0) "cmd < | b" " " world0 = Ret EXEC_SUCCESS w' ∧
         nothing_printed w' = true ∧ length (w_children w') = 2 ∧
         (c_trace <$> head (w_children w')) = Some [EPerror "open()"]) ∧
  (∃ w', parse_input_and_exec (0, 0) "cmd < in > > out" " "
           (fresh_world {["in" := ["x"%byte]]} (λ _, true) (λ _, Some []))
         = Ret EXEC_SUCCESS w' ∧
         nothing_printed w' = true ∧ length (w_children w') = 1 ∧
         w_files w' !! "in" = Some []).
Proof.
  repeat split; eexists; (split; [vm_compute; reflexivity|]);
    repeat split; vm_compute; reflexivity.
Qed.

(** ** Pipe descriptors *)

Lemma closes_app d tr1 tr2 : closes d (tr1 ++ tr2) = closes d tr1 + closes d tr2.
Proof.
  induction tr1 as [|e tr1 IH]; [done|].
  destruct e; simpl; rewrite ?IH; lia.
Qed.

Lemma evolves_refl w : evolves w w (w_fds w) (w_npipes w) [] [].
Proof. unfold evolves. by rewrite !app_nil_r. Qed.

Lemma evolves_trans w w1 w2 f1 n1 t1 c1 f2 n2 t2 c2 :
  evolves w w1 f1 n1 t1 c1 → evolves w1 w2 f2 n2 t2 c2 →
  evolves w w2 f2 n2 (t1 ++ t2) (c1 ++ c2).
Proof.
  intros (_ & _ & Ht1 & Hc1 & He1) (Hf2 & Hn2 & Ht2 & Hc2 & He2).
  unfold evolves. rewrite Ht2, Ht1, Hc2, Hc1, He2, He1, !app_assoc. done.
Qed.

Lemma sys_pipe_run w :
  w_env w (w_clock w) = true →
  let r := lowest_free (w_fds w) in
  let wr := lowest_free (<[r := DPipe (w_npipes w) Rd]> (w_fds w)) in
  ∃ w', sys_pipe w = Ret (Some (r, wr)) w' ∧
        evolves w w' (with_pipe (w_fds w) (w_npipes w) r wr) (S (w_npipes w))
                [EPipe (w_npipes w) r wr] [].
Proof.
  intros Henv r wr. unfold sys_pipe. rewrite Henv. eexists. split; [done|].
  unfold evolves. simpl. by rewrite app_nil_r.
Qed.

Lemma sys_fork_run child w :
  w_env w (w_clock w) = true →
  ∃ c w', sys_fork child w = Ret (Some (c_pid c)) w' ∧
          evolves w w' (w_fds w) (w_npipes w) [EFork (c_pid c)] [c] ∧
          c_inherited c = w_fds w ∧
          c_trace c = match child (child_world w) with
                      | Ret _ wc | Exit _ wc | Killed wc => w_trace wc
                      | Fault => []
                      end.
Proof.
  intros Henv. unfold sys_fork. rewrite Henv.
  destruct (child (child_world w)) as [a wc|s wc| |wc];
    eexists (mkChild _ _ _ _ _), _; (split; [done|]); done.
Qed.

Lemma sys_wait_run w :
  ∃ w', sys_wait w = Ret tt w' ∧
        evolves w w' (w_fds w) (w_npipes w) [EWait] [].
Proof. eexists. split; [done|]. unfold evolves. simpl. by rewrite app_nil_r. Qed.

Lemma close_pipes_run r wr d1 d2 w :
  w_fds w !! r = Some d1 → w_fds w !! wr = Some d2 → r ≠ wr →
  ∃ w', close_pipes (r, wr) w = Ret tt w' ∧
        evolves w w' (delete wr (delete r (w_fds w))) (w_npipes w)
                [EClose r d1; EClose wr d2] [] ∧
        w_clock w' = w_clock w ∧ w_files w' = w_files w ∧ w_run w' = w_run w.
Proof.
  intros Hr Hw Hne. unfold close_pipes, bind, sys_close. simpl.
  rewrite Hr. simpl. rewrite lookup_delete_ne by done. rewrite Hw.
  eexists. split; [done|]. unfold evolves. simpl.
  by rewrite <- !app_assoc, app_nil_r.
Qed.

(** ** What the children of the pipe launchers do *)

Lemma bind_Ret {A B} (m : M A) (k : A → M B) w a w1 :
  m w = Ret a w1 → bind m k w = k a w1.
Proof. intros H. unfold bind. by rewrite H. Qed.

Lemma sys_dup2_run old new d w :
  w_fds w !! old = Some d → old ≠ new →
  sys_dup2 old new w
  = Ret true (log (EDup2 old new) (set_fds (<[new := d]> (w_fds w)) w)).
Proof. intros H Hne. unfold sys_dup2. by rewrite H, decide_False. Qed.

Lemma sys_close_run fd d w :
  w_fds w !! fd = Some d →
  sys_close fd w = Ret true (log (EClose fd d) (set_fds (delete fd (w_fds w)) w)).
Proof. intros H. unfold sys_close. by rewrite H. Qed.

Lemma exec_tail_trace cmd cw :
  child_trace_of (exec_tail cmd cw) = [] ∨
  ∃ rest, child_trace_of (exec_tail cmd cw) = w_trace cw ++ rest ∧
          no_closes rest ∧ reached_exec rest = true.
Proof.
  unfold exec_tail, bind, load. destruct (cmd !! 0) as [program|]; [|by left].
  unfold ret, execvp_and_handle_error, bind, sys_execvp.
  destruct (argv_of cmd) as [args|]; [|by left].
  destruct program as [p|]; [destruct (w_run cw (w_clock cw)) as [out|]|];
    right; simpl.
  - by exists [EExec p args out].
  - exists [EExecFail (Some p) args; EPerror (p +:+ " "); EPerror "execvp()"].
    by rewrite <- !app_assoc.
  - by exists [EExecFail None args].
Qed.

Lemma exec_tail_after cmd cw (pre : list Event) :
  w_trace cw = pre →
  child_trace_of (exec_tail cmd cw) = [] ∨
  ∃ rest, child_trace_of (exec_tail cmd cw) = pre ++ rest ∧
          no_closes rest ∧ reached_exec rest = true.
Proof. intros <-. apply exec_tail_trace. Qed.

Lemma input_pipe_child_trace r wr d1 d2 cmd cw :
  w_trace cw = [] →
  w_fds cw !! r = Some d1 → w_fds cw !! wr = Some d2 →
  r ≠ wr → r ≠ STDOUT_FILENO → wr ≠ STDOUT_FILENO →
  child_trace_of (input_pipe_child (r, wr) cmd cw) = [] ∨
  ∃ rest, child_trace_of (input_pipe_child (r, wr) cmd cw)
          = [EDup2 wr STDOUT_FILENO; EClose r d1; EClose wr d2] ++ rest ∧
          no_closes rest ∧ reached_exec rest = true.
Proof.
  intros Htr Hr Hw Hne Hr1 Hw1. unfold input_pipe_child. simpl snd.
  erewrite bind_Ret by (by apply sys_dup2_run).
  erewrite bind_Ret by done.
  edestruct (close_pipes_run r wr d1 d2) as (w2 & Hcl & (_ & _ & Ht2 & _) & _);
    [| |done|erewrite bind_Ret by exact Hcl].
  { simpl. by rewrite lookup_insert_ne. }
  { simpl. by rewrite lookup_insert_ne. }
  apply (exec_tail_after cmd w2). rewrite Ht2. simpl. by rewrite Htr.
Qed.

Lemma output_pipe_child_trace r wr d1 d2 cmd cw :
  w_trace cw = [] →
  w_fds cw !! r = Some d1 → w_fds cw !! wr = Some d2 →
  r ≠ wr → r ≠ STDIN_FILENO → wr ≠ STDIN_FILENO →
  child_trace_of (output_pipe_child (r, wr) cmd cw) = [] ∨
  ∃ rest, child_trace_of (output_pipe_child (r, wr) cmd cw)
          = [EDup2 r STDIN_FILENO; EClose r d1; EClose wr d2] ++ rest ∧
          no_closes rest ∧ reached_exec rest = true.
Proof.
  intros Htr Hr Hw Hne Hr1 Hw1. unfold output_pipe_child. simpl fst.
  erewrite bind_Ret by (by apply sys_dup2_run).
  erewrite bind_Ret by done.
  edestruct (close_pipes_run r wr d1 d2) as (w2 & Hcl & (_ & _ & Ht2 & _) & _);
    [| |done|erewrite bind_Ret by exact Hcl].
  { simpl. by rewrite lookup_insert_ne. }
  { simpl. by rewrite lookup_insert_ne. }
  apply (exec_tail_after cmd w2). rewrite Ht2. simpl. by rewrite Htr.
Qed.

Lemma inter_pipe_child_trace r0 w0 r wr d1 d2 d3 d4 cmd cw :
  w_trace cw = [] →
  w_fds cw !! r0 = Some d1 → w_fds cw !! w0 = Some d2 →
  w_fds cw !! r = Some d3 → w_fds cw !! wr = Some d4 →
  NoDup [r0; w0; r; wr; STDIN_FILENO; STDOUT_FILENO] →
  child_trace_of (inter_pipe_child (r0, w0) (r, wr) cmd cw) = [] ∨
  ∃ rest, child_trace_of (inter_pipe_child (r0, w0) (r, wr) cmd cw)
          = [EDup2 r0 STDIN_FILENO; EDup2 wr STDOUT_FILENO;
             EClose r0 d1; EClose w0 d2; EClose r d3; EClose wr d4] ++ rest ∧
          no_closes rest ∧ reached_exec rest = true.
Proof.
  intros Htr Hr0 Hw0 Hr Hw Hnd.
  assert (Hne : r0 ≠ w0 ∧ r0 ≠ r ∧ r0 ≠ wr ∧ r0 ≠ 0 ∧ r0 ≠ 1 ∧
                w0 ≠ r ∧ w0 ≠ wr ∧ w0 ≠ 0 ∧ w0 ≠ 1 ∧
                r ≠ wr ∧ r ≠ 0 ∧ r ≠ 1 ∧ wr ≠ 0 ∧ wr ≠ 1).
  { unfold STDIN_FILENO, STDOUT_FILENO in Hnd.
    repeat (apply NoDup_cons in Hnd as [? Hnd]). set_solver. }
  destruct Hne as (? & ? & ? & ? & ? & ? & ? & ? & ? & ? & ? & ? & ? & ?).
  unfold inter_pipe_child. simpl fst. simpl snd.
  erewrite bind_Ret by (by apply sys_dup2_run).
  erewrite bind_Ret by done.
  erewrite bind_Ret
    by (apply (sys_dup2_run wr STDOUT_FILENO d4); [simpl; by rewrite lookup_insert_ne|done]).
  erewrite bind_Ret by done.
  edestruct (close_pipes_run r0 w0 d1 d2) as (w2 & Hcl & (Hf2 & _ & Ht2 & _) & _);
    [| |done|erewrite bind_Ret by exact Hcl].
  { simpl. by rewrite !lookup_insert_ne. }
  { simpl. by rewrite !lookup_insert_ne. }
  edestruct (close_pipes_run r wr d3 d4 w2) as (w3 & Hcl3 & (_ & _ & Ht3 & _) & _);
    [| |done|erewrite bind_Ret by exact Hcl3].
  { rewrite Hf2. simpl. by rewrite !lookup_delete_ne, !lookup_insert_ne. }
  { rewrite Hf2. simpl. by rewrite !lookup_delete_ne, !lookup_insert_ne. }
  apply (exec_tail_after cmd w3). rewrite Ht3, Ht2. simpl. by rewrite Htr.
Qed.

Lemma closes_pair_of_tail r wr d1 d2 pre (o : Outcome unit) :
  no_closes pre →
  (child_trace_of o = [] ∨
   ∃ rest, child_trace_of o = (pre ++ [EClose r d1; EClose wr d2]) ++ rest ∧
           no_closes rest ∧ reached_exec rest = true) →
  closes_pair r wr d1 d2 (child_trace_of o).
Proof.
  intros Hpre [->|(rest & -> & Hrest & _)]; [by left|right].
  exists pre, rest. by rewrite <- app_assoc.
Qed.

Lemma execvp_never_returns program cmd w a w' :
  execvp_and_handle_error program cmd w ≠ Ret a w'.
Proof.
  unfold execvp_and_handle_error, bind, sys_execvp.
  destruct (argv_of cmd) as [args|]; [|done].
  by destruct program as [p|], (w_run w (w_clock w)) as [out|].
Qed.

Lemma exec_tail_then {A} cmd (k : unit → M A) cw (h : A → unit) :
  child_trace_of
    (match (let* program := load cmd 0 in
            execvp_and_handle_error program cmd ;;; k tt) cw with
     | Ret a w => Ret (h a) w
     | Exit s w => Exit s w
     | Fault => Fault
     | Killed w => Killed w
     end)
  = child_trace_of (exec_tail cmd cw).
Proof.
  unfold exec_tail, bind, load. destruct (cmd !! 0) as [program|]; [|done].
  unfold ret.
  pose proof (execvp_never_returns program cmd cw) as Hn.
  destruct (execvp_and_handle_error program cmd cw) as [a w|s w| |w];
    [|done|done|done].
  by specialize (Hn a w).
Qed.

Lemma input_pipe_redirect_child_trace r wr d1 d2 cmd file cw :
  w_trace cw = [] →
  w_fds cw !! r = Some d1 → w_fds cw !! wr = Some d2 →
  NoDup [r; wr; STDIN_FILENO; STDOUT_FILENO] → std_open (w_fds cw) →
  closes_pair r wr d1 d2
    (child_trace_of (input_pipe_redirect_child (r, wr) cmd file cw)).
Proof.
  intros Htr Hr Hw Hnd [H0 H1].
  assert (r ≠ wr ∧ r ≠ 0 ∧ r ≠ 1 ∧ wr ≠ 0 ∧ wr ≠ 1) as (Hne & ? & ? & ? & ?).
  { unfold STDIN_FILENO, STDOUT_FILENO in Hnd.
    repeat (apply NoDup_cons in Hnd as [? Hnd]). set_solver. }
  unfold input_pipe_redirect_child. unfold bind at 1. unfold sys_open.
  destruct file as [p|]; [|left; simpl; by rewrite Htr].
  destruct (w_env cw (w_clock cw)); [|left; simpl; by rewrite Htr].
  destruct (open_file p O_RDONLY (w_files cw)) as [fs|];
    [|left; simpl; by rewrite Htr].
  set (fd := lowest_free (w_fds cw)).
  assert (Hfd : w_fds cw !! fd = None) by apply lowest_free_fresh.
  assert (fd ≠ r ∧ fd ≠ wr ∧ fd ≠ 0 ∧ fd ≠ 1) as (? & ? & ? & ?).
  { unfold STDIN_FILENO, STDOUT_FILENO in *.
    repeat split; intros Heq; rewrite Heq in Hfd; destruct H0, H1; congruence. }
  simpl snd.
  erewrite bind_Ret
    by (apply (sys_dup2_run fd STDIN_FILENO); [simpl; apply lookup_insert_eq|done]).
  erewrite bind_Ret by done.
  erewrite bind_Ret
    by (apply (sys_dup2_run wr STDOUT_FILENO d2);
        [simpl; by rewrite !lookup_insert_ne|done]).
  erewrite bind_Ret by done.
  edestruct (close_pipes_run r wr d1 d2) as (w2 & Hcl & (_ & _ & Ht2 & _) & _);
    [| |done|erewrite bind_Ret by exact Hcl].
  { simpl. by rewrite !lookup_insert_ne. }
  { simpl. by rewrite !lookup_insert_ne. }
  apply (closes_pair_of_tail r wr d1 d2
           [EOpen p O_RDONLY fd; EDup2 fd STDIN_FILENO; EDup2 wr STDOUT_FILENO]);
    [done|].
  apply (exec_tail_after cmd w2). rewrite Ht2. simpl. by rewrite Htr.
Qed.

Lemma output_pipe_redirect_child_trace r wr d1 d2 m cmd file cw :
  w_trace cw = [] →
  w_fds cw !! r = Some d1 → w_fds cw !! wr = Some d2 →
  NoDup [r; wr; STDIN_FILENO; STDOUT_FILENO] → std_open (w_fds cw) →
  closes_pair r wr d1 d2
    (child_trace_of (output_pipe_redirect_child (r, wr) m cmd file cw)).
Proof.
  intros Htr Hr Hw Hnd [H0 H1].
  assert (r ≠ wr ∧ r ≠ 0 ∧ r ≠ 1 ∧ wr ≠ 0 ∧ wr ≠ 1) as (Hne & ? & ? & ? & ?).
  { unfold STDIN_FILENO, STDOUT_FILENO in Hnd.
    repeat (apply NoDup_cons in Hnd as [? Hnd]). set_solver. }
  unfold output_pipe_redirect_child. cbv zeta. unfold bind at 1. unfold sys_open.
  destruct file as [p|]; [|left; simpl; by rewrite Htr].
  destruct (w_env cw (w_clock cw)); [|left; simpl; by rewrite Htr].
  destruct (open_file p (output_flags_of m) (w_files cw)) as [fs|];
    [|left; simpl; by rewrite Htr].
  set (fd := lowest_free (w_fds cw)).
  assert (Hfd : w_fds cw !! fd = None) by apply lowest_free_fresh.
  assert (fd ≠ r ∧ fd ≠ wr ∧ fd ≠ 0 ∧ fd ≠ 1) as (? & ? & ? & ?).
  { unfold STDIN_FILENO, STDOUT_FILENO in *.
    repeat split; intros Heq; rewrite Heq in Hfd; destruct H0, H1; congruence. }
  simpl fst.
  erewrite bind_Ret
    by (apply (sys_dup2_run r STDIN_FILENO d1);
        [simpl; by rewrite !lookup_insert_ne|done]).
  erewrite bind_Ret by done.
  erewrite bind_Ret
    by (apply (sys_dup2_run fd STDOUT_FILENO);
        [simpl; rewrite lookup_insert_ne by done; apply lookup_insert_eq|done]).
  erewrite bind_Ret by done.
  edestruct (close_pipes_run r wr d1 d2) as (w2 & Hcl & (_ & _ & Ht2 & _) & _);
    [| |done|erewrite bind_Ret by exact Hcl].
  { simpl. by rewrite !lookup_insert_ne. }
  { simpl. by rewrite !lookup_insert_ne. }
  apply (closes_pair_of_tail r wr d1 d2
           [EOpen p (output_flags_of m) fd; EDup2 r STDIN_FILENO;
            EDup2 fd STDOUT_FILENO]); [done|].
  pose proof (exec_tail_then cmd
                (λ _, let* ok := sys_close fd in
                      if ok then ret tt else perror_exit "close()") w2 id) as Heq.
  assert (Hsame : ∀ o : Outcome unit,
            match o with Ret a w => Ret (id a) w | Exit s w => Exit s w
                    | Fault => Fault | Killed w => Killed w end = o)
    by (by intros []).
  rewrite Hsame in Heq. rewrite Heq.
  apply (exec_tail_after cmd w2). rewrite Ht2. simpl. by rewrite Htr.
Qed.

(** ** The executors and launchers, seen from the shell *)

Lemma exec_command_evolves m cmd fd w :
  w_env w (w_clock w) = true →
  ∃ c w', exec_command m cmd fd w = Ret EXEC_SUCCESS w' ∧
          evolves w w' (w_fds w) (w_npipes w) [EFork (c_pid c); EWait] [c] ∧
          c_inherited c = w_fds w.
Proof.
  intros Henv. unfold exec_command.
  edestruct sys_fork_run as (c & w1 & Hfork & Hev1 & Hinh & _); [exact Henv|].
  erewrite bind_Ret by exact Hfork.
  destruct (sys_wait_run w1) as (w2 & Hwait & Hev2).
  erewrite bind_Ret by exact Hwait.
  exists c, w2. split; [done|]. split; [|done].
  pose proof (evolves_trans _ _ _ _ _ _ _ _ _ _ _ Hev1 Hev2) as Hev.
  destruct Hev1 as (<- & <- & _). exact Hev.
Qed.

Lemma exec_redir_bothio_evolves m cmd infile outfile w :
  w_env w (w_clock w) = true →
  ∃ c w', exec_redir_bothio m cmd infile outfile w = Ret tt w' ∧
          evolves w w' (w_fds w) (w_npipes w) [EFork (c_pid c); EWait] [c] ∧
          c_inherited c = w_fds w.
Proof.
  intros Henv. unfold exec_redir_bothio.
  edestruct sys_fork_run as (c & w1 & Hfork & Hev1 & Hinh & _); [exact Henv|].
  erewrite bind_Ret by exact Hfork.
  destruct (sys_wait_run w1) as (w2 & Hwait & Hev2).
  exists c, w2. split; [done|]. split; [|done].
  pose proof (evolves_trans _ _ _ _ _ _ _ _ _ _ _ Hev1 Hev2) as Hev.
  destruct Hev1 as (<- & <- & _). exact Hev.
Qed.

(** redirect_io leaves the descriptor table as it found it; a child it forks
    inherits the table plus the file just opened. *)
Lemma redirect_io_evolves m cmd file e w :
  benign w →
  ∃ w' tr cs,
    redirect_io m cmd file e w = Ret tt w' ∧
    evolves w w' (w_fds w) (w_npipes w) tr cs ∧
    no_pipe_closes tr ∧
    (e = false → cs = []) ∧
    Forall (λ c, ∃ fd p flags, c_inherited c = <[fd := DFile p flags]> (w_fds w)) cs.
Proof.
  intros Hb. unfold redirect_io.
  destruct (bool_decide (m = INPUT) && negb e).
  { exists w, [], []. split; [done|]. split; [apply evolves_refl|]. done. }
  set (flags := if decide (m = INPUT) then _ else _).
  unfold bind at 1. unfold sys_open.
  destruct file as [p|].
  2:{ eexists _, [EPerror "open()"], []. split; [done|].
      split; [unfold evolves; simpl; by rewrite app_nil_r|]. done. }
  rewrite Hb.
  destruct (open_file p flags (w_files w)) as [fs|].
  2:{ eexists _, [EPerror "open()"], []. split; [done|].
      split; [unfold evolves; simpl; by rewrite app_nil_r|]. done. }
  set (fd := lowest_free (w_fds w)).
  set (w1 := log _ _).
  assert (Hfd1 : w_fds w1 !! fd = Some (DFile p flags)) by apply lookup_insert_eq.
  destruct e.
  - destruct (exec_command_evolves m cmd fd w1) as (c & w2 & Hrun & Hev & Hinh);
      [apply Hb|].
    unfold bind at 1. unfold bind at 1. rewrite Hrun. unfold ret at 1.
    destruct Hev as (Hf2 & Hn2 & Ht2 & Hc2 & He2).
    unfold bind. rewrite (sys_close_run fd (DFile p flags)) by (by rewrite Hf2).
    eexists _, [EOpen p flags fd; EFork (c_pid c); EWait;
                EClose fd (DFile p flags)], [c].
    split; [done|]. split.
    { unfold evolves. simpl. rewrite Hf2, Hn2, Ht2, Hc2, He2. simpl.
      rewrite delete_insert_id by apply lowest_free_fresh.
      by rewrite <- !app_assoc. }
    split; [done|]. split; [done|].
    constructor; [|done]. exists fd, p, flags. by rewrite Hinh.
  - unfold bind at 1. unfold ret at 1. unfold bind.
    rewrite (sys_close_run fd (DFile p flags)) by done.
    eexists _, [EOpen p flags fd; EClose fd (DFile p flags)], [].
    split; [done|]. split.
    { unfold evolves. simpl.
      rewrite delete_insert_id by apply lowest_free_fresh.
      by rewrite <- !app_assoc, app_nil_r. }
    done.
Qed.

Lemma child_ok_no_pipe n0 c :
  pipes_before n0 (c_inherited c) → child_ok n0 c.
Proof. intros Hb fd id e Hl Hn _. apply Hb in Hl. lia. Qed.

Lemma pipes_before_insert_file n0 t fd p flags :
  pipes_before n0 t → pipes_before n0 (<[fd := DFile p flags]> t).
Proof.
  intros Hb fd' id e Hl. apply lookup_insert_Some in Hl as [[_ Hl]|[_ Hl]]; [done|].
  by apply Hb in Hl.
Qed.

Lemma lookup_with_pipe t id r wr k :
  with_pipe t id r wr !! k
  = if decide (k = wr) then Some (DPipe id Wr)
    else if decide (k = r) then Some (DPipe id Rd) else t !! k.
Proof.
  unfold with_pipe. destruct (decide (k = wr)) as [->|].
  - apply lookup_insert_eq.
  - rewrite lookup_insert_ne by done. destruct (decide (k = r)) as [->|].
    + apply lookup_insert_eq.
    + by rewrite lookup_insert_ne.
Qed.

Lemma closes_pair_count r wr id id' e tr :
  closes_pair r wr (DPipe id Rd) (DPipe id Wr) tr →
  reached_exec tr = true →
  closes (DPipe id' e) tr = if decide (id' = id) then 1 else 0.
Proof.
  intros [Hno|(pre & rest & -> & Hpre & Hrest)] Hre; [congruence|].
  rewrite !closes_app, Hpre, Hrest. simpl.
  destruct (decide (id' = id)) as [->|Hne].
  - destruct e; repeat (case_decide; try congruence); lia.
  - repeat (case_decide; try congruence); lia.
Qed.

Lemma child_ok_pair n0 t id r wr c :
  pipes_before n0 t →
  c_inherited c = with_pipe t id r wr →
  closes_pair r wr (DPipe id Rd) (DPipe id Wr) (c_trace c) →
  child_ok n0 c.
Proof.
  intros Hb Hinh Hcl fd id' e Hl Hn Hre.
  rewrite (closes_pair_count r wr id id' e _ Hcl Hre).
  rewrite Hinh, lookup_with_pipe in Hl.
  destruct (decide (fd = wr)); [injection Hl as <- _; by rewrite decide_True|].
  destruct (decide (fd = r)); [injection Hl as <- _; by rewrite decide_True|].
  apply Hb in Hl. lia.
Qed.

Lemma NoDup_four (a b c d : nat) :
  NoDup [a; b; c; d] ↔ a ≠ b ∧ a ≠ c ∧ a ≠ d ∧ b ≠ c ∧ b ≠ d ∧ c ≠ d.
Proof.
  rewrite !NoDup_cons, !elem_of_cons, !elem_of_nil.
  split.
  - intros (H1 & H2 & H3 & _). repeat split; intros ->; tauto.
  - intros (? & ? & ? & ? & ? & ?). repeat split; try tauto. apply NoDup_nil_2.
Qed.

Lemma fresh_pair (t : gmap nat Desc) d :
  std_open t →
  let r := lowest_free t in
  let wr := lowest_free (<[r := d]> t) in
  t !! r = None ∧ t !! wr = None ∧
  NoDup [r; wr; STDIN_FILENO; STDOUT_FILENO].
Proof.
  intros [H0 H1] r wr.
  assert (Hr : t !! r = None) by apply lowest_free_fresh.
  assert (Hw : <[r := d]> t !! wr = None) by apply lowest_free_fresh.
  apply lookup_insert_None in Hw as [Hw Hne].
  split; [done|]. split; [done|].
  unfold STDIN_FILENO, STDOUT_FILENO in *.
  assert (r ≠ 0) by (intros Heq; rewrite Heq in Hr; destruct H0; congruence).
  assert (r ≠ 1) by (intros Heq; rewrite Heq in Hr; destruct H1; congruence).
  assert (wr ≠ 0) by (intros Heq; rewrite Heq in Hw; destruct H0; congruence).
  assert (wr ≠ 1) by (intros Heq; rewrite Heq in Hw; destruct H1; congruence).
  by apply NoDup_four.
Qed.

Lemma std_open_with_pipe t id r wr :
  std_open t → std_open (with_pipe t id r wr).
Proof.
  intros [H0 H1]. split; rewrite lookup_with_pipe;
    repeat case_decide; eauto.
Qed.

Lemma input_pipe_run n0 cmd w :
  benign w → std_open (w_fds w) →
  pipes_before n0 (w_fds w) → n0 ≤ w_npipes w →
  ∃ r wr c w',
    input_pipe cmd w = Ret (r, wr) w' ∧
    evolves w w' (with_pipe (w_fds w) (w_npipes w) r wr) (S (w_npipes w))
            [EPipe (w_npipes w) r wr; EFork (c_pid c); EWait] [c] ∧
    child_ok n0 c ∧
    w_fds w !! r = None ∧ w_fds w !! wr = None ∧
    NoDup [r; wr; STDIN_FILENO; STDOUT_FILENO].
Proof.
  intros Hb Hstd Hpb Hn0. unfold input_pipe.
  destruct (sys_pipe_run w (Hb _)) as (w1 & Hpipe & Hev1).
  destruct (fresh_pair (w_fds w) (DPipe (w_npipes w) Rd) Hstd) as (Hr & Hw & Hnd).
  set (r := lowest_free (w_fds w)) in *.
  set (wr := lowest_free (<[r := DPipe (w_npipes w) Rd]> (w_fds w))) in *.
  erewrite bind_Ret by exact Hpipe.
  pose proof Hev1 as (Hf1 & Hn1 & Ht1 & Hc1 & He1).
  edestruct (sys_fork_run (input_pipe_child (r, wr) cmd) w1)
    as (c & w2 & Hfork & Hev2 & Hinh & Htr); [rewrite He1; apply Hb|].
  unfold input_pipe_child in Hfork.
  erewrite bind_Ret by exact Hfork.
  destruct (sys_wait_run w2) as (w3 & Hwait & Hev3).
  erewrite bind_Ret by exact Hwait.
  exists r, wr, c, w3. split; [done|].
  assert (Hne : r ≠ wr ∧ r ≠ 1 ∧ wr ≠ 1).
  { unfold STDIN_FILENO, STDOUT_FILENO in Hnd.
    repeat (apply NoDup_cons in Hnd as [? Hnd]). set_solver. }
  destruct Hne as (Hne & ? & ?).
  split; [|split; [|done]].
  - pose proof (evolves_trans _ _ _ _ _ _ _ _ _ _ _ Hev1
                  (evolves_trans _ _ _ _ _ _ _ _ _ _ _ Hev2 Hev3)) as Hev.
    pose proof Hev2 as (Hf2 & Hn2 & _). rewrite Hf2, Hn2, Hf1, Hn1 in Hev.
    exact Hev.
  - eapply (child_ok_pair n0 (w_fds w) (w_npipes w) r wr); [done|by rewrite Hinh|].
    rewrite Htr.
    apply (closes_pair_of_tail r wr _ _ [EDup2 wr STDOUT_FILENO]); [done|].
    apply (input_pipe_child_trace r wr); try done.
    + rewrite <- Hf1 in *. simpl. rewrite Hf1, lookup_with_pipe.
      rewrite decide_False by done. by rewrite decide_True.
    + simpl. rewrite Hf1, lookup_with_pipe. by rewrite decide_True.
Qed.

Lemma input_pipe_redirect_run n0 cmd file w :
  benign w → std_open (w_fds w) →
  pipes_before n0 (w_fds w) → n0 ≤ w_npipes w →
  ∃ r wr c w',
    input_pipe_redirect cmd file w = Ret (r, wr) w' ∧
    evolves w w' (with_pipe (w_fds w) (w_npipes w) r wr) (S (w_npipes w))
            [EPipe (w_npipes w) r wr; EFork (c_pid c); EWait] [c] ∧
    child_ok n0 c ∧
    w_fds w !! r = None ∧ w_fds w !! wr = None ∧
    NoDup [r; wr; STDIN_FILENO; STDOUT_FILENO].
Proof.
  intros Hb Hstd Hpb Hn0. unfold input_pipe_redirect.
  destruct (sys_pipe_run w (Hb _)) as (w1 & Hpipe & Hev1).
  destruct (fresh_pair (w_fds w) (DPipe (w_npipes w) Rd) Hstd) as (Hr & Hw & Hnd).
  set (r := lowest_free (w_fds w)) in *.
  set (wr := lowest_free (<[r := DPipe (w_npipes w) Rd]> (w_fds w))) in *.
  erewrite bind_Ret by exact Hpipe.
  pose proof Hev1 as (Hf1 & Hn1 & Ht1 & Hc1 & He1).
  edestruct (sys_fork_run (input_pipe_redirect_child (r, wr) cmd file) w1)
    as (c & w2 & Hfork & Hev2 & Hinh & Htr); [rewrite He1; apply Hb|].
  unfold input_pipe_redirect_child in Hfork.
  erewrite bind_Ret by exact Hfork.
  destruct (sys_wait_run w2) as (w3 & Hwait & Hev3).
  erewrite bind_Ret by exact Hwait.
  exists r, wr, c, w3. split; [done|].
  assert (Hne : r ≠ wr).
  { apply NoDup_cons in Hnd as [Hnd _]. set_solver. }
  split; [|split; [|done]].
  - pose proof (evolves_trans _ _ _ _ _ _ _ _ _ _ _ Hev1
                  (evolves_trans _ _ _ _ _ _ _ _ _ _ _ Hev2 Hev3)) as Hev.
    pose proof Hev2 as (Hf2 & Hn2 & _). rewrite Hf2, Hn2, Hf1, Hn1 in Hev.
    exact Hev.
  - eapply (child_ok_pair n0 (w_fds w) (w_npipes w) r wr); [done|by rewrite Hinh|].
    rewrite Htr.
    apply (input_pipe_redirect_child_trace r wr); try done.
    + simpl. rewrite Hf1, lookup_with_pipe.
      rewrite decide_False by done. by rewrite decide_True.
    + simpl. rewrite Hf1, lookup_with_pipe. by rewrite decide_True.
    + simpl. rewrite Hf1. by apply std_open_with_pipe.
Qed.

(** The table of a live pipe, closed. *)
Lemma delete_with_pipe t id r wr :
  t !! r = None → t !! wr = None →
  delete wr (delete r (with_pipe t id r wr)) = t.
Proof.
  intros Hr Hw. apply map_eq. intros k.
  destruct (decide (k = wr)) as [->|]; [by rewrite lookup_delete_eq|].
  rewrite lookup_delete_ne by done.
  destruct (decide (k = r)) as [->|]; [by rewrite lookup_delete_eq|].
  rewrite lookup_delete_ne by done. rewrite lookup_with_pipe.
  by rewrite !decide_False.
Qed.

Lemma output_pipe_run n0 cmd t id r wr w :
  benign w → std_open t → pipes_before n0 t →
  w_fds w = with_pipe t id r wr →
  t !! r = None → t !! wr = None →
  NoDup [r; wr; STDIN_FILENO; STDOUT_FILENO] →
  ∃ c w',
    output_pipe (r, wr) cmd w = Ret tt w' ∧
    evolves w w' t (w_npipes w)
            [EFork (c_pid c); EClose r (DPipe id Rd); EClose wr (DPipe id Wr); EWait]
            [c] ∧
    child_ok n0 c.
Proof.
  intros Hb Hstd Hpb Hfds Hr Hw Hnd. unfold output_pipe.
  assert (Hne : r ≠ wr ∧ r ≠ 0 ∧ wr ≠ 0).
  { unfold STDIN_FILENO, STDOUT_FILENO in Hnd.
    repeat (apply NoDup_cons in Hnd as [? Hnd]). set_solver. }
  destruct Hne as (Hne & ? & ?).
  assert (Hlr : w_fds w !! r = Some (DPipe id Rd)).
  { rewrite Hfds, lookup_with_pipe. rewrite decide_False by done.
    by rewrite decide_True. }
  assert (Hlw : w_fds w !! wr = Some (DPipe id Wr)).
  { rewrite Hfds, lookup_with_pipe. by rewrite decide_True. }
  edestruct (sys_fork_run (output_pipe_child (r, wr) cmd) w)
    as (c & w1 & Hfork & Hev1 & Hinh & Htr); [apply Hb|].
  unfold output_pipe_child in Hfork.
  erewrite bind_Ret by exact Hfork.
  pose proof Hev1 as (Hf1 & Hn1 & Ht1 & Hc1 & He1).
  edestruct (close_pipes_run r wr (DPipe id Rd) (DPipe id Wr) w1)
    as (w2 & Hcl & Hev2 & _); [by rewrite Hf1|by rewrite Hf1|done|].
  erewrite bind_Ret by exact Hcl.
  destruct (sys_wait_run w2) as (w3 & Hwait & Hev3).
  exists c, w3. split; [done|]. split.
  - pose proof (evolves_trans _ _ _ _ _ _ _ _ _ _ _ Hev1
                  (evolves_trans _ _ _ _ _ _ _ _ _ _ _ Hev2 Hev3)) as Hev.
    pose proof Hev2 as (Hf2 & Hn2 & _).
    rewrite Hf2, Hn2, Hf1, Hn1, Hfds, delete_with_pipe in Hev by done.
    exact Hev.
  - eapply (child_ok_pair n0 t id r wr); [done|by rewrite Hinh|].
    rewrite Htr.
    apply (closes_pair_of_tail r wr _ _ [EDup2 r STDIN_FILENO]); [done|].
    apply (output_pipe_child_trace r wr); done.
Qed.

Lemma output_pipe_redirect_run n0 m cmd file t id r wr w :
  benign w → std_open t → pipes_before n0 t →
  w_fds w = with_pipe t id r wr →
  t !! r = None → t !! wr = None →
  NoDup [r; wr; STDIN_FILENO; STDOUT_FILENO] →
  ∃ c w',
    output_pipe_redirect (r, wr) m cmd file w = Ret tt w' ∧
    evolves w w' t (w_npipes w)
            [EFork (c_pid c); EClose r (DPipe id Rd); EClose wr (DPipe id Wr); EWait]
            [c] ∧
    child_ok n0 c.
Proof.
  intros Hb Hstd Hpb Hfds Hr Hw Hnd. unfold output_pipe_redirect.
  assert (Hne : r ≠ wr).
  { apply NoDup_cons in Hnd as [Hnd _]. set_solver. }
  assert (Hlr : w_fds w !! r = Some (DPipe id Rd)).
  { rewrite Hfds, lookup_with_pipe. rewrite decide_False by done.
    by rewrite decide_True. }
  assert (Hlw : w_fds w !! wr = Some (DPipe id Wr)).
  { rewrite Hfds, lookup_with_pipe. by rewrite decide_True. }
  edestruct (sys_fork_run (output_pipe_redirect_child (r, wr) m cmd file) w)
    as (c & w1 & Hfork & Hev1 & Hinh & Htr); [apply Hb|].
  unfold output_pipe_redirect_child in Hfork.
  erewrite bind_Ret by exact Hfork.
  pose proof Hev1 as (Hf1 & Hn1 & Ht1 & Hc1 & He1).
  edestruct (close_pipes_run r wr (DPipe id Rd) (DPipe id Wr) w1)
    as (w2 & Hcl & Hev2 & _); [by rewrite Hf1|by rewrite Hf1|done|].
  erewrite bind_Ret by exact Hcl.
  destruct (sys_wait_run w2) as (w3 & Hwait & Hev3).
  exists c, w3. split; [done|]. split.
  - pose proof (evolves_trans _ _ _ _ _ _ _ _ _ _ _ Hev1
                  (evolves_trans _ _ _ _ _ _ _ _ _ _ _ Hev2 Hev3)) as Hev.
    pose proof Hev2 as (Hf2 & Hn2 & _).
    rewrite Hf2, Hn2, Hf1, Hn1, Hfds, delete_with_pipe in Hev by done.
    exact Hev.
  - eapply (child_ok_pair n0 t id r wr); [done|by rewrite Hinh|].
    rewrite Htr.
    apply (output_pipe_redirect_child_trace r wr); try done.
    simpl. rewrite Hfds. by apply std_open_with_pipe.
Qed.

Lemma closes_two_pairs r0 w0 r wr id id1 id' e :
  id ≠ id1 →
  closes (DPipe id' e)
    [EDup2 r0 STDIN_FILENO; EDup2 wr STDOUT_FILENO;
     EClose r0 (DPipe id Rd); EClose w0 (DPipe id Wr);
     EClose r (DPipe id1 Rd); EClose wr (DPipe id1 Wr)]
  = if decide (id' = id ∨ id' = id1) then 1 else 0.
Proof.
  intros Hne. cbn [app closes].
  destruct e;
    repeat match goal with
           | |- context [decide (DPipe ?a ?x = DPipe ?b ?y)] =>
               destruct (decide (DPipe a x = DPipe b y)) as [[=]|]
           end;
    case_decide; try lia; try congruence;
    match goal with H : _ ∨ _ |- _ => destruct H; congruence end.
Qed.

Lemma inter_pipe_run n0 cmd t id r0 w0 w :
  benign w → std_open t → pipes_before n0 t → n0 ≤ id →
  w_fds w = with_pipe t id r0 w0 → w_npipes w = S id →
  t !! r0 = None → t !! w0 = None →
  NoDup [r0; w0; STDIN_FILENO; STDOUT_FILENO] →
  ∃ r wr c w',
    inter_pipe (r0, w0) cmd w = Ret (r, wr) w' ∧
    evolves w w' (with_pipe t (S id) r wr) (S (S id))
            [EPipe (S id) r wr; EFork (c_pid c);
             EClose r0 (DPipe id Rd); EClose w0 (DPipe id Wr); EWait] [c] ∧
    child_ok n0 c ∧
    t !! r = None ∧ t !! wr = None ∧
    NoDup [r; wr; STDIN_FILENO; STDOUT_FILENO].
Proof.
  intros Hb Hstd Hpb Hn0 Hfds Hnp Hr0 Hw0 Hnd0. unfold inter_pipe.
  destruct (sys_pipe_run w (Hb _)) as (w1 & Hpipe & Hev1).
  assert (Hstd' : std_open (w_fds w)) by (rewrite Hfds; by apply std_open_with_pipe).
  destruct (fresh_pair (w_fds w) (DPipe (w_npipes w) Rd) Hstd') as (Hr & Hw & Hnd).
  set (r := lowest_free (w_fds w)) in *.
  set (wr := lowest_free (<[r := DPipe (w_npipes w) Rd]> (w_fds w))) in *.
  rewrite Hnp in *.
  apply NoDup_four in Hnd0 as (? & ? & ? & ? & ? & _).
  pose proof Hnd as Hnd'. apply NoDup_four in Hnd' as (? & ? & ? & ? & ? & _).
  rewrite Hfds, lookup_with_pipe in Hr, Hw.
  destruct (decide (r = w0)); [done|]. destruct (decide (r = r0)); [done|].
  destruct (decide (wr = w0)); [done|]. destruct (decide (wr = r0)); [done|].
  erewrite bind_Ret by exact Hpipe.
  pose proof Hev1 as (Hf1 & Hn1 & Ht1 & Hc1 & He1).
  assert (Hl : w_fds w1 !! r0 = Some (DPipe id Rd) ∧
               w_fds w1 !! w0 = Some (DPipe id Wr) ∧
               w_fds w1 !! r = Some (DPipe (S id) Rd) ∧
               w_fds w1 !! wr = Some (DPipe (S id) Wr)).
  { rewrite Hf1, Hfds, !lookup_with_pipe.
    repeat split; repeat case_decide; congruence. }
  destruct Hl as (Hl1 & Hl2 & Hl3 & Hl4).
  edestruct (sys_fork_run (inter_pipe_child (r0, w0) (r, wr) cmd) w1)
    as (c & w2 & Hfork & Hev2 & Hinh & Htr); [rewrite He1; apply Hb|].
  unfold inter_pipe_child in Hfork.
  erewrite bind_Ret by exact Hfork.
  pose proof Hev2 as (Hf2 & Hn2 & Ht2 & Hc2 & He2).
  edestruct (close_pipes_run r0 w0 (DPipe id Rd) (DPipe id Wr) w2)
    as (w3 & Hcl & Hev3 & _); [by rewrite Hf2|by rewrite Hf2|done|].
  cbn beta iota. rewrite bind_assoc.
  erewrite bind_Ret by exact Hcl.
  destruct (sys_wait_run w3) as (w4 & Hwait & Hev4).
  erewrite bind_Ret by exact Hwait.
  exists r, wr, c, w4. split; [done|].
  split; [|split; [|done]].
  - pose proof (evolves_trans _ _ _ _ _ _ _ _ _ _ _ Hev1
                  (evolves_trans _ _ _ _ _ _ _ _ _ _ _ Hev2
                     (evolves_trans _ _ _ _ _ _ _ _ _ _ _ Hev3 Hev4))) as Hev.
    pose proof Hev3 as (Hf3 & Hn3 & _).
    rewrite Hf3, Hn3, Hf2, Hn2, Hf1, Hn1, Hfds in Hev.
    replace (delete w0 (delete r0 (with_pipe (with_pipe t id r0 w0) (S id) r wr)))
      with (with_pipe t (S id) r wr) in Hev; [exact Hev|].
    apply map_eq. intros k.
    destruct (decide (k = w0)) as [->|];
      [rewrite lookup_delete_eq, lookup_with_pipe;
       repeat case_decide; congruence|].
    rewrite lookup_delete_ne by done.
    destruct (decide (k = r0)) as [->|];
      [rewrite lookup_delete_eq, lookup_with_pipe;
       repeat case_decide; congruence|].
    rewrite lookup_delete_ne by done. rewrite !lookup_with_pipe.
    repeat case_decide; congruence.
  - intros fd id' e Hlk Hge Hre. rewrite Htr in Hre |- *.
    assert (Hnd6 : NoDup [r0; w0; r; wr; STDIN_FILENO; STDOUT_FILENO]).
    { unfold STDIN_FILENO, STDOUT_FILENO in *.
      repeat (apply NoDup_cons; split;
              [rewrite ?elem_of_cons, elem_of_nil; intuition congruence|]).
      apply NoDup_nil_2. }
    destruct (inter_pipe_child_trace r0 w0 r wr _ _ _ _ cmd (child_world w1)
                eq_refl Hl1 Hl2 Hl3 Hl4 Hnd6)
      as [Hnil|(rest & Heq & Hrest & _)]; unfold child_trace_of in *.
    { rewrite Hnil in Hre. done. }
    rewrite Heq, closes_app, Hrest, Nat.add_0_r.
    rewrite (closes_two_pairs r0 w0 r wr id (S id)) by lia.
    rewrite Hinh, Hf1, Hfds, !lookup_with_pipe in Hlk.
    destruct (decide (fd = wr));
      [injection Hlk as <- _; rewrite decide_True; [done|by right]|].
    destruct (decide (fd = r));
      [injection Hlk as <- _; rewrite decide_True; [done|by right]|].
    destruct (decide (fd = w0));
      [injection Hlk as <- _; rewrite decide_True; [done|by left]|].
    destruct (decide (fd = r0));
      [injection Hlk as <- _; rewrite decide_True; [done|by left]|].
    apply Hpb in Hlk. lia.
Qed.

(** ** The pipe invariant of the scan *)

Lemma bind_inv {A B} (m : M A) (k : A → M B) w b w' :
  bind m k w = Ret b w' → ∃ a w1, m w = Ret a w1 ∧ k a w1 = Ret b w'.
Proof.
  unfold bind. destruct (m w) as [a w1| | |]; [|done|done|done]. intros H. by exists a, w1.
Qed.

Lemma store_inv (a : array) i v w a' w' :
  store a i v w = Ret a' w' → w' = w.
Proof. unfold store. case_decide; [|done]. by intros [= _ ->]. Qed.

Lemma load_inv (a : array) i w v w' :
  load a i w = Ret v w' → w' = w ∧ a !! i = Some v.
Proof. unfold load. destruct (a !! i); [|done]. by intros [= -> ->]. Qed.

Lemma save_command_copy_inv n : ∀ i dest command w d w',
  save_command_copy n i dest command w = Ret d w' → w' = w.
Proof.
  induction n as [|n IH]; intros i dest command w d w'; simpl.
  - by intros [= _ ->].
  - intros H. apply bind_inv in H as (v & w1 & Hl & H).
    apply load_inv in Hl as [-> _].
    apply bind_inv in H as (d1 & w2 & Hs & H).
    apply store_inv in Hs as ->. by apply IH in H.
Qed.

Lemma save_command_inv dest command idx w dc w' :
  save_command dest command idx w = Ret dc w' → w' = w.
Proof.
  unfold save_command. intros H.
  apply bind_inv in H as (c1 & w1 & Hs & H). apply store_inv in Hs as ->.
  apply bind_inv in H as (d1 & w2 & Hc & H). apply save_command_copy_inv in Hc as ->.
  apply bind_inv in H as (c2 & w3 & Hs & H). apply store_inv in Hs as ->.
  by injection H as _ ->.
Qed.

Lemma pipe_state_init garbage w0 : pipe_state w0 (scan_init garbage) w0.
Proof.
  split; [done|]. exists [], []. rewrite !app_nil_r.
  repeat split; try done. intros id e Hge. simpl.
  by rewrite decide_False by lia.
Qed.

(** The invariant only looks at the mode, the flag, the input file and
    pipe_fds. *)
Lemma pipe_state_same w0 st st' w :
  redirect_mode st' = redirect_mode st →
  output_before_pipe st' = output_before_pipe st →
  input_file st' = input_file st →
  pipe_fds st' = pipe_fds st →
  pipe_state w0 st w → pipe_state w0 st' w.
Proof.
  intros Hm Ho Hi Hp [Hinv Hst]. unfold pipe_state, mode_inv, live in *.
  by rewrite Hm, Ho, Hi, Hp.
Qed.

Lemma closes_done_quiet n0 done_ tr tr' :
  no_pipe_closes tr' → closes_done n0 done_ tr → closes_done n0 done_ (tr ++ tr').
Proof.
  intros Hq Hd id e Hge. rewrite closes_app, Hq, Nat.add_0_r. by apply Hd.
Qed.

Lemma closes_done_close n0 id tr tr' :
  n0 ≤ id →
  (∀ id' e, closes (DPipe id' e) tr' = if decide (id' = id) then 1 else 0) →
  closes_done n0 id tr → closes_done n0 (S id) (tr ++ tr').
Proof.
  intros Hn Hc Hd id' e Hge. rewrite closes_app, Hc, (Hd id' e Hge).
  repeat case_decide; lia.
Qed.

Lemma closes_pair_events id id' e r wr (pre post : list Event) :
  no_pipe_closes pre → no_pipe_closes post →
  closes (DPipe id' e)
    (pre ++ [EClose r (DPipe id Rd); EClose wr (DPipe id Wr)] ++ post)
  = if decide (id' = id) then 1 else 0.
Proof.
  intros Hpre Hpost. rewrite !closes_app, Hpre, Hpost. cbn [closes].
  destruct e;
    repeat match goal with
           | |- context [decide (DPipe ?a ?x = DPipe ?b ?y)] =>
               destruct (decide (DPipe a x = DPipe b y)) as [[=]|]
           end;
    case_decide; try lia; congruence.
Qed.

Lemma pipe_state_move w0 st st' w :
  pipe_state w0 st w →
  live st' = live st → pipe_fds st' = pipe_fds st → mode_inv st' →
  pipe_state w0 st' w.
Proof.
  intros [_ Hst] Hl Hp Hinv. split; [done|]. by rewrite Hl, Hp.
Qed.

Lemma pipe_state_benign w0 st w : benign w0 → pipe_state w0 st w → benign w.
Proof. intros Hb (_ & tr & cs & _ & _ & He & _) t. rewrite He. apply Hb. Qed.

(** A first pipe stage starts a live pair. *)
Lemma pipe_state_first w0 st w st' w' r wr c :
  std_open (w_fds w0) →
  pipe_state w0 st w → live st = false →
  evolves w w' (with_pipe (w_fds w) (w_npipes w) r wr) (S (w_npipes w))
          [EPipe (w_npipes w) r wr; EFork (c_pid c); EWait] [c] →
  child_ok (w_npipes w0) c →
  w_fds w !! r = None → w_fds w !! wr = None →
  NoDup [r; wr; STDIN_FILENO; STDOUT_FILENO] →
  redirect_mode st' = PIPE → pipe_fds st' = (r, wr) →
  output_before_pipe st' = false → input_file st' = None →
  pipe_state w0 st' w'.
Proof.
  intros Hstd (_ & tr & cs & Ht & Hc & He & Hok & Hn & Hlive) Hl
         (Hf' & Hn' & Ht' & Hc' & He') Hcok Hr Hw Hnd Hm Hp Ho Hi.
  rewrite Hl in Hlive. destruct Hlive as [Hfds Hdone].
  split; [unfold mode_inv; by rewrite Hm|].
  exists (tr ++ [EPipe (w_npipes w) r wr; EFork (c_pid c); EWait]), (cs ++ [c]).
  rewrite Ht', Ht, Hc', Hc, He', He, !app_assoc.
  split; [done|]. split; [done|]. split; [done|].
  split; [by apply Forall_app; split; [|constructor]|].
  split; [lia|]. unfold live. rewrite Hm, Hp. simpl.
  exists (w_npipes w). rewrite <- Hfds.
  repeat split; try done.
  by apply closes_done_quiet.
Qed.

(** The step from one scan position to the next keeps the invariant. *)
Lemma pipe_state_step w0 token st w st' w' :
  benign w0 → std_open (w_fds w0) → pipes_before (w_npipes w0) (w_fds w0) →
  pipe_state w0 st w →
  scan_token token st w = Ret (inl st') w' →
  pipe_state w0 st' w'.
Proof.
  intros Hb Hstd Hpb Hst Hstep.
  pose proof (pipe_state_benign _ _ _ Hb Hst) as Hbw.
  pose proof Hst as (Hinv & tr & cs & Ht & Hc & He & Hok & Hn & Hlive).
  unfold scan_token, go_on, leave_with in Hstep.
  destruct (String.eqb token "<").
  { destruct (decide (redirect_mode st ≠ REG_CMD)) as [|Hm]; [done|].
    apply dec_stable in Hm.
    apply bind_inv in Hstep as (dc & w1 & Hs & Hstep).
    apply save_command_inv in Hs as ->. injection Hstep as <- <-.
    apply (pipe_state_move w0 st); [done| |done|].
    - unfold live. simpl. by rewrite Hm.
    - unfold mode_inv in *. simpl. by rewrite Hm in Hinv. }
  destruct (String.eqb token ">" || String.eqb token ">>").
  { set (om := if String.eqb token ">>" then OUTPUT_APPEND else OUTPUT) in *.
    assert (Hom : om = OUTPUT ∨ om = OUTPUT_APPEND)
      by (unfold om; destruct (String.eqb token ">>"); auto).
    destruct (decide (redirect_mode st = INPUT)) as [Hm|Hm].
    { apply bind_inv in Hstep as (c0 & w1 & Hl & Hstep).
      apply load_inv in Hl as [-> _]. destruct c0 as [f|]; [|done].
      injection Hstep as <- <-.
      unfold mode_inv in Hinv. rewrite Hm in Hinv. destruct Hinv as [Ho Hi].
      apply (pipe_state_move w0 st); [done| |done|].
      - unfold live. simpl. rewrite Hm, Ho. by destruct Hom as [-> | ->].
      - unfold mode_inv. simpl. rewrite Ho. by destruct Hom as [-> | ->]. }
    destruct (decide (redirect_mode st = OUTPUT ∨ redirect_mode st = OUTPUT_APPEND))
      as [Hout|Hout].
    { apply bind_inv in Hstep as (c0 & w1 & Hl & Hstep).
      apply load_inv in Hl as [-> _]. destruct c0 as [f|]; [|done].
      apply bind_inv in Hstep as ([] & w1 & Hio & Hstep).
      injection Hstep as <- <-.
      destruct (redirect_io_evolves (redirect_mode st) NULL_command (Some f) false w Hbw)
        as (w1' & tr1 & cs1 & Hrun & (Hf1 & Hn1 & Ht1 & Hc1 & He1) & Hq & Hcs & _).
      rewrite Hio in Hrun. injection Hrun as <-.
      rewrite (Hcs eq_refl), app_nil_r in Hc1.
      split.
      { unfold mode_inv in *. simpl.
        destruct Hout as [Hout|Hout]; rewrite Hout in Hinv;
          by destruct Hom as [-> | ->]. }
      exists (tr ++ tr1), cs.
      rewrite Ht1, Ht, Hc1, Hc, He1, He, Hn1, Hf1, app_assoc.
      split; [done|]. split; [done|]. split; [done|]. split; [done|].
      split; [done|].
      assert (Hlv : live (mkScan (command st) (redirect_cmd st) (input_file st)
                            (output_before_pipe st) 0 om (pipe_fds st)) = live st).
      { unfold live. simpl.
        destruct Hout as [-> | ->]; by destruct Hom as [-> | ->]. }
      rewrite Hlv. simpl pipe_fds.
      destruct (live st).
      - destruct Hlive as (id & ? & ? & ? & ? & ? & ? & Hd).
        exists id. repeat split; try done. by apply closes_done_quiet.
      - destruct Hlive as [? Hd]. split; [done|]. by apply closes_done_quiet. }
    apply bind_inv in Hstep as (dc & w1 & Hs & Hstep).
    apply save_command_inv in Hs as ->. injection Hstep as <- <-.
    assert (Hreg : redirect_mode st = REG_CMD ∨ redirect_mode st = PIPE).
    { destruct (redirect_mode st); try done; auto; exfalso; apply Hout; auto. }
    unfold mode_inv in Hinv.
    destruct Hreg as [Hreg|Hreg]; rewrite Hreg in Hinv; destruct Hinv as [Ho Hi].
    - apply (pipe_state_move w0 st); [done| |done|].
      + unfold live. simpl. rewrite Hreg, Ho. by destruct Hom as [-> | ->].
      + unfold mode_inv. simpl. rewrite Hreg, Ho. simpl.
        by destruct Hom as [-> | ->].
    - apply (pipe_state_move w0 st); [done| |done|].
      + unfold live. simpl. rewrite Hreg. simpl. by destruct Hom as [-> | ->].
      + unfold mode_inv. simpl. by destruct Hom as [-> | ->]. }
  destruct (String.eqb token "|").
  { destruct (decide (redirect_mode st = OUTPUT ∨ redirect_mode st = OUTPUT_APPEND))
      as [Hout|Hout]; [done|].
    destruct (decide (redirect_mode st = PIPE)) as [Hm|Hm].
    { apply bind_inv in Hstep as (c0 & w1 & Hl & Hstep).
      apply load_inv in Hl as [-> _]. destruct c0 as [f|]; [|done].
      apply bind_inv in Hstep as (cmd & w1 & Hs & Hstep).
      apply store_inv in Hs as ->.
      apply bind_inv in Hstep as (fds & w1 & Hrun & Hstep).
      injection Hstep as <- <-.
      unfold live in Hlive. rewrite Hm in Hlive.
      destruct Hlive as (id & Hnp & Hge & Hfds & Hr0 & Hw0 & Hnd & Hd).
      destruct (pipe_fds st) as [r0 wr0] eqn:Hp. simpl in *.
      destruct (inter_pipe_run (w_npipes w0) cmd (w_fds w0) id r0 wr0 w)
        as (r & wr & c & w1' & Hrun' & (Hf1 & Hn1 & Ht1 & Hc1 & He1) & Hcok & Hr & Hw & Hnd');
        try done.
      rewrite Hrun in Hrun'. injection Hrun' as -> <-.
      unfold mode_inv in Hinv. rewrite Hm in Hinv. destruct Hinv as [Ho Hi].
      split; [done|].
      exists (tr ++ [EPipe (S id) r wr; EFork (c_pid c);
                     EClose r0 (DPipe id Rd); EClose wr0 (DPipe id Wr); EWait]),
             (cs ++ [c]).
      rewrite Ht1, Ht, Hc1, Hc, He1, He, Hn1, Hf1, !app_assoc.
      split; [done|]. split; [done|]. split; [done|].
      split; [by apply Forall_app; split; [|constructor]|].
      split; [lia|]. unfold live. simpl.
      exists (S id). repeat split; try done; [lia|].
      apply closes_done_close; [done| |done].
      intros id' e.
      apply (closes_pair_events id id' e r0 wr0
               [EPipe (S id) r wr; EFork (c_pid c)] [EWait]); done. }
    assert (Hl : live st = false).
    { unfold live. unfold mode_inv in Hinv.
      destruct (redirect_mode st); try done; exfalso; apply Hout; auto. }
    assert (Hfds : w_fds w = w_fds w0) by (rewrite Hl in Hlive; by destruct Hlive).
    destruct (decide (redirect_mode st = INPUT)) as [Hin|Hin].
    { apply bind_inv in Hstep as (c0 & w1 & Hld & Hstep).
      apply load_inv in Hld as [-> _].
      apply bind_inv in Hstep as (fds & w1 & Hrun & Hstep).
      injection Hstep as <- <-.
      destruct (input_pipe_redirect_run (w_npipes w0) (redirect_cmd st) c0 w)
        as (r & wr & c & w1' & Hrun' & Hev & Hcok & Hr & Hw & Hnd);
        try done; [by rewrite Hfds|by rewrite Hfds|].
      rewrite Hrun in Hrun'. injection Hrun' as -> <-.
      unfold mode_inv in Hinv. rewrite Hin in Hinv. destruct Hinv as [Ho Hi].
      by eapply (pipe_state_first w0 st w _ _ r wr c). }
    apply bind_inv in Hstep as (cmd & w1 & Hs & Hstep).
    apply store_inv in Hs as ->.
    apply bind_inv in Hstep as (fds & w1 & Hrun & Hstep).
    injection Hstep as <- <-.
    destruct (input_pipe_run (w_npipes w0) cmd w)
      as (r & wr & c & w1' & Hrun' & Hev & Hcok & Hr & Hw & Hnd);
      try done; [by rewrite Hfds|by rewrite Hfds|].
    rewrite Hrun in Hrun'. injection Hrun' as -> <-.
    assert (Hreg : redirect_mode st = REG_CMD).
    { destruct (redirect_mode st); try done; exfalso; apply Hout; auto. }
    unfold mode_inv in Hinv. rewrite Hreg in Hinv. destruct Hinv as [Ho Hi].
    by eapply (pipe_state_first w0 st w _ _ r wr c). }
  apply bind_inv in Hstep as (cmd & w1 & Hs & Hstep).
  apply store_inv in Hs as ->. injection Hstep as <- <-.
  by apply (pipe_state_same w0 st).
Qed.

Lemma pipe_state_loop w0 n : ∀ toks st w st' w',
  benign w0 → std_open (w_fds w0) → pipes_before (w_npipes w0) (w_fds w0) →
  pipe_state w0 st w →
  scan_loop n toks st w = Ret (inl st') w' →
  pipe_state w0 st' w'.
Proof.
  induction n as [|n IH]; intros toks st w st' w' Hb Hstd Hpb Hst Hrun;
    cbn [scan_loop] in Hrun.
  - by injection Hrun as <- <-.
  - destruct (decide (MAX_ARGS + 1 ≤ cmd_index st)); [done|].
    destruct toks as [|token rest].
    + apply bind_inv in Hrun as (cmd & w1 & Hs & Hrun).
      apply store_inv in Hs as ->. injection Hrun as <- <-.
      by apply (pipe_state_same w0 st).
    + apply bind_inv in Hrun as ([st1|code] & w1 & Hstep & Hrun); [|done].
      apply (IH rest st1 w1); try done.
      by apply (pipe_state_step w0 token st w).
Qed.

Lemma scan_token_fails token st : yields (scan_token token st) fails.
Proof.
  unfold scan_token, go_on, leave_with.
  destruct (String.eqb token "<"); [by yields_walk|].
  destruct (String.eqb token ">" || String.eqb token ">>"); [by yields_walk|].
  destruct (String.eqb token "|"); by yields_walk.
Qed.

Lemma scan_loop_fails n : ∀ toks st, yields (scan_loop n toks st) fails.
Proof.
  induction n as [|n IH]; intros toks st; cbn [scan_loop].
  - by apply yields_ret.
  - destruct (decide (MAX_ARGS + 1 ≤ cmd_index st)).
    { unfold leave_with. by yields_walk. }
    destruct toks as [|token rest]; [unfold go_on; by yields_walk|].
    intros w r w' Hrun.
    apply bind_inv in Hrun as ([st1|code] & w1 & Hstep & Hrun).
    + by apply (IH rest st1 w1 r w').
    + injection Hrun as <- _. apply (scan_token_fails token st _ _ _ Hstep).
Qed.

Lemma settle_quiet w0 st w w' tr1 cs1 :
  pipes_before (w_npipes w0) (w_fds w0) →
  pipe_state w0 st w → live st = false →
  evolves w w' (w_fds w) (w_npipes w) tr1 cs1 →
  no_pipe_closes tr1 →
  Forall (λ c, pipes_before (w_npipes w0) (c_inherited c)) cs1 →
  pipes_settled w0 w'.
Proof.
  intros Hpb (_ & tr & cs & Ht & Hc & He & Hok & Hn & Hlive) Hl
         (Hf' & Hn' & Ht' & Hc' & He') Hq Hcs.
  rewrite Hl in Hlive. destruct Hlive as [Hfds Hd].
  split; [by rewrite Hf'|].
  exists (tr ++ tr1), (cs ++ cs1). rewrite Ht', Ht, Hc', Hc, Hn', !app_assoc.
  split; [done|]. split; [done|]. split; [by apply closes_done_quiet|].
  apply Forall_app. split; [done|].
  eapply Forall_impl; [exact Hcs|]. intros c. apply child_ok_no_pipe.
Qed.

Lemma settle_live w0 st w w' c :
  pipe_state w0 st w → live st = true →
  (∀ id, w_fds w = with_pipe (w_fds w0) id (fst (pipe_fds st)) (snd (pipe_fds st)) →
         evolves w w' (w_fds w0) (w_npipes w)
                 [EFork (c_pid c);
                  EClose (fst (pipe_fds st)) (DPipe id Rd);
                  EClose (snd (pipe_fds st)) (DPipe id Wr); EWait] [c]) →
  child_ok (w_npipes w0) c →
  pipes_settled w0 w'.
Proof.
  intros (_ & tr & cs & Ht & Hc & He & Hok & Hn & Hlive) Hl Hev Hcok.
  rewrite Hl in Hlive.
  destruct Hlive as (id & Hnp & Hge & Hfds & Hr & Hw & Hnd & Hd).
  destruct (Hev id Hfds) as (Hf' & Hn' & Ht' & Hc' & He').
  split; [done|].
  exists (tr ++ [EFork (c_pid c);
                 EClose (fst (pipe_fds st)) (DPipe id Rd);
                 EClose (snd (pipe_fds st)) (DPipe id Wr); EWait]), (cs ++ [c]).
  rewrite Ht', Ht, Hc', Hc, Hn', Hnp, !app_assoc.
  split; [done|]. split; [done|]. split.
  - apply closes_done_close; [done| |done]. intros id' e.
    apply (closes_pair_events id id' e _ _ [EFork (c_pid c)] [EWait]); done.
  - apply Forall_app. split; [done|]. by constructor.
Qed.

Lemma pipe_state_finish w0 st w w' :
  benign w0 → std_open (w_fds w0) → pipes_before (w_npipes w0) (w_fds w0) →
  pipe_state w0 st w →
  finish st w = Ret EXEC_SUCCESS w' →
  pipes_settled w0 w'.
Proof.
  intros Hb Hstd Hpb Hst Hfin.
  pose proof (pipe_state_benign _ _ _ Hb Hst) as Hbw.
  pose proof Hst as (Hinv & tr & cs & Ht & Hc & He & Hok & Hn & Hlive).
  unfold finish in Hfin.
  destruct (decide (redirect_mode st = REG_CMD)) as [Hreg|Hreg].
  { assert (Hl : live st = false) by (unfold live; by rewrite Hreg).
    rewrite Hl in Hlive. destruct Hlive as [Hfds _].
    apply bind_inv in Hfin as (z & w1 & Hrun & Hfin). injection Hfin as <-.
    destruct (exec_command_evolves REG_CMD (command st) 0 w (Hbw _))
      as (c & w1' & Hrun' & Hev & Hinh).
    rewrite Hrun in Hrun'. injection Hrun' as _ <-.
    eapply (settle_quiet w0 st w w1 _ [c]); [done|done|done|exact Hev|done|].
    constructor; [|done]. by rewrite Hinh, Hfds. }
  apply bind_inv in Hfin as (c0 & w1 & Hl & Hfin).
  apply load_inv in Hl as [-> _]. destruct c0 as [f|]; [|done].
  apply bind_inv in Hfin as ([] & w1 & Hrun & Hfin). injection Hfin as <-.
  destruct (decide (redirect_mode st = INPUT)) as [Hin|Hin].
  { assert (Hl : live st = false) by (unfold live; by rewrite Hin).
    rewrite Hl in Hlive. destruct Hlive as [Hfds _].
    destruct (redirect_io_evolves INPUT (redirect_cmd st) (Some f) true w Hbw)
      as (w1' & tr1 & cs1 & Hrun' & Hev & Hq & _ & Hcs).
    rewrite Hrun in Hrun'. injection Hrun' as <-.
    apply (settle_quiet w0 st w w1 tr1 cs1); try done.
    eapply Forall_impl; [exact Hcs|]. intros c (fd & p & flags & ->).
    rewrite Hfds. by apply pipes_before_insert_file. }
  destruct (decide (redirect_mode st = OUTPUT ∨ redirect_mode st = OUTPUT_APPEND))
    as [Hout|Hout].
  { assert (Hlo : live st = output_before_pipe st).
    { unfold live. by destruct Hout as [-> | ->]. }
    assert (Hio : output_before_pipe st = true → input_file st = None).
    { unfold mode_inv in Hinv. by destruct Hout as [Hout|Hout]; rewrite Hout in Hinv. }
    destruct (input_file st) as [infile|] eqn:Hif.
    { assert (Hl : live st = false).
      { rewrite Hlo. destruct (output_before_pipe st); [|done].
        by specialize (Hio eq_refl). }
      pose proof Hlive as Hlive'. rewrite Hl in Hlive'. destruct Hlive' as [Hfds _].
      destruct (exec_redir_bothio_evolves (redirect_mode st) (redirect_cmd st)
                  (Some infile) (Some f) w (Hbw _))
        as (c & w1' & Hrun' & Hev & Hinh).
      rewrite Hrun in Hrun'. injection Hrun' as <-.
      eapply (settle_quiet w0 st w w1 _ [c]); [done|done|done|exact Hev|done|].
      constructor; [|done]. by rewrite Hinh, Hfds. }
    destruct (output_before_pipe st) eqn:Hobp.
    - pose proof Hlive as Hlive'. rewrite Hlo in Hlive'.
      destruct Hlive' as (id & Hnp & Hge & Hfds & Hr & Hw & Hnd & Hd).
      destruct (pipe_fds st) as [r wr] eqn:Hp. simpl in *.
      destruct (output_pipe_redirect_run (w_npipes w0) (redirect_mode st)
                  (redirect_cmd st) (Some f) (w_fds w0) id r wr w)
        as (c & w1' & Hrun' & Hev & Hcok); try done.
      rewrite Hrun in Hrun'. injection Hrun' as <-.
      apply (settle_live w0 st w w1 c); try done.
      rewrite Hp. simpl. intros id' Hfds'.
      assert (id' = id) as ->; [|done].
      rewrite Hfds in Hfds'. apply (f_equal (λ t, t !! wr)) in Hfds'.
      rewrite !lookup_with_pipe, !decide_True in Hfds' by done. congruence.
    - assert (Hl : live st = false) by by rewrite Hlo.
      pose proof Hlive as Hlive'. rewrite Hl in Hlive'. destruct Hlive' as [Hfds _].
      destruct (redirect_io_evolves (redirect_mode st) (redirect_cmd st)
                  (Some f) true w Hbw)
        as (w1' & tr1 & cs1 & Hrun' & Hev & Hq & _ & Hcs).
      rewrite Hrun in Hrun'. injection Hrun' as <-.
      apply (settle_quiet w0 st w w1 tr1 cs1); try done.
      eapply Forall_impl; [exact Hcs|]. intros c (fd & p & flags & ->).
      rewrite Hfds. by apply pipes_before_insert_file. }
  assert (Hpipe : redirect_mode st = PIPE).
  { destruct (redirect_mode st); try done; exfalso; apply Hout; auto. }
  rewrite decide_True in Hrun by done.
  assert (Hl : live st = true) by (unfold live; by rewrite Hpipe).
  pose proof Hlive as Hlive'. rewrite Hl in Hlive'.
  destruct Hlive' as (id & Hnp & Hge & Hfds & Hr & Hw & Hnd & Hd).
  destruct (pipe_fds st) as [r wr] eqn:Hp. simpl in *.
  destruct (output_pipe_run (w_npipes w0) (command st) (w_fds w0) id r wr w)
    as (c & w1' & Hrun' & Hev & Hcok); try done.
  rewrite Hrun in Hrun'. injection Hrun' as <-.
  apply (settle_live w0 st w w1 c); try done.
  rewrite Hp. simpl. intros id' Hfds'.
  assert (id' = id) as ->; [|done].
  rewrite Hfds in Hfds'. apply (f_equal (λ t, t !! wr)) in Hfds'.
  rewrite !lookup_with_pipe, !decide_True in Hfds' by done. congruence.
Qed.

(** C3 (as the code has it): for a line that the parser completes with
    EXEC_SUCCESS, in a world where pipe, fork and open are granted and
    standard input and output are open: the descriptor table of the shell
    after the line is the one before it; every pipe created for the line
    (the pipes numbered from w_npipes w0 up to w_npipes w') has each end
    closed exactly once by the shell; and every child forked for the line
    that gets as far as execvp has closed exactly once each end it inherited
    of these pipes.  On "a | b | c" three children are forked, two pipes are
    created and no descriptor of them stays open in the shell. *)
Theorem pipes_closed_after_complete_line :
  (∀ garbage toks w0 w',
     benign w0 → std_open (w_fds w0) → pipes_before (w_npipes w0) (w_fds w0) →
     parse_tokens garbage toks w0 = Ret EXEC_SUCCESS w' →
     w_fds w' = w_fds w0 ∧
     ∃ tr cs,
       w_trace w' = w_trace w0 ++ tr ∧
       w_children w' = w_children w0 ++ cs ∧
       (∀ id e, w_npipes w0 ≤ id < w_npipes w' → closes (DPipe id e) tr = 1) ∧
       (∀ c fd id e,
          c ∈ cs → c_inherited c !! fd = Some (DPipe id e) → w_npipes w0 ≤ id →
          reached_exec (c_trace c) = true →
          closes (DPipe id e) (c_trace c) = 1)) ∧
  (∃ w', parse_input_and_exec (0, 0) "a | b | c" " " world0 = Ret EXEC_SUCCESS w' ∧
         length (w_children w') = 3 ∧ w_npipes w' = 2 ∧
         w_fds w' = w_fds world0 ∧
         closes (DPipe 0 Rd) (w_trace w') = 1 ∧ closes (DPipe 0 Wr) (w_trace w') = 1 ∧
         closes (DPipe 1 Rd) (w_trace w') = 1 ∧ closes (DPipe 1 Wr) (w_trace w') = 1).
Proof.
  split.
  - intros garbage toks w0 w' Hb Hstd Hpb Hparse.
    unfold parse_tokens in Hparse.
    apply bind_inv in Hparse as ([st|code] & w1 & Hscan & Hfin).
    + pose proof (pipe_state_loop w0 _ _ _ _ _ _ Hb Hstd Hpb
                    (pipe_state_init garbage w0) Hscan) as Hst.
      destruct (pipe_state_finish w0 st w1 w' Hb Hstd Hpb Hst Hfin)
        as (Hfds & tr & cs & Ht & Hc & Hd & Hok).
      split; [done|]. exists tr, cs. split; [done|]. split; [done|]. split.
      * intros id e [Hge Hlt]. rewrite (Hd id e Hge). by rewrite decide_True.
      * intros c fd id e Hin. rewrite Forall_forall in Hok. by apply Hok.
    + injection Hfin as -> _.
      by pose proof (scan_loop_fails _ _ _ _ _ _ Hscan) as Hf.
  - eexists. split; [vm_compute; reflexivity|]. repeat split; vm_compute; reflexivity.
Qed.

Lemma world0_no_pipes : pipes_before (w_npipes world0) (w_fds world0).
Proof.
  intros fd id e H. simpl in H.
  apply lookup_insert_Some in H as [[_ H]|[_ H]]; [done|].
  apply lookup_insert_Some in H as [[_ H]|[_ H]]; [done|].
  apply lookup_insert_Some in H as [[_ H]|[_ H]]; [done|].
  by rewrite lookup_empty in H.
Qed.

Lemma pipes_closed_after_complete_line_witness :
  ∃ w', parse_tokens (0, 0) ["a"; "|"; "b"; ">"; "out"] world0 = Ret EXEC_SUCCESS w' ∧
    w_fds w' = w_fds world0 ∧
    ∃ tr cs,
      w_trace w' = w_trace world0 ++ tr ∧
      w_children w' = w_children world0 ++ cs ∧
      (∀ id e, w_npipes world0 ≤ id < w_npipes w' → closes (DPipe id e) tr = 1) ∧
      (∀ c fd id e,
         c ∈ cs → c_inherited c !! fd = Some (DPipe id e) → w_npipes world0 ≤ id →
         reached_exec (c_trace c) = true →
         closes (DPipe id e) (c_trace c) = 1).
Proof.
  eexists. split; [vm_compute; reflexivity|].
  destruct pipes_closed_after_complete_line as [H _].
  apply (H (0, 0) ["a"; "|"; "b"; ">"; "out"] world0).
  - intros t. reflexivity.
  - split; exists DTerm; vm_compute; reflexivity.
  - apply world0_no_pipes.
  - vm_compute. reflexivity.
Defined.

(** C3 as stated fails when the line is aborted after a pipe was created:
    on "a |" and on "a | b > f | c" the parser reports a parse error and
    returns with both ends of the live pipe still open in the shell, never
    closed. *)
Lemma pipes_left_open_counterexample :
  (∃ w', parse_input_and_exec (0, 0) "a |" " " world0 = Ret EXEC_FAILURE w' ∧
         w_npipes w' = 1 ∧
         w_fds w' !! 3 = Some (DPipe 0 Rd) ∧ w_fds w' !! 4 = Some (DPipe 0 Wr) ∧
         closes (DPipe 0 Rd) (w_trace w') = 0 ∧
         closes (DPipe 0 Wr) (w_trace w') = 0) ∧
  (∃ w', parse_input_and_exec (0, 0) "a | b > f | c" " " world0 = Ret EXEC_FAILURE w' ∧
         w_npipes w' = 1 ∧
         w_fds w' !! 3 = Some (DPipe 0 Rd) ∧ w_fds w' !! 4 = Some (DPipe 0 Wr) ∧
         closes (DPipe 0 Rd) (w_trace w') = 0 ∧
         closes (DPipe 0 Wr) (w_trace w') = 0).
Proof.
  split; eexists; (split; [vm_compute; reflexivity|]);
    repeat split; vm_compute; reflexivity.
Qed.

(** ** Scan positions of concrete lines *)

Lemma run_prefix_reaches garbage w0 toks : ∀ pre st w st' w',
  reaches garbage w0 pre st w →
  run_prefix toks st w = Some (st', w') →
  reaches garbage w0 (pre ++ toks) st' w'.
Proof.
  induction toks as [|token rest IH]; intros pre st w st' w' Hpre Hrun.
  - injection Hrun as <- <-. by rewrite app_nil_r.
  - cbn [run_prefix] in Hrun. case_decide; [|done].
    destruct (scan_token token st w) as [[st1|code] w1| | |] eqn:Hstep; try done.
    replace (pre ++ token :: rest) with ((pre ++ [token]) ++ rest)
      by (by rewrite <- app_assoc).
    apply (IH _ st1 w1); [|done]. by eapply reaches_step.
Qed.

Lemma run_line_reaches garbage w0 toks st w :
  run_prefix toks (scan_init garbage) w0 = Some (st, w) →
  reaches garbage w0 toks st w.
Proof. apply (run_prefix_reaches garbage w0 toks []). constructor. Qed.

Lemma pipe_rejected_iff_output_mode_witness :
    reaches (0, 0) world0 ["cmd"; ">"; "f"] after_cmd_gt_f world0 ∧
    redirect_mode after_cmd_gt_f = OUTPUT ∧
    (scan_token "|" after_cmd_gt_f world0
     = Ret (inr EXEC_FAILURE)
           (log (EPrint "Cannot perform output operation before piping.") world0)
     ↔ is_output (redirect_mode after_cmd_gt_f) = true) ∧
    (is_output (redirect_mode after_cmd_gt_f) = true →
     parse_tokens (0, 0) (["cmd"; ">"; "f"] ++ "|" :: ["wc"]) world0
     = Ret EXEC_FAILURE
           (log (EPrint "Cannot perform output operation before piping.") world0)).
Proof.
  set (st := after_cmd_gt_f).
  assert (H : reaches (0, 0) world0 ["cmd"; ">"; "f"] st world0).
  { apply run_line_reaches. vm_compute. reflexivity. }
  split; [exact H|]. split; [reflexivity|].
  apply (pipe_rejected_iff_output_mode (0, 0) world0 ["cmd"; ">"; "f"] st world0 ["wc"]).
  - exact H.
  - vm_compute. lia.
  - vm_compute. lia.
Defined.

Lemma input_redirection_only_in_regular_mode_witness :
    reaches (0, 0) world0 ["cmd"; "<"; "in"] after_cmd_lt_in world0 ∧
    (redirect_mode after_cmd_lt_in ≠ REG_CMD →
       scan_token "<" after_cmd_lt_in world0
       = Ret (inr EXEC_FAILURE)
             (log (EPrint "Cannot perform redirection before input.\n") world0) ∧
       parse_tokens (0, 0) (["cmd"; "<"; "in"] ++ "<" :: ["other"]) world0
       = Ret EXEC_FAILURE
             (log (EPrint "Cannot perform redirection before input.\n") world0)) ∧
    (redirect_mode after_cmd_lt_in = REG_CMD →
       ∃ st', scan_token "<" after_cmd_lt_in world0 = Ret (inl st') world0 ∧
              redirect_mode st' = INPUT ∧ cmd_index st' = 0 ∧
              argv_of (redirect_cmd st')
              = argv_of (<[cmd_index after_cmd_lt_in := None]> (command after_cmd_lt_in)) ∧
              reaches (0, 0) world0 (["cmd"; "<"; "in"] ++ ["<"]) st' world0) ∧
    ("<" ∈ ["cmd"; "<"; "in"] → redirect_mode after_cmd_lt_in ≠ REG_CMD).
Proof.
  set (st := after_cmd_lt_in).
  assert (H : reaches (0, 0) world0 ["cmd"; "<"; "in"] st world0).
  { apply run_line_reaches. vm_compute. reflexivity. }
  split; [exact H|].
  apply (input_redirection_only_in_regular_mode
           (0, 0) world0 ["cmd"; "<"; "in"] st world0 ["other"]).
  - exact H.
  - vm_compute. lia.
  - vm_compute. lia.
Defined.

Lemma parse_never_out_of_bounds_witness :
  parse_input_and_exec (0, 0) "a b c d e f g h i j | k > out" " " world0 ≠ Fault ∧
  save_command (replicate 11 None) (replicate 11 (Some "x")) 10 world0 ≠ Fault.
Proof.
  destruct parse_never_out_of_bounds as (H1 & _ & H3). split.
  - apply H1.
  - apply H3.
    + reflexivity.
    + reflexivity.
    + unfold MAX_ARGS. lia.
Defined.

(** * Properties of the rest of the shell *)

(** ** The interactive loop *)

Lemma append_cons a s t : String a s +:+ t = String a (s +:+ t).
Proof. reflexivity. Qed.

Lemma append_nil t : "" +:+ t = t.
Proof. reflexivity. Qed.

Ltac app_simpl := simpl in *; rewrite ?append_cons, ?append_nil in *; simpl in *.


Lemma read_line_line line rest : ∀ n,
  has_char newline line = false → String.length line < n →
  read_line n (line +:+ String newline rest) = (line +:+ String newline "", rest).
Proof.
  induction line as [|c line IH]; intros n Hn Hlen; app_simpl.
  - destruct n; [lia|]. simpl. done.
  - destruct n; [lia|]. simpl. apply orb_false_iff in Hn as [Hc Hn].
    rewrite Hc. rewrite IH by (done || lia). done.
Qed.



Lemma has_char_app c s t :
  has_char c (s +:+ t) = has_char c s || has_char c t.
Proof. induction s as [|a s IH]; app_simpl; [done|]. rewrite IH. by rewrite orb_assoc. Qed.

Lemma c_str_clean s : has_char NUL s = false → c_str s = s.
Proof.
  induction s as [|a s IH]; simpl; [done|]. intros [Ha Hs]%orb_false_iff.
  rewrite Ha. by rewrite IH.
Qed.



Lemma string_get_last line c rest :
  String.get (String.length line) (line +:+ String c rest) = Some c.
Proof. induction line as [|a line IH]; app_simpl; done. Qed.

Lemma string_set_last line c d rest :
  string_set (String.length line) d (line +:+ String c rest) = line +:+ String d rest.
Proof. induction line as [|a line IH]; app_simpl; [done|]. by rewrite IH. Qed.

Lemma c_str_stop line rest :
  has_char NUL line = false → c_str (line +:+ String NUL rest) = line.
Proof.
  induction line as [|a line IH]; app_simpl; [done|]. intros [Ha Hs]%orb_false_iff.
  rewrite Ha. by rewrite IH.
Qed.

Lemma length_app_string s t :
  String.length (s +:+ t) = String.length s + String.length t.
Proof. induction s as [|a s IH]; app_simpl; [done|]. by rewrite IH. Qed.

Lemma app_string_inj c s1 s2 r1 r2 :
  has_char c s1 = false → has_char c s2 = false →
  s1 +:+ String c r1 = s2 +:+ String c r2 → s1 = s2 ∧ r1 = r2.
Proof.
  revert s2. induction s1 as [|a s1 IH]; intros [|b s2] H1 H2 Heq; app_simpl.
  - by inversion Heq.
  - inversion Heq; subst. by rewrite Ascii.eqb_refl in H2.
  - inversion Heq; subst. by rewrite Ascii.eqb_refl in H1.
  - apply orb_false_iff in H1 as [_ H1]. apply orb_false_iff in H2 as [_ H2].
    inversion Heq; subst. destruct (IH s2 H1 H2) as [-> ->]; done.
Qed.



Lemma fgets_some k c s :
  k_stdin k = String c s →
  fgets MAX_INPUT k
  = (Some (fst (read_line (MAX_INPUT - 1) (String c s))),
     set_stdin (snd (read_line (MAX_INPUT - 1) (String c s))) k).
Proof.
  intros Hk. unfold fgets. rewrite Hk.
  by destruct (read_line (MAX_INPUT - 1) (String c s)).
Qed.

(** get_input once fgets has stored [buf]. *)
Lemma get_input_some k c s w :
  k_stdin k = String c s →
  let buf := fst (read_line (MAX_INPUT - 1) (String c s)) in
  let k' := set_stdin (snd (read_line (MAX_INPUT - 1) (String c s))) k in
  get_input k w
  = ((if String.eqb (c_str buf) ("exit" +:+ String newline "") then exit_shell
      else ret tt) ;;;
     match String.length (c_str buf) with
     | O => fault
     | S last_byte =>
         match String.get last_byte buf with
         | Some c =>
             if Ascii.eqb c newline
             then ret (c_str (string_set last_byte NUL buf), k')
             else ret (c_str buf, k')
         | None => fault
         end
     end) w.
Proof. intros Hk. unfold get_input. by rewrite (fgets_some k c s Hk). Qed.


Lemma get_input_line_run k w line rest :
  has_char newline line = false → has_char NUL line = false →
  String.length line + 1 < MAX_INPUT → line ≠ "exit" →
  k_stdin k = line +:+ String newline rest →
  get_input k w = Ret (line, set_stdin rest k) w.
Proof.
  intros Hnl Hnul Hlen Hexit Hk.
  destruct (line +:+ String newline rest) as [|c s] eqn:E.
  { by destruct line. }
  rewrite (get_input_some k c s w Hk). rewrite <- E.
  rewrite read_line_line by (done || unfold MAX_INPUT in *; lia).
  cbn [fst snd].
  assert (Hc : c_str (line +:+ String newline "") = line +:+ String newline "").
  { apply c_str_clean. rewrite has_char_app, Hnul. reflexivity. }
  rewrite Hc.
  destruct (String.eqb_spec (line +:+ String newline "") ("exit" +:+ String newline ""))
    as [Heq|_].
  { apply app_string_inj in Heq as [? _]; done. }
  unfold bind, ret at 1.
  rewrite length_app_string. cbn [String.length]. rewrite Nat.add_1_r.
  rewrite string_get_last. rewrite Ascii.eqb_refl.
  rewrite string_set_last. by rewrite c_str_stop.
Qed.










Lemma strrchr_none c s : has_char c s = false → strrchr s c = None.
Proof.
  induction s as [|a s IH]; simpl; [done|]. intros [Ha Hs]%orb_false_iff.
  by rewrite IH, Ha.
Qed.

Lemma strrchr_last c pre dir :
  has_char c dir = false → strrchr (pre +:+ String c dir) c = Some (String c dir).
Proof.
  intros Hd. induction pre as [|a pre IH]; app_simpl.
  - by rewrite strrchr_none, Ascii.eqb_refl.
  - by rewrite IH.
Qed.



Lemma print_prompt_set_stdin s k : print_prompt (set_stdin s k) = print_prompt k.
Proof. reflexivity. Qed.

(** X3: when USER, the host name and the working directory are available
    (and fit MAX_PATH), print_prompt prints "[user@host dir] JSHELL$ " where
    dir is what follows the last '/' of the working directory; when one of
    the three is not available it prints "SHELL$ ".  Nothing else changes. *)
Theorem print_prompt_last_component k w :
  (∀ user host pre dir,
     k_user k = Some user → k_hostname k = Some host →
     k_cwd k = Some (pre +:+ String "/" dir) →
     has_char "/" dir = false →
     String.length host ≤ MAX_PATH →
     String.length (pre +:+ String "/" dir) ≤ MAX_PATH →
     print_prompt k w
     = Ret tt (log (EPrint ("[" +:+ user +:+ "@" +:+ host +:+ " " +:+ dir
                            +:+ "] JSHELL$ ")) w)) ∧
  (k_user k = None ∨ gethostname (MAX_PATH + 1) k = None
   ∨ getcwd (MAX_PATH + 1) k = None →
   print_prompt k w = Ret tt (log (EPrint "SHELL$ ") w)).
Proof.
  split.
  - intros user host pre dir Hu Hh Hc Hd Hlh Hlc.
    unfold print_prompt, gethostname, getcwd. rewrite Hu, Hh, Hc.
    rewrite !decide_True by (unfold MAX_PATH in *; lia).
    cbn [from_option id]. by rewrite strrchr_last.
  - unfold print_prompt. intros H.
    destruct (k_user k), (gethostname (MAX_PATH + 1) k), (getcwd (MAX_PATH + 1) k);
      try done.
    by destruct H as [?|[?|?]].
Qed.

Lemma spec_parse_tokens garbage toks : spec (parse_tokens garbage toks) total_true.
Proof.
  unfold parse_tokens.
  eapply spec_bind; [apply spec_scan_loop, scan_init_ok|].
  intros [st|code] H; [by apply spec_finish|by apply spec_ret].
Qed.

Lemma parse_no_fault garbage input dlim :
  spec (parse_input_and_exec garbage input dlim) total_true.
Proof. apply spec_parse_tokens. Qed.


Lemma append_assoc_string s t u : (s +:+ t) +:+ u = s +:+ (t +:+ u).
Proof. induction s as [|a s IH]; app_simpl; [done|]. by rewrite IH. Qed.




(** X6: get_input hands over a line without its newline and leaves what
    follows it on standard input: for a line of at most MAX_INPUT - 2 bytes
    other than NUL that is not the word exit. *)
Theorem get_input_returns_line k w line rest :
  has_char newline line = false → has_char NUL line = false →
  String.length line + 1 < MAX_INPUT → line ≠ "exit" →
  k_stdin k = line +:+ String newline rest →
  get_input k w = Ret (line, set_stdin rest k) w.
Proof. apply get_input_line_run. Qed.




Lemma print_prompt_last_component_witness :
  print_prompt (console0 "") world0
  = Ret tt (log (EPrint "[user@host user] JSHELL$ ") world0).
Proof.
  destruct (print_prompt_last_component (console0 "") world0) as [H _].
  apply (H "user" "host" "/home" "user").
  - reflexivity.
  - reflexivity.
  - reflexivity.
  - reflexivity.
  - vm_compute. lia.
  - vm_compute. lia.
Defined.


Lemma get_input_returns_line_witness :
  get_input (console0 ("ls -l" +:+ String newline "pwd")) world0
  = Ret ("ls -l", set_stdin "pwd" (console0 ("ls -l" +:+ String newline "pwd"))) world0.
Proof.
  apply (get_input_returns_line
           (console0 ("ls -l" +:+ String newline "pwd")) world0 "ls -l" "pwd").
  - reflexivity.
  - reflexivity.
  - vm_compute. lia.
  - discriminate.
  - reflexivity.
Defined.


Lemma append_nil_r s : s +:+ "" = s.
Proof. induction s as [|a s IH]; app_simpl; [done|]. by rewrite IH. Qed.

Lemma is_delim_space c : is_delim COMMAND_SEPARATOR c = Ascii.eqb c " ".
Proof. unfold COMMAND_SEPARATOR. simpl. by rewrite orb_false_r. Qed.

Lemma strtok_from_spaces n s :
  strtok_from COMMAND_SEPARATOR "" (spaces n +:+ s) = strtok_from COMMAND_SEPARATOR "" s.
Proof. induction n as [|n IH]; app_simpl; done. Qed.

Lemma strtok_from_only_spaces n :
  strtok_from COMMAND_SEPARATOR "" (spaces n) = [].
Proof. induction n as [|n IH]; simpl; done. Qed.

Lemma strtok_from_word t : ∀ cur s,
  has_char " " t = false →
  strtok_from COMMAND_SEPARATOR cur (t +:+ s)
  = strtok_from COMMAND_SEPARATOR (cur +:+ t) s.
Proof.
  induction t as [|a t IH]; intros cur s Ht.
  - by rewrite append_nil, append_nil_r.
  - rewrite append_cons. cbn [strtok_from]. rewrite is_delim_space.
    simpl in Ht. apply orb_false_iff in Ht as [Ha Ht]. rewrite Ha.
    rewrite IH by done. f_equal. by rewrite append_assoc_string.
Qed.

Lemma strtok_from_end cur n :
  cur ≠ "" → strtok_from COMMAND_SEPARATOR cur (spaces n) = [cur].
Proof.
  intros Hc. destruct n as [|n]; cbn [spaces strtok_from].
  - by destruct (String.eqb_spec cur "").
  - rewrite is_delim_space. cbn [Ascii.eqb Bool.eqb andb].
    destruct (String.eqb_spec cur ""); [done|].
    by rewrite strtok_from_only_spaces.
Qed.

Lemma strtok_layout line : ∀ trail,
  Forall (λ nt, word (snd nt)) line →
  strtok (layout line trail) COMMAND_SEPARATOR = snd <$> line.
Proof.
  unfold strtok. induction line as [|[n t] line IH]; intros trail Hl.
  - apply strtok_from_only_spaces.
  - apply Forall_cons in Hl as [[Hne Ht] Hl]. simpl in Hne, Ht.
    cbn [layout]. rewrite strtok_from_spaces.
    rewrite strtok_from_word by done. rewrite append_nil.
    destruct line as [|nt line].
    + by rewrite strtok_from_end.
    + cbn [strtok_from]. rewrite is_delim_space. cbn [Ascii.eqb Bool.eqb andb].
      destruct (String.eqb_spec t ""); [done|].
      rewrite fmap_cons. f_equal. by apply IH.
Qed.

Lemma strtok_from_tokens s : ∀ cur,
  has_char " " cur = false →
  Forall word (strtok_from COMMAND_SEPARATOR cur s).
Proof.
  induction s as [|c s IH]; intros cur Hcur; cbn [strtok_from].
  - destruct (String.eqb_spec cur ""); [constructor|].
    constructor; [done|constructor].
  - rewrite is_delim_space. destruct (Ascii.eqb c " ") eqn:Hc.
    + destruct (String.eqb_spec cur ""); [by apply IH|].
      constructor; [done|by apply IH].
    + apply IH. rewrite has_char_app, Hcur. simpl. by rewrite Hc.
Qed.

(** X8: the parser works on the words of the line, whatever the spacing.
    The tokens strtok cuts out of any input are never empty and never
    contain the separator; and for a line written as words with any number
    of spaces before, between (one at least) and after them,
    parse_input_and_exec behaves as the parser does on the list of these
    words. *)
Theorem tokens_whatever_the_spacing :
  (∀ input, Forall word (strtok input COMMAND_SEPARATOR)) ∧
  (∀ garbage line trail,
     Forall (λ nt, word (snd nt)) line →
     parse_input_and_exec garbage (layout line trail) COMMAND_SEPARATOR
     = parse_tokens garbage (snd <$> line)).
Proof.
  split.
  - intros input. by apply strtok_from_tokens.
  - intros garbage line trail Hl. unfold parse_input_and_exec.
    by rewrite strtok_layout.
Qed.

Lemma tokens_whatever_the_spacing_witness :
  parse_input_and_exec (0, 0) (layout [(2, "ls"); (1, "-l")] 3) COMMAND_SEPARATOR
  = parse_tokens (0, 0) ["ls"; "-l"].
Proof.
  destruct tokens_whatever_the_spacing as [_ H].
  apply (H (0, 0) [(2, "ls"); (1, "-l")] 3).
  repeat constructor; discriminate.
Defined.

(** ** Lines of plain tokens *)

Lemma saved_plain (toks : list string) (rest dest : array) :
  saved dest ((Some <$> toks) ++ rest) (length toks)
  = (Some <$> toks) ++ None :: drop (S (length toks)) dest.
Proof.
  unfold saved. f_equal. rewrite take_app_length'; [done|by rewrite length_fmap].
Qed.

Lemma insert_after_plain (toks : list string) (rest : array) v :
  rest ≠ [] →
  <[length toks := v]> ((Some <$> toks) ++ rest)
  = (Some <$> toks) ++ v :: drop 1 rest.
Proof.
  intros Hr. rewrite insert_app_r_alt by (by rewrite length_fmap).
  rewrite length_fmap, Nat.sub_diag. by destruct rest.
Qed.

(** The locals after the plain tokens [toks] at the start of a line. *)
Lemma reaches_plain_start garbage w toks :
  Forall (λ t, is_operator t = false) toks → length toks ≤ MAX_ARGS →
  ∃ st rest,
    reaches garbage w toks st w ∧ scan_ok st ∧
    command st = (Some <$> toks) ++ rest ∧ rest ≠ [] ∧
    cmd_index st = length toks ∧
    redirect_cmd st = replicate (MAX_ARGS + 1) None ∧
    input_file st = None ∧ output_before_pipe st = false ∧
    redirect_mode st = REG_CMD ∧ pipe_fds st = garbage.
Proof.
  intros Hplain Hlen.
  assert (Hrun : reaches garbage w [] (scan_init garbage) w) by constructor.
  apply (reaches_plain _ _ toks) in Hrun; [|done|simpl; bounds].
  simpl in Hrun.
  destruct (after_plain_fields toks (scan_init garbage))
    as (Hc & Hi & Hrc & Hif & Hobp & Hm & Hfds); [simpl; bounds|].
  simpl in Hc, Hi, Hrc, Hif, Hobp, Hm, Hfds.
  eexists _, _. split; [exact Hrun|].
  split; [by eapply reaches_scan_ok|].
  split; [exact Hc|]. split; [|done].
  intros Hnil. apply (f_equal length) in Hnil.
  rewrite length_drop in Hnil. simpl in Hnil. bounds.
Qed.

Lemma plain_line_finish garbage toks w :
  Forall (λ t, is_operator t = false) toks → length toks ≤ MAX_ARGS →
  ∃ cmd : array,
    parse_tokens garbage toks w
    = (exec_command REG_CMD cmd 0 ;;; ret EXEC_SUCCESS) w ∧
    cmd !! 0 = Some (head toks) ∧ argv_of cmd = Some toks.
Proof.
  intros Hplain Hlen.
  destruct (reaches_plain_start garbage w toks Hplain Hlen)
    as (st & rest & Hrun & Hok & Hc & Hrest & Hi & _ & _ & _ & Hm & _).
  rewrite (parse_tokens_end _ _ _ _ _ Hrun) by bounds.
  unfold finish. cbn [redirect_mode command]. rewrite Hm, decide_True by done.
  rewrite Hc, Hi, insert_after_plain by done.
  eexists. split; [reflexivity|]. split; [|apply argv_of_strings].
  by destruct toks.
Qed.

(** X9: a line of separators only is not skipped: when fork succeeds,
    parse_input_and_exec forks one child, whose first act is to call execvp
    with a NULL program (command[0]) and an empty argument vector, so that
    no program is run; the shell waits for it, prints nothing, changes
    neither its descriptors nor the files, and returns EXEC_SUCCESS. *)
Theorem blank_line_runs_no_program garbage n w :
  w_env w (w_clock w) = true →
  ∃ c w',
    parse_input_and_exec garbage (spaces n) COMMAND_SEPARATOR w = Ret EXEC_SUCCESS w' ∧
    w_children w' = w_children w ++ [c] ∧
    w_trace w' = w_trace w ++ [EFork (c_pid c); EWait] ∧
    w_fds w' = w_fds w ∧ w_files w' = w_files w ∧
    head (c_trace c) = Some (EExecFail None []) ∧
    Forall (λ e, ∀ p a o, e ≠ EExec p a o) (c_trace c).
Proof.
  intros Henv. unfold parse_input_and_exec, strtok.
  rewrite strtok_from_only_spaces.
  destruct (plain_line_finish garbage [] w) as (cmd & -> & H0 & Hargv);
    [constructor|simpl; bounds|].
  unfold bind at 1, exec_command, bind at 1, sys_fork. rewrite Henv.
  rewrite decide_False by (intros H; by apply H).
  unfold bind at 1, ret at 1, bind at 1, load. rewrite H0. unfold ret at 1.
  unfold execvp_and_handle_error, bind at 1, sys_execvp. rewrite Hargv.
  cbn. eexists _, _. split; [reflexivity|]. cbn.
  rewrite <- app_assoc.
  repeat split; try done.
  repeat constructor; done.
Qed.

(** X10: when fork fails on a line of at most MAX_ARGS plain tokens, the
    shell reports it with perror("fork()"), spawns nothing, waits for
    nothing, and still returns EXEC_SUCCESS. *)
Theorem fork_failure_on_plain_line garbage toks w :
  Forall (λ t, is_operator t = false) toks → length toks ≤ MAX_ARGS →
  w_env w (w_clock w) = false →
  parse_tokens garbage toks w = Ret EXEC_SUCCESS (log (EPerror "fork()") (tick w)).
Proof.
  intros Hplain Hlen Henv.
  destruct (plain_line_finish garbage toks w) as (cmd & -> & _); [done|done|].
  unfold bind at 1, exec_command, bind at 1, sys_fork. by rewrite Henv.
Qed.

(** X11: when pipe() fails at the first "|" of a line, the shell itself
    exits with status EXIT_FAILURE after perror("pipe()"): the rest of the
    line is not read and nothing is forked. *)
Theorem pipe_failure_ends_the_shell garbage toks rest w :
  Forall (λ t, is_operator t = false) toks → length toks ≤ MAX_ARGS →
  w_env w (w_clock w) = false →
  parse_tokens garbage (toks ++ "|" :: rest) w
  = Exit EXIT_FAILURE (log (EPerror "pipe()") (tick w)).
Proof.
  intros Hplain Hlen Henv.
  destruct (reaches_plain_start garbage w toks Hplain Hlen)
    as (st & tail & Hrun & Hok & Hc & Htail & Hi & _ & _ & _ & Hm & _).
  rewrite (parse_tokens_reaches _ _ _ _ _ _ Hrun) by bounds.
  destruct (MAX_INPUT - length toks) as [|n] eqn:Hn; [bounds|].
  cbn [scan_loop]. rewrite decide_False by bounds.
  destruct Hok as (Hlc & _ & _).
  unfold bind at 1, bind at 1, scan_token. cbn [String.eqb Ascii.eqb Bool.eqb orb andb].
  rewrite Hm. rewrite !decide_False by (try intros [?|?]; done).
  unfold bind at 1, store. rewrite decide_True by bounds.
  unfold ret at 1, bind at 1, input_pipe, bind at 1, sys_pipe. by rewrite Henv.
Qed.

(** ** Lines with input redirection *)

(** The locals after [toks < file]. *)
Lemma reaches_input_line garbage w toks file :
  Forall (λ t, is_operator t = false) toks → length toks ≤ MAX_ARGS →
  is_operator file = false →
  ∃ st, reaches garbage w (toks ++ ["<"; file]) st w ∧
        redirect_mode st = INPUT ∧ cmd_index st = 1 ∧
        command st !! 0 = Some (Some file) ∧
        redirect_cmd st !! 0 = Some (head toks) ∧
        argv_of (redirect_cmd st) = Some toks ∧
        input_file st = None ∧ output_before_pipe st = false.
Proof.
  intros Hplain Hlen Hfile.
  destruct (reaches_plain_start garbage w toks Hplain Hlen)
    as (st1 & tail & H0 & Hok1 & Hc & Htail & Hi & Hrc & Hif & Hobp & Hm & _).
  assert (Hlt : cmd_index st1 < MAX_ARGS + 1) by bounds.
  assert (Hle : cmd_index st1 ≤ MAX_ARGS) by bounds.
  pose proof (reaches_step _ _ _ _ _ _ _ _ H0 Hlt
                (lt_token_accepted st1 w Hm Hok1 Hle)) as H1.
  rewrite Hif, Hobp, Hi in H1.
  match type of H1 with
  | reaches _ _ _ ?s _ => set (st2 := s) in *
  end.
  assert (H2 : reaches garbage w ((toks ++ ["<"]) ++ [file])
                 (after_plain st2 [file]) w).
  { apply reaches_plain; [done|by constructor|simpl; bounds]. }
  rewrite <- app_assoc in H2. subst st2. simpl in H2.
  eexists. split; [exact H2|].
  destruct Hok1 as (Hlc & Hlr & _).
  cbn [redirect_mode cmd_index command redirect_cmd input_file output_before_pipe].
  rewrite Hc, saved_plain.
  split; [done|]. split; [done|]. split.
  { apply list_lookup_insert_eq. rewrite !length_insert, <- Hc, Hlc. bounds. }
  split; [by destruct toks|]. split; [apply argv_of_strings|done].
Qed.

Lemma input_line_finish garbage w toks file :
  Forall (λ t, is_operator t = false) toks → length toks ≤ MAX_ARGS →
  is_operator file = false →
  ∃ rc : array,
    rc !! 0 = Some (head toks) ∧ argv_of rc = Some toks ∧
    parse_tokens garbage (toks ++ ["<"; file]) w
    = (redirect_io INPUT rc (Some file) true ;;; ret EXEC_SUCCESS) w.
Proof.
  intros Hplain Hlen Hfile.
  destruct (reaches_input_line garbage w toks file)
    as (st & Hpos & Hm & Hi & H0 & Hr0 & Hargv & Hif & Hobp); try done.
  exists (redirect_cmd st). split; [done|]. split; [done|].
  rewrite (parse_tokens_end _ _ _ _ _ Hpos);
    [|rewrite length_app; simpl; bounds|rewrite Hi; bounds].
  unfold finish. simpl. rewrite Hm, Hi.
  rewrite decide_False by done.
  unfold bind at 1. unfold load.
  rewrite list_lookup_insert_ne by done. rewrite H0. unfold ret at 1.
  by rewrite decide_True by done.
Qed.

Lemma sys_open_missing file w :
  w_files w !! file = None ∨ w_env w (w_clock w) = false →
  sys_open (Some file) O_RDONLY w = Ret None (tick w).
Proof.
  intros H. unfold sys_open. destruct (w_env w (w_clock w)); [|done].
  destruct H as [H|H]; [|done]. unfold open_file. by rewrite H.
Qed.

(** X12: when the file of [cmd < file] does not exist, or open is refused,
    the shell reports it with perror("open()"), forks nothing (the command
    is not run), and returns EXEC_SUCCESS. *)
Theorem missing_input_file garbage toks file w :
  Forall (λ t, is_operator t = false) toks → length toks ≤ MAX_ARGS →
  is_operator file = false →
  w_files w !! file = None ∨ w_env w (w_clock w) = false →
  parse_tokens garbage (toks ++ ["<"; file]) w
  = Ret EXEC_SUCCESS (log (EPerror "open()") (tick w)).
Proof.
  intros Hplain Hlen Hfile Hmiss.
  destruct (input_line_finish garbage w toks file) as (rc & _ & _ & ->); try done.
  unfold bind at 1, redirect_io. cbn [andb negb bool_decide].
  rewrite decide_True by done. rewrite andb_false_r.
  unfold bind at 1. by rewrite sys_open_missing.
Qed.

Lemma sys_open_input file content w :
  w_env w (w_clock w) = true → w_files w !! file = Some content →
  sys_open (Some file) O_RDONLY w
  = Ret (Some (lowest_free (w_fds w)))
        (log (EOpen file O_RDONLY (lowest_free (w_fds w)))
           (set_fds (<[lowest_free (w_fds w) := DFile file O_RDONLY]> (w_fds w))
              (set_files (w_files w) (tick w)))).
Proof.
  intros Henv Hf. unfold sys_open. rewrite Henv. unfold open_file. by rewrite Hf.
Qed.

Lemma exec_command_input_run (cmd : array) prog args fd d w :
  w_env w (w_clock w) = true →
  w_fds w !! fd = Some d → fd ≠ STDIN_FILENO →
  cmd !! 0 = Some (Some prog) →
  argv_of cmd = Some args →
  ∃ c w',
    exec_command INPUT cmd fd w = Ret EXEC_SUCCESS w' ∧
    w_fds w' = w_fds w ∧
    w_children w' = w_children w ++ [c] ∧
    w_trace w' = w_trace w ++ [EFork (c_pid c); EWait] ∧
    c_inherited c = w_fds w ∧
    c_fds c = delete fd (<[STDIN_FILENO := d]> (w_fds w)) ∧
    (c_trace c = [EDup2 fd STDIN_FILENO; EClose fd d;
                  EExec prog args (default [] (w_run w (S (w_clock w))))] ∨
     c_trace c = [EDup2 fd STDIN_FILENO; EClose fd d;
                  EExecFail (Some prog) args; EPerror (prog +:+ " ");
                  EPerror "execvp()"]).
Proof.
  intros Henv Hfd Hne H0 Ha.
  unfold exec_command, bind, sys_fork. rewrite Henv.
  rewrite decide_True by done. rewrite decide_True by done.
  unfold ret, sys_dup2. simpl w_fds. rewrite Hfd.
  rewrite decide_False by done.
  unfold sys_close. simpl w_fds. rewrite lookup_insert_ne by done. rewrite Hfd.
  unfold load. rewrite H0. unfold ret.
  rewrite (execvp_run cmd prog args) by done.
  unfold exec_outcome. simpl w_run. simpl w_clock. simpl w_fds.
  destruct (w_run w (S (w_clock w))) as [out|].
  - eexists _, _. split; [done|]. simpl.
    repeat split; try done; simpl.
    + by rewrite <- app_assoc.
    + by left.
  - eexists _, _. split; [done|]. simpl.
    repeat split; try done; simpl.
    + by rewrite <- app_assoc.
    + by right.
Qed.

(** X13: on [cmd < file] with an existing file, the shell opens the file
    read-only, forks one child and waits for it, closes the descriptor and
    has its descriptor table as before; the child has made the file its
    standard input and closed the descriptor it inherited, so that its
    table is the shell's with descriptor 0 replaced, and calls execvp on
    the first token with exactly the tokens before "<" as arguments. *)
Theorem input_redirection_line garbage toks prog file content w :
  head toks = Some prog →
  Forall (λ t, is_operator t = false) toks → length toks ≤ MAX_ARGS →
  is_operator file = false →
  w_env w (w_clock w) = true → w_env w (S (w_clock w)) = true →
  w_files w !! file = Some content →
  is_Some (w_fds w !! STDIN_FILENO) →
  ∃ c w' fd,
    parse_tokens garbage (toks ++ ["<"; file]) w = Ret EXEC_SUCCESS w' ∧
    w_fds w' = w_fds w ∧
    w_children w' = w_children w ++ [c] ∧
    w_trace w' = w_trace w ++ [EOpen file O_RDONLY fd; EFork (c_pid c); EWait;
                               EClose fd (DFile file O_RDONLY)] ∧
    c_fds c = <[STDIN_FILENO := DFile file O_RDONLY]> (w_fds w) ∧
    (c_trace c = [EDup2 fd STDIN_FILENO; EClose fd (DFile file O_RDONLY);
                  EExec prog toks (default [] (w_run w (S (S (w_clock w)))))] ∨
     c_trace c = [EDup2 fd STDIN_FILENO; EClose fd (DFile file O_RDONLY);
                  EExecFail (Some prog) toks; EPerror (prog +:+ " ");
                  EPerror "execvp()"]).
Proof.
  intros Hhead Hplain Hlen Hfile Henv0 Henv1 Hcontent Hin.
  destruct (input_line_finish garbage w toks file) as (rc & H0 & Hargv & ->); try done.
  rewrite Hhead in H0.
  unfold bind at 1.
  rewrite (redirect_io_exec INPUT rc file w _ _ (or_introl eq_refl)
             (sys_open_input file content w Henv0 Hcontent)).
  set (fd := lowest_free (w_fds w)).
  set (w1 := log _ _).
  destruct (exec_command_input_run rc prog toks fd (DFile file O_RDONLY) w1)
    as (c & w2 & Hrun & Hfds & Hch & Htr & _ & Hcf & Hct);
    [done|apply lookup_insert_eq|by apply lowest_free_not_open|done|done|].
  unfold bind. rewrite Hrun. unfold ret, sys_close. rewrite Hfds. simpl w_fds.
  rewrite lookup_insert_eq. exists c. eexists. exists fd. split; [done|]. simpl.
  rewrite Hch, Htr. simpl.
  rewrite delete_insert_id by apply lowest_free_fresh.
  split; [done|]. split; [done|]. split; [by rewrite <- !app_assoc|].
  split; [|exact Hct].
  rewrite Hcf. simpl.
  rewrite delete_insert_ne by (by apply lowest_free_not_open).
  by rewrite delete_insert_id by apply lowest_free_fresh.
Qed.

(** ** Lines with input and output redirection *)

(** The locals after [toks < infile op outfile]. *)
Lemma reaches_dual_line garbage w toks infile op outfile :
  Forall (λ t, is_operator t = false) toks → length toks ≤ MAX_ARGS →
  is_operator infile = false → op = ">" ∨ op = ">>" →
  is_operator outfile = false →
  ∃ st, reaches garbage w (toks ++ ["<"; infile; op; outfile]) st w ∧
        redirect_mode st = output_mode_of op ∧ cmd_index st = 1 ∧
        command st !! 0 = Some (Some outfile) ∧
        redirect_cmd st !! 0 = Some (head toks) ∧
        argv_of (redirect_cmd st) = Some toks ∧
        input_file st = Some infile.
Proof.
  intros Hplain Hlen Hin Hop Hout.
  destruct (reaches_input_line garbage w toks infile)
    as (st1 & H1 & Hm & Hi & H0 & Hr0 & Hargv & Hif & Hobp); try done.
  pose proof (reaches_scan_ok _ _ _ _ _ H1) as Hok1.
  assert (Hlt : cmd_index st1 < MAX_ARGS + 1) by bounds.
  assert (Hstep : scan_token op st1 w
                  = Ret (inl (mkScan (command st1) (redirect_cmd st1) (Some infile)
                                     (output_before_pipe st1) 0 (output_mode_of op)
                                     (pipe_fds st1))) w).
  { rewrite scan_token_redirect_unfold by done.
    rewrite decide_True by done. unfold bind, load. by rewrite H0. }
  pose proof (reaches_step _ _ _ _ _ _ _ _ H1 Hlt Hstep) as H2.
  match type of H2 with
  | reaches _ _ _ ?s _ => set (st2 := s) in *
  end.
  assert (H3 : reaches garbage w (((toks ++ ["<"; infile]) ++ [op]) ++ [outfile])
                 (after_plain st2 [outfile]) w).
  { apply reaches_plain; [done|by constructor|simpl; bounds]. }
  rewrite <- !app_assoc in H3. subst st2. simpl in H3.
  eexists. split; [exact H3|].
  destruct Hok1 as (Hlc & Hlr & _).
  cbn [redirect_mode cmd_index command redirect_cmd input_file].
  split; [done|]. split; [done|]. split; [|done].
  apply list_lookup_insert_eq. rewrite Hlc. bounds.
Qed.

Lemma dual_line_finish garbage w toks infile op outfile :
  Forall (λ t, is_operator t = false) toks → length toks ≤ MAX_ARGS →
  is_operator infile = false → op = ">" ∨ op = ">>" →
  is_operator outfile = false →
  ∃ rc : array,
    rc !! 0 = Some (head toks) ∧ argv_of rc = Some toks ∧
    parse_tokens garbage (toks ++ ["<"; infile; op; outfile]) w
    = (exec_redir_bothio (output_mode_of op) rc (Some infile) (Some outfile) ;;;
       ret EXEC_SUCCESS) w.
Proof.
  intros Hplain Hlen Hin Hop Hout.
  destruct (reaches_dual_line garbage w toks infile op outfile)
    as (st & Hpos & Hm & Hi & H0 & Hr0 & Hargv & Hif); try done.
  exists (redirect_cmd st). split; [done|]. split; [done|].
  rewrite (parse_tokens_end _ _ _ _ _ Hpos);
    [|rewrite length_app; simpl; bounds|rewrite Hi; bounds].
  unfold finish. simpl. rewrite Hm, Hi, Hif.
  pose proof (output_mode_of_is_output op) as Hmo.
  rewrite decide_False by (by destruct (output_mode_of op)).
  unfold bind at 1. unfold load.
  rewrite list_lookup_insert_ne by done. rewrite H0. unfold ret at 1.
  rewrite decide_False by (by destruct (output_mode_of op)).
  rewrite decide_True by (destruct (output_mode_of op); try done; auto).
  done.
Qed.

(** X14: on [cmd < infile > outfile] (or >>) with a missing input file,
    the child that was forked reports open() and exits with status
    EXIT_FAILURE before it opens the output file: the file system is left
    as it was (outfile is neither created nor truncated), no program runs,
    and the shell returns EXEC_SUCCESS. *)
Theorem missing_input_spares_output garbage toks infile op outfile w :
  Forall (λ t, is_operator t = false) toks → length toks ≤ MAX_ARGS →
  is_operator infile = false → op = ">" ∨ op = ">>" →
  is_operator outfile = false →
  w_env w (w_clock w) = true →
  w_files w !! infile = None →
  ∃ c w',
    parse_tokens garbage (toks ++ ["<"; infile; op; outfile]) w
    = Ret EXEC_SUCCESS w' ∧
    w_files w' = w_files w ∧ w_fds w' = w_fds w ∧
    w_children w' = w_children w ++ [c] ∧
    w_trace w' = w_trace w ++ [EFork (c_pid c); EWait] ∧
    c_trace c = [EPerror "open()"] ∧ c_status c = Some EXIT_FAILURE.
Proof.
  intros Hplain Hlen Hin Hop Hout Henv Hmiss.
  destruct (dual_line_finish garbage w toks infile op outfile)
    as (rc & _ & _ & ->); try done.
  unfold bind at 1, exec_redir_bothio, bind at 1, sys_fork. rewrite Henv.
  unfold bind at 1. rewrite sys_open_missing by (by left).
  cbn. eexists _, _. split; [reflexivity|]. cbn.
  by rewrite <- app_assoc.
Qed.

(** X15: on [cmd < infile > outfile] (or >>) with an existing input file,
    one child is forked; it runs with infile (read-only) as standard input
    and outfile as standard output, both descriptors returned by open
    closed, so that its table is the shell's with descriptors 0 and 1
    replaced; what the program writes ends in outfile (after the former
    content with >>), and the shell's own table is unchanged. *)
Theorem dual_redirection_line garbage toks prog infile content op outfile w :
  head toks = Some prog →
  Forall (λ t, is_operator t = false) toks → length toks ≤ MAX_ARGS →
  is_operator infile = false → op = ">" ∨ op = ">>" →
  is_operator outfile = false →
  (∀ t, w_env w t = true) →
  w_files w !! infile = Some content →
  std_open (w_fds w) →
  let m := output_mode_of op in
  ∃ c w',
    parse_tokens garbage (toks ++ ["<"; infile; op; outfile]) w
    = Ret EXEC_SUCCESS w' ∧
    w_fds w' = w_fds w ∧
    w_children w' = w_children w ++ [c] ∧
    w_trace w' = w_trace w ++ [EFork (c_pid c); EWait] ∧
    c_fds c = <[STDOUT_FILENO := DFile outfile (output_flags m)]>
                (<[STDIN_FILENO := DFile infile O_RDONLY]> (w_fds w)) ∧
    w_files w' = after_output m outfile
                   (default [] (w_run w (3 + w_clock w))) (w_files w) ∧
    (last (c_trace c) = Some (EExec prog toks (default [] (w_run w (3 + w_clock w)))) ∨
     last (c_trace c) = Some (EPerror "execvp()")).
Proof.
  intros Hhead Hplain Hlen Hin Hop Hout Henv Hcontent [H0open H1open] m.
  destruct (dual_line_finish garbage w toks infile op outfile)
    as (rc & H0 & Hargv & ->); try done.
  rewrite Hhead in H0. fold m.
  unfold bind at 1, exec_redir_bothio, bind at 1, sys_fork. rewrite Henv.
  set (cw := child_world w).
  unfold bind at 1. rewrite (sys_open_input infile content cw) by (apply Henv || done).
  set (fd1 := lowest_free (w_fds cw)).
  set (cw1 := log _ _).
  unfold bind at 1. rewrite output_flags_of_eq.
  rewrite (sys_open_output m outfile cw1) by apply Henv.
  set (fd2 := lowest_free (w_fds cw1)).
  set (cw2 := log _ _).
  assert (Hf1 : w_fds w !! fd1 = None) by apply lowest_free_fresh.
  assert (Hf2 : w_fds cw1 !! fd2 = None) by apply lowest_free_fresh.
  assert (Hf2' : w_fds w !! fd2 = None ∧ fd2 ≠ fd1).
  { simpl in Hf2. apply lookup_insert_None in Hf2 as [? ?]. done. }
  destruct Hf2' as [Hf2' Hne21].
  assert (Hn10 : fd1 ≠ STDIN_FILENO) by (by apply lowest_free_not_open).
  assert (Hn11 : fd1 ≠ STDOUT_FILENO) by (by apply lowest_free_not_open).
  assert (Hn20 : fd2 ≠ STDIN_FILENO).
  { intros ->. destruct H0open as [? H]. unfold STDIN_FILENO in *. congruence. }
  assert (Hn21 : fd2 ≠ STDOUT_FILENO).
  { intros ->. destruct H1open as [? H]. unfold STDOUT_FILENO in *. congruence. }
  unfold bind at 1.
  rewrite (sys_dup2_run fd1 STDIN_FILENO (DFile infile O_RDONLY))
    by (done || (simpl; rewrite lookup_insert_ne by done; apply lookup_insert_eq)).
  unfold bind at 1, ret at 1, bind at 1.
  rewrite (sys_dup2_run fd2 STDOUT_FILENO (DFile outfile (output_flags m)))
    by (done || (simpl; rewrite lookup_insert_ne by done; apply lookup_insert_eq)).
  unfold bind at 1, ret at 1, bind at 1.
  rewrite (sys_close_run fd1 (DFile infile O_RDONLY))
    by (simpl; rewrite !lookup_insert_ne by done; apply lookup_insert_eq).
  unfold bind at 1, ret at 1, bind at 1.
  rewrite (sys_close_run fd2 (DFile outfile (output_flags m)))
    by (simpl; rewrite lookup_delete_ne, !lookup_insert_ne by done;
        apply lookup_insert_eq).
  unfold bind at 1, ret at 1, bind at 1, load. rewrite H0. unfold ret at 1.
  rewrite (execvp_run rc prog toks) by done.
  unfold exec_outcome. simpl w_run. simpl w_clock. simpl w_fds.
  rewrite !lookup_delete_ne by done. rewrite lookup_insert_eq.
  assert (Hfds :
    delete fd2 (delete fd1
      (<[STDOUT_FILENO:=DFile outfile (output_flags m)]>
         (<[STDIN_FILENO:=DFile infile O_RDONLY]>
            (<[fd2:=DFile outfile (output_flags m)]>
               (<[fd1:=DFile infile O_RDONLY]> (w_fds w))))))
    = <[STDOUT_FILENO:=DFile outfile (output_flags m)]>
        (<[STDIN_FILENO:=DFile infile O_RDONLY]> (w_fds w))).
  { apply map_eq. intros i.
    destruct (decide (i = fd2)) as [->|?].
    { rewrite lookup_delete_eq, !lookup_insert_ne by done. by rewrite Hf2'. }
    rewrite lookup_delete_ne by done.
    destruct (decide (i = fd1)) as [->|?].
    { rewrite lookup_delete_eq, !lookup_insert_ne by done. by rewrite Hf1. }
    rewrite lookup_delete_ne by done.
    destruct (decide (i = STDOUT_FILENO)) as [->|?].
    { by rewrite !lookup_insert_eq. }
    rewrite !(lookup_insert_ne _ STDOUT_FILENO) by done.
    destruct (decide (i = STDIN_FILENO)) as [->|?].
    { by rewrite !lookup_insert_eq. }
    by rewrite !lookup_insert_ne by done. }
  change (3 + w_clock w) with (S (S (S (w_clock w)))).
  destruct (w_run w (S (S (S (w_clock w))))) as [out|] eqn:Hrun.
  - eexists _, _. split; [reflexivity|]. cbn.
    rewrite Hfds, <- app_assoc. repeat split; try done.
    + apply write_out_opened.
    + by left.
  - eexists _, _. split; [reflexivity|]. cbn.
    rewrite Hfds, <- app_assoc. repeat split; try done.
    + apply after_output_nil.
    + by right.
Qed.

Lemma blank_line_runs_no_program_witness :
  ∃ c w',
    parse_input_and_exec (0, 0) (spaces 3) COMMAND_SEPARATOR world0 = Ret EXEC_SUCCESS w' ∧
    w_children w' = w_children world0 ++ [c] ∧
    w_trace w' = w_trace world0 ++ [EFork (c_pid c); EWait] ∧
    w_fds w' = w_fds world0 ∧ w_files w' = w_files world0 ∧
    head (c_trace c) = Some (EExecFail None []) ∧
    Forall (λ e, ∀ p a o, e ≠ EExec p a o) (c_trace c).
Proof. apply (blank_line_runs_no_program (0, 0) 3 world0). reflexivity. Defined.

Lemma fork_failure_on_plain_line_witness :
  parse_tokens (0, 0) ["ls"; "-l"] barren_world
  = Ret EXEC_SUCCESS (log (EPerror "fork()") (tick barren_world)).
Proof.
  apply (fork_failure_on_plain_line (0, 0) ["ls"; "-l"] barren_world).
  - repeat constructor.
  - vm_compute. lia.
  - reflexivity.
Defined.

Lemma pipe_failure_ends_the_shell_witness :
  parse_tokens (0, 0) (["ls"; "-l"] ++ "|" :: ["wc"]) barren_world
  = Exit EXIT_FAILURE (log (EPerror "pipe()") (tick barren_world)).
Proof.
  apply (pipe_failure_ends_the_shell (0, 0) ["ls"; "-l"] ["wc"] barren_world).
  - repeat constructor.
  - vm_compute. lia.
  - reflexivity.
Defined.

Lemma missing_input_file_witness :
  parse_tokens (0, 0) (["sort"] ++ ["<"; "in"]) world0
  = Ret EXEC_SUCCESS (log (EPerror "open()") (tick world0)).
Proof.
  apply (missing_input_file (0, 0) ["sort"] "in" world0).
  - repeat constructor.
  - vm_compute. lia.
  - reflexivity.
  - left. reflexivity.
Defined.

Lemma input_redirection_line_witness :
  ∃ c w' fd,
    parse_tokens (0, 0) (["sort"; "-r"] ++ ["<"; "in"]) (file_world "in" [])
    = Ret EXEC_SUCCESS w' ∧
    w_fds w' = w_fds (file_world "in" []) ∧
    w_children w' = w_children (file_world "in" []) ++ [c] ∧
    w_trace w' = w_trace (file_world "in" []) ++
                 [EOpen "in" O_RDONLY fd; EFork (c_pid c); EWait;
                  EClose fd (DFile "in" O_RDONLY)] ∧
    c_fds c = <[STDIN_FILENO := DFile "in" O_RDONLY]> (w_fds (file_world "in" [])) ∧
    (c_trace c = [EDup2 fd STDIN_FILENO; EClose fd (DFile "in" O_RDONLY);
                  EExec "sort" ["sort"; "-r"]
                    (default [] (w_run (file_world "in" [])
                                   (S (S (w_clock (file_world "in" []))))))] ∨
     c_trace c = [EDup2 fd STDIN_FILENO; EClose fd (DFile "in" O_RDONLY);
                  EExecFail (Some "sort") ["sort"; "-r"]; EPerror ("sort" +:+ " ");
                  EPerror "execvp()"]).
Proof.
  apply (input_redirection_line (0, 0) ["sort"; "-r"] "sort" "in" [] (file_world "in" [])).
  - reflexivity.
  - repeat constructor.
  - vm_compute. lia.
  - reflexivity.
  - reflexivity.
  - reflexivity.
  - vm_compute. reflexivity.
  - exists DTerm. vm_compute. reflexivity.
Defined.

Lemma missing_input_spares_output_witness :
  ∃ c w',
    parse_tokens (0, 0) (["sort"] ++ ["<"; "in"; ">"; "out"]) world0
    = Ret EXEC_SUCCESS w' ∧
    w_files w' = w_files world0 ∧ w_fds w' = w_fds world0 ∧
    w_children w' = w_children world0 ++ [c] ∧
    w_trace w' = w_trace world0 ++ [EFork (c_pid c); EWait] ∧
    c_trace c = [EPerror "open()"] ∧ c_status c = Some EXIT_FAILURE.
Proof.
  apply (missing_input_spares_output (0, 0) ["sort"] "in" ">" "out" world0).
  - repeat constructor.
  - vm_compute. lia.
  - reflexivity.
  - left. reflexivity.
  - reflexivity.
  - reflexivity.
  - reflexivity.
Defined.

Lemma dual_redirection_line_witness :
  ∃ c w',
    parse_tokens (0, 0) (["sort"] ++ ["<"; "in"; ">>"; "out"]) (file_world "in" [])
    = Ret EXEC_SUCCESS w' ∧
    w_fds w' = w_fds (file_world "in" []) ∧
    w_children w' = w_children (file_world "in" []) ++ [c] ∧
    w_trace w' = w_trace (file_world "in" []) ++ [EFork (c_pid c); EWait] ∧
    c_fds c = <[STDOUT_FILENO := DFile "out" (output_flags OUTPUT_APPEND)]>
                (<[STDIN_FILENO := DFile "in" O_RDONLY]> (w_fds (file_world "in" []))) ∧
    w_files w' = after_output OUTPUT_APPEND "out"
                   (default [] (w_run (file_world "in" [])
                                  (3 + w_clock (file_world "in" []))))
                   (w_files (file_world "in" [])) ∧
    (last (c_trace c)
     = Some (EExec "sort" ["sort"]
               (default [] (w_run (file_world "in" [])
                              (3 + w_clock (file_world "in" []))))) ∨
     last (c_trace c) = Some (EPerror "execvp()")).
Proof.
  apply (dual_redirection_line (0, 0) ["sort"] "sort" "in" [] ">>" "out"
           (file_world "in" [])).
  - reflexivity.
  - repeat constructor.
  - vm_compute. lia.
  - reflexivity.
  - right. reflexivity.
  - reflexivity.
  - intros t. reflexivity.
  - vm_compute. reflexivity.
  - split; exists DTerm; vm_compute; reflexivity.
Defined.

Lemma rears_ret {A} (a : A) (Q : A → Prop) : Q a → rears (ret a) Q.
Proof. intros H w. split; [done|]. exists []. by rewrite app_nil_r. Qed.

Lemma rears_bind {A B} (m : M A) (k : A → M B) (R : A → Prop) (Q : B → Prop) :
  rears m R → (∀ a, R a → rears (k a) Q) → rears (bind m k) Q.
Proof.
  intros Hm Hk w. unfold bind. specialize (Hm w).
  destruct (m w) as [a w1|s w1| |w1]; [|done|done|done].
  destruct Hm as (Ha & cs1 & Hc1 & Hf1). specialize (Hk a Ha w1).
  destruct (k a w1) as [b w2|s w2| |w2]; [| |done|done].
  - destruct Hk as (Hb & cs2 & Hc2 & Hf2). split; [done|].
    exists (cs1 ++ cs2). rewrite Hc2, Hc1, app_assoc. split; [done|].
    by apply Forall_app.
  - destruct Hk as (cs2 & Hc2 & Hf2).
    exists (cs1 ++ cs2). rewrite Hc2, Hc1, app_assoc. split; [done|].
    by apply Forall_app.
Qed.

Lemma rears_bind_any {A B} (m : M A) (k : A → M B) (Q : B → Prop) :
  rears m total_true → (∀ a, rears (k a) Q) → rears (bind m k) Q.
Proof. intros Hm Hk. apply (rears_bind m k total_true); auto. Qed.

(** A computation that forks nothing. *)
Lemma rears_alone {A} (m : M A) (Q : A → Prop) :
  (∀ w, match m w with
        | Ret a w' => Q a ∧ w_children w' = w_children w
        | Exit _ w' => w_children w' = w_children w
        | Fault => True
        | Killed _ => False
        end) →
  rears m Q.
Proof.
  intros H w. specialize (H w). destruct (m w) as [a w'|s w'| |w']; [| |done|done].
  - destruct H as [Ha Hc]. split; [done|]. exists []. by rewrite app_nil_r.
  - exists []. by rewrite app_nil_r.
Qed.

Lemma rears_printf s : rears (printf s) total_true.
Proof. by apply rears_alone. Qed.
Lemma rears_perror s : rears (perror s) total_true.
Proof. by apply rears_alone. Qed.
Lemma rears_sys_exit {A} s (Q : A → Prop) : rears (sys_exit s) Q.
Proof. by apply rears_alone. Qed.
Lemma rears_perror_exit {A} s (Q : A → Prop) : rears (perror_exit s) Q.
Proof. by apply rears_alone. Qed.
Lemma rears_sys_wait : rears sys_wait total_true.
Proof. by apply rears_alone. Qed.
Lemma rears_sys_pipe : rears sys_pipe total_true.
Proof.
  apply rears_alone. intros w. unfold sys_pipe.
  by destruct (w_env w (w_clock w)).
Qed.
Lemma rears_sys_close fd : rears (sys_close fd) total_true.
Proof. apply rears_alone. intros w. unfold sys_close. by destruct (w_fds w !! fd). Qed.
Lemma rears_sys_open p f : rears (sys_open p f) total_true.
Proof.
  apply rears_alone. intros w. unfold sys_open. destruct p; [|done].
  destruct (w_env w (w_clock w)); [|done]. by destruct (open_file _ _ _).
Qed.
Lemma rears_store (a : array) i v :
  rears (store a i v) (λ a', a' = <[i := v]> a).
Proof. apply rears_alone. intros w. unfold store. by case_decide. Qed.
Lemma rears_load (a : array) i :
  rears (load a i) (λ v, a !! i = Some v).
Proof. apply rears_alone. intros w. unfold load. by destruct (a !! i). Qed.

Lemma reached_exec_last tr e :
  last tr = Some e →
  match e with EExec _ _ _ | EExecFail _ _ => True | _ => False end →
  reached_exec tr = true.
Proof.
  intros Hl He. apply last_Some in Hl as [pre ->].
  unfold reached_exec. rewrite existsb_app. apply orb_true_iff. right.
  by destruct e.
Qed.

Lemma rears_sys_fork child :
  spec child total_true → ends_well child → never_returns child →
  rears (sys_fork child) total_true.
Proof.
  intros Hc Hd Hn w. unfold sys_fork. destruct (w_env w (w_clock w)).
  - specialize (Hc (child_world w)). specialize (Hd (child_world w)).
    specialize (Hn (child_world w)).
    destruct (child (child_world w)) as [a wc|s wc| |wc]; [| |done|].
    + by destruct (Hn a wc).
    + split; [done|]. eexists [_]. split; [done|].
      constructor; [|constructor]. split; simpl; [|done].
      destruct Hd as [?| ->]; [by left|by right].
    + split; [done|]. eexists [_]. split; [done|].
      constructor; [|constructor]. split; simpl; [|by intros _].
      left. destruct Hd as [args Hl]. by eapply reached_exec_last.
  - split; [done|]. exists []. by rewrite app_nil_r.
Qed.

Lemma rears_weaken {A} (m : M A) (Q Q' : A → Prop) :
  rears m Q → (∀ a, Q a → Q' a) → rears m Q'.
Proof.
  intros Hm HQ w. specialize (Hm w). destruct (m w); [|done|done|done].
  destruct Hm as [? ?]. split; auto.
Qed.

Lemma rears_close_pipes fds : rears (close_pipes fds) total_true.
Proof.
  unfold close_pipes.
  eapply rears_bind_any; [apply rears_sys_close|]. intros ok1.
  eapply rears_bind_any.
  { destruct ok1; [apply rears_ret; exact I|apply rears_perror_exit]. }
  intros _. eapply rears_bind_any; [apply rears_sys_close|]. intros ok2.
  destruct ok2; [apply rears_ret; exact I|apply rears_perror_exit].
Qed.

(** *** The children's code *)

Lemma argv_of_null (a : array) : ∀ i, a !! i = Some None → is_Some (argv_of a).
Proof.
  induction a as [|o a IH]; intros i Hi; [done|].
  destruct o as [s|]; [|by eexists].
  destruct i as [|i]; [done|]. simpl in Hi.
  destruct (IH i Hi) as [l Hl]. simpl. rewrite Hl. by eexists.
Qed.

Lemma spec_sys_dup2 old new : spec (sys_dup2 old new) total_true.
Proof. intros w. unfold sys_dup2. by destruct (w_fds w !! old). Qed.

Lemma spec_execvp program (cmd : array) :
  is_Some (argv_of cmd) → spec (execvp_and_handle_error program cmd) total_true.
Proof.
  intros [args Ha] w. unfold execvp_and_handle_error, bind, sys_execvp.
  rewrite Ha. destruct program; [|done]. by destruct (w_run w (w_clock w)).
Qed.

Lemma spec_load_program (cmd : array) :
  is_Some (argv_of cmd) → spec (load cmd 0) total_true.
Proof.
  intros Ha. apply (spec_weaken _ (λ v, cmd !! 0 = Some v)); [|done].
  apply spec_load. destruct cmd; [by destruct Ha|simpl; lia].
Qed.

#[export] Hint Resolve spec_sys_dup2 : nofault.

(** How a child ends. *)
Lemma ends_bind {A B} (m : M A) (k : A → M B) :
  ends_well m → (∀ a, ends_well (k a)) → ends_well (bind m k).
Proof.
  intros Hm Hk w. unfold bind. specialize (Hm w).
  destruct (m w) as [a w1|s w1| |w1]; try done. apply Hk.
Qed.

Lemma ends_ret {A} (a : A) : ends_well (ret a).
Proof. by intros w. Qed.
Lemma ends_sys_exit {A} : ends_well (@sys_exit A EXIT_FAILURE).
Proof. intros w. by right. Qed.
Lemma ends_printf s : ends_well (printf s).
Proof. by intros w. Qed.
Lemma ends_perror s : ends_well (perror s).
Proof. by intros w. Qed.
Lemma ends_perror_exit {A} s : ends_well (@perror_exit A s).
Proof. intros w. by right. Qed.
Lemma ends_load (a : array) i : ends_well (load a i).
Proof. intros w. unfold load. by destruct (a !! i). Qed.
Lemma ends_sys_dup2 old new : ends_well (sys_dup2 old new).
Proof. intros w. unfold sys_dup2. by destruct (w_fds w !! old). Qed.
Lemma ends_sys_close fd : ends_well (sys_close fd).
Proof. intros w. unfold sys_close. by destruct (w_fds w !! fd). Qed.
Lemma ends_sys_open p f : ends_well (sys_open p f).
Proof.
  intros w. unfold sys_open. destruct p; [|done].
  destruct (w_env w (w_clock w)); [|done]. by destruct (open_file _ _ _).
Qed.

Lemma ends_execvp program (cmd : array) :
  ends_well (execvp_and_handle_error program cmd).
Proof.
  intros w. unfold execvp_and_handle_error, bind, sys_execvp.
  destruct (argv_of cmd) as [args|]; [|done].
  destruct program as [p|].
  - destruct (w_run w (w_clock w)); [|by right].
    left. by eapply reached_exec_last; [apply last_snoc|].
  - exists args. apply last_snoc.
Qed.

Ltac ends_walk :=
  repeat first
    [ apply ends_execvp | apply ends_ret | apply ends_sys_exit
    | apply ends_printf | apply ends_perror | apply ends_perror_exit
    | apply ends_load | apply ends_sys_dup2 | apply ends_sys_close
    | apply ends_sys_open
    | apply ends_bind; [| intros ?]
    | match goal with
      | |- ends_well (match ?x with _ => _ end) => destruct x
      | |- ends_well (if ?b then _ else _) => destruct b
      end ].

(** No child comes back from its code: each one ends in execvp or exit. *)
Lemma never_returns_bind_l {A B} (m : M A) (k : A → M B) :
  never_returns m → never_returns (bind m k).
Proof.
  intros Hm w b w' H. unfold bind in H. specialize (Hm w).
  destruct (m w) as [a w1| | |]; try done. by destruct (Hm a w1).
Qed.

Lemma never_returns_bind_r {A B} (m : M A) (k : A → M B) :
  (∀ a, never_returns (k a)) → never_returns (bind m k).
Proof.
  intros Hk w b w' H. unfold bind in H.
  destruct (m w) as [a w1| | |]; try done. by destruct (Hk a w1 b w').
Qed.

Lemma never_returns_sys_exit {A} s : never_returns (@sys_exit A s).
Proof. by intros w a w'. Qed.
Lemma never_returns_perror_exit {A} s : never_returns (@perror_exit A s).
Proof. by intros w a w'. Qed.
Lemma never_returns_execvp program (cmd : array) :
  never_returns (execvp_and_handle_error program cmd).
Proof. intros w a w'. apply execvp_never_returns. Qed.

Ltac ends_in_exec :=
  repeat first
    [ apply never_returns_execvp | apply never_returns_sys_exit
    | apply never_returns_perror_exit
    | apply never_returns_bind_l; solve [apply never_returns_execvp]
    | apply never_returns_bind_r; intros ?
    | match goal with
      | |- never_returns (match ?x with _ => _ end) => destruct x
      end ].

Ltac child_walk :=
  repeat first
    [ apply spec_execvp; assumption
    | apply spec_load_program; assumption
    | apply spec_ret; exact I
    | apply spec_sys_exit
    | apply spec_perror_exit
    | solve [auto with nofault]
    | apply spec_bind_any; [| intros ?]
    | match goal with
      | |- spec (match ?x with _ => _ end) _ => destruct x
      | |- spec (if ?b then _ else _) _ => destruct b
      end ].

Ltac parent_walk :=
  repeat first
    [ apply rears_ret; exact I
    | apply rears_perror
    | apply rears_sys_wait
    | apply rears_close_pipes
    | apply rears_perror_exit
    | apply rears_bind_any; [| intros ?]
    | match goal with
      | |- rears (match ?x with _ => _ end) _ => destruct x
      | |- rears (if ?b then _ else _) _ => destruct b
      end ].

Lemma rears_exec_command m (cmd : array) fd :
  is_Some (argv_of cmd) → rears (exec_command m cmd fd) total_true.
Proof.
  intros Ha. unfold exec_command.
  eapply rears_bind_any;
    [apply rears_sys_fork;
       [child_walk|unfold close_pipes; ends_walk|ends_in_exec]|]. intros pid.
  parent_walk.
Qed.

Lemma rears_exec_redir_bothio m (cmd : array) i o :
  is_Some (argv_of cmd) → rears (exec_redir_bothio m cmd i o) total_true.
Proof.
  intros Ha. unfold exec_redir_bothio.
  eapply rears_bind_any;
    [apply rears_sys_fork;
       [child_walk|unfold close_pipes; ends_walk|ends_in_exec]|]. intros pid.
  parent_walk.
Qed.

Lemma rears_redirect_io m (cmd : array) f e :
  (e = true → is_Some (argv_of cmd)) → rears (redirect_io m cmd f e) total_true.
Proof.
  intros Ha. unfold redirect_io.
  destruct (bool_decide (m = INPUT) && negb e); [apply rears_ret; exact I|].
  eapply rears_bind_any; [apply rears_sys_open|]. intros [fd|]; [|apply rears_perror].
  eapply rears_bind_any.
  { destruct e; [|apply rears_ret; exact I].
    eapply rears_bind_any; [by apply rears_exec_command, Ha|]. intros _.
    apply rears_ret; exact I. }
  intros _. eapply rears_bind_any; [apply rears_sys_close|]. intros ok.
  destruct ok; [apply rears_ret; exact I|apply rears_perror].
Qed.

Lemma rears_input_pipe (cmd : array) :
  is_Some (argv_of cmd) → rears (input_pipe cmd) total_true.
Proof.
  intros Ha. unfold input_pipe.
  eapply rears_bind_any; [apply rears_sys_pipe|]. intros [fds|]; [|apply rears_perror_exit].
  eapply rears_bind_any;
    [apply rears_sys_fork;
       [child_walk|unfold close_pipes; ends_walk|ends_in_exec]|]. intros pid.
  parent_walk.
Qed.

Lemma rears_inter_pipe fds0 (cmd : array) :
  is_Some (argv_of cmd) → rears (inter_pipe fds0 cmd) total_true.
Proof.
  intros Ha. unfold inter_pipe.
  eapply rears_bind_any; [apply rears_sys_pipe|]. intros [fds|]; [|apply rears_perror_exit].
  eapply rears_bind_any;
    [apply rears_sys_fork;
       [child_walk|unfold close_pipes; ends_walk|ends_in_exec]|]. intros pid.
  parent_walk.
Qed.

Lemma rears_output_pipe fds (cmd : array) :
  is_Some (argv_of cmd) → rears (output_pipe fds cmd) total_true.
Proof.
  intros Ha. unfold output_pipe.
  eapply rears_bind_any;
    [apply rears_sys_fork;
       [child_walk|unfold close_pipes; ends_walk|ends_in_exec]|]. intros pid.
  parent_walk.
Qed.

Lemma rears_input_pipe_redirect (cmd : array) f :
  is_Some (argv_of cmd) → rears (input_pipe_redirect cmd f) total_true.
Proof.
  intros Ha. unfold input_pipe_redirect.
  eapply rears_bind_any; [apply rears_sys_pipe|]. intros [fds|]; [|apply rears_perror_exit].
  eapply rears_bind_any;
    [apply rears_sys_fork;
       [child_walk|unfold close_pipes; ends_walk|ends_in_exec]|]. intros pid.
  parent_walk.
Qed.

Lemma rears_output_pipe_redirect fds m (cmd : array) f :
  is_Some (argv_of cmd) → rears (output_pipe_redirect fds m cmd f) total_true.
Proof.
  intros Ha. unfold output_pipe_redirect.
  eapply rears_bind_any;
    [apply rears_sys_fork;
       [child_walk|unfold close_pipes; ends_walk|ends_in_exec]|]. intros pid.
  parent_walk.
Qed.

(** *** The invariant of the scan *)

Lemma insert_null_last (a : array) i k :
  a !! k = Some None → <[i := None]> a !! k = Some None.
Proof.
  intros Hk. destruct (decide (i = k)) as [->|Hne].
  - apply list_lookup_insert_eq. by apply lookup_lt_Some in Hk.
  - by rewrite list_lookup_insert_ne.
Qed.

Lemma saved_last (dest command : array) idx :
  length command = MAX_ARGS + 1 → idx ≤ MAX_ARGS →
  dest !! MAX_ARGS = Some None →
  saved dest command idx !! MAX_ARGS = Some None.
Proof.
  intros Hlc Hidx Hd. unfold saved.
  rewrite lookup_app_r by (rewrite length_take; lia).
  rewrite length_take, Nat.min_l by lia.
  destruct (decide (idx = MAX_ARGS)) as [->|Hne].
  - by rewrite Nat.sub_diag.
  - replace (MAX_ARGS - idx) with (S (MAX_ARGS - idx - 1)) by lia.
    simpl. rewrite lookup_drop. rewrite <- Hd. f_equal. lia.
Qed.

Lemma rears_save_command (dest command : array) idx :
  length dest = MAX_ARGS + 1 → length command = MAX_ARGS + 1 → idx ≤ MAX_ARGS →
  rears (save_command dest command idx)
        (λ dc, dc = (saved dest command idx, <[0 := None]> (<[idx := None]> command))).
Proof.
  intros Hd Hc Hi. apply rears_alone. intros w.
  by rewrite save_command_run.
Qed.

Lemma argv_ready_saved st :
  argv_ready st → cmd_index st ≤ MAX_ARGS → ∀ ifile obp m,
  argv_ready (mkScan (<[0 := None]> (<[cmd_index st := None]> (command st)))
                     (saved (redirect_cmd st) (command st) (cmd_index st))
                     ifile obp 0 m (pipe_fds st)).
Proof.
  intros ((Hlc & Hlr & Hi) & Hr & Hc) Hle ifile obp m.
  unfold argv_ready, scan_ok. simpl. rewrite !length_insert.
  split; [|split].
  - split; [done|]. split; [by apply length_saved|lia].
  - by apply saved_last.
  - intros _. by apply insert_null_last, insert_null_last, Hc.
Qed.

Lemma argv_ready_rewind st :
  argv_ready st → cmd_index st ≤ MAX_ARGS → ∀ ifile obp m fds,
  argv_ready (mkScan (command st) (redirect_cmd st) ifile obp 0 m fds).
Proof.
  intros ((Hlc & Hlr & Hi) & Hr & Hc) Hle ifile obp m fds.
  unfold argv_ready, scan_ok. simpl.
  split; [|split]; [|done|by auto].
  split; [done|]. split; [done|lia].
Qed.

Lemma argv_ready_cut st :
  argv_ready st → cmd_index st ≤ MAX_ARGS → ∀ m fds,
  argv_ready (mkScan (<[cmd_index st := None]> (command st)) (redirect_cmd st)
                     (input_file st) (output_before_pipe st) 0 m fds) ∧
  is_Some (argv_of (<[cmd_index st := None]> (command st))).
Proof.
  intros ((Hlc & Hlr & Hi) & Hr & Hc) Hle m fds. split.
  - unfold argv_ready, scan_ok. simpl. rewrite length_insert.
    split; [|split]; [|done|intros _; by apply insert_null_last, Hc].
    split; [done|]. split; [done|lia].
  - apply (argv_of_null _ (cmd_index st)), list_lookup_insert_eq. lia.
Qed.

Lemma rears_scan_token token st :
  argv_ready st → cmd_index st ≤ MAX_ARGS →
  rears (scan_token token st) step_ready.
Proof.
  intros Hrdy Hle. pose proof Hrdy as ((Hlc & Hlr & Hi) & Hr & Hc).
  unfold scan_token, go_on, leave_with.
  assert (Hrc : is_Some (argv_of (redirect_cmd st))) by (by eapply argv_of_null).
  destruct (String.eqb token "<").
  { destruct (decide (redirect_mode st ≠ REG_CMD)).
    - eapply rears_bind_any; [apply rears_printf|]. intros ?. by apply rears_ret.
    - eapply rears_bind; [by apply rears_save_command|]. intros dc ->.
      apply rears_ret. by apply argv_ready_saved. }
  destruct (String.eqb token ">" || String.eqb token ">>").
  { destruct (decide (redirect_mode st = INPUT)).
    - eapply rears_bind; [apply rears_load|]. intros [f|] _.
      + apply rears_ret. by apply argv_ready_rewind.
      + eapply rears_bind_any; [apply rears_printf|]. intros ?. by apply rears_ret.
    - destruct (decide (redirect_mode st = OUTPUT ∨ redirect_mode st = OUTPUT_APPEND)).
      + eapply rears_bind; [apply rears_load|]. intros [f|] _.
        * eapply rears_bind_any; [by apply rears_redirect_io|]. intros ?.
          apply rears_ret. by apply argv_ready_rewind.
        * eapply rears_bind_any; [apply rears_printf|]. intros ?. by apply rears_ret.
      + eapply rears_bind; [by apply rears_save_command|]. intros dc ->.
        apply rears_ret. by apply argv_ready_saved. }
  destruct (String.eqb token "|").
  { destruct (decide (redirect_mode st = OUTPUT ∨ redirect_mode st = OUTPUT_APPEND)).
    - eapply rears_bind_any; [apply rears_printf|]. intros ?. by apply rears_ret.
    - destruct (decide (redirect_mode st = PIPE)).
      + eapply rears_bind; [apply rears_load|]. intros [f|] _.
        * eapply rears_bind; [apply rears_store|]. intros c ->.
          destruct (argv_ready_cut st Hrdy Hle PIPE (pipe_fds st)) as [_ Hcut].
          eapply rears_bind_any; [by apply rears_inter_pipe|]. intros fds.
          apply rears_ret. by apply argv_ready_cut.
        * eapply rears_bind_any; [apply rears_printf|]. intros ?. by apply rears_ret.
      + destruct (decide (redirect_mode st = INPUT)).
        * eapply rears_bind; [apply rears_load|]. intros c0 _.
          eapply rears_bind_any; [by apply rears_input_pipe_redirect|]. intros fds.
          apply rears_ret. by apply argv_ready_rewind.
        * eapply rears_bind; [apply rears_store|]. intros c ->.
          destruct (argv_ready_cut st Hrdy Hle PIPE (pipe_fds st)) as [_ Hcut].
          eapply rears_bind_any; [by apply rears_input_pipe|]. intros fds.
          apply rears_ret. by apply argv_ready_cut. }
  eapply rears_bind; [apply rears_store|]. intros c ->.
  apply rears_ret. unfold step_ready, argv_ready, scan_ok. simpl.
  rewrite length_insert. split; [|split]; [|done|].
  - split; [done|]. split; [done|bounds].
  - intros Hlt. rewrite list_lookup_insert_ne by bounds. apply Hc. bounds.
Qed.

Lemma rears_scan_loop n : ∀ toks st,
  argv_ready st →
  rears (scan_loop n toks st)
        (λ r, step_ready r ∧
              (length toks < n →
               match r with inl st' => cmd_index st' ≤ MAX_ARGS | inr _ => True end)).
Proof.
  induction n as [|n IH]; intros toks st Hrdy; cbn [scan_loop].
  - apply rears_ret. split; [done|lia].
  - destruct (decide (MAX_ARGS + 1 ≤ cmd_index st)) as [Hge|Hlt].
    + eapply rears_bind_any; [apply rears_printf|]. intros ?. by apply rears_ret.
    + assert (Hle : cmd_index st ≤ MAX_ARGS) by lia.
      destruct toks as [|token rest].
      * eapply rears_bind; [apply rears_store|]. intros c ->.
        apply rears_ret. split; [|done].
        pose proof Hrdy as ((Hlc & Hlr & Hi) & Hr & Hc).
        unfold step_ready, argv_ready, scan_ok. simpl. rewrite length_insert.
        split; [|split]; [|done|intros _; by apply insert_null_last, Hc].
        split; [done|]. done.
      * eapply rears_bind; [by apply rears_scan_token|].
        intros [st'|code] Hst'; [|by apply rears_ret].
        eapply rears_weaken; [by apply IH|].
        intros r [H1 H2]. split; [done|]. intros Hlen. apply H2. simpl in Hlen. lia.
Qed.

Lemma rears_finish st :
  argv_ready st → cmd_index st ≤ MAX_ARGS → rears (finish st) total_true.
Proof.
  intros ((Hlc & Hlr & Hi) & Hr & Hc) Hle. unfold finish.
  assert (Hrc : is_Some (argv_of (redirect_cmd st))) by (by eapply argv_of_null).
  assert (Hcc : is_Some (argv_of (command st))) by (eapply argv_of_null; auto).
  destruct (decide (redirect_mode st = REG_CMD)).
  - eapply rears_bind_any; [by apply rears_exec_command|]. intros ?.
    apply rears_ret; exact I.
  - eapply rears_bind_any; [eapply rears_weaken; [apply rears_load|done]|].
    intros [f|]; [|eapply rears_bind_any; [apply rears_printf|];
                   intros ?; apply rears_ret; exact I].
    eapply rears_bind_any; [|intros ?; apply rears_ret; exact I].
    destruct (decide (redirect_mode st = INPUT)); [by apply rears_redirect_io|].
    destruct (decide (redirect_mode st = OUTPUT ∨ redirect_mode st = OUTPUT_APPEND)).
    { destruct (input_file st); [by apply rears_exec_redir_bothio|].
      destruct (output_before_pipe st);
        [by apply rears_output_pipe_redirect|by apply rears_redirect_io]. }
    destruct (decide (redirect_mode st = PIPE)); [by apply rears_output_pipe|].
    apply rears_ret; exact I.
Qed.

Lemma argv_ready_init garbage : argv_ready (scan_init garbage).
Proof. split; [apply scan_init_ok|]. split; [done|]. by intros _. Qed.

Lemma rears_parse_tokens garbage toks :
  length toks < MAX_INPUT → rears (parse_tokens garbage toks) total_true.
Proof.
  intros Hlen. unfold parse_tokens.
  eapply rears_bind; [apply rears_scan_loop, argv_ready_init|].
  intros [st|code] [Hst Hidx]; [|apply rears_ret; exact I].
  apply rears_finish; [done|]. by apply Hidx.
Qed.

Lemma strtok_from_length dlim s : ∀ cur,
  length (strtok_from dlim cur s)
  ≤ String.length s + (if String.eqb cur "" then 0 else 1).
Proof.
  induction s as [|c s IH]; intros cur; cbn [strtok_from String.length].
  - destruct (String.eqb cur ""); simpl; lia.
  - destruct (is_delim dlim c).
    + specialize (IH ""). simpl in IH. destruct (String.eqb cur ""); simpl; lia.
    + specialize (IH (cur +:+ String c "")).
      destruct (String.eqb (cur +:+ String c "") ""); destruct (String.eqb cur ""); lia.
Qed.

(** X16: no child reads outside an argument array.  For every input line
    shorter than MAX_INPUT (as get_input delivers them), every separator
    and every state of the system, each array handed to execvp holds a NULL
    within its MAX_ARGS + 1 slots and each child reads command[0] inside
    the array.  So every child forked for the line gets as far as calling
    execvp, or else ends by exit(EXIT_FAILURE) after a failed system call;
    and a child that is killed is killed inside execvp, to which it passed
    a NULL file name (command[0] of an empty command): when a child has no
    exit status, the last event of its trace is that call.  The shell
    itself is neither killed nor reads outside an array. *)
Theorem children_stay_in_bounds garbage input dlim w :
  String.length input < MAX_INPUT →
  match parse_input_and_exec garbage input dlim w with
  | Ret _ w' | Exit _ w' =>
      ∃ cs, w_children w' = w_children w ++ cs ∧
            Forall (λ c,
              (reached_exec (c_trace c) = true ∨ c_status c = Some EXIT_FAILURE) ∧
              (c_status c = None →
               ∃ args, last (c_trace c) = Some (EExecFail None args))) cs
  | Fault | Killed _ => False
  end.
Proof.
  intros Hlen. unfold parse_input_and_exec.
  pose proof (strtok_from_length dlim input "") as Htok. simpl in Htok.
  fold (strtok input dlim) in Htok.
  pose proof (rears_parse_tokens garbage (strtok input dlim)) as Hr.
  specialize (Hr ltac:(lia) w).
  pose proof (parse_no_fault garbage input dlim w) as Hs.
  unfold parse_input_and_exec in Hs.
  destruct (parse_tokens garbage (strtok input dlim) w); [|done|done|done].
  by destruct Hr.
Qed.

(** X17: save_command(dest, command, n), called with the first n slots of
    command holding strings (n at most MAX_ARGS), leaves in dest these n
    strings followed by NULL (so that execvp reads exactly them, whatever
    dest held before), leaves the slots of dest after the NULL as they
    were, and sets command[n] and command[0] to NULL.  Called with an index
    that is not inside command, it writes outside the array. *)
Theorem save_command_contract :
  (∀ (dest command : array) (toks : list string) rest w,
     length dest = MAX_ARGS + 1 → command = (Some <$> toks) ++ rest →
     length command = MAX_ARGS + 1 → length toks ≤ MAX_ARGS →
     ∃ dest',
       save_command dest command (length toks) w
       = Ret (dest', <[0 := None]> (<[length toks := None]> command)) w ∧
       argv_of dest' = Some toks ∧
       length dest' = MAX_ARGS + 1 ∧
       ∀ i, length toks < i → dest' !! i = dest !! i) ∧
  (∀ (dest command : array) idx w,
     length command ≤ idx → save_command dest command idx w = Fault).
Proof.
  split.
  - intros dest command toks rest w Hd Hc Hlc Hlen.
    exists (saved dest command (length toks)).
    split; [by apply save_command_run|].
    split; [rewrite Hc, saved_plain; apply argv_of_strings|].
    split; [by apply length_saved|].
    intros i Hi. rewrite Hc, saved_plain.
    rewrite lookup_app_r by (rewrite length_fmap; lia).
    rewrite length_fmap.
    replace (i - length toks) with (S (i - length toks - 1)) by lia.
    simpl. rewrite lookup_drop. f_equal. lia.
  - intros dest command idx w Hidx. unfold save_command, bind, store.
    by rewrite decide_False by lia.
Qed.

Lemma children_stay_in_bounds_witness :
  match parse_input_and_exec (0, 0) "| b" " " world0 with
  | Ret _ w' | Exit _ w' =>
      ∃ cs, w_children w' = w_children world0 ++ cs ∧
            Forall (λ c,
              (reached_exec (c_trace c) = true ∨ c_status c = Some EXIT_FAILURE) ∧
              (c_status c = None →
               ∃ args, last (c_trace c) = Some (EExecFail None args))) cs
  | Fault | Killed _ => False
  end.
Proof.
  apply (children_stay_in_bounds (0, 0) "| b" " " world0).
  vm_compute. lia.
Defined.

Lemma save_command_contract_witness :
  ∃ dest',
    save_command (replicate (MAX_ARGS + 1) (Some "old"))
                 ((Some <$> ["ls"; "-l"]) ++ replicate 9 None) (length ["ls"; "-l"]) world0
    = Ret (dest', <[0 := None]> (<[length ["ls"; "-l"] := None]>
                                   ((Some <$> ["ls"; "-l"]) ++ replicate 9 None))) world0 ∧
    argv_of dest' = Some ["ls"; "-l"] ∧
    length dest' = MAX_ARGS + 1 ∧
    ∀ i, length ["ls"; "-l"] < i →
         dest' !! i = replicate (MAX_ARGS + 1) (Some "old") !! i.
Proof.
  destruct save_command_contract as [H _].
  apply (H (replicate (MAX_ARGS + 1) (Some "old"))
           ((Some <$> ["ls"; "-l"]) ++ replicate 9 None) ["ls"; "-l"]
           (replicate 9 None) world0).
  - reflexivity.
  - reflexivity.
  - reflexivity.
  - vm_compute. lia.
Defined.

Lemma calm_ret {A} (a : A) (Q : A → Prop) : Q a → calm (ret a) Q.
Proof. intros H w. done. Qed.

Lemma calm_bind {A B} (m : M A) (k : A → M B) (R : A → Prop) (Q : B → Prop) :
  calm m R → (∀ a, R a → calm (k a) Q) → calm (bind m k) Q.
Proof.
  intros Hm Hk w. unfold bind. specialize (Hm w).
  destruct (m w) as [a w1|s w1| |w1]; [|done|done|done].
  destruct Hm as (Ha & Hf1 & Hn1). specialize (Hk a Ha w1).
  destruct (k a w1) as [b w2|s w2| |w2]; [|done|done|done].
  destruct Hk as (Hb & Hf2 & Hn2). split; [done|]. split; congruence.
Qed.

Lemma calm_bind_any {A B} (m : M A) (k : A → M B) (Q : B → Prop) :
  calm m total_true → (∀ a, calm (k a) Q) → calm (bind m k) Q.
Proof. intros Hm Hk. apply (calm_bind m k total_true); auto. Qed.

Lemma calm_weaken {A} (m : M A) (Q Q' : A → Prop) :
  calm m Q → (∀ a, Q a → Q' a) → calm m Q'.
Proof.
  intros Hm HQ w. specialize (Hm w). destruct (m w); [|done|done|done].
  destruct Hm as [? ?]. split; auto.
Qed.

Lemma calm_printf s : calm (printf s) total_true.
Proof. by intros w. Qed.
Lemma calm_perror s : calm (perror s) total_true.
Proof. by intros w. Qed.
Lemma calm_sys_wait : calm sys_wait total_true.
Proof. by intros w. Qed.
Lemma calm_store (a : array) i v : calm (store a i v) total_true.
Proof. intros w. unfold store. by case_decide. Qed.
Lemma calm_load (a : array) i : calm (load a i) (λ v, a !! i = Some v).
Proof. intros w. unfold load. by destruct (a !! i). Qed.

Lemma calm_sys_fork child : calm (sys_fork child) total_true.
Proof.
  intros w. unfold sys_fork. destruct (w_env w (w_clock w)); [|done].
  by destruct (child (child_world w)).
Qed.

Ltac calm_walk :=
  repeat first
    [ apply calm_ret; exact I
    | apply calm_printf
    | apply calm_perror
    | apply calm_sys_wait
    | apply calm_sys_fork
    | apply calm_store
    | eapply calm_weaken; [apply calm_load|intros; exact I]
    | apply calm_bind_any; [| intros ?]
    | match goal with
      | |- calm (match ?x with _ => _ end) _ => destruct x
      | |- calm (if ?b then _ else _) _ => destruct b
      end ].

Lemma calm_save_command_copy n : ∀ i (dest command : array),
  calm (save_command_copy n i dest command) total_true.
Proof.
  induction n as [|n IH]; intros i dest command; cbn [save_command_copy].
  - calm_walk.
  - apply calm_bind_any; [calm_walk|]. intros v.
    apply calm_bind_any; [calm_walk|]. intros d. apply IH.
Qed.

Lemma calm_save_command (dest command : array) idx :
  calm (save_command dest command idx) total_true.
Proof.
  unfold save_command.
  apply calm_bind_any; [calm_walk|]. intros c.
  apply calm_bind_any; [apply calm_save_command_copy|]. intros d. calm_walk.
Qed.

Lemma calm_exec_command m cmd fd : calm (exec_command m cmd fd) total_true.
Proof. unfold exec_command. calm_walk. Qed.

Lemma calm_exec_redir_bothio m cmd i o : calm (exec_redir_bothio m cmd i o) total_true.
Proof. unfold exec_redir_bothio. calm_walk. Qed.

(** open() either fails or takes the lowest free descriptor. *)
Lemma sys_open_cases path flags w :
  (∃ w', sys_open path flags w = Ret None w' ∧
         w_fds w' = w_fds w ∧ w_npipes w' = w_npipes w) ∨
  (∃ p w', sys_open path flags w = Ret (Some (lowest_free (w_fds w))) w' ∧
           w_fds w' = <[lowest_free (w_fds w) := DFile p flags]> (w_fds w) ∧
           w_npipes w' = w_npipes w).
Proof.
  unfold sys_open. destruct path as [p|]; [|left; by eexists].
  destruct (w_env w (w_clock w)); [|left; by eexists].
  destruct (open_file p flags (w_files w)); [|left; by eexists].
  right. by eexists _, _.
Qed.

Lemma calm_redirect_io m cmd f e : calm (redirect_io m cmd f e) total_true.
Proof.
  intros w. unfold redirect_io.
  destruct (bool_decide (m = INPUT) && negb e); [done|].
  set (flags := if decide (m = INPUT) then _ else _).
  unfold bind at 1.
  destruct (sys_open_cases f flags w) as [(w1 & -> & Hf1 & Hn1)|(p & w1 & -> & Hf1 & Hn1)].
  { done. }
  unfold bind at 1.
  set (mid := if e then exec_command m cmd (lowest_free (w_fds w)) ;;; ret tt
              else ret tt).
  assert (Hmid : calm mid total_true).
  { unfold mid. destruct e; [|by apply calm_ret].
    apply calm_bind_any; [apply calm_exec_command|]. intros ?. by apply calm_ret. }
  specialize (Hmid w1).
  destruct (mid w1) as [[] w2|s w2| |w2]; [|done|done|done].
  destruct Hmid as (_ & Hf2 & Hn2).
  unfold bind, sys_close. rewrite Hf2, Hf1, lookup_insert_eq. simpl.
  rewrite delete_insert_id by apply lowest_free_fresh.
  split; [done|]. split; [done|]. congruence.
Qed.

Lemma calm_scan_token token st :
  token ≠ "|" → pipe_free st → calm (scan_token token st) step_pipe_free.
Proof.
  intros Htok [Hm Hobp]. unfold scan_token, go_on, leave_with.
  destruct (String.eqb token "<").
  { destruct (decide (redirect_mode st ≠ REG_CMD)).
    - apply calm_bind_any; [apply calm_printf|]. intros ?. by apply calm_ret.
    - apply calm_bind_any; [apply calm_save_command|]. intros dc.
      by apply calm_ret. }
  destruct (String.eqb token ">" || String.eqb token ">>").
  { assert (Hout : (if String.eqb token ">>" then OUTPUT_APPEND else OUTPUT) ≠ PIPE)
      by (by destruct (String.eqb token ">>")).
    destruct (decide (redirect_mode st = INPUT)).
    - eapply calm_bind; [apply calm_load|]. intros [f|] _.
      + by apply calm_ret.
      + apply calm_bind_any; [apply calm_printf|]. intros ?. by apply calm_ret.
    - destruct (decide (redirect_mode st = OUTPUT ∨ redirect_mode st = OUTPUT_APPEND)).
      + eapply calm_bind; [apply calm_load|]. intros [f|] _.
        * apply calm_bind_any; [apply calm_redirect_io|]. intros ?. by apply calm_ret.
        * apply calm_bind_any; [apply calm_printf|]. intros ?. by apply calm_ret.
      + apply calm_bind_any; [apply calm_save_command|]. intros dc.
        apply calm_ret. split; [done|]. simpl. by rewrite decide_False. }
  destruct (String.eqb_spec token "|"); [done|].
  apply calm_bind_any; [apply calm_store|]. intros c. by apply calm_ret.
Qed.

Lemma calm_scan_loop n : ∀ toks st,
  "|" ∉ toks → pipe_free st → calm (scan_loop n toks st) step_pipe_free.
Proof.
  induction n as [|n IH]; intros toks st Htoks Hst; cbn [scan_loop].
  - by apply calm_ret.
  - destruct (decide (MAX_ARGS + 1 ≤ cmd_index st)).
    + apply calm_bind_any; [apply calm_printf|]. intros ?. by apply calm_ret.
    + destruct toks as [|token rest].
      * apply calm_bind_any; [apply calm_store|]. intros c. by apply calm_ret.
      * apply not_elem_of_cons in Htoks as [Hne Hrest].
        eapply calm_bind; [by apply calm_scan_token|].
        intros [st'|code] Hst'; [by apply IH|by apply calm_ret].
Qed.

Lemma calm_finish st :
  pipe_free st →
  calm (finish st) (λ code, code = EXEC_SUCCESS ∨ code = EXEC_FAILURE).
Proof.
  intros [Hm Hobp]. unfold finish.
  destruct (decide (redirect_mode st = REG_CMD)).
  - apply calm_bind_any; [apply calm_exec_command|]. intros ?.
    apply calm_ret. by left.
  - eapply calm_bind; [apply calm_load|]. intros [f|] _.
    2: { apply calm_bind_any; [apply calm_printf|]. intros ?. apply calm_ret. by right. }
    apply calm_bind_any; [|intros ?; apply calm_ret; by left].
    destruct (decide (redirect_mode st = INPUT)); [apply calm_redirect_io|].
    destruct (decide (redirect_mode st = OUTPUT ∨ redirect_mode st = OUTPUT_APPEND)).
    { destruct (input_file st); [apply calm_exec_redir_bothio|].
      rewrite Hobp. apply calm_redirect_io. }
    rewrite decide_False by done. by apply calm_ret.
Qed.

Lemma pipe_free_returns garbage toks w :
  "|" ∉ toks →
  ∃ code w',
    parse_tokens garbage toks w = Ret code w' ∧
    (code = EXEC_SUCCESS ∨ code = EXEC_FAILURE) ∧
    w_fds w' = w_fds w ∧ w_npipes w' = w_npipes w.
Proof.
  intros Htoks.
  assert (Hcalm : calm (parse_tokens garbage toks)
                       (λ code, code = EXEC_SUCCESS ∨ code = EXEC_FAILURE)).
  { unfold parse_tokens.
    eapply calm_bind; [by apply calm_scan_loop|]. intros [st|code] Hst.
    - by apply calm_finish.
    - apply calm_ret. by right. }
  specialize (Hcalm w).
  pose proof (spec_parse_tokens garbage toks w) as Hnf.
  destruct (parse_tokens garbage toks w) as [code w'|s w'| |w']; [|done|done|done].
  by exists code, w'.
Qed.

(** X18: a line without the token "|" never ends the shell and leaks no
    descriptor: whatever the tokens and whatever the system answers (fork
    or open refused, files missing, programs that cannot be run),
    parse_input_and_exec returns, with EXEC_SUCCESS or EXEC_FAILURE, and
    the shell's descriptor table and the number of pipes are as before. *)
Theorem pipe_free_line_returns garbage toks w :
  "|" ∉ toks →
  ∃ code w',
    parse_tokens garbage toks w = Ret code w' ∧
    (code = EXEC_SUCCESS ∨ code = EXEC_FAILURE) ∧
    w_fds w' = w_fds w ∧ w_npipes w' = w_npipes w.
Proof. apply pipe_free_returns. Qed.



(** *** Input without the pipe character *)









Lemma pipe_free_line_returns_witness :
  ∃ code w',
    parse_tokens (0, 0) ["a"; ">"; "f"] barren_world = Ret code w' ∧
    (code = EXEC_SUCCESS ∨ code = EXEC_FAILURE) ∧
    w_fds w' = w_fds barren_world ∧ w_npipes w' = w_npipes barren_world.
Proof.
  apply (pipe_free_line_returns (0, 0) ["a"; ">"; "f"] barren_world).
  intros H. apply list_elem_of_In in H. simpl in H.
  destruct H as [H|[H|[H|H]]]; try discriminate H. exact H.
Defined.



Lemma sys_fork_exit child w s wc :
  w_env w (w_clock w) = true → child (child_world w) = Exit s wc →
  sys_fork child w = Ret (Some (length (w_children w))) (reap w (Some s) wc).
Proof. intros Henv Hc. unfold sys_fork. by rewrite Henv, Hc. Qed.

Lemma exec_tail_exits (cmd : array) prog args cw :
  cmd !! 0 = Some (Some prog) → argv_of cmd = Some args →
  ∃ s wc,
    (let* program := load cmd 0 in execvp_and_handle_error program cmd) cw = Exit s wc ∧
    w_fds wc = w_fds cw ∧
    w_trace wc = w_trace cw ++ exec_events prog args (w_run cw (w_clock cw)) ∧
    w_clock wc = S (w_clock cw) ∧ w_env wc = w_env cw ∧ w_run wc = w_run cw ∧
    w_files wc = match w_run cw (w_clock cw), w_fds cw !! STDOUT_FILENO with
                 | Some out, Some d => write_out d out (w_files cw)
                 | _, _ => w_files cw
                 end.
Proof.
  intros H0 Ha. unfold bind, load. rewrite H0. unfold ret.
  rewrite (execvp_run cmd prog args) by done. unfold exec_outcome, exec_events.
  destruct (w_run cw (w_clock cw)) as [out|].
  - eexists _, _. split; [done|]. simpl. repeat split; try done.
  - eexists _, _. split; [done|]. split; [done|]. simpl. rewrite <- !app_assoc.
    repeat split; try done.
Qed.

(** execvp does not return: what is written after it is never run. *)
Lemma exec_then_exits {A} (cmd : array) prog args (m : M A) cw s wc :
  cmd !! 0 = Some (Some prog) → argv_of cmd = Some args →
  (let* program := load cmd 0 in execvp_and_handle_error program cmd) cw = Exit s wc →
  (let* program := load cmd 0 in execvp_and_handle_error program cmd ;;; m) cw
  = Exit s wc.
Proof.
  intros H0 Ha. unfold bind, load. rewrite H0. unfold ret.
  rewrite (execvp_run cmd prog args) by done. unfold exec_outcome.
  destruct (w_run cw (w_clock cw)); intros [= <- <-]; done.
Qed.

Lemma wired_table (t : gmap nat Desc) id r wr k d :
  t !! r = None → t !! wr = None → r ≠ k → wr ≠ k →
  delete wr (delete r (<[k := d]> (with_pipe t id r wr))) = <[k := d]> t.
Proof.
  intros Hr Hw Hrk Hwk.
  rewrite (delete_insert_ne _ r k) by done.
  rewrite (delete_insert_ne _ wr k) by done.
  by rewrite delete_with_pipe.
Qed.

(** The child of the first stage. *)
Lemma input_pipe_child_run r wr d1 d2 (cmd : array) prog args cw :
  w_fds cw !! r = Some d1 → w_fds cw !! wr = Some d2 →
  r ≠ wr → r ≠ STDOUT_FILENO → wr ≠ STDOUT_FILENO →
  cmd !! 0 = Some (Some prog) → argv_of cmd = Some args →
  ∃ s wc,
    input_pipe_child (r, wr) cmd cw = Exit s wc ∧
    w_fds wc = delete wr (delete r (<[STDOUT_FILENO := d2]> (w_fds cw))) ∧
    w_trace wc = w_trace cw ++ [EDup2 wr STDOUT_FILENO; EClose r d1; EClose wr d2]
                 ++ exec_events prog args (w_run cw (w_clock cw)) ∧
    w_clock wc = S (w_clock cw).
Proof.
  intros Hr Hw Hne Hr1 Hw1 H0 Ha. unfold input_pipe_child. simpl snd.
  erewrite bind_Ret by (by apply sys_dup2_run).
  erewrite bind_Ret by done.
  set (w1 := log _ _).
  edestruct (close_pipes_run r wr d1 d2 w1)
    as (w2 & Hcl & (Hf2 & _ & Ht2 & _) & Hc2 & _ & Hr2); [| |done|].
  { simpl. by rewrite lookup_insert_ne. }
  { simpl. by rewrite lookup_insert_ne. }
  erewrite bind_Ret by exact Hcl.
  destruct (exec_tail_exits cmd prog args w2 H0 Ha)
    as (s & wc & Hex & Hfc & Htc & Hcc & _ & _).
  exists s, wc. split; [exact Hex|]. rewrite Hfc, Htc, Hcc, Hf2, Ht2, Hc2, Hr2.
  simpl. by rewrite <- !app_assoc.
Qed.

(** The child of the last stage. *)
Lemma output_pipe_child_run r wr d1 d2 (cmd : array) prog args cw :
  w_fds cw !! r = Some d1 → w_fds cw !! wr = Some d2 →
  r ≠ wr → r ≠ STDIN_FILENO → wr ≠ STDIN_FILENO →
  cmd !! 0 = Some (Some prog) → argv_of cmd = Some args →
  ∃ s wc,
    output_pipe_child (r, wr) cmd cw = Exit s wc ∧
    w_fds wc = delete wr (delete r (<[STDIN_FILENO := d1]> (w_fds cw))) ∧
    w_trace wc = w_trace cw ++ [EDup2 r STDIN_FILENO; EClose r d1; EClose wr d2]
                 ++ exec_events prog args (w_run cw (w_clock cw)) ∧
    w_clock wc = S (w_clock cw).
Proof.
  intros Hr Hw Hne Hr1 Hw1 H0 Ha. unfold output_pipe_child. simpl fst.
  erewrite bind_Ret by (by apply sys_dup2_run).
  erewrite bind_Ret by done.
  set (w1 := log _ _).
  edestruct (close_pipes_run r wr d1 d2 w1)
    as (w2 & Hcl & (Hf2 & _ & Ht2 & _) & Hc2 & _ & Hr2); [| |done|].
  { simpl. by rewrite lookup_insert_ne. }
  { simpl. by rewrite lookup_insert_ne. }
  erewrite bind_Ret by exact Hcl.
  destruct (exec_tail_exits cmd prog args w2 H0 Ha)
    as (s & wc & Hex & Hfc & Htc & Hcc & _ & _).
  exists s, wc. split; [exact Hex|]. rewrite Hfc, Htc, Hcc, Hf2, Ht2, Hc2, Hr2.
  simpl. by rewrite <- !app_assoc.
Qed.

Lemma no_dup_four r wr :
  NoDup [r; wr; STDIN_FILENO; STDOUT_FILENO] →
  r ≠ wr ∧ r ≠ STDIN_FILENO ∧ r ≠ STDOUT_FILENO ∧
  wr ≠ STDIN_FILENO ∧ wr ≠ STDOUT_FILENO.
Proof.
  intros Hnd%NoDup_four. tauto.
Qed.

(** The first stage of a pipeline. *)
Lemma input_pipe_wired (cmd : array) prog args w :
  benign w → std_open (w_fds w) →
  cmd !! 0 = Some (Some prog) → argv_of cmd = Some args →
  ∃ r wr c w',
    input_pipe cmd w = Ret (r, wr) w' ∧
    w_fds w' = with_pipe (w_fds w) (w_npipes w) r wr ∧
    w_npipes w' = S (w_npipes w) ∧
    w_trace w' = w_trace w ++ [EPipe (w_npipes w) r wr; EFork (c_pid c); EWait] ∧
    w_children w' = w_children w ++ [c] ∧
    w_env w' = w_env w ∧ w_run w' = w_run w ∧ w_clock w' = 3 + w_clock w ∧
    w_fds w !! r = None ∧ w_fds w !! wr = None ∧
    NoDup [r; wr; STDIN_FILENO; STDOUT_FILENO] ∧
    c_fds c = <[STDOUT_FILENO := DPipe (w_npipes w) Wr]> (w_fds w) ∧
    c_trace c = [EDup2 wr STDOUT_FILENO; EClose r (DPipe (w_npipes w) Rd);
                 EClose wr (DPipe (w_npipes w) Wr)]
                ++ exec_events prog args (w_run w (2 + w_clock w)).
Proof.
  intros Hb Hstd H0 Ha. unfold input_pipe.
  destruct (fresh_pair (w_fds w) (DPipe (w_npipes w) Rd) Hstd) as (Hr & Hw & Hnd).
  unfold bind at 1, sys_pipe. rewrite Hb.
  set (r := lowest_free (w_fds w)) in *.
  set (wr := lowest_free (<[r := DPipe (w_npipes w) Rd]> (w_fds w))) in *.
  set (w1 := log _ _).
  destruct (no_dup_four r wr Hnd) as (Hne & Hr0 & Hr1 & Hw0 & Hw1).
  destruct (input_pipe_child_run r wr (DPipe (w_npipes w) Rd) (DPipe (w_npipes w) Wr)
              cmd prog args (child_world w1))
    as (s & wc & Hchild & Hfc & Htc & Hcc); try done.
  { simpl. rewrite lookup_insert_ne by done. apply lookup_insert_eq. }
  { simpl. apply lookup_insert_eq. }
  unfold input_pipe_child in Hchild.
  unfold bind at 1, bind at 1.
  rewrite (sys_fork_exit _ w1 s wc) by (apply Hb || exact Hchild).
  exists r, wr. eexists. eexists. split; [reflexivity|]. cbn.
  rewrite Hfc, Htc, Hcc. cbn.
  rewrite <- !app_assoc. repeat split; try done.
  apply (wired_table (w_fds w) (w_npipes w) r wr STDOUT_FILENO); done.
Qed.

(** The last stage of a pipeline. *)
Lemma output_pipe_wired (cmd : array) prog args t id r wr w :
  benign w → std_open t →
  w_fds w = with_pipe t id r wr →
  t !! r = None → t !! wr = None →
  NoDup [r; wr; STDIN_FILENO; STDOUT_FILENO] →
  cmd !! 0 = Some (Some prog) → argv_of cmd = Some args →
  ∃ c w',
    output_pipe (r, wr) cmd w = Ret tt w' ∧
    w_fds w' = t ∧ w_npipes w' = w_npipes w ∧
    w_trace w' = w_trace w ++ [EFork (c_pid c); EClose r (DPipe id Rd);
                               EClose wr (DPipe id Wr); EWait] ∧
    w_children w' = w_children w ++ [c] ∧
    c_fds c = <[STDIN_FILENO := DPipe id Rd]> t ∧
    c_trace c = [EDup2 r STDIN_FILENO; EClose r (DPipe id Rd);
                 EClose wr (DPipe id Wr)]
                ++ exec_events prog args (w_run w (1 + w_clock w)).
Proof.
  intros Hb Hstd Hfds Hr Hw Hnd H0 Ha. unfold output_pipe.
  destruct (no_dup_four r wr Hnd) as (Hne & Hr0 & Hr1 & Hw0 & Hw1).
  assert (Hlr : w_fds w !! r = Some (DPipe id Rd)).
  { rewrite Hfds, lookup_with_pipe. rewrite decide_False by done. by rewrite decide_True. }
  assert (Hlw : w_fds w !! wr = Some (DPipe id Wr)).
  { rewrite Hfds, lookup_with_pipe. by rewrite decide_True. }
  destruct (output_pipe_child_run r wr (DPipe id Rd) (DPipe id Wr)
              cmd prog args (child_world w))
    as (s & wc & Hchild & Hfc & Htc & Hcc); try done.
  unfold output_pipe_child in Hchild.
  unfold bind at 1.
  rewrite (sys_fork_exit _ w s wc) by (apply Hb || exact Hchild).
  set (w1 := reap w (Some s) wc).
  edestruct (close_pipes_run r wr (DPipe id Rd) (DPipe id Wr) w1)
    as (w2 & Hcl & (Hf2 & Hn2 & Ht2 & Hc2 & _) & _); [done|done|done|].
  erewrite bind_Ret by exact Hcl.
  exists (mkChild (length (w_children w)) (w_fds w) (w_trace wc) (w_fds wc) (Some s)).
  eexists. split; [reflexivity|]. cbn.
  rewrite Hf2, Hn2, Ht2, Hc2. cbn.
  rewrite <- !app_assoc, app_nil_r. rewrite Hfds. repeat split; try done.
  - by apply delete_with_pipe.
  - rewrite Hfc. cbn. rewrite Hfds. by apply wired_table.
Qed.

(** X20: the two stages of [a | b], when pipe and fork succeed, standard
    input and output are open, and the output of the first stage fits in
    the pipe (nobody reads the pipe before that stage has ended).  The
    shell creates one pipe, forks the first
    child and waits for it, then forks the second child, closes both ends
    of the pipe and waits again: the stages run one after the other.  The
    first child runs a's program with the write end of the pipe as its
    standard output, the second b's program with the read end of the same
    pipe as its standard input; both have closed the two descriptors of the
    pipe they inherited, so that each table is the shell's with one
    descriptor replaced; the shell's own table is as before. *)
Theorem two_stage_pipeline garbage a b pa pb w :
  head a = Some pa → head b = Some pb →
  Forall (λ t, is_operator t = false) a → length a ≤ MAX_ARGS →
  Forall (λ t, is_operator t = false) b → length b ≤ MAX_ARGS →
  benign w → std_open (w_fds w) →
  fits_pipe (w_run w (2 + w_clock w)) →
  let id := w_npipes w in
  ∃ r wr c1 c2 w',
    parse_tokens garbage (a ++ "|" :: b) w = Ret EXEC_SUCCESS w' ∧
    w_fds w' = w_fds w ∧
    w_children w' = w_children w ++ [c1; c2] ∧
    w_trace w' = w_trace w ++
      [EPipe id r wr; EFork (c_pid c1); EWait;
       EFork (c_pid c2); EClose r (DPipe id Rd); EClose wr (DPipe id Wr); EWait] ∧
    c_fds c1 = <[STDOUT_FILENO := DPipe id Wr]> (w_fds w) ∧
    c_fds c2 = <[STDIN_FILENO := DPipe id Rd]> (w_fds w) ∧
    c_trace c1 = [EDup2 wr STDOUT_FILENO; EClose r (DPipe id Rd);
                  EClose wr (DPipe id Wr)]
                 ++ exec_events pa a (w_run w (2 + w_clock w)) ∧
    c_trace c2 = [EDup2 r STDIN_FILENO; EClose r (DPipe id Rd);
                  EClose wr (DPipe id Wr)]
                 ++ exec_events pb b (w_run w (4 + w_clock w)).
Proof.
  intros Hpa Hpb Ha Hla Hb Hlb Hben Hstd Hfit id.
  destruct (reaches_plain_start garbage w a Ha Hla)
    as (st1 & tail & H1 & Hok1 & Hc1 & Htail & Hi1 & Hrc1 & Hif1 & Hobp1 & Hm1 & _).
  pose proof Hok1 as (Hlc1 & _ & _).
  set (cmd := <[cmd_index st1 := None]> (command st1)).
  assert (Hcmd0 : cmd !! 0 = Some (Some pa)).
  { unfold cmd. rewrite Hc1, Hi1, insert_after_plain by done.
    destruct a; [done|]. simpl in Hpa. by injection Hpa as ->. }
  assert (Hcmda : argv_of cmd = Some a).
  { unfold cmd. rewrite Hc1, Hi1, insert_after_plain by done. apply argv_of_strings. }
  destruct (input_pipe_wired cmd pa a w Hben Hstd Hcmd0 Hcmda)
    as (r & wr & c1 & w1 & Hrun1 & Hf1 & Hn1 & Ht1 & Hch1 & He1 & Hr1 & Hk1
        & Hfr & Hfw & Hnd & Hcf1 & Hct1).
  assert (Hstep : scan_token "|" st1 w
                  = Ret (inl (mkScan cmd (redirect_cmd st1) (input_file st1)
                                     (output_before_pipe st1) 0 PIPE (r, wr))) w1).
  { unfold scan_token. cbn [String.eqb Ascii.eqb Bool.eqb orb andb].
    rewrite Hm1. rewrite !decide_False by (try intros [?|?]; done).
    unfold bind at 1, store. rewrite decide_True by bounds.
    unfold ret at 1. fold cmd. unfold bind. by rewrite Hrun1. }
  assert (Hlt : cmd_index st1 < MAX_ARGS + 1) by bounds.
  pose proof (reaches_step _ _ _ _ _ _ _ _ H1 Hlt Hstep) as H2.
  set (st2 := mkScan cmd _ _ _ _ _ _) in *.
  assert (H3 : reaches garbage w ((a ++ ["|"]) ++ b) (after_plain st2 b) w1).
  { apply reaches_plain; [done|done|simpl; bounds]. }
  rewrite <- app_assoc in H3. simpl in H3.
  destruct (after_plain_fields b st2)
    as (Hc3 & Hi3 & _ & _ & _ & Hm3 & Hp3);
    [simpl; unfold cmd; rewrite length_insert; bounds|].
  simpl in Hc3, Hi3, Hm3, Hp3.
  rewrite (parse_tokens_end _ _ _ _ _ H3);
    [|rewrite length_app; simpl; bounds|rewrite Hi3; bounds].
  unfold finish. cbn [redirect_mode command pipe_fds]. rewrite Hm3, Hp3, Hi3, Hc3.
  rewrite decide_False by done.
  assert (Hdrop : drop (length b) cmd ≠ []).
  { intros Hnil. apply (f_equal length) in Hnil.
    rewrite length_drop in Hnil. unfold cmd in Hnil.
    rewrite length_insert in Hnil. simpl in Hnil. bounds. }
  rewrite insert_after_plain by done.
  set (cmdb := (Some <$> b) ++ None :: drop 1 (drop (length b) cmd)).
  assert (Hb0 : cmdb !! 0 = Some (Some pb)).
  { unfold cmdb. destruct b; [done|]. simpl in Hpb. by injection Hpb as ->. }
  unfold bind at 1, load. rewrite Hb0. unfold ret at 1.
  rewrite !decide_False by (try intros [?|?]; done).
  rewrite decide_True by done.
  destruct (output_pipe_wired cmdb pb b (w_fds w) id r wr w1)
    as (c2 & w2 & Hrun2 & Hf2 & Hn2 & Ht2 & Hch2 & Hcf2 & Hct2); try done.
  { intros t. rewrite He1. apply Hben. }
  { apply argv_of_strings. }
  unfold bind. rewrite Hrun2. unfold ret.
  exists r, wr, c1, c2, w2. split; [done|].
  rewrite Hf2, Hch2, Hch1, Ht2, Ht1, <- !app_assoc.
  repeat split; try done.
  rewrite Hct2, Hr1, Hk1. done.
Qed.

(** The child of an intermediary stage. *)
Lemma inter_pipe_child_run r0 w0 r wr d1 d2 d3 d4 (cmd : array) prog args cw :
  w_fds cw !! r0 = Some d1 → w_fds cw !! w0 = Some d2 →
  w_fds cw !! r = Some d3 → w_fds cw !! wr = Some d4 →
  NoDup [r0; w0; r; wr] →
  NoDup [r0; w0; STDIN_FILENO; STDOUT_FILENO] →
  NoDup [r; wr; STDIN_FILENO; STDOUT_FILENO] →
  cmd !! 0 = Some (Some prog) → argv_of cmd = Some args →
  ∃ s wc,
    inter_pipe_child (r0, w0) (r, wr) cmd cw = Exit s wc ∧
    w_fds wc = delete wr (delete r (delete w0 (delete r0
                 (<[STDOUT_FILENO := d4]> (<[STDIN_FILENO := d1]> (w_fds cw)))))) ∧
    w_trace wc = w_trace cw ++
                 [EDup2 r0 STDIN_FILENO; EDup2 wr STDOUT_FILENO;
                  EClose r0 d1; EClose w0 d2; EClose r d3; EClose wr d4]
                 ++ exec_events prog args (w_run cw (w_clock cw)) ∧
    w_clock wc = S (w_clock cw).
Proof.
  intros Hr0 Hw0 Hr Hw Hnd Hnd0 Hnd1 H0 Ha.
  destruct (no_dup_four r0 w0 Hnd0) as (Hne0 & Hr00 & Hr01 & Hw00 & Hw01).
  destruct (no_dup_four r wr Hnd1) as (Hne1 & Hr10 & Hr11 & Hw10 & Hw11).
  assert (Hx : r0 ≠ r ∧ r0 ≠ wr ∧ w0 ≠ r ∧ w0 ≠ wr).
  { apply NoDup_four in Hnd. tauto. }
  destruct Hx as (Hx1 & Hx2 & Hx3 & Hx4).
  unfold inter_pipe_child. simpl fst. simpl snd.
  erewrite bind_Ret by (by apply sys_dup2_run).
  erewrite bind_Ret by done.
  erewrite bind_Ret
    by (apply (sys_dup2_run wr STDOUT_FILENO d4); [simpl; by rewrite lookup_insert_ne|done]).
  erewrite bind_Ret by done.
  set (w1 := log _ _).
  edestruct (close_pipes_run r0 w0 d1 d2 w1)
    as (w2 & Hcl2 & (Hf2 & _ & Ht2 & _) & Hc2 & _ & Hr2); [| |done|].
  { simpl. by rewrite !lookup_insert_ne. }
  { simpl. by rewrite !lookup_insert_ne. }
  erewrite bind_Ret by exact Hcl2.
  edestruct (close_pipes_run r wr d3 d4 w2)
    as (w3 & Hcl3 & (Hf3 & _ & Ht3 & _) & Hc3 & _ & Hr3); [| |done|].
  { rewrite Hf2. simpl. by rewrite !lookup_delete_ne, !lookup_insert_ne. }
  { rewrite Hf2. simpl. by rewrite !lookup_delete_ne, !lookup_insert_ne. }
  erewrite bind_Ret by exact Hcl3.
  destruct (exec_tail_exits cmd prog args w3 H0 Ha)
    as (s & wc & Hex & Hfc & Htc & Hcc & _ & _).
  exists s, wc. split; [exact Hex|].
  rewrite Hfc, Htc, Hcc, Hf3, Ht3, Hc3, Hr3, Hf2, Ht2, Hc2, Hr2.
  simpl. by rewrite <- !app_assoc.
Qed.

(** An intermediary stage of a pipeline. *)
Lemma inter_pipe_wired (cmd : array) prog args t id r0 w0 w :
  benign w → std_open t →
  w_fds w = with_pipe t id r0 w0 →
  t !! r0 = None → t !! w0 = None →
  NoDup [r0; w0; STDIN_FILENO; STDOUT_FILENO] →
  cmd !! 0 = Some (Some prog) → argv_of cmd = Some args →
  ∃ r wr c w',
    inter_pipe (r0, w0) cmd w = Ret (r, wr) w' ∧
    w_fds w' = with_pipe t (w_npipes w) r wr ∧
    w_npipes w' = S (w_npipes w) ∧
    w_trace w' = w_trace w ++
      [EPipe (w_npipes w) r wr; EFork (c_pid c);
       EClose r0 (DPipe id Rd); EClose w0 (DPipe id Wr); EWait] ∧
    w_children w' = w_children w ++ [c] ∧
    w_env w' = w_env w ∧ w_run w' = w_run w ∧ w_clock w' = 3 + w_clock w ∧
    t !! r = None ∧ t !! wr = None ∧
    NoDup [r; wr; STDIN_FILENO; STDOUT_FILENO] ∧
    c_fds c = <[STDOUT_FILENO := DPipe (w_npipes w) Wr]>
                (<[STDIN_FILENO := DPipe id Rd]> t) ∧
    c_trace c = [EDup2 r0 STDIN_FILENO; EDup2 wr STDOUT_FILENO;
                 EClose r0 (DPipe id Rd); EClose w0 (DPipe id Wr);
                 EClose r (DPipe (w_npipes w) Rd); EClose wr (DPipe (w_npipes w) Wr)]
                ++ exec_events prog args (w_run w (2 + w_clock w)).
Proof.
  intros Hb Hstd Hfds Hr0 Hw0 Hnd0 H0 Ha. unfold inter_pipe.
  pose proof (std_open_with_pipe t id r0 w0 Hstd) as Hstd'. rewrite <- Hfds in Hstd'.
  destruct (fresh_pair (w_fds w) (DPipe (w_npipes w) Rd) Hstd') as (Hr & Hw & Hnd).
  unfold bind at 1, sys_pipe. rewrite Hb.
  set (r := lowest_free (w_fds w)) in *.
  set (wr := lowest_free (<[r := DPipe (w_npipes w) Rd]> (w_fds w))) in *.
  set (w1 := log _ _).
  destruct (no_dup_four r0 w0 Hnd0) as (Hne0 & Hr00 & Hr01 & Hw00 & Hw01).
  destruct (no_dup_four r wr Hnd) as (Hne & Hr10 & Hr11 & Hw10 & Hw11).
  assert (Hold : w_fds w !! r0 = Some (DPipe id Rd) ∧ w_fds w !! w0 = Some (DPipe id Wr)).
  { rewrite Hfds, !lookup_with_pipe. rewrite decide_False by done.
    by rewrite !decide_True. }
  destruct Hold as [Hl0 Hl1].
  assert (Hx : r0 ≠ r ∧ r0 ≠ wr ∧ w0 ≠ r ∧ w0 ≠ wr) by (repeat split; congruence).
  destruct Hx as (Hx1 & Hx2 & Hx3 & Hx4).
  assert (Htr : t !! r = None ∧ t !! wr = None).
  { rewrite Hfds, !lookup_with_pipe in Hr, Hw.
    rewrite !decide_False in Hr by done. rewrite !decide_False in Hw by done. done. }
  destruct Htr as [Htr Htw].
  destruct (inter_pipe_child_run r0 w0 r wr (DPipe id Rd) (DPipe id Wr)
              (DPipe (w_npipes w) Rd) (DPipe (w_npipes w) Wr)
              cmd prog args (child_world w1))
    as (s & wc & Hchild & Hfc & Htc & Hcc); try done.
  { simpl. by rewrite !lookup_insert_ne. }
  { simpl. by rewrite !lookup_insert_ne. }
  { simpl. rewrite lookup_insert_ne by done. apply lookup_insert_eq. }
  { simpl. apply lookup_insert_eq. }
  { by apply NoDup_four. }
  unfold inter_pipe_child in Hchild.
  unfold bind at 1, bind at 1.
  rewrite (sys_fork_exit _ w1 s wc) by (apply Hb || exact Hchild).
  set (w2 := reap w1 (Some s) wc).
  edestruct (close_pipes_run r0 w0 (DPipe id Rd) (DPipe id Wr) w2)
    as (w3 & Hcl & (Hf3 & Hn3 & Ht3 & Hc3 & He3) & Hk3 & _ & Hr3).
  { simpl. by rewrite !lookup_insert_ne. }
  { simpl. by rewrite !lookup_insert_ne. }
  { done. }
  unfold bind at 1. erewrite bind_Ret by exact Hcl.
  exists r, wr.
  exists (mkChild (length (w_children w)) (w_fds w1) (w_trace wc) (w_fds wc) (Some s)).
  eexists. split; [reflexivity|]. cbn.
  rewrite Hf3, Hn3, Ht3, Hc3, He3, Hk3, Hr3. cbn.
  rewrite <- !app_assoc, app_nil_r, Hcc. cbn.
  assert (Htab : ∀ k d,
    delete wr (delete r (delete w0 (delete r0
      (<[STDOUT_FILENO := d]> (<[STDIN_FILENO := k]>
         (<[wr := DPipe (w_npipes w) Wr]> (<[r := DPipe (w_npipes w) Rd]> (w_fds w))))))))
    = <[STDOUT_FILENO := d]> (<[STDIN_FILENO := k]> t)).
  { intros k d. rewrite Hfds. apply map_eq. intros i.
    destruct (decide (i = wr)) as [->|?]; [rewrite lookup_delete_eq, !lookup_insert_ne by done; by rewrite Htw|].
    rewrite lookup_delete_ne by done.
    destruct (decide (i = r)) as [->|?]; [rewrite lookup_delete_eq, !lookup_insert_ne by done; by rewrite Htr|].
    rewrite lookup_delete_ne by done.
    destruct (decide (i = w0)) as [->|?]; [rewrite lookup_delete_eq, !lookup_insert_ne by done; by rewrite Hw0|].
    rewrite lookup_delete_ne by done.
    destruct (decide (i = r0)) as [->|?]; [rewrite lookup_delete_eq, !lookup_insert_ne by done; by rewrite Hr0|].
    rewrite lookup_delete_ne by done.
    destruct (decide (i = STDOUT_FILENO)) as [->|?]; [by rewrite !lookup_insert_eq|].
    rewrite !(lookup_insert_ne _ STDOUT_FILENO) by done.
    destruct (decide (i = STDIN_FILENO)) as [->|?]; [by rewrite !lookup_insert_eq|].
    rewrite !(lookup_insert_ne _ STDIN_FILENO) by done.
    rewrite !lookup_insert_ne by done. rewrite lookup_with_pipe.
    by rewrite !decide_False by done. }
  repeat split; try done.
  - rewrite Hfds. apply map_eq. intros i. rewrite lookup_with_pipe.
    destruct (decide (i = wr)) as [->|?].
    { rewrite !lookup_delete_ne by done. by rewrite lookup_insert_eq. }
    destruct (decide (i = r)) as [->|?].
    { rewrite !lookup_delete_ne by done. rewrite lookup_insert_ne by done.
      by rewrite lookup_insert_eq. }
    destruct (decide (i = w0)) as [->|?]; [by rewrite lookup_delete_eq, Hw0|].
    rewrite lookup_delete_ne by done.
    destruct (decide (i = r0)) as [->|?]; [by rewrite lookup_delete_eq, Hr0|].
    rewrite lookup_delete_ne, !lookup_insert_ne by done.
    rewrite lookup_with_pipe. by rewrite !decide_False by done.
  - rewrite Hfc. apply Htab.
Qed.

(** The plain tokens of one more stage, read from a position where
    cmd_index is 0. *)
Lemma reaches_stage garbage w pre st w1 toks p :
  reaches garbage w pre st w1 → cmd_index st = 0 →
  Forall (λ t, is_operator t = false) toks → length toks ≤ MAX_ARGS →
  head toks = Some p →
  ∃ st',
    reaches garbage w (pre ++ toks) st' w1 ∧
    cmd_index st' = length toks ∧
    redirect_cmd st' = redirect_cmd st ∧ input_file st' = input_file st ∧
    output_before_pipe st' = output_before_pipe st ∧
    redirect_mode st' = redirect_mode st ∧ pipe_fds st' = pipe_fds st ∧
    command st' !! 0 = Some (Some p) ∧
    <[cmd_index st' := None]> (command st') !! 0 = Some (Some p) ∧
    argv_of (<[cmd_index st' := None]> (command st')) = Some toks.
Proof.
  intros Hpos Hi Hplain Hlen Hhead.
  pose proof (reaches_scan_ok _ _ _ _ _ Hpos) as (Hlc & _ & _).
  assert (H3 : reaches garbage w (pre ++ toks) (after_plain st toks) w1).
  { apply reaches_plain; [done|done|rewrite Hi; bounds]. }
  destruct (after_plain_fields toks st)
    as (Hc3 & Hi3 & Hr3 & Hif3 & Hobp3 & Hm3 & Hp3); [rewrite Hi, Hlc; bounds|].
  rewrite Hi in Hc3, Hi3. simpl in Hc3, Hi3.
  exists (after_plain st toks). split; [done|].
  rewrite Hi3, Hc3.
  assert (Hdrop : drop (length toks) (command st) ≠ []).
  { intros Hnil. apply (f_equal length) in Hnil.
    rewrite length_drop, Hlc in Hnil. simpl in Hnil. bounds. }
  rewrite insert_after_plain by done.
  repeat split; try done.
  - destruct toks; [done|]. simpl in Hhead. by injection Hhead as ->.
  - destruct toks; [done|]. simpl in Hhead. by injection Hhead as ->.
  - apply argv_of_strings.
Qed.

(** X21: the three stages of [a | b | c], when pipe and fork succeed,
    standard input and output are open, and the outputs of the first two
    stages fit in a pipe (nobody reads a pipe before the stage that writes
    to it has ended).  The intermediary stage gets a
    second pipe, created while the first is still open; its child reads
    from the first pipe and writes to the second, and has closed all four
    inherited pipe descriptors; the shell closes the first pipe right after
    forking the second child and the second pipe after forking the third.
    Each child's table is the shell's with descriptors 0 and 1 replaced as
    the pipeline requires, and the shell's table is as before. *)
Theorem three_stage_pipeline garbage a b c pa pb pc w :
  head a = Some pa → head b = Some pb → head c = Some pc →
  Forall (λ t, is_operator t = false) a → length a ≤ MAX_ARGS →
  Forall (λ t, is_operator t = false) b → length b ≤ MAX_ARGS →
  Forall (λ t, is_operator t = false) c → length c ≤ MAX_ARGS →
  benign w → std_open (w_fds w) →
  fits_pipe (w_run w (2 + w_clock w)) → fits_pipe (w_run w (5 + w_clock w)) →
  let id := w_npipes w in
  ∃ r1 w1 r2 w2 c1 c2 c3 w',
    parse_tokens garbage (a ++ "|" :: b ++ "|" :: c) w = Ret EXEC_SUCCESS w' ∧
    w_fds w' = w_fds w ∧
    w_children w' = w_children w ++ [c1; c2; c3] ∧
    w_trace w' = w_trace w ++
      [EPipe id r1 w1; EFork (c_pid c1); EWait;
       EPipe (S id) r2 w2; EFork (c_pid c2);
       EClose r1 (DPipe id Rd); EClose w1 (DPipe id Wr); EWait;
       EFork (c_pid c3);
       EClose r2 (DPipe (S id) Rd); EClose w2 (DPipe (S id) Wr); EWait] ∧
    c_fds c1 = <[STDOUT_FILENO := DPipe id Wr]> (w_fds w) ∧
    c_fds c2 = <[STDOUT_FILENO := DPipe (S id) Wr]>
                 (<[STDIN_FILENO := DPipe id Rd]> (w_fds w)) ∧
    c_fds c3 = <[STDIN_FILENO := DPipe (S id) Rd]> (w_fds w) ∧
    (∃ pre, c_trace c1 = pre ++ exec_events pa a (w_run w (2 + w_clock w))) ∧
    (∃ pre, c_trace c2 = pre ++ exec_events pb b (w_run w (5 + w_clock w))) ∧
    (∃ pre, c_trace c3 = pre ++ exec_events pc c (w_run w (7 + w_clock w))).
Proof.
  intros Hpa Hpb Hpc Ha Hla Hb Hlb Hc Hlc Hben Hstd Hfit1 Hfit2 id.
  (* first stage *)
  destruct (reaches_stage garbage w [] (scan_init garbage) w a pa)
    as (st1 & H1 & Hi1 & Hrc1 & Hif1 & Hobp1 & Hm1 & Hp1 & _ & Hcmd0 & Hcmda);
    [constructor|done|done|done|done|].
  simpl in H1, Hm1.
  pose proof (reaches_scan_ok _ _ _ _ _ H1) as (Hlc1 & _ & _).
  set (cmd := <[cmd_index st1 := None]> (command st1)) in *.
  destruct (input_pipe_wired cmd pa a w Hben Hstd Hcmd0 Hcmda)
    as (r1 & w1 & c1 & wa & Hrun1 & Hf1 & Hn1 & Ht1 & Hch1 & He1 & Hr1 & Hk1
        & Hfr & Hfw & Hnd & Hcf1 & Hct1).
  assert (Hstep1 : scan_token "|" st1 w
                   = Ret (inl (mkScan cmd (redirect_cmd st1) (input_file st1)
                                      (output_before_pipe st1) 0 PIPE (r1, w1))) wa).
  { unfold scan_token. cbn [String.eqb Ascii.eqb Bool.eqb orb andb].
    rewrite Hm1. rewrite !decide_False by (try intros [?|?]; done).
    unfold bind at 1, store. rewrite decide_True by bounds.
    unfold ret at 1. fold cmd. unfold bind. by rewrite Hrun1. }
  assert (Hlt1 : cmd_index st1 < MAX_ARGS + 1) by bounds.
  pose proof (reaches_step _ _ _ _ _ _ _ _ H1 Hlt1 Hstep1) as H2.
  set (st2 := mkScan cmd _ _ _ _ _ _) in *.
  (* second stage *)
  destruct (reaches_stage garbage w (a ++ ["|"]) st2 wa b pb)
    as (st3 & H3 & Hi3 & Hrc3 & Hif3 & Hobp3 & Hm3 & Hp3 & Hb00 & Hb0 & Hba);
    [done|done|done|done|done|].
  simpl in Hm3, Hp3.
  pose proof (reaches_scan_ok _ _ _ _ _ H3) as (Hlc3 & _ & _).
  set (cmdb := <[cmd_index st3 := None]> (command st3)) in *.
  assert (Hbena : benign wa) by (intros t; rewrite He1; apply Hben).
  destruct (inter_pipe_wired cmdb pb b (w_fds w) id r1 w1 wa)
    as (r2 & w2 & c2 & wb & Hrun2 & Hf2 & Hn2 & Ht2 & Hch2 & He2 & Hr2 & Hk2
        & Hfr2 & Hfw2 & Hnd2 & Hcf2 & Hct2); try done.
  assert (Hstep2 : scan_token "|" st3 wa
                   = Ret (inl (mkScan cmdb (redirect_cmd st3) (input_file st3)
                                      (output_before_pipe st3) 0 PIPE (r2, w2))) wb).
  { unfold scan_token. cbn [String.eqb Ascii.eqb Bool.eqb orb andb].
    rewrite Hm3, Hp3. rewrite decide_False by (intros [?|?]; done).
    rewrite decide_True by done.
    unfold bind at 1, load. rewrite Hb00. unfold ret at 1.
    unfold bind at 1, store. rewrite decide_True by bounds.
    unfold ret at 1. fold cmdb. unfold bind. by rewrite Hrun2. }
  assert (Hlt3 : cmd_index st3 < MAX_ARGS + 1) by bounds.
  pose proof (reaches_step _ _ _ _ _ _ _ _ H3 Hlt3 Hstep2) as H4.
  set (st4 := mkScan cmdb _ _ _ _ _ _) in *.
  (* third stage *)
  destruct (reaches_stage garbage w (((a ++ ["|"]) ++ b) ++ ["|"]) st4 wb c pc)
    as (st5 & H5 & Hi5 & Hrc5 & Hif5 & Hobp5 & Hm5 & Hp5 & _ & Hc0 & Hca);
    [done|done|done|done|done|].
  simpl in Hm5, Hp5.
  replace ((((a ++ ["|"]) ++ b) ++ ["|"]) ++ c) with (a ++ "|" :: b ++ "|" :: c) in H5
    by (by rewrite <- !app_assoc).
  rewrite (parse_tokens_end _ _ _ _ _ H5);
    [|rewrite !length_app; simpl; rewrite length_app; simpl; bounds|rewrite Hi5; bounds].
  unfold finish. cbn [redirect_mode command pipe_fds]. rewrite Hm5, Hp5.
  rewrite decide_False by done.
  fold (cmd_index st5).
  set (cmdc := <[cmd_index st5 := None]> (command st5)) in *.
  unfold bind at 1, load. rewrite Hc0. unfold ret at 1.
  rewrite !decide_False by (try intros [?|?]; done).
  rewrite decide_True by done.
  assert (Hbenb : benign wb) by (intros t; rewrite He2; apply Hbena).
  rewrite Hn1 in Hf2.
  destruct (output_pipe_wired cmdc pc c (w_fds w) (S id) r2 w2 wb)
    as (c3 & wc & Hrun3 & Hf3 & Hn3 & Ht3 & Hch3 & Hcf3 & Hct3); try done.
  unfold bind. rewrite Hrun3. unfold ret.
  exists r1, w1, r2, w2, c1, c2, c3, wc. split; [done|].
  rewrite Hf3, Hch3, Hch2, Hch1, Ht3, Ht2, Ht1, Hn1, <- !app_assoc.
  repeat split; try done.
  - by rewrite Hcf2, Hn1.
  - by eexists.
  - rewrite Hct2, Hr1, Hk1. by eexists.
  - rewrite Hct3, Hr2, Hk2, Hr1, Hk1. by eexists.
Qed.

(** ** Pipeline stages with a redirection *)

(** The first stage with input redirection. *)
Lemma input_pipe_redirect_wired (cmd : array) prog args file content w :
  benign w → std_open (w_fds w) →
  w_files w !! file = Some content →
  cmd !! 0 = Some (Some prog) → argv_of cmd = Some args →
  ∃ r wr fd c w',
    input_pipe_redirect cmd (Some file) w = Ret (r, wr) w' ∧
    w_fds w' = with_pipe (w_fds w) (w_npipes w) r wr ∧
    w_children w' = w_children w ++ [c] ∧
    w_trace w' = w_trace w ++ [EPipe (w_npipes w) r wr; EFork (c_pid c); EWait] ∧
    w_fds w !! fd = None ∧ fd ≠ STDIN_FILENO ∧ fd ≠ STDOUT_FILENO ∧
    c_fds c = <[STDOUT_FILENO := DPipe (w_npipes w) Wr]>
                (<[STDIN_FILENO := DFile file O_RDONLY]>
                   (<[fd := DFile file O_RDONLY]> (w_fds w))) ∧
    c_trace c = [EOpen file O_RDONLY fd; EDup2 fd STDIN_FILENO;
                 EDup2 wr STDOUT_FILENO;
                 EClose r (DPipe (w_npipes w) Rd); EClose wr (DPipe (w_npipes w) Wr)]
                ++ exec_events prog args (w_run w (3 + w_clock w)).
Proof.
  intros Hb Hstd Hfile H0 Ha. unfold input_pipe_redirect.
  destruct (fresh_pair (w_fds w) (DPipe (w_npipes w) Rd) Hstd) as (Hr & Hw & Hnd).
  unfold bind at 1, sys_pipe. rewrite Hb.
  set (id := w_npipes w).
  set (r := lowest_free (w_fds w)) in *.
  set (wr := lowest_free (<[r := DPipe id Rd]> (w_fds w))) in *.
  set (w1 := log _ _).
  destruct (no_dup_four r wr Hnd) as (Hne & Hr0 & Hr1 & Hw0 & Hw1).
  set (cw := child_world w1).
  assert (Hcw : w_fds cw = with_pipe (w_fds w) id r wr) by done.
  set (fd := lowest_free (w_fds cw)).
  assert (Hfd : w_fds cw !! fd = None) by apply lowest_free_fresh.
  assert (Hfd' : fd ≠ wr ∧ fd ≠ r ∧ w_fds w !! fd = None).
  { rewrite Hcw, lookup_with_pipe in Hfd. repeat case_decide; done. }
  destruct Hfd' as (Hfw & Hfr & Hft).
  assert (Hstd' : std_open (w_fds cw)) by (rewrite Hcw; by apply std_open_with_pipe).
  assert (Hf0 : fd ≠ STDIN_FILENO) by (apply lowest_free_not_open, Hstd').
  assert (Hf1 : fd ≠ STDOUT_FILENO) by (apply lowest_free_not_open, Hstd').
  assert (Hchild : ∃ s wc,
    input_pipe_redirect_child (r, wr) cmd (Some file) cw = Exit s wc ∧
    w_fds wc = delete wr (delete r
                 (<[STDOUT_FILENO := DPipe id Wr]>
                    (<[STDIN_FILENO := DFile file O_RDONLY]>
                       (<[fd := DFile file O_RDONLY]> (w_fds cw))))) ∧
    w_trace wc = [EOpen file O_RDONLY fd; EDup2 fd STDIN_FILENO;
                  EDup2 wr STDOUT_FILENO;
                  EClose r (DPipe id Rd); EClose wr (DPipe id Wr)]
                 ++ exec_events prog args (w_run w (3 + w_clock w)) ∧
    w_clock wc = 4 + w_clock w).
  { unfold input_pipe_redirect_child.
    erewrite bind_Ret by (apply (sys_open_input file content cw); [apply Hb|done]).
    fold fd. cbn beta iota. simpl snd.
    erewrite bind_Ret
      by (apply (sys_dup2_run fd STDIN_FILENO (DFile file O_RDONLY));
          [simpl; apply lookup_insert_eq|done]).
    erewrite bind_Ret by done.
    erewrite bind_Ret
      by (apply (sys_dup2_run wr STDOUT_FILENO (DPipe id Wr));
          [simpl; rewrite !lookup_insert_ne by done; apply lookup_insert_eq|done]).
    erewrite bind_Ret by done.
    set (w2 := log _ _).
    edestruct (close_pipes_run r wr (DPipe id Rd) (DPipe id Wr) w2)
      as (w3 & Hcl & (Hf3 & _ & Ht3 & _) & Hc3 & _ & Hr3); [| |done|].
    { simpl. rewrite !lookup_insert_ne by done. apply lookup_insert_eq. }
    { simpl. rewrite !lookup_insert_ne by done. apply lookup_insert_eq. }
    erewrite bind_Ret by exact Hcl.
    destruct (exec_tail_exits cmd prog args w3 H0 Ha)
      as (s & wc & Hex & Hfc & Htc & Hcc & _ & _).
    exists s, wc. split; [exact Hex|].
    rewrite Hfc, Htc, Hcc, Hf3, Ht3, Hc3, Hr3. simpl. done. }
  destruct Hchild as (s & wc & Hchild & Hfc & Htc & Hcc).
  unfold input_pipe_redirect_child in Hchild.
  unfold bind at 1, bind at 1.
  rewrite (sys_fork_exit _ w1 s wc) by (apply Hb || exact Hchild).
  exists r, wr, fd. eexists. eexists. split; [reflexivity|]. cbn.
  rewrite <- !app_assoc. repeat split; try done.
  cbn [c_fds]. rewrite Hfc, Hcw. apply map_eq. intros i.
  destruct (decide (i = wr)) as [->|?].
  { rewrite lookup_delete_eq, !lookup_insert_ne by done. symmetry. exact Hw. }
  rewrite lookup_delete_ne by done.
  destruct (decide (i = r)) as [->|?].
  { rewrite lookup_delete_eq, !lookup_insert_ne by done. symmetry. exact Hr. }
  rewrite lookup_delete_ne by done.
  destruct (decide (i = STDOUT_FILENO)) as [->|?]; [by rewrite !lookup_insert_eq|].
  rewrite !(lookup_insert_ne _ STDOUT_FILENO) by done.
  destruct (decide (i = STDIN_FILENO)) as [->|?]; [by rewrite !lookup_insert_eq|].
  rewrite !(lookup_insert_ne _ STDIN_FILENO) by done.
  destruct (decide (i = fd)) as [->|?]; [by rewrite !lookup_insert_eq|].
  rewrite !(lookup_insert_ne _ fd) by done.
  rewrite lookup_with_pipe. by rewrite !decide_False by done.
Qed.

(** The last stage with output redirection. *)
Lemma output_pipe_redirect_wired m (cmd : array) prog args file t id r wr w :
  benign w → std_open t →
  w_fds w = with_pipe t id r wr →
  t !! r = None → t !! wr = None →
  NoDup [r; wr; STDIN_FILENO; STDOUT_FILENO] →
  cmd !! 0 = Some (Some prog) → argv_of cmd = Some args →
  ∃ fd c w',
    output_pipe_redirect (r, wr) m cmd (Some file) w = Ret tt w' ∧
    w_fds w' = t ∧
    w_children w' = w_children w ++ [c] ∧
    w_trace w' = w_trace w ++ [EFork (c_pid c); EClose r (DPipe id Rd);
                               EClose wr (DPipe id Wr); EWait] ∧
    w_fds w !! fd = None ∧ t !! fd = None ∧
    fd ≠ STDIN_FILENO ∧ fd ≠ STDOUT_FILENO ∧
    c_fds c = <[STDOUT_FILENO := DFile file (output_flags m)]>
                (<[STDIN_FILENO := DPipe id Rd]>
                   (<[fd := DFile file (output_flags m)]> t)) ∧
    c_trace c = [EOpen file (output_flags m) fd; EDup2 r STDIN_FILENO;
                 EDup2 fd STDOUT_FILENO;
                 EClose r (DPipe id Rd); EClose wr (DPipe id Wr)]
                ++ exec_events prog args (w_run w (2 + w_clock w)) ∧
    w_files w' = after_output m file (default [] (w_run w (2 + w_clock w))) (w_files w).
Proof.
  intros Hb Hstd Hfds Hr Hw Hnd H0 Ha. unfold output_pipe_redirect.
  destruct (no_dup_four r wr Hnd) as (Hne & Hr0 & Hr1 & Hw0 & Hw1).
  set (cw := child_world w).
  assert (Hcw : w_fds cw = with_pipe t id r wr) by done.
  set (fd := lowest_free (w_fds cw)).
  assert (Hfd : w_fds cw !! fd = None) by apply lowest_free_fresh.
  assert (Hfd' : fd ≠ wr ∧ fd ≠ r ∧ t !! fd = None).
  { rewrite Hcw, lookup_with_pipe in Hfd. repeat case_decide; done. }
  destruct Hfd' as (Hfw & Hfr & Hft).
  assert (Hstd' : std_open (w_fds cw)) by (rewrite Hcw; by apply std_open_with_pipe).
  assert (Hf0 : fd ≠ STDIN_FILENO) by (apply lowest_free_not_open, Hstd').
  assert (Hf1 : fd ≠ STDOUT_FILENO) by (apply lowest_free_not_open, Hstd').
  set (flags := output_flags m).
  assert (Hchild : ∃ s wc,
    output_pipe_redirect_child (r, wr) m cmd (Some file) cw = Exit s wc ∧
    w_fds wc = delete wr (delete r
                 (<[STDOUT_FILENO := DFile file flags]>
                    (<[STDIN_FILENO := DPipe id Rd]>
                       (<[fd := DFile file flags]> (w_fds cw))))) ∧
    w_trace wc = [EOpen file flags fd; EDup2 r STDIN_FILENO;
                  EDup2 fd STDOUT_FILENO;
                  EClose r (DPipe id Rd); EClose wr (DPipe id Wr)]
                 ++ exec_events prog args (w_run w (2 + w_clock w)) ∧
    w_files wc = after_output m file (default [] (w_run w (2 + w_clock w))) (w_files w)).
  { unfold output_pipe_redirect_child. rewrite output_flags_of_eq. fold flags.
    cbn zeta.
    erewrite bind_Ret by (apply (sys_open_output m file cw); apply Hb).
    fold fd. cbn beta iota. simpl fst.
    erewrite bind_Ret
      by (apply (sys_dup2_run r STDIN_FILENO (DPipe id Rd));
          [simpl; rewrite !lookup_insert_ne by done; rewrite Hfds, lookup_with_pipe,
             decide_False, decide_True by done; done|done]).
    erewrite bind_Ret by done.
    erewrite bind_Ret
      by (apply (sys_dup2_run fd STDOUT_FILENO (DFile file flags));
          [simpl; rewrite !lookup_insert_ne by done; apply lookup_insert_eq|done]).
    erewrite bind_Ret by done.
    set (w2 := log _ _).
    edestruct (close_pipes_run r wr (DPipe id Rd) (DPipe id Wr) w2)
      as (w3 & Hcl & (Hf3 & _ & Ht3 & _) & Hc3 & Hfi3 & Hr3); [| |done|].
    { simpl. rewrite !lookup_insert_ne by done.
      rewrite Hfds, lookup_with_pipe, decide_False, decide_True by done. done. }
    { simpl. rewrite !lookup_insert_ne by done.
      rewrite Hfds, lookup_with_pipe, decide_True by done. done. }
    erewrite bind_Ret by exact Hcl.
    destruct (exec_tail_exits cmd prog args w3 H0 Ha)
      as (s & wc & Hex & Hfc & Htc & Hcc & _ & _ & Hfic).
    exists s, wc. split; [by apply (exec_then_exits cmd prog args)|].
    rewrite Hfc, Htc, Hfic, Hf3, Ht3, Hc3, Hr3, Hfi3.
    split; [done|]. split; [done|]. simpl.
    rewrite !lookup_delete_ne by done. rewrite lookup_insert_eq.
    change (S (S (w_clock w))) with (2 + w_clock w).
    destruct (w_run w (2 + w_clock w)); simpl.
    - apply write_out_opened.
    - apply after_output_nil. }
  destruct Hchild as (s & wc & Hchild & Hfc & Htc & Hfic).
  unfold output_pipe_redirect_child in Hchild.
  unfold bind at 1.
  rewrite (sys_fork_exit _ w s wc) by (apply Hb || exact Hchild).
  set (w1 := reap w (Some s) wc).
  edestruct (close_pipes_run r wr (DPipe id Rd) (DPipe id Wr) w1)
    as (w2 & Hcl & (Hf2 & Hn2 & Ht2 & Hc2 & _) & _ & Hfi2 & _).
  { simpl. rewrite Hfds, lookup_with_pipe, decide_False, decide_True by done. done. }
  { simpl. rewrite Hfds, lookup_with_pipe, decide_True by done. done. }
  { done. }
  erewrite bind_Ret by exact Hcl.
  exists fd.
  exists (mkChild (length (w_children w)) (w_fds w) (w_trace wc) (w_fds wc) (Some s)).
  eexists. split; [reflexivity|]. cbn.
  rewrite Hf2, Ht2, Hc2, Hfi2. cbn.
  rewrite <- !app_assoc, app_nil_r. repeat split; try done.
  - rewrite Hfds. by apply delete_with_pipe.
  - rewrite Hfc, Hcw. apply map_eq. intros i.
    destruct (decide (i = wr)) as [->|?].
    { rewrite lookup_delete_eq, !lookup_insert_ne by done. symmetry. exact Hw. }
    rewrite lookup_delete_ne by done.
    destruct (decide (i = r)) as [->|?].
    { rewrite lookup_delete_eq, !lookup_insert_ne by done. symmetry. exact Hr. }
    rewrite lookup_delete_ne by done.
    destruct (decide (i = STDOUT_FILENO)) as [->|?]; [by rewrite !lookup_insert_eq|].
    rewrite !(lookup_insert_ne _ STDOUT_FILENO) by done.
    destruct (decide (i = STDIN_FILENO)) as [->|?]; [by rewrite !lookup_insert_eq|].
    rewrite !(lookup_insert_ne _ STDIN_FILENO) by done.
    destruct (decide (i = fd)) as [->|?]; [by rewrite !lookup_insert_eq|].
    rewrite !(lookup_insert_ne _ fd) by done.
    rewrite lookup_with_pipe. by rewrite !decide_False by done.
Qed.

Lemma reached_exec_events pre prog args run :
  reached_exec (pre ++ exec_events prog args run) = true.
Proof.
  unfold reached_exec. rewrite existsb_app. apply orb_true_iff. right.
  by destruct run.
Qed.

(** X22: the two pipeline launchers that open a file hand the descriptor
    that open returned over to the program.  The child of
    input_pipe_redirect never closes the descriptor of the input file, and
    the child of output_pipe_redirect closes the one of the output file only
    after execvp, which does not return: in both, the program runs with the
    file open twice (as standard input or output, and under the descriptor
    open gave), while the pipe descriptors are closed as in the other
    stages.  (For input_pipe_redirect, whose child writes to the pipe while
    the shell waits, when the output of the program fits in the pipe.) *)
Theorem redirected_stages_keep_descriptor :
  (∀ (cmd : array) prog args file content w,
     benign w → std_open (w_fds w) →
     w_files w !! file = Some content →
     cmd !! 0 = Some (Some prog) → argv_of cmd = Some args →
     fits_pipe (w_run w (3 + w_clock w)) →
     ∃ r wr fd c w',
       input_pipe_redirect cmd (Some file) w = Ret (r, wr) w' ∧
       w_children w' = w_children w ++ [c] ∧
       w_fds w !! fd = None ∧ fd ≠ STDIN_FILENO ∧ fd ≠ STDOUT_FILENO ∧
       c_fds c !! fd = Some (DFile file O_RDONLY) ∧
       c_fds c !! STDIN_FILENO = Some (DFile file O_RDONLY) ∧
       c_fds c !! STDOUT_FILENO = Some (DPipe (w_npipes w) Wr) ∧
       reached_exec (c_trace c) = true) ∧
  (∀ m (cmd : array) prog args file t id r wr w,
     benign w → std_open t →
     w_fds w = with_pipe t id r wr →
     t !! r = None → t !! wr = None →
     NoDup [r; wr; STDIN_FILENO; STDOUT_FILENO] →
     cmd !! 0 = Some (Some prog) → argv_of cmd = Some args →
     ∃ fd c w',
       output_pipe_redirect (r, wr) m cmd (Some file) w = Ret tt w' ∧
       w_fds w' = t ∧
       w_children w' = w_children w ++ [c] ∧
       w_fds w !! fd = None ∧ fd ≠ STDIN_FILENO ∧ fd ≠ STDOUT_FILENO ∧
       c_fds c !! fd = Some (DFile file (output_flags m)) ∧
       c_fds c !! STDIN_FILENO = Some (DPipe id Rd) ∧
       c_fds c !! STDOUT_FILENO = Some (DFile file (output_flags m)) ∧
       reached_exec (c_trace c) = true ∧
       w_files w' = after_output m file (default [] (w_run w (2 + w_clock w)))
                      (w_files w)).
Proof.
  split.
  - intros cmd prog args file content w Hb Hstd Hfile H0 Ha Hfit.
    destruct (input_pipe_redirect_wired cmd prog args file content w)
      as (r & wr & fd & c & w' & Hrun & _ & Hch & _ & Hfd & Hf0 & Hf1 & Hcf & Hct);
      try done.
    exists r, wr, fd, c, w'. rewrite Hcf, Hct.
    repeat split; try done.
    + rewrite !lookup_insert_ne by done. apply lookup_insert_eq.
    + rewrite lookup_insert_ne by done. apply lookup_insert_eq.
    + apply lookup_insert_eq.
    + apply reached_exec_events.
  - intros m cmd prog args file t id r wr w Hb Hstd Hfds Hr Hw Hnd H0 Ha.
    destruct (output_pipe_redirect_wired m cmd prog args file t id r wr w)
      as (fd & c & w' & Hrun & Hf & Hch & _ & Hfd & _ & Hf0 & Hf1 & Hcf & Hct & Hfi);
      try done.
    exists fd, c, w'. rewrite Hcf, Hct.
    repeat split; try done.
    + rewrite !lookup_insert_ne by done. apply lookup_insert_eq.
    + rewrite lookup_insert_ne by done. apply lookup_insert_eq.
    + apply lookup_insert_eq.
    + apply reached_exec_events.
Qed.

Lemma two_stage_pipeline_witness :
  ∃ r wr c1 c2 w',
    parse_tokens (0, 0) (["ls"; "-l"] ++ "|" :: ["wc"]) world0 = Ret EXEC_SUCCESS w' ∧
    w_fds w' = w_fds world0 ∧
    w_children w' = w_children world0 ++ [c1; c2] ∧
    w_trace w' = w_trace world0 ++
      [EPipe (w_npipes world0) r wr; EFork (c_pid c1); EWait;
       EFork (c_pid c2); EClose r (DPipe (w_npipes world0) Rd);
       EClose wr (DPipe (w_npipes world0) Wr); EWait] ∧
    c_fds c1 = <[STDOUT_FILENO := DPipe (w_npipes world0) Wr]> (w_fds world0) ∧
    c_fds c2 = <[STDIN_FILENO := DPipe (w_npipes world0) Rd]> (w_fds world0) ∧
    c_trace c1 = [EDup2 wr STDOUT_FILENO; EClose r (DPipe (w_npipes world0) Rd);
                  EClose wr (DPipe (w_npipes world0) Wr)]
                 ++ exec_events "ls" ["ls"; "-l"] (w_run world0 (2 + w_clock world0)) ∧
    c_trace c2 = [EDup2 r STDIN_FILENO; EClose r (DPipe (w_npipes world0) Rd);
                  EClose wr (DPipe (w_npipes world0) Wr)]
                 ++ exec_events "wc" ["wc"] (w_run world0 (4 + w_clock world0)).
Proof.
  apply (two_stage_pipeline (0, 0) ["ls"; "-l"] ["wc"] "ls" "wc" world0).
  - reflexivity.
  - reflexivity.
  - repeat constructor.
  - vm_compute. lia.
  - repeat constructor.
  - vm_compute. lia.
  - intros t. reflexivity.
  - split; exists DTerm; vm_compute; reflexivity.
  - vm_compute. lia.
Defined.

Lemma three_stage_pipeline_witness :
  ∃ r1 w1 r2 w2 c1 c2 c3 w',
    parse_tokens (0, 0) (["a"] ++ "|" :: ["b"] ++ "|" :: ["c"]) world0
    = Ret EXEC_SUCCESS w' ∧
    w_fds w' = w_fds world0 ∧
    w_children w' = w_children world0 ++ [c1; c2; c3] ∧
    w_trace w' = w_trace world0 ++
      [EPipe (w_npipes world0) r1 w1; EFork (c_pid c1); EWait;
       EPipe (S (w_npipes world0)) r2 w2; EFork (c_pid c2);
       EClose r1 (DPipe (w_npipes world0) Rd);
       EClose w1 (DPipe (w_npipes world0) Wr); EWait;
       EFork (c_pid c3);
       EClose r2 (DPipe (S (w_npipes world0)) Rd);
       EClose w2 (DPipe (S (w_npipes world0)) Wr); EWait] ∧
    c_fds c1 = <[STDOUT_FILENO := DPipe (w_npipes world0) Wr]> (w_fds world0) ∧
    c_fds c2 = <[STDOUT_FILENO := DPipe (S (w_npipes world0)) Wr]>
                 (<[STDIN_FILENO := DPipe (w_npipes world0) Rd]> (w_fds world0)) ∧
    c_fds c3 = <[STDIN_FILENO := DPipe (S (w_npipes world0)) Rd]> (w_fds world0) ∧
    (∃ pre, c_trace c1 = pre ++ exec_events "a" ["a"] (w_run world0 (2 + w_clock world0))) ∧
    (∃ pre, c_trace c2 = pre ++ exec_events "b" ["b"] (w_run world0 (5 + w_clock world0))) ∧
    (∃ pre, c_trace c3 = pre ++ exec_events "c" ["c"] (w_run world0 (7 + w_clock world0))).
Proof.
  apply (three_stage_pipeline (0, 0) ["a"] ["b"] ["c"] "a" "b" "c" world0).
  - reflexivity.
  - reflexivity.
  - reflexivity.
  - repeat constructor.
  - vm_compute. lia.
  - repeat constructor.
  - vm_compute. lia.
  - repeat constructor.
  - vm_compute. lia.
  - intros t. reflexivity.
  - split; exists DTerm; vm_compute; reflexivity.
  - vm_compute. lia.
  - vm_compute. lia.
Defined.

Lemma redirected_stages_keep_descriptor_witness :
  ∃ r wr fd c w',
    input_pipe_redirect ([Some "sort"; None]) (Some "in") (file_world "in" [])
    = Ret (r, wr) w' ∧
    w_children w' = w_children (file_world "in" []) ++ [c] ∧
    w_fds (file_world "in" []) !! fd = None ∧
    fd ≠ STDIN_FILENO ∧ fd ≠ STDOUT_FILENO ∧
    c_fds c !! fd = Some (DFile "in" O_RDONLY) ∧
    c_fds c !! STDIN_FILENO = Some (DFile "in" O_RDONLY) ∧
    c_fds c !! STDOUT_FILENO = Some (DPipe (w_npipes (file_world "in" [])) Wr) ∧
    reached_exec (c_trace c) = true.
Proof.
  destruct redirected_stages_keep_descriptor as [H _].
  apply (H [Some "sort"; None] "sort" ["sort"] "in" [] (file_world "in" [])).
  - intros t. reflexivity.
  - split; exists DTerm; vm_compute; reflexivity.
  - vm_compute. reflexivity.
  - reflexivity.
  - reflexivity.
  - vm_compute. lia.
Defined.

Lemma traced_ret {A} (a : A) (Q : A → list Event → Prop) :
  Q a [] → traced (ret a) Q.
Proof. intros H w. exists []. by rewrite app_nil_r. Qed.

Lemma traced_bind {A B} (m : M A) (k : A → M B)
    (R : A → list Event → Prop) (Q : B → list Event → Prop) :
  traced m R →
  (∀ a tr1, R a tr1 → traced (k a) (λ b tr2, Q b (tr1 ++ tr2))) →
  traced (bind m k) Q.
Proof.
  intros Hm Hk w. unfold bind. specialize (Hm w).
  destruct (m w) as [a w1|s w1| |w1]; [|done|done|done].
  destruct Hm as (tr1 & Ht1 & Ha). specialize (Hk a tr1 Ha w1).
  destruct (k a w1) as [b w2|s w2| |w2]; [|done|done|done].
  destruct Hk as (tr2 & Ht2 & Hb). exists (tr1 ++ tr2).
  by rewrite Ht2, Ht1, app_assoc.
Qed.

Lemma traced_weaken {A} (m : M A) (Q Q' : A → list Event → Prop) :
  traced m Q → (∀ a tr, Q a tr → Q' a tr) → traced m Q'.
Proof.
  intros Hm HQ w. specialize (Hm w). destruct (m w); [|done|done|done].
  destruct Hm as (tr & ? & ?). exists tr. auto.
Qed.

Lemma traced_exits {A} (m : M A) (Q : A → list Event → Prop) :
  (∀ w a w', m w ≠ Ret a w') → traced m Q.
Proof.
  intros H w. specialize (H w). destruct (m w); [|done|done|done].
  by destruct (H a w0).
Qed.

Lemma count_app f tr1 tr2 : count f (tr1 ++ tr2) = count f tr1 + count f tr2.
Proof. unfold count. by rewrite List.filter_app, length_app. Qed.

Lemma settled_nil : settled [].
Proof. split; [constructor|done]. Qed.

Lemma settled_app tr1 tr2 : settled tr1 → settled tr2 → settled (tr1 ++ tr2).
Proof.
  intros [H1 C1] [H2 C2]. split; [by apply Forall_app|].
  rewrite !count_app. lia.
Qed.

Lemma idle_app tr1 tr2 : idle tr1 → idle tr2 → idle (tr1 ++ tr2).
Proof. intros H1 H2. by apply Forall_app. Qed.

Lemma idle_count tr : idle tr → count is_fork tr = 0 ∧ count is_wait tr = 0.
Proof.
  induction 1 as [|e tr (Hp & Hf & Hw) _ [IH1 IH2]]; [done|].
  unfold count in *. simpl. by rewrite Hf, Hw.
Qed.

Lemma idle_settled tr : idle tr → settled tr.
Proof.
  intros H. split.
  - eapply Forall_impl; [exact H|]. by intros e (? & _).
  - destruct (idle_count tr H) as [-> ->]. done.
Qed.

Lemma settled_fork_wait p mid : idle mid → settled ([EFork p] ++ mid ++ [EWait]).
Proof.
  intros H. split.
  - apply Forall_app. split; [by repeat constructor|].
    apply Forall_app. split; [|by repeat constructor].
    eapply Forall_impl; [exact H|]. by intros e (? & _).
  - rewrite !count_app. destruct (idle_count mid H) as [-> ->]. done.
Qed.

(** [steady m]: the events of [m] are settled; [calm_trace m]: they are idle. *)
Lemma steady_bind {A B} (m : M A) (k : A → M B) :
  traced m (λ _, settled) → (∀ a, traced (k a) (λ _, settled)) →
  traced (bind m k) (λ _, settled).
Proof.
  intros Hm Hk. eapply traced_bind; [exact Hm|]. intros a tr1 H1.
  eapply traced_weaken; [apply Hk|]. intros b tr2 H2. by apply settled_app.
Qed.

Lemma idle_bind {A B} (m : M A) (k : A → M B) :
  traced m (λ _, idle) → (∀ a, traced (k a) (λ _, idle)) →
  traced (bind m k) (λ _, idle).
Proof.
  intros Hm Hk. eapply traced_bind; [exact Hm|]. intros a tr1 H1.
  eapply traced_weaken; [apply Hk|]. intros b tr2 H2. by apply idle_app.
Qed.

Lemma idle_steady {A} (m : M A) : traced m (λ _, idle) → traced m (λ _, settled).
Proof. intros H. eapply traced_weaken; [exact H|]. intros a tr. apply idle_settled. Qed.

Lemma idle_ret {A} (a : A) : traced (ret a) (λ _, idle).
Proof. apply traced_ret. constructor. Qed.
Lemma idle_perror s : traced (perror s) (λ _, idle).
Proof. intros w. exists [EPerror s]. split; [done|]. by repeat constructor. Qed.
Lemma idle_perror_exit {A} s : traced (@perror_exit A s) (λ _, idle).
Proof. by apply traced_exits. Qed.
Lemma idle_sys_pipe : traced sys_pipe (λ _, idle).
Proof.
  intros w. unfold sys_pipe. destruct (w_env w (w_clock w)).
  - eexists [_]. split; [done|]. by repeat constructor.
  - exists []. split; [by rewrite app_nil_r|constructor].
Qed.
Lemma idle_sys_close fd : traced (sys_close fd) (λ _, idle).
Proof.
  intros w. unfold sys_close. destruct (w_fds w !! fd).
  - eexists [_]. split; [done|]. by repeat constructor.
  - exists []. split; [by rewrite app_nil_r|constructor].
Qed.
Lemma idle_sys_open p f : traced (sys_open p f) (λ _, idle).
Proof.
  intros w. unfold sys_open.
  assert (Hnil : ∀ w1 : World, w_trace w1 = w_trace w →
                 ∃ tr, w_trace w1 = w_trace w ++ tr ∧ idle tr).
  { intros w1 H. exists []. split; [by rewrite app_nil_r|constructor]. }
  destruct p; [|by apply Hnil].
  destruct (w_env w (w_clock w)); [|by apply Hnil].
  destruct (open_file _ _ _); [|by apply Hnil].
  eexists [_]. split; [done|]. by repeat constructor.
Qed.
Lemma traced_store (a : array) i v :
  traced (store a i v) (λ a' tr, tr = [] ∧ a' = <[i := v]> a).
Proof.
  intros w. unfold store. case_decide; [|done]. exists []. by rewrite app_nil_r.
Qed.
Lemma traced_load (a : array) i :
  traced (load a i) (λ v tr, tr = [] ∧ a !! i = Some v).
Proof.
  intros w. unfold load. destruct (a !! i); [|done]. exists []. by rewrite app_nil_r.
Qed.
Lemma idle_store (a : array) i v : traced (store a i v) (λ _, idle).
Proof. eapply traced_weaken; [apply traced_store|]. intros ? ? [-> _]. constructor. Qed.
Lemma idle_load (a : array) i : traced (load a i) (λ _, idle).
Proof. eapply traced_weaken; [apply traced_load|]. intros ? ? [-> _]. constructor. Qed.

Lemma idle_close_pipes fds : traced (close_pipes fds) (λ _, idle).
Proof.
  unfold close_pipes.
  apply idle_bind; [apply idle_sys_close|]. intros ok1.
  apply idle_bind; [destruct ok1; [apply idle_ret|apply idle_perror_exit]|]. intros _.
  apply idle_bind; [apply idle_sys_close|]. intros ok2.
  destruct ok2; [apply idle_ret|apply idle_perror_exit].
Qed.

Lemma traced_sys_fork child :
  traced (sys_fork child)
         (λ pid tr, match pid with Some p => tr = [EFork p] | None => tr = [] end).
Proof.
  intros w. unfold sys_fork. destruct (w_env w (w_clock w)).
  - destruct (child (child_world w)); by eexists.
  - exists []. by rewrite app_nil_r.
Qed.

Lemma settled_awaited p tr : awaited tr → settled ([EFork p] ++ tr).
Proof.
  intros (mid & rest & -> & Hm & Hr).
  replace ([EFork p] ++ mid ++ EWait :: rest)
    with (([EFork p] ++ mid ++ [EWait]) ++ rest) by (by rewrite <- !app_assoc).
  apply settled_app; [by apply settled_fork_wait|by apply idle_settled].
Qed.

Lemma awaited_sys_wait : traced sys_wait (λ _, awaited).
Proof. intros w. exists [EWait]. split; [done|]. exists [], []. by repeat constructor. Qed.

Lemma awaited_after {A B} (m : M A) (k : A → M B) :
  traced m (λ _, idle) → (∀ a, traced (k a) (λ _, awaited)) →
  traced (bind m k) (λ _, awaited).
Proof.
  intros Hm Hk. eapply traced_bind; [exact Hm|]. intros a tr1 H1.
  eapply traced_weaken; [apply Hk|]. intros b tr2 (mid & rest & -> & ? & ?).
  exists (tr1 ++ mid), rest. rewrite <- app_assoc. split; [done|].
  split; [by apply idle_app|done].
Qed.

Lemma awaited_before {A B} (m : M A) (k : A → M B) :
  traced m (λ _, awaited) → (∀ a, traced (k a) (λ _, idle)) →
  traced (bind m k) (λ _, awaited).
Proof.
  intros Hm Hk. eapply traced_bind; [exact Hm|]. intros a tr1 (mid & rest & -> & ? & ?).
  eapply traced_weaken; [apply Hk|]. intros b tr2 H2.
  exists mid, (rest ++ tr2). rewrite <- app_assoc. split; [done|].
  split; [done|by apply idle_app].
Qed.

(** fork, then in the parent idle steps around one wait. *)
Lemma steady_fork {B} child (k : option nat → M B) :
  traced (k None) (λ _, idle) →
  (∀ p, traced (k (Some p)) (λ _, awaited)) →
  traced (bind (sys_fork child) k) (λ _, settled).
Proof.
  intros Hnone Hsome. eapply traced_bind; [apply traced_sys_fork|].
  intros [p|] tr1 ->.
  - eapply traced_weaken; [apply Hsome|]. intros b tr. apply settled_awaited.
  - eapply traced_weaken; [apply Hnone|]. intros b tr. apply idle_settled.
Qed.

Lemma steady_ret {A} (a : A) : traced (ret a) (λ _, settled).
Proof. apply idle_steady, idle_ret. Qed.

Ltac idle_walk :=
  repeat first
    [ apply idle_ret
    | apply idle_perror
    | apply idle_perror_exit
    | apply idle_close_pipes
    | apply idle_sys_close
    | apply idle_bind; [| intros ?]
    | match goal with
      | |- traced (if ?b then _ else _) _ => destruct b
      end ].

Ltac await_walk :=
  repeat first
    [ apply awaited_sys_wait
    | apply awaited_after; [solve [idle_walk] | intros ?]
    | apply awaited_before; [| intros ?; solve [idle_walk]] ].

Lemma steady_exec_command m cmd fd : traced (exec_command m cmd fd) (λ _, settled).
Proof. unfold exec_command. apply steady_fork; [idle_walk|intros p; await_walk]. Qed.

Lemma steady_exec_redir_bothio m cmd i o :
  traced (exec_redir_bothio m cmd i o) (λ _, settled).
Proof. unfold exec_redir_bothio. apply steady_fork; [idle_walk|intros p; await_walk]. Qed.

Lemma steady_output_pipe fds cmd : traced (output_pipe fds cmd) (λ _, settled).
Proof. unfold output_pipe. apply steady_fork; [idle_walk|intros p; await_walk]. Qed.

Lemma steady_output_pipe_redirect fds m cmd f :
  traced (output_pipe_redirect fds m cmd f) (λ _, settled).
Proof. unfold output_pipe_redirect. apply steady_fork; [idle_walk|intros p; await_walk]. Qed.

Lemma steady_input_pipe cmd : traced (input_pipe cmd) (λ _, settled).
Proof.
  unfold input_pipe. apply steady_bind; [apply idle_steady, idle_sys_pipe|].
  intros [fds|]; [|apply idle_steady, idle_perror_exit].
  apply steady_fork; [idle_walk|intros p; await_walk].
Qed.

Lemma steady_inter_pipe fds0 cmd : traced (inter_pipe fds0 cmd) (λ _, settled).
Proof.
  unfold inter_pipe. apply steady_bind; [apply idle_steady, idle_sys_pipe|].
  intros [fds|]; [|apply idle_steady, idle_perror_exit].
  apply steady_fork; [idle_walk|intros p; await_walk].
Qed.

Lemma steady_input_pipe_redirect cmd f :
  traced (input_pipe_redirect cmd f) (λ _, settled).
Proof.
  unfold input_pipe_redirect. apply steady_bind; [apply idle_steady, idle_sys_pipe|].
  intros [fds|]; [|apply idle_steady, idle_perror_exit].
  apply steady_fork; [idle_walk|intros p; await_walk].
Qed.

Lemma steady_redirect_io m cmd f e : traced (redirect_io m cmd f e) (λ _, settled).
Proof.
  unfold redirect_io.
  destruct (bool_decide (m = INPUT) && negb e); [apply steady_ret|].
  apply steady_bind; [apply idle_steady, idle_sys_open|].
  intros [fd|]; [|apply idle_steady, idle_perror].
  apply steady_bind.
  { destruct e; [|apply steady_ret].
    apply steady_bind; [apply steady_exec_command|]. intros ?. apply steady_ret. }
  intros ?. apply idle_steady. idle_walk.
Qed.

Lemma idle_save_command_copy n : ∀ i (dest command : array),
  traced (save_command_copy n i dest command) (λ _, idle).
Proof.
  induction n as [|n IH]; intros i dest command; cbn [save_command_copy].
  - apply idle_ret.
  - apply idle_bind; [apply idle_load|]. intros v.
    apply idle_bind; [apply idle_store|]. intros d. apply IH.
Qed.

Lemma idle_save_command (dest command : array) idx :
  traced (save_command dest command idx) (λ _, idle).
Proof.
  unfold save_command.
  apply idle_bind; [apply idle_store|]. intros c.
  apply idle_bind; [apply idle_save_command_copy|]. intros d.
  apply idle_bind; [apply idle_store|]. intros c'. apply idle_ret.
Qed.

Lemma traced_reject msg :
  msg ∈ diagnostics →
  traced (printf msg ;;; leave_with EXEC_FAILURE) step_traced.
Proof.
  intros Hmsg w. exists [EPrint msg]. split; [done|]. split; [done|].
  exists [], msg. split; [done|]. split; [apply settled_nil|done].
Qed.

(** A step that goes on after settled events. *)
Lemma traced_goes_on {A} (m : M A) (k : A → scan) :
  traced m (λ _, settled) →
  traced (let* a := m in go_on (k a)) step_traced.
Proof.
  intros Hm. eapply traced_bind; [exact Hm|]. intros a tr1 H1.
  apply traced_ret. by rewrite app_nil_r.
Qed.

Ltac diag :=
  unfold diagnostics; repeat first [apply list_elem_of_here | apply list_elem_of_further].

Lemma traced_scan_token token st : traced (scan_token token st) step_traced.
Proof.
  unfold scan_token.
  destruct (String.eqb token "<").
  { destruct (decide (redirect_mode st ≠ REG_CMD)).
    - apply traced_reject. diag.
    - apply (traced_goes_on _ (λ dc, mkScan _ _ _ _ _ _ _)).
      apply idle_steady, idle_save_command. }
  destruct (String.eqb token ">" || String.eqb token ">>").
  { destruct (decide (redirect_mode st = INPUT)).
    - eapply traced_bind; [apply traced_load|]. intros [f|] tr1 [-> _].
      + apply traced_ret. apply settled_nil.
      + apply traced_reject. diag.
    - destruct (decide (redirect_mode st = OUTPUT ∨ redirect_mode st = OUTPUT_APPEND)).
      + eapply traced_bind; [apply traced_load|]. intros [f|] tr1 [-> _].
        * apply (traced_goes_on _ (λ _, mkScan _ _ _ _ _ _ _)).
          apply steady_redirect_io.
        * apply traced_reject. diag.
      + apply (traced_goes_on _ (λ dc, mkScan _ _ _ _ _ _ _)).
        apply idle_steady, idle_save_command. }
  destruct (String.eqb token "|").
  { destruct (decide (redirect_mode st = OUTPUT ∨ redirect_mode st = OUTPUT_APPEND)).
    - apply traced_reject. diag.
    - destruct (decide (redirect_mode st = PIPE)).
      + eapply traced_bind; [apply traced_load|]. intros [f|] tr1 [-> _].
        * eapply traced_bind; [apply traced_store|]. intros cmd tr1 [-> _].
          apply (traced_goes_on _ (λ fds, mkScan _ _ _ _ _ _ _)).
          apply steady_inter_pipe.
        * apply traced_reject. diag.
      + destruct (decide (redirect_mode st = INPUT)).
        * eapply traced_bind; [apply traced_load|]. intros c0 tr1 [-> _].
          apply (traced_goes_on _ (λ fds, mkScan _ _ _ _ _ _ _)).
          apply steady_input_pipe_redirect.
        * eapply traced_bind; [apply traced_store|]. intros cmd tr1 [-> _].
          apply (traced_goes_on _ (λ fds, mkScan _ _ _ _ _ _ _)).
          apply steady_input_pipe. }
  apply (traced_goes_on _ (λ cmd, mkScan _ _ _ _ _ _ _)).
  apply idle_steady, idle_store.
Qed.

Lemma step_traced_after tr1 r tr2 :
  settled tr1 → step_traced r tr2 → step_traced r (tr1 ++ tr2).
Proof.
  intros H1. destruct r as [st|code]; simpl.
  - by apply settled_app.
  - intros [-> (pre & msg & -> & Hpre & Hmsg)]. split; [done|].
    exists (tr1 ++ pre), msg. rewrite <- app_assoc. split; [done|].
    split; [by apply settled_app|done].
Qed.

Lemma traced_scan_loop n : ∀ toks st, traced (scan_loop n toks st) step_traced.
Proof.
  induction n as [|n IH]; intros toks st; cbn [scan_loop].
  - apply traced_ret. apply settled_nil.
  - destruct (decide (MAX_ARGS + 1 ≤ cmd_index st)).
    + apply traced_reject. diag.
    + destruct toks as [|token rest].
      * apply (traced_goes_on _ (λ cmd, mkScan _ _ _ _ _ _ _)).
        apply idle_steady, idle_store.
      * eapply traced_bind; [apply traced_scan_token|].
        intros [st'|code] tr1 H1.
        -- eapply traced_weaken; [apply IH|]. intros r tr2. by apply step_traced_after.
        -- apply traced_ret. by rewrite app_nil_r.
Qed.

Lemma traced_finish st : traced (finish st) line_traced.
Proof.
  unfold finish.
  destruct (decide (redirect_mode st = REG_CMD)).
  - eapply traced_bind; [apply steady_exec_command|]. intros ? tr1 H1.
    apply traced_ret. left. by rewrite app_nil_r.
  - eapply traced_bind; [apply traced_load|]. intros [f|] tr1 [-> _].
    + eapply traced_bind; [|intros ? tr1 H1; apply traced_ret; left;
                             rewrite app_nil_r; split; [done|exact H1]].
      destruct (decide (redirect_mode st = INPUT)); [apply steady_redirect_io|].
      destruct (decide (redirect_mode st = OUTPUT ∨ redirect_mode st = OUTPUT_APPEND)).
      { destruct (input_file st); [apply steady_exec_redir_bothio|].
        destruct (output_before_pipe st);
          [apply steady_output_pipe_redirect|apply steady_redirect_io]. }
      destruct (decide (redirect_mode st = PIPE)); [apply steady_output_pipe|].
      apply steady_ret.
    + intros w. exists [EPrint "No file for I/O redirection.\n"]. split; [done|].
      right. split; [done|]. exists [], "No file for I/O redirection.\n".
      split; [done|]. split; [apply settled_nil|diag].
Qed.

Lemma traced_parse_tokens garbage toks :
  traced (parse_tokens garbage toks) line_traced.
Proof.
  unfold parse_tokens.
  eapply traced_bind; [apply traced_scan_loop|]. intros [st|code] tr1 H1.
  - eapply traced_weaken; [apply traced_finish|]. intros c tr2 [[-> H2]|[-> H2]].
    + left. split; [done|]. by apply settled_app.
    + right. split; [done|]. by apply (step_traced_after tr1 (inr EXEC_FAILURE) tr2).
  - apply traced_ret. right. rewrite app_nil_r. exact H1.
Qed.

(** X23: the return code tells exactly whether the parser printed a
    diagnostic.  Whenever parse_input_and_exec returns EXEC_SUCCESS, the
    shell process has printed nothing on standard output while handling the
    line; whenever it returns EXEC_FAILURE, the last thing it did was to
    print one of its seven messages, and it printed nothing before.  (What
    goes wrong inside a child, or with fork and open, goes to standard error
    and leaves the return code EXEC_SUCCESS.) *)
Theorem failure_means_diagnostic garbage toks w code w' :
  parse_tokens garbage toks w = Ret code w' →
  ∃ tr, w_trace w' = w_trace w ++ tr ∧
        ((code = EXEC_SUCCESS ∧ Forall (λ e, is_print e = false) tr) ∨
         (code = EXEC_FAILURE ∧
          ∃ pre msg, tr = pre ++ [EPrint msg] ∧
                     Forall (λ e, is_print e = false) pre ∧ msg ∈ diagnostics)).
Proof.
  intros Hrun. pose proof (traced_parse_tokens garbage toks w) as H.
  rewrite Hrun in H. destruct H as (tr & Htr & [[-> [Hp _]]|[-> (pre & msg & -> & [Hp _] & Hm)]]).
  - exists tr. split; [done|]. by left.
  - eexists. split; [done|]. right. split; [done|]. by exists pre, msg.
Qed.

(** X24: whenever parse_input_and_exec returns, the shell has called wait
    exactly as many times as fork has succeeded while it handled the line,
    whatever the line and whatever the system answered. *)
Theorem every_fork_is_waited_for garbage toks w code w' :
  parse_tokens garbage toks w = Ret code w' →
  ∃ tr, w_trace w' = w_trace w ++ tr ∧ count is_fork tr = count is_wait tr.
Proof.
  intros Hrun. pose proof (traced_parse_tokens garbage toks w) as H.
  rewrite Hrun in H. destruct H as (tr & Htr & [[-> [_ Hc]]|[-> (pre & msg & -> & [_ Hc] & Hm)]]).
  - by exists tr.
  - eexists. split; [done|]. rewrite !count_app. rewrite Hc. done.
Qed.

Lemma failure_means_diagnostic_witness :
  ∃ code w' tr,
    parse_tokens (0, 0) ["a"; "|"; "|"] world0 = Ret code w' ∧
    w_trace w' = w_trace world0 ++ tr ∧
    ((code = EXEC_SUCCESS ∧ Forall (λ e, is_print e = false) tr) ∨
     (code = EXEC_FAILURE ∧
      ∃ pre msg, tr = pre ++ [EPrint msg] ∧
                 Forall (λ e, is_print e = false) pre ∧ msg ∈ diagnostics)).
Proof.
  assert (H : ∃ code w', parse_tokens (0, 0) ["a"; "|"; "|"] world0 = Ret code w')
    by (eexists _, _; vm_compute; reflexivity).
  destruct H as (code & w' & H). exists code, w'.
  destruct (failure_means_diagnostic (0, 0) ["a"; "|"; "|"] world0 code w' H)
    as (tr & Htr & Hcases).
  exists tr. split; [exact H|]. split; [exact Htr|exact Hcases].
Defined.

Lemma every_fork_is_waited_for_witness :
  ∃ code w' tr,
    parse_tokens (0, 0) ["a"; "|"; "b"; "|"; "c"] world0 = Ret code w' ∧
    w_trace w' = w_trace world0 ++ tr ∧ count is_fork tr = count is_wait tr.
Proof.
  assert (H : ∃ code w', parse_tokens (0, 0) ["a"; "|"; "b"; "|"; "c"] world0 = Ret code w')
    by (eexists _, _; vm_compute; reflexivity).
  destruct H as (code & w' & H). exists code, w'.
  destruct (every_fork_is_waited_for (0, 0) ["a"; "|"; "b"; "|"; "c"] world0 code w' H)
    as (tr & Htr & Hc).
  exists tr. split; [exact H|]. split; [exact Htr|exact Hc].
Defined.

(** ** Which file each redirection operator opens *)






















